(* ===== verification/_CoqProject ===== *)
-Q . S2P
Prelude.v
CInt.v
CLib.v
Sys.v
Hoare.v
SimKernel.v
Socket.v
BgbLink.v
BgbLinkProofs.v
Libmobile.v
SocketImpl.v
SocketImplProofs.v
MobileUser.v
MobileUserProofs.v
Callbacks.v
Handler.v
Options.v
OptionsProofs.v
MobileMain.v
MobileMainProofs.v
Progress.v
