(* ===== verification/Prelude.v ===== *)
(** * Verification of libmobile-bgb

    libmobile-bgb connects a Mobile Adapter GB, emulated by the library
    libmobile, to the BGB Game Boy emulator.  It speaks BGB's link protocol
    over TCP on one side and gives libmobile its environment (sockets, a
    configuration file, timers driven by the emulator's clock, a window title)
    on the other.

    ** The program and its model

    - source/socket.c, source/socket.h: utilities over the sockets of the
      operating system.  [Socket] models the POSIX side.
    - source/bgblink.c, source/bgblink.h: the link protocol, packets of eight
      bytes, a handshake ([bgb_init]) and the handling of one packet
      ([bgb_loop]).  [BgbLink]; its module [LinkSpec] is the abstract machine.
    - source/socket_impl.c, source/socket_impl.h: the table of sockets for
      libmobile's connections.  [SocketImpl].
    - source/main.c, [struct mobile_user], the [impl_*] callbacks,
      [mobile_handle_loop] and the [bgb_loop_*] callbacks: [MobileUser].
    - source/main.c, the command line (the helpers of [main] and its option
      loop): [Options].
    - source/main.c, the rest of [main]: [MobileMain].

    They interact through calls and callbacks.  [main] runs [bgb_loop], which
    calls back [bgb_loop_transfer] and [bgb_loop_timestamp]; those and
    [mobile_handle_loop] call the library, which calls back the [impl_*]
    functions, which use the socket table.

    ** How C is modelled

    A C function is a computation [M U A] ([Sys]): it takes a [world] (the
    kernel's state, [errno], the trace of system calls and printed text, the
    object of the callbacks) and either returns or stops.  It stops with
    [StAbort] for a failed [assert], [StUB] for undefined behaviour (an array
    read or store out of range, an uninitialised value, a null pointer),
    [StExit] for [exit], and [StFuel] when a loop used up its fuel.  Machine integers are in
    [Z] with their width written out ([CInt]); the byte order of the host is a
    parameter.  Buffers, strings, [strtol], [strncpy] and [FILE] are in [CLib].

    What is not in this repository is a parameter.  The kernel is the class
    [Kernel]: a state and an answer to each system call.  [KernelLaws] states
    what POSIX documents and the theorems need (which calls change the table
    of descriptors and how, and that counts are within bounds).  [Libc] are the
    tables of the C library.  libmobile is the class [Libmobile] ([Libmobile]);
    a library function is a program over callbacks, [cbprog], so nothing is
    assumed about what it does, except where a theorem takes the class
    [LibmobileContract] ([Callbacks]): it calls back as its interface allows
    (it opens a closed connection, uses an open one, names a timer that
    exists), and [mobile_new], whose result [main] does not check, returns an
    adapter.  [SimKernel] and the toy library of [Libmobile] are instances that
    satisfy all of it and evaluate; every theorem with hypotheses is applied to
    them, and [Progress.complete_session] runs the whole program on them.

    ** The theorems

    [Hoare] has the weakest-precondition rules the proofs use, with [framed],
    [quiet] and [emits] and their hint databases.

    - [Socket]: [socket_connect] owns exactly the descriptor it returns; the
      blocking flag changes one bit; an address always fits its buffer; what
      [socket_isconnected] reports.
    - [BgbLinkProofs]: the memory image of a packet is the wire format exactly
      on little-endian hosts; [bgb_loop] is equal, effect for effect, to the
      abstract machine; [bgb_init] succeeds if and only if the emulator goes
      through the handshake's exchange; the serial line is a one-byte pipeline
      over any number of packets.
    - [SocketImplProofs]: ownership of descriptors ([table_ok], [no_leak]),
      preserved by every operation, and what each operation returns on every
      branch (for receiving, the inductive [recv_outcome] over the kernel's
      answers), with the one path that leaks a descriptor.
    - [MobileUserProofs]: the conversion of timeouts through doubles is exact;
      timers; the configuration reads back what was written; phone numbers and
      the title.
    - [Callbacks]: the contract between the library and its environment; the
      environment meets it, so no library program that respects it can make it
      abort or meet undefined behaviour; reset detection.
    - [Handler]: a turn of [mobile_handle_loop] is exactly one run of a single
      library program, [handle_prog].
    - [OptionsProofs]: hexadecimal and decimal parameters; the option loop is
      total and never reads a missing parameter; settings written as a command
      line are read back.
    - [MobileMainProofs]: the configuration file is padded; the clocks of the
      link and of the adapter agree throughout; a session that succeeds has
      closed the link and the library's sockets, and one that fails leaves the
      link's socket open; the whole program is safe for every command line,
      kernel, emulator and contract-keeping library.
    - [Progress]: SIGINT ends the main loop within the turn it is noticed in;
      what the loop polls, within the bounds of its array; and two shortcomings
      of the wait for the emulator's clock: it does not look at SIGINT, and any
      first packet starts the clock.

    ** Fuel

    Only the two loops of [main] that wait for the outside take fuel, one unit
    per iteration.  The safety theorems hold for every amount of it.
    [Progress.main_loop_interrupted] shows how much is enough for the main
    loop; [Progress.wait_clock_deaf] that no amount is for the wait when the
    emulator sends nothing.  [digits] has fuel for 20 digits, more than any
    number the program prints.  Every other loop recurses on its data.

    ** What is not modelled

    The Windows branches, the disabled VBA code of bgblink.c, [select] (used
    only without [poll]), the locale, conversion of non-ASCII text by [%hs],
    failures of [swprintf], [free], [fclose] and process exit, and the build
    files, release scripts and the Python test driver.  Signals other than
    SIGINT are left out: the program sends without [MSG_NOSIGNAL] and leaves
    SIGPIPE at its default, so a send to a peer that has closed its end can
    kill the process; in the model it is only a call that fails with an
    [errno].  libmobile's code is not in the repository. *)

(** * Prelude: notations, automation and generic lemmas *)

From stdpp Require Export base list gmap numbers strings option.
From Stdlib Require Export ZArith Lia.

#[global] Open Scope Z_scope.

(** ** Automation *)

(** [cbits] gathers the rewrite rules that turn C bit operations into
    arithmetic [lia] understands. *)
Create Rewrite HintDb cbits.

(** Reflect boolean comparisons of integers into propositions. *)
Ltac zbool :=
  repeat match goal with
  | H : (_ =? _) = true |- _ => apply Z.eqb_eq in H
  | H : (_ =? _) = false |- _ => apply Z.eqb_neq in H
  | H : (_ <? _) = true |- _ => apply Z.ltb_lt in H
  | H : (_ <? _) = false |- _ => apply Z.ltb_ge in H
  | H : (_ <=? _) = true |- _ => apply Z.leb_le in H
  | H : (_ <=? _) = false |- _ => apply Z.leb_gt in H
  | H : (_ && _)%bool = true |- _ => apply andb_true_iff in H as [? ?]
  | H : (_ || _)%bool = false |- _ => apply orb_false_iff in H as [? ?]
  | H : negb _ = true |- _ => apply negb_true_iff in H
  | H : negb _ = false |- _ => apply negb_false_iff in H
  end.

Lemma and_is_True_l (P Q : Prop) : P -> (P /\ Q) <-> Q.
Proof. tauto. Qed.

(** ** Integers *)

Lemma land_low_bits (x n : Z) : 0 <= n -> Z.land x (Z.ones n) = x mod 2 ^ n.
Proof. intros; by rewrite Z.land_ones. Qed.

(** [x & 0x7FFFFFFF] keeps the low 31 bits. *)
Lemma land_7fffffff (x : Z) : Z.land x 0x7FFFFFFF = x mod 2 ^ 31.
Proof. change 0x7FFFFFFF with (Z.ones 31); by apply land_low_bits. Qed.

(** [x & 0xFFFF] keeps the low 16 bits. *)
Lemma land_ffff (x : Z) : Z.land x 0xFFFF = x mod 2 ^ 16.
Proof. change 0xFFFF with (Z.ones 16); by apply land_low_bits. Qed.

#[export] Hint Rewrite land_7fffffff land_ffff : cbits.

Lemma eqb_bool_decide x y : (x =? y) = bool_decide (x = y).
Proof. apply eq_true_iff_eq. by rewrite Z.eqb_eq, bool_decide_eq_true. Qed.

(** Checking a predicate on all numbers below a bound by evaluation. *)
Lemma forall_below (n : nat) (P : Z -> bool) :
  forallb P (Z.of_nat <$> seq 0 n) = true -> forall b, 0 <= b < Z.of_nat n -> P b = true.
Proof.
  rewrite forallb_forall. intros Hall b Hb. apply Hall, list_elem_of_In, list_elem_of_fmap.
  exists (Z.to_nat b). split; [lia|]. apply elem_of_seq. lia.
Qed.

(** ** Lists *)

Lemma NoDup_cons_inv {A} (x : A) (l : list A) :
  base.NoDup (x :: l) -> (x ∉ l) /\ base.NoDup l.
Proof. by inversion 1. Qed.
