(* ===== verification/CInt.v ===== *)
(** * Machine integers, bytes and byte order

    The C code computes on [unsigned char], [uint16_t], [uint32_t] and [int].
    Every value is a [Z]; the wrap-around of an assignment or of an unsigned
    operation is written out with the conversions below.  Memory images
    (packed structs, network addresses) are lists of bytes, laid out in the
    byte order of the host, which is a parameter of the development. *)

From S2P Require Import Prelude.

(** ** Conversions to a width *)

Definition u8 (x : Z) : Z := x mod 2 ^ 8.
Definition u16 (x : Z) : Z := x mod 2 ^ 16.
Definition u32 (x : Z) : Z := x mod 2 ^ 32.

(** Two's-complement [int]. *)
Definition i32 (x : Z) : Z := (x + 2 ^ 31) mod 2 ^ 32 - 2 ^ 31.

(** [long] on the 64-bit targets. *)
Definition i64 (x : Z) : Z := (x + 2 ^ 63) mod 2 ^ 64 - 2 ^ 63.

Definition is_u8 (x : Z) : Prop := 0 <= x < 2 ^ 8.
Definition is_u16 (x : Z) : Prop := 0 <= x < 2 ^ 16.
Definition is_u32 (x : Z) : Prop := 0 <= x < 2 ^ 32.

Definition bytes_ok (l : list Z) : Prop := Forall is_u8 l.

#[global] Instance is_u8_dec x : Decision (is_u8 x).
Proof. unfold is_u8. apply _. Defined.
#[global] Instance is_u16_dec x : Decision (is_u16 x).
Proof. unfold is_u16. apply _. Defined.
#[global] Instance is_u32_dec x : Decision (is_u32 x).
Proof. unfold is_u32. apply _. Defined.
#[global] Instance bytes_ok_dec l : Decision (bytes_ok l).
Proof. unfold bytes_ok. apply _. Defined.

(** ** Byte order *)

Inductive endian := LittleEndian | BigEndian.

(** The byte order of the machine the program runs on. *)
Class Host := host_endian : endian.

(** The [n] bytes of [z], least significant first, and back. *)
Fixpoint le_split (n : nat) (z : Z) : list Z :=
  match n with
  | O => []
  | S n => u8 z :: le_split n (z / 2 ^ 8)
  end.

Fixpoint le_combine (l : list Z) : Z :=
  match l with
  | [] => 0
  | b :: l => b + 2 ^ 8 * le_combine l
  end.

(** An integer as the host stores it in memory. *)
Definition mem_of_uint `{Host} (n : nat) (z : Z) : list Z :=
  match host_endian with
  | LittleEndian => le_split n z
  | BigEndian => rev (le_split n z)
  end.

Definition uint_of_mem `{Host} (l : list Z) : Z :=
  match host_endian with
  | LittleEndian => le_combine l
  | BigEndian => le_combine (rev l)
  end.

(** [htons]/[ntohs]: the 16-bit value whose memory image is the network
    (big-endian) representation of the argument, and back. *)
Definition htons `{Host} (x : Z) : Z := uint_of_mem (rev (le_split 2 x)).
Definition ntohs `{Host} (x : Z) : Z := le_combine (rev (mem_of_uint 2 x)).

(** ** Lemmas *)

Lemma u8_range x : is_u8 (u8 x).
Proof. unfold is_u8, u8. apply Z.mod_pos_bound. lia. Qed.

Lemma u16_range x : is_u16 (u16 x).
Proof. unfold is_u16, u16. apply Z.mod_pos_bound. lia. Qed.

Lemma u32_range x : is_u32 (u32 x).
Proof. unfold is_u32, u32. apply Z.mod_pos_bound. lia. Qed.

Lemma u8_small x : is_u8 x -> u8 x = x.
Proof. apply Z.mod_small. Qed.

Lemma u16_small x : is_u16 x -> u16 x = x.
Proof. apply Z.mod_small. Qed.

Lemma i64_small x : 0 <= x < 2 ^ 63 -> i64 x = x.
Proof. intros. unfold i64. rewrite Z.mod_small; lia. Qed.

Lemma u32_small x : is_u32 x -> u32 x = x.
Proof. apply Z.mod_small. Qed.

(** The 31-bit difference of two clock values. *)
Lemma diff_mod last t : Z.land (u32 (last - t)) 0x7FFFFFFF = (last - t) mod 2 ^ 31.
Proof.
  autorewrite with cbits. unfold u32.
  change (2 ^ 32) with (2 ^ 31 * 2). rewrite Z.rem_mul_r by lia.
  rewrite Z.mul_comm, Z.mod_add by lia. by rewrite Z.mod_mod by lia.
Qed.

Lemma length_le_split n z : length (le_split n z) = n.
Proof. revert z; induction n; intros z; simpl; auto. Qed.

Lemma le_split_bytes n z : bytes_ok (le_split n z).
Proof. revert z; induction n; intros z; constructor; [apply u8_range | apply IHn]. Qed.

Lemma le_combine_split n z : le_combine (le_split n z) = z mod 2 ^ (8 * Z.of_nat n).
Proof.
  revert z; induction n as [|n IH]; intros z.
  - change (0 = z mod 1). by rewrite Z.mod_1_r.
  - cbn [le_split le_combine]. rewrite IH. unfold u8.
    replace (8 * Z.of_nat (S n)) with (8 + 8 * Z.of_nat n) by lia.
    rewrite Z.pow_add_r by lia.
    rewrite Z.rem_mul_r by lia. lia.
Qed.

Lemma le_combine_range l :
  bytes_ok l -> 0 <= le_combine l < 2 ^ (8 * Z.of_nat (length l)).
Proof.
  induction 1 as [|b l Hb Hl IH]; [simpl; lia|].
  unfold is_u8 in Hb. cbn [le_combine length].
  replace (8 * Z.of_nat (S (length l))) with (8 + 8 * Z.of_nat (length l)) by lia.
  rewrite Z.pow_add_r by lia. lia.
Qed.

Lemma le_split_combine l : bytes_ok l -> le_split (length l) (le_combine l) = l.
Proof.
  induction 1 as [|b l Hb Hl IH]; [done|].
  unfold is_u8 in Hb. cbn [le_combine length le_split]. f_equal.
  - unfold u8. rewrite (Z.mul_comm (2 ^ 8)), Z.mod_add by lia. by apply Z.mod_small.
  - rewrite (Z.mul_comm (2 ^ 8)), Z.div_add by lia. by rewrite (Z.div_small b).
Qed.

Lemma bytes_ok_rev l : bytes_ok l -> bytes_ok (rev l).
Proof. apply Forall_rev. Qed.

Section ByteOrder.
Context `{Host}.

Lemma length_mem_of_uint n z : length (mem_of_uint n z) = n.
Proof. unfold mem_of_uint. destruct host_endian; by rewrite ?length_rev, length_le_split. Qed.

Lemma mem_of_uint_bytes n z : bytes_ok (mem_of_uint n z).
Proof.
  unfold mem_of_uint. destruct host_endian; try apply bytes_ok_rev; apply le_split_bytes.
Qed.

Lemma uint_of_mem_of_uint n z : uint_of_mem (mem_of_uint n z) = z mod 2 ^ (8 * Z.of_nat n).
Proof.
  unfold uint_of_mem, mem_of_uint.
  destruct host_endian; rewrite ?rev_involutive; apply le_combine_split.
Qed.

Lemma mem_of_uint_of_mem l : bytes_ok l -> mem_of_uint (length l) (uint_of_mem l) = l.
Proof.
  intros Hl. unfold uint_of_mem, mem_of_uint. destruct host_endian.
  - by apply le_split_combine.
  - rewrite <- (length_rev l), le_split_combine by by apply bytes_ok_rev.
    apply rev_involutive.
Qed.

Lemma uint_of_mem_range l :
  bytes_ok l -> 0 <= uint_of_mem l < 2 ^ (8 * Z.of_nat (length l)).
Proof.
  intros Hl. unfold uint_of_mem. destruct host_endian; [by apply le_combine_range|].
  rewrite <- (length_rev l). by apply le_combine_range, bytes_ok_rev.
Qed.

(** Whatever the host, the memory image of [htons(p)] is [p] in network
    order: high byte, then low byte. *)
Lemma htons_mem p : mem_of_uint 2 (htons p) = [u8 (p / 2 ^ 8); u8 p].
Proof.
  unfold htons.
  rewrite <- (length_le_split 2 p), <- length_rev at 1.
  rewrite mem_of_uint_of_mem by apply bytes_ok_rev, le_split_bytes. done.
Qed.

(** Byte order conversion and back is the identity on 16-bit values; a wider
    argument is truncated to its low 16 bits on the way. *)
Lemma ntohs_htons p : ntohs (htons p) = u16 p.
Proof.
  unfold ntohs, htons.
  rewrite <- (length_le_split 2 p), <- length_rev at 1.
  rewrite mem_of_uint_of_mem by apply bytes_ok_rev, le_split_bytes.
  rewrite rev_involutive. apply (le_combine_split 2).
Qed.

Lemma htons_range p : is_u16 (htons p).
Proof.
  unfold htons, is_u16.
  pose proof (uint_of_mem_range (rev (le_split 2 p))) as Hr.
  rewrite length_rev, length_le_split in Hr.
  apply Hr, bytes_ok_rev, le_split_bytes.
Qed.
End ByteOrder.
