(* ===== verification/CLib.v ===== *)
(** * The parts of the C library the program calls

    [printf]-style number formatting, [strtol], [strncpy], and a [FILE] as
    the bytes of the file with a position.  A C string that the program only
    reads is a Rocq [string] without its terminator; a [char] array it writes
    is a list of bytes. *)

From Stdlib Require Import Ascii.
From S2P Require Import Prelude CInt.

(** ** Characters and strings *)

Definition byte_of (c : Ascii.ascii) : Z := Z.of_N (Ascii.N_of_ascii c).

(** [char] is signed on the targets the program is built for. *)
Definition char_of (c : Ascii.ascii) : Z :=
  let b := byte_of c in if b <? 128 then b else b - 256.

Fixpoint string_bytes (s : string) : list Z :=
  match s with
  | EmptyString => []
  | String c s => byte_of c :: string_bytes s
  end.

Definition newline : string := String (Ascii.ascii_of_N 10) EmptyString.

(** ** Number formatting: [%u], [%d] and [%0*X] *)

Definition digit_char (d : Z) : Ascii.ascii :=
  Ascii.ascii_of_N (Z.to_N (if d <? 10 then 48 + d else 55 + d)).

(** [fuel] bounds the number of digits; 20 decimal digits hold any 64-bit
    value, and the program formats 32-bit ones. *)
Fixpoint digits (fuel : nat) (base z : Z) (acc : string) : string :=
  match fuel with
  | O => acc
  | S fuel =>
    let acc := String (digit_char (z mod base)) acc in
    if z <? base then acc else digits fuel base (z / base) acc
  end.

Definition fmt_u (z : Z) : string := digits 20 10 z "".

Definition fmt_d (z : Z) : string :=
  if z <? 0 then (String.append "-" (fmt_u (- z))) else fmt_u z.

Fixpoint zeros (n : nat) : string :=
  match n with O => "" | S n => String "0"%char (zeros n) end.

Definition fmt_X (width : nat) (z : Z) : string :=
  let s := digits 20 16 z "" in
  String.append (zeros (width - String.length s)) s.

(** ** [strtol] *)

Definition isspace (c : Ascii.ascii) : bool :=
  let b := byte_of c in ((9 <=? b) && (b <=? 13)) || (b =? 32).

Fixpoint skip_space (s : string) : string :=
  match s with
  | String c s' => if isspace c then skip_space s' else s
  | EmptyString => s
  end.

(** The value of a character as a digit of bases up to 36. *)
Definition digit_value (c : Ascii.ascii) : option Z :=
  let b := byte_of c in
  if (48 <=? b) && (b <=? 57) then Some (b - 48)
  else if (65 <=? b) && (b <=? 90) then Some (b - 55)
  else if (97 <=? b) && (b <=? 122) then Some (b - 87)
  else None.

Definition digit_in (base : Z) (c : Ascii.ascii) : option Z :=
  match digit_value c with
  | Some d => if d <? base then Some d else None
  | None => None
  end.

(** Reads the longest run of digits; [None] when there is no digit. *)
Fixpoint read_digits (base : Z) (s : string) (acc : option Z) : option Z * string :=
  match s with
  | String c s' =>
    match digit_in base c with
    | Some d => read_digits base s' (Some (default 0 acc * base + d))
    | None => (acc, s)
    end
  | EmptyString => (acc, s)
  end.

Definition long_clamp (z : Z) : Z := Z.max (- 2 ^ 63) (Z.min (2 ^ 63 - 1) z).

Definition read_sign (s : string) : Z * string :=
  match s with
  | String "-"%char s' => (-1, s')
  | String "+"%char s' => (1, s')
  | _ => (1, s)
  end.

(** The base and digits that base 0 selects: [0x] before a hexadecimal digit,
    a leading [0] for octal, decimal otherwise. *)
Definition detect_base (base : Z) (s : string) : Z * string :=
  if base =? 0 then
    match s with
    | String "0"%char (String "x"%char (String c s')) | String "0"%char (String "X"%char (String c s')) =>
      match digit_in 16 c with
      | Some _ => (16, String c s')
      | None => (8, s)
      end
    | String "0"%char _ => (8, s)
    | _ => (10, s)
    end
  else (base, s).

(** [strtol(s, &end, base)] for base 0 or 10: the value and the text [end]
    points at.  With no digits the value is 0 and [end] is [s]. *)
Definition strtol (s : string) (base : Z) : Z * string :=
  let '(sign, s1) := read_sign (skip_space s) in
  let '(base, s2) := detect_base base s1 in
  match read_digits base s2 None with
  | (Some v, rest) => (long_clamp (sign * v), rest)
  | (None, _) => (0, s)
  end.

(** ** [strncpy] and reading back a [char] array *)

Definition strncpy (dest : list Z) (src : string) (n : nat) : list Z :=
  take n (string_bytes src ++ replicate n 0) ++ drop n dest.

(** The string a [char] array holds: the bytes before the first NUL, [None]
    when there is none (reading it would run off the array). *)
Fixpoint buf_string (buf : list Z) : option (list Z) :=
  match buf with
  | [] => None
  | b :: buf => if b =? 0 then Some [] else (b ::.) <$> buf_string buf
  end.

(** [arr[i] = x]; [None] when [i] is out of the array's range. *)
Definition array_set {A} (arr : list A) (i : nat) (x : A) : option (list A) :=
  if (i <? length arr)%nat then Some (<[i := x]> arr) else None.

(** ** [FILE] *)

(** [f_room] is the size the device lets the file grow to: a write past it is
    short, the way [fwrite] reports a full device. *)
Record FILE := MkFile { f_data : list Z; f_pos : Z; f_room : Z }.

Definition flen (f : FILE) : Z := Z.of_nat (length (f_data f)).

Inductive whence := SEEK_SET | SEEK_END.

(** A negative target is an error and leaves the position alone. *)
Definition fseek (f : FILE) (off : Z) (w : whence) : FILE :=
  let target := match w with SEEK_SET => off | SEEK_END => flen f + off end in
  if target <? 0 then f else MkFile (f_data f) target (f_room f).

Definition ftell (f : FILE) : Z := f_pos f.

Definition rewind (f : FILE) : FILE := fseek f 0 SEEK_SET.

(** [fread(dest, 1, size, f)]: the bytes read; fewer than [size] at the end
    of the file. *)
Definition fread (f : FILE) (size : Z) : list Z * FILE :=
  let bs := take (Z.to_nat size) (drop (Z.to_nat (f_pos f)) (f_data f)) in
  (bs, MkFile (f_data f) (f_pos f + Z.of_nat (length bs)) (f_room f)).

(** Overwriting [data] at [pos], zero-filling a gap beyond its end. *)
Definition overwrite (data : list Z) (pos : nat) (bs : list Z) : list Z :=
  take pos (data ++ replicate (pos - length data) 0) ++ bs
    ++ drop (pos + length bs) data.

(** [fwrite(src, 1, size, f)]: the count written. *)
Definition fwrite (f : FILE) (src : list Z) : Z * FILE :=
  let n := Z.to_nat (f_room f - f_pos f) in
  let bs := take n src in
  match bs with
  | [] => (0, f)
  | _ => (Z.of_nat (length bs),
          MkFile (overwrite (f_data f) (Z.to_nat (f_pos f)) bs)
                 (f_pos f + Z.of_nat (length bs)) (f_room f))
  end.

Definition fputc (c : Z) (f : FILE) : FILE := snd (fwrite f [u8 c]).

(** ** Lemmas: formatting *)

Lemma string_length_append (s t : string) :
  String.length (String.append s t) = (String.length s + String.length t)%nat.
Proof. induction s; simpl; auto. Qed.

Lemma string_append_nil (s : string) : String.append s "" = s.
Proof.
  induction s as [|a s IH]; [done|].
  change (String a (String.append s "") = String a s). by rewrite IH.
Qed.

Lemma string_append_assoc (a b c : string) :
  String.append a (String.append b c) = String.append (String.append a b) c.
Proof.
  induction a as [|x a IH]; [done|].
  change (String x (String.append a (String.append b c)) =
          String x (String.append (String.append a b) c)). by rewrite IH.
Qed.

Lemma length_string_bytes s : length (string_bytes s) = String.length s.
Proof. induction s; simpl; auto. Qed.

Lemma digits_length fuel base z acc (k : nat) :
  1 < base -> 0 <= z < base ^ Z.of_nat k -> (1 <= k)%nat ->
  (String.length (digits fuel base z acc) <= k + String.length acc)%nat.
Proof.
  intros Hb. revert z acc k.
  induction fuel as [|fuel IH]; intros z acc k Hz Hk; simpl; [lia|].
  destruct (z <? base) eqn:E; zbool; simpl; [lia|].
  destruct k as [|k]; [lia|].
  assert (1 <= k)%nat. { destruct k; [|lia]. rewrite Z.pow_1_r in Hz. lia. }
  etrans; [apply (IH _ _ k); [|done]|simpl; lia].
  replace (Z.of_nat (S k)) with (1 + Z.of_nat k) in Hz by lia.
  rewrite Z.pow_add_r, Z.pow_1_r in Hz by lia.
  split; [apply Z.div_pos; lia|]. apply Z.div_lt_upper_bound; lia.
Qed.

(** A 16-bit port prints in at most five characters. *)
Lemma fmt_u_u16_length z : is_u16 z -> (String.length (fmt_u z) <= 5)%nat.
Proof.
  unfold is_u16. intros. unfold fmt_u.
  etrans; [apply (digits_length 20 10 z "" 5); simpl; lia|simpl; lia].
Qed.

(** ** Lemmas: [strncpy] *)

Lemma length_strncpy dest src n :
  (n <= length dest)%nat -> length (strncpy dest src n) = length dest.
Proof.
  intros. unfold strncpy.
  rewrite length_app, length_take, length_app, length_replicate, length_drop. lia.
Qed.

Lemma buf_string_prefix (s rest : list Z) :
  Forall (.≠ 0) s -> buf_string (s ++ 0 :: rest) = Some s.
Proof.
  induction 1 as [|b s Hb Hs IH]; simpl; [done|].
  rewrite (proj2 (Z.eqb_neq b 0)) by done. by rewrite IH.
Qed.

(** ** Lemmas: files *)

Lemma length_overwrite data pos bs :
  length (overwrite data pos bs) = Nat.max (length data) (pos + length bs).
Proof.
  unfold overwrite.
  rewrite !length_app, length_take, length_app, length_replicate, length_drop. lia.
Qed.

(** What was written is read back at the same place. *)
Lemma overwrite_read data pos bs :
  take (length bs) (drop pos (overwrite data pos bs)) = bs.
Proof.
  unfold overwrite.
  rewrite drop_app_ge; rewrite length_take, length_app, length_replicate; [|lia].
  replace (pos - _)%nat with 0%nat by lia.
  rewrite drop_0. apply take_app_length.
Qed.

(** Positions outside the written range keep their bytes. *)
Lemma overwrite_frame data pos bs (i : nat) :
  (i < length data)%nat -> (i < pos \/ pos + length bs <= i)%nat ->
  overwrite data pos bs !! i = data !! i.
Proof.
  intros Hi Hout. unfold overwrite.
  destruct (decide (i < pos)%nat).
  - rewrite lookup_app_l by (rewrite length_take, length_app, length_replicate; lia).
    rewrite lookup_take_lt by done. by apply lookup_app_l.
  - rewrite lookup_app_r; rewrite length_take, length_app, length_replicate; [|lia].
    rewrite lookup_app_r by lia. rewrite lookup_drop. f_equal. lia.
Qed.

(** Writing at the end of the file appends. *)
Lemma overwrite_end data bs : overwrite data (length data) bs = data ++ bs.
Proof.
  unfold overwrite. rewrite Nat.sub_diag. simpl. rewrite app_nil_r, take_ge by done.
  rewrite drop_ge by lia. by rewrite app_nil_r.
Qed.

(** A write the device has room for is complete. *)
Lemma fwrite_fits f src :
  0 <= f_pos f -> f_pos f + Z.of_nat (length src) <= f_room f -> src <> [] ->
  fwrite f src = (Z.of_nat (length src),
    MkFile (overwrite (f_data f) (Z.to_nat (f_pos f)) src)
           (f_pos f + Z.of_nat (length src)) (f_room f)).
Proof.
  intros Hp Hr Hne. unfold fwrite. rewrite take_ge by lia. by destruct src.
Qed.
