(* ===== verification/Sys.v ===== *)
(** * The operating system interface and the effect monad

    Every call the program makes into the operating system is a [syscall];
    what the kernel answers is a parameter, the class [Kernel].  The documented
    behaviour the theorems rely on is the class [KernelLaws].  C functions are
    state-passing computations [M U A] over a [world]: the kernel, [errno], the
    trace of calls and of text printed, and the object of type [U] that the
    callbacks receive through their [void *user] argument.  A computation
    either returns or stops: a failed [assert], undefined behaviour, [exit],
    or a loop that used up its fuel. *)

From S2P Require Import Prelude CInt CLib.

(** ** Constants of the Linux ABI *)

Definition AF_UNSPEC := 0.
Definition AF_INET := 2.
Definition AF_INET6 := 10.
Definition SOCK_STREAM := 1.
Definition SOCK_DGRAM := 2.
Definition IPPROTO_TCP := 6.
Definition SOL_SOCKET := 1.
Definition SO_REUSEADDR := 2.
Definition SO_TYPE := 3.
Definition SO_ERROR := 4.
Definition TCP_NODELAY := 1.
Definition MSG_PEEK := 2.
Definition POLLIN := 1.
Definition POLLPRI := 2.
Definition POLLOUT := 4.
Definition F_GETFL := 3.
Definition F_SETFL := 4.
Definition O_NONBLOCK := 2048.
Definition EWOULDBLOCK := 11.
Definition EISCONN := 106.
Definition EALREADY := 114.
Definition EINPROGRESS := 115.
Definition INET6_ADDRSTRLEN := 46.
Definition INVALID_SOCKET := -1.
Definition SOCKET_ERROR := -1.

(** ** Data that crosses the interface *)

(** A socket address; the port is in network byte order, as in [sin_port]. *)
Inductive sockaddr :=
| SockIn (sin_port : Z) (sin_addr : list Z)
| SockIn6 (sin6_port : Z) (sin6_addr : list Z)
| SockOther (family : Z).

Definition sa_family (a : sockaddr) : Z :=
  match a with
  | SockIn _ _ => AF_INET
  | SockIn6 _ _ => AF_INET6
  | SockOther f => f
  end.

Definition sizeof_sockaddr_in := 16.
Definition sizeof_sockaddr_in6 := 28.

Record pollfd := PollFd { pfd_fd : Z; pfd_events : Z }.

Record addrinfo := AddrInfo {
  ai_family : Z; ai_socktype : Z; ai_protocol : Z;
  ai_addr : sockaddr; ai_addrlen : Z
}.

#[global] Instance sockaddr_eq_dec : EqDecision sockaddr.
Proof. solve_decision. Defined.

(** ** Calls and answers *)

Inductive syscall :=
| SysSocket (domain type protocol : Z)
| SysClose (fd : Z)
| SysConnect (fd : Z) (addr : option sockaddr) (addrlen : Z)
| SysBind (fd : Z) (addr : sockaddr) (addrlen : Z)
| SysListen (fd backlog : Z)
| SysAccept (fd : Z)
| SysSend (fd : Z) (data : list Z)
| SysSendto (fd : Z) (data : list Z) (addr : option sockaddr) (addrlen : Z)
| SysRecv (fd size : Z)
| SysRecvfrom (fd size flags : Z)
| SysPoll (fds : list pollfd) (timeout : Z)
| SysGetsockopt (fd level name : Z)
| SysSetsockopt (fd level name value : Z)
| SysFcntl (fd cmd arg : Z)
| SysGetaddrinfo (host port : string) (hints : Z * Z * Z)
| SysFopen (name mode : string)
| SysMalloc
| SysSigaction
| SysSigint.

(** [inl] is success, [inr e] is a failure that sets [errno] to [e] (the
    error code itself for [getaddrinfo]).  [SysSigint] asks whether SIGINT was
    delivered since it was asked last. *)
Definition sysres (c : syscall) : Type :=
  match c with
  | SysRecv _ _ => list Z + Z
  | SysRecvfrom _ _ _ => (list Z * option sockaddr) + Z
  | SysGetaddrinfo _ _ _ => list addrinfo + Z
  | SysFopen _ _ => FILE + Z
  | SysSigint => bool
  | _ => Z + Z
  end.

(** The kernel: its state, its answers, and the descriptors of its open sockets
    with their file status flags.  The descriptors of files are not in the
    table: the program uses files through [FILE] only. *)
Class Kernel := {
  kstate : Type;
  kcall : forall c : syscall, kstate -> sysres c * kstate;
  kfds : kstate -> gmap Z Z
}.

(** The calls that may change the table.  Of the commands of [fcntl] only
    [F_GETFL] is known to leave it alone. *)
Definition changes_fds (c : syscall) : bool :=
  match c with
  | SysSocket _ _ _ | SysClose _ | SysAccept _ => true
  | SysFcntl _ cmd _ => negb (cmd =? F_GETFL)
  | _ => false
  end.

(** Two flag words that differ in [O_NONBLOCK] at most: what [F_SETFL] stores is
    then the new word (it ignores the access mode and the creation flags). *)
Definition only_nonblock (fl old : Z) : Prop :=
  Z.land fl (Z.lnot O_NONBLOCK) = Z.land old (Z.lnot O_NONBLOCK).

(** Documented behaviour (POSIX) of the calls, as far as the theorems need it. *)
Class KernelLaws (K : Kernel) : Prop := {
  law_socket d t p k : forall r k', kcall (SysSocket d t p) k = (r, k') ->
    match r with
    | inl fd => 0 <= fd /\ kfds k !! fd = None /\ exists fl, kfds k' = <[fd := fl]> (kfds k)
    | inr _ => kfds k' = kfds k
    end;
  law_accept s k : forall r k', kcall (SysAccept s) k = (r, k') ->
    match r with
    | inl fd => 0 <= fd /\ kfds k !! fd = None /\ exists fl, kfds k' = <[fd := fl]> (kfds k)
    | inr _ => kfds k' = kfds k
    end;
  law_close fd k : kfds (snd (kcall (SysClose fd) k)) = delete fd (kfds k);
  law_setfl fd fl old k : kfds k !! fd = Some old -> only_nonblock fl old ->
    forall r k', kcall (SysFcntl fd F_SETFL fl) k = (r, k') ->
    match r with
    | inl v => v <> -1 /\ kfds k' = <[fd := fl]> (kfds k)
    | inr _ => kfds k' = kfds k
    end;
  law_getfl fd arg k : forall v k', kcall (SysFcntl fd F_GETFL arg) k = (inl v, k') ->
    kfds k !! fd = Some v;
  law_frame c k : changes_fds c = false -> kfds (snd (kcall c k)) = kfds k;
  law_send fd data k : forall n k', kcall (SysSend fd data) k = (inl n, k') ->
    0 <= n <= Z.of_nat (length data);
  law_recv fd size k : forall bs k', kcall (SysRecv fd size) k = (inl bs, k') ->
    bytes_ok bs /\ Z.of_nat (length bs) <= Z.max 0 size;
  law_recvfrom fd size flags k : forall bs from k',
    kcall (SysRecvfrom fd size flags) k = (inl (bs, from), k') ->
    bytes_ok bs /\ Z.of_nat (length bs) <= Z.max 0 size
}.

(** The C library functions whose text or tables the program only passes on. *)
Class Libc := {
  strerror_r : Z -> option string;
  gai_strerror : Z -> string;
  inet_ntop : Z -> list Z -> Z -> option string
}.

(** ** Computations *)

Inductive event `{Kernel} :=
| EvCall (c : syscall) (r : sysres c)
| EvErr (text : string)
| EvTitle (title : string).

Inductive stop :=
| StAbort
| StUB
| StExit (code : Z)
| StFuel.

Inductive result (A : Type) :=
| Ret (a : A)
| Stop (s : stop).
Arguments Ret {A} a.
Arguments Stop {A} s.

(** [w_trace] lists the events newest first. *)
Record world `{Kernel} (U : Type) := World {
  w_kern : kstate;
  w_errno : Z;
  w_trace : list event;
  w_user : U
}.
Arguments World {_ U}.
Arguments w_kern {_ U}.
Arguments w_errno {_ U}.
Arguments w_trace {_ U}.
Arguments w_user {_ U}.

Definition M `{Kernel} (U A : Type) : Type := world U -> result A * world U.

Section Monad.
Context `{K : Kernel} {U : Type}.

Definition ret {A} (a : A) : M U A := fun w => (Ret a, w).

Definition bind {A B} (m : M U A) (f : A -> M U B) : M U B := fun w =>
  match m w with
  | (Ret a, w') => f a w'
  | (Stop s, w') => (Stop s, w')
  end.

Definition halt {A} (s : stop) : M U A := fun w => (Stop s, w).

(** [assert(b)], compiled in. *)
Definition c_assert (b : bool) : M U unit := if b then ret tt else halt StAbort.

(** A store into an array; outside of it, the behaviour is undefined. *)
Definition store {A} (arr : list A) (i : nat) (x : A) : M U (list A) :=
  match array_set arr i x with
  | Some arr => ret arr
  | None => halt StUB
  end.

Definition get_user : M U U := fun w => (Ret (w_user w), w).

Definition put_user (u : U) : M U unit := fun w =>
  (Ret tt, World (w_kern w) (w_errno w) (w_trace w) u).

(** [socket_geterror()] and [socket_seterror(e)]: the value of [errno]. *)
Definition socket_geterror : M U Z := fun w => (Ret (w_errno w), w).

Definition socket_seterror (e : Z) : M U unit := fun w =>
  (Ret tt, World (w_kern w) e (w_trace w) (w_user w)).

Definition emit (e : event) : M U unit := fun w =>
  (Ret tt, World (w_kern w) (w_errno w) (e :: w_trace w) (w_user w)).

(** [fprintf(stderr, ...)] *)
Definition eprint (s : string) : M U unit := emit (EvErr s).

Definition call (c : syscall) : M U (sysres c) := fun w =>
  let '(r, k) := kcall c (w_kern w) in
  (Ret r, World k (w_errno w) (EvCall c r :: w_trace w) (w_user w)).
End Monad.

Declare Scope c_scope.
Delimit Scope c_scope with c.
Notation "'let*' x ':=' m 'in' k" := (bind m (fun x => k))
  (at level 10, x name, m at level 100, k at level 200) : c_scope.
Notation "'let*' ' x ':=' m 'in' k" := (bind m (fun x => k))
  (at level 10, x strict pattern, m at level 100, k at level 200) : c_scope.
Notation "m ;;; k" := (bind m (fun _ => k))
  (at level 100, k at level 200, right associativity) : c_scope.
#[global] Open Scope c_scope.

(** ** The C view of the calls: -1 and [errno] on failure *)

Section Calls.
Context `{K : Kernel} {U : Type}.

Definition c_int (r : Z + Z) : M U Z :=
  match r with
  | inl v => ret v
  | inr e => socket_seterror e ;;; ret (-1)
  end.

Definition c_bytes (r : list Z + Z) : M U (Z * list Z) :=
  match r with
  | inl bs => ret (Z.of_nat (length bs), bs)
  | inr e => socket_seterror e ;;; ret (-1, [])
  end.

Definition c_socket (d t p : Z) : M U Z := let* r := call (SysSocket d t p) in c_int r.
Definition socket_close (fd : Z) : M U unit := let* r := call (SysClose fd) in c_int r ;;; ret tt.
Definition c_connect (fd : Z) (a : option sockaddr) (l : Z) : M U Z :=
  let* r := call (SysConnect fd a l) in c_int r.
Definition c_bind (fd : Z) (a : sockaddr) (l : Z) : M U Z :=
  let* r := call (SysBind fd a l) in c_int r.
Definition c_listen (fd b : Z) : M U Z := let* r := call (SysListen fd b) in c_int r.
Definition c_accept (fd : Z) : M U Z := let* r := call (SysAccept fd) in c_int r.
Definition c_send (fd : Z) (data : list Z) : M U Z := let* r := call (SysSend fd data) in c_int r.
Definition c_sendto (fd : Z) (data : list Z) (a : option sockaddr) (l : Z) : M U Z :=
  let* r := call (SysSendto fd data a l) in c_int r.
Definition c_recv (fd size : Z) : M U (Z * list Z) :=
  let* r := call (SysRecv fd size) in c_bytes r.
Definition c_recvfrom (fd size flags : Z) : M U (Z * list Z * option sockaddr) :=
  let* r := call (SysRecvfrom fd size flags) in
  match r with
  | inl (bs, from) => ret (Z.of_nat (length bs), bs, from)
  | inr e => socket_seterror e ;;; ret (-1, [], None)
  end.
Definition c_poll (fds : list pollfd) (t : Z) : M U Z :=
  let* r := call (SysPoll fds t) in c_int r.
Definition c_setsockopt (fd level name v : Z) : M U Z :=
  let* r := call (SysSetsockopt fd level name v) in c_int r.
Definition c_fcntl (fd cmd arg : Z) : M U Z :=
  let* r := call (SysFcntl fd cmd arg) in c_int r.

(** [getsockopt] writes the value through a pointer; [old] is what the
    variable held, and keeps on failure. *)
Definition c_getsockopt (fd level name old : Z) : M U (Z * Z) :=
  let* r := call (SysGetsockopt fd level name) in
  match r with
  | inl v => ret (0, v)
  | inr e => socket_seterror e ;;; ret (-1, old)
  end.
End Calls.
