(* ===== verification/Hoare.v ===== *)
(** * Reasoning about computations

    [wp m Q E w]: run from [w], the computation [m] ends in a state where [Q]
    holds of the value it returns, or stops in a state where [E] holds.  The
    rules below follow the operations of the monad.  [framed m] says that [m]
    leaves the descriptor table and the user's object alone, however it ends;
    [quiet m] that it moreover always returns.  The [frame] hint database
    proves both for every computation built from calls that do not touch the
    table. *)

From S2P Require Import Prelude CInt CLib Sys.

Section Wp.
Context `{K : Kernel} {U : Type}.

Definition wp {A} (m : M U A) (Q : A -> world U -> Prop)
    (E : stop -> world U -> Prop) (w : world U) : Prop :=
  match m w with
  | (Ret a, w') => Q a w'
  | (Stop s, w') => E s w'
  end.

Definition fds (w : world U) : gmap Z Z := kfds (w_kern w).

(** The part of the world that [framed] computations preserve. *)
Definition same (w w' : world U) : Prop := fds w' = fds w /\ w_user w' = w_user w.

Definition framed {A} (m : M U A) : Prop := forall w,
  wp m (fun _ w' => same w w') (fun _ w' => same w w') w.

Definition quiet {A} (m : M U A) : Prop := forall w,
  wp m (fun _ w' => same w w') (fun _ _ => False) w.

#[global] Instance same_refl : Reflexive same.
Proof. by split. Qed.

#[global] Instance same_trans : Transitive same.
Proof. intros w1 w2 w3 [? ?] [? ?]. split; congruence. Qed.

Lemma wp_mono {A} (m : M U A) Q Q' E E' w :
  wp m Q E w -> (forall a w', Q a w' -> Q' a w') -> (forall s w', E s w' -> E' s w') ->
  wp m Q' E' w.
Proof. unfold wp. destruct (m w) as [[a|s] w']; auto. Qed.

(** The rule of consequence for the returned value only. *)
Lemma wp_post {A} (m : M U A) Q Q' E w :
  wp m Q E w -> (forall a w', Q a w' -> Q' a w') -> wp m Q' E w.
Proof. intros. by eapply wp_mono. Qed.

Lemma wp_both {A} (m : M U A) Q1 E1 Q2 E2 w :
  wp m Q1 E1 w -> wp m Q2 E2 w ->
  wp m (fun a w' => Q1 a w' /\ Q2 a w') (fun s w' => E1 s w' /\ E2 s w') w.
Proof. unfold wp. destruct (m w) as [[a|s] w']; auto. Qed.

Lemma wp_ret {A} (a : A) Q E w : Q a w -> wp (ret a) Q E w.
Proof. done. Qed.

Lemma wp_halt {A} s (Q : A -> _) E w : E s w -> wp (halt s) Q E w.
Proof. done. Qed.

Lemma wp_bind {A B} (m : M U A) (f : A -> M U B) Q E w :
  wp m (fun a w' => wp (f a) Q E w') E w -> wp (bind m f) Q E w.
Proof. unfold wp, bind. by destruct (m w) as [[a|s] w']. Qed.

Lemma wp_call c Q E w :
  (forall r k, kcall c (w_kern w) = (r, k) ->
     Q r (World k (w_errno w) (EvCall c r :: w_trace w) (w_user w))) ->
  wp (call c) Q E w.
Proof. intros H. unfold wp, call. destruct (kcall c (w_kern w)) as [r k] eqn:Hk. auto. Qed.

Lemma wp_assert b Q E w :
  (b = true -> Q tt w) -> (b = false -> E StAbort w) -> wp (c_assert b) Q E w.
Proof. destruct b; unfold wp; simpl; auto. Qed.

Lemma wp_get_user Q E w : Q (w_user w) w -> wp get_user Q E w.
Proof. done. Qed.

Lemma wp_put_user u Q E w :
  Q tt (World (w_kern w) (w_errno w) (w_trace w) u) -> wp (put_user u) Q E w.
Proof. done. Qed.

(** ** Running forward: the equations of a computation whose calls are known *)

Lemma bind_run {A B} (m : M U A) (f : A -> M U B) w a w' :
  m w = (Ret a, w') -> bind m f w = f a w'.
Proof. intros Hm. unfold bind. by rewrite Hm. Qed.

Lemma call_run c (w : world U) r k :
  kcall c (w_kern w) = (r, k) ->
  call c w = (Ret r, World k (w_errno w) (EvCall c r :: w_trace w) (w_user w)).
Proof. intros Hc. unfold call. by rewrite Hc. Qed.

(** A store inside the array. *)
Lemma store_run {A} (arr : list A) (i : nat) x (w : world U) :
  (i < length arr)%nat -> store arr i x w = (Ret (<[i := x]> arr), w).
Proof. intros Hi. unfold store, array_set. by rewrite (proj2 (Nat.ltb_lt _ _)). Qed.

(** A quiet computation: the continuation only learns that the table and the
    user's object are unchanged. *)
Lemma wp_quiet {A} (m : M U A) Q E w :
  quiet m -> (forall a w', same w w' -> Q a w') -> wp m Q E w.
Proof. intros Hm HQ. eapply wp_mono; [apply Hm|auto|by simpl]. Qed.

Lemma wp_framed {A} (m : M U A) Q E w :
  framed m -> (forall a w', same w w' -> Q a w') -> (forall s w', same w w' -> E s w') ->
  wp m Q E w.
Proof. intros Hm HQ HE. eapply wp_mono; [apply Hm|auto|auto]. Qed.

Lemma quiet_framed {A} (m : M U A) : quiet m -> framed m.
Proof. intros Hm w. eapply wp_mono; [apply Hm|auto|by simpl]. Qed.

(** ** [framed] and [quiet], compositionally *)

Lemma framed_halt {A} s : framed (@halt K U A s).
Proof. intros w. apply wp_halt. reflexivity. Qed.

Lemma framed_assert b : framed (@c_assert K U b).
Proof. destruct b; intros w; by split. Qed.

Lemma framed_bind {A B} (m : M U A) (f : A -> M U B) :
  framed m -> (forall a, framed (f a)) -> framed (bind m f).
Proof.
  intros Hm Hf w. apply wp_bind. eapply wp_mono; [apply Hm|simpl|by simpl].
  intros a w' Hw. eapply wp_mono; [apply Hf|simpl|simpl]; intros; by etrans.
Qed.

Lemma quiet_ret {A} (a : A) : quiet (ret a).
Proof. intros w. apply wp_ret. reflexivity. Qed.

Lemma quiet_bind {A B} (m : M U A) (f : A -> M U B) :
  quiet m -> (forall a, quiet (f a)) -> quiet (bind m f).
Proof.
  intros Hm Hf w. apply wp_bind. eapply wp_mono; [apply Hm|simpl|by simpl].
  intros a w' Hw. eapply wp_mono; [apply Hf|simpl|by simpl]; intros; by etrans.
Qed.

Lemma quiet_emit e : quiet (@emit K U e).
Proof. intros w. by split. Qed.

Lemma quiet_eprint s : quiet (@eprint K U s).
Proof. apply quiet_emit. Qed.

Lemma quiet_seterror e : quiet (@socket_seterror K U e).
Proof. intros w. by split. Qed.

Lemma quiet_geterror : quiet (@socket_geterror K U).
Proof. intros w. by split. Qed.

Lemma quiet_get_user : quiet (@get_user K U).
Proof. intros w. by split. Qed.

Lemma quiet_call `{!KernelLaws K} c : changes_fds c = false -> quiet (@call K U c).
Proof.
  intros Hc w. apply wp_call. intros r k Hk. split; [|done].
  unfold fds; simpl. pose proof (law_frame c (w_kern w) Hc) as Hl. by rewrite Hk in Hl.
Qed.
End Wp.

Create HintDb frame.
#[export] Hint Resolve framed_halt framed_assert quiet_ret quiet_emit quiet_eprint
  quiet_seterror quiet_geterror quiet_get_user : frame.
#[export] Hint Extern 2 (quiet (call _)) => (apply quiet_call; reflexivity) : frame.
#[export] Hint Resolve quiet_framed | 5 : frame.

(** Proves [framed m] or [quiet m] by walking through [m]: binds, conditionals
    and matches, unfolding nothing but what the hints know. *)
Ltac frame_tac :=
  repeat first
    [ progress intros
    | progress (cbn beta iota)
    | solve [eauto 4 with frame]
    | apply quiet_bind | apply framed_bind
    | match goal with |- framed (match ?x with _ => _ end) => destruct x end
    | match goal with |- quiet (match ?x with _ => _ end) => destruct x end ].

(** One step of a weakest-precondition proof over the monad's own operations;
    calls of quiet functions are consumed with what [same] says. *)
Ltac wp_step :=
  cbn beta iota;
  lazymatch goal with
  | |- wp (bind _ _) _ _ _ => apply wp_bind
  | |- wp (ret _) _ _ _ => apply wp_ret
  | |- wp (halt _) _ _ _ => apply wp_halt
  | |- wp get_user _ _ _ => apply wp_get_user
  | |- wp (put_user _) _ _ _ => apply wp_put_user
  | |- wp (c_assert _) _ _ _ => apply wp_assert; intros ?
  | |- wp (match ?x with _ => _ end) _ _ _ => destruct x eqn:?
  | |- wp _ _ _ _ => apply wp_quiet; [solve [frame_tac] | intros ? ? ?]
  end.

(** Chains the [same] facts of the context. *)
Ltac same_tac := unfold same in *; destruct_and?; split; congruence.

(** ** The wrapped calls *)

Section CallRules.
Context `{K : Kernel} `{!KernelLaws K} {U : Type}.

Lemma quiet_c_int r : quiet (@c_int K U r).
Proof. destruct r; unfold c_int; frame_tac. Qed.
Lemma quiet_c_bytes r : quiet (@c_bytes K U r).
Proof. destruct r; unfold c_bytes; frame_tac. Qed.
Hint Resolve quiet_c_int quiet_c_bytes : frame.

Lemma quiet_c_connect fd a l : quiet (@c_connect K U fd a l).
Proof. unfold c_connect. frame_tac. Qed.
Lemma quiet_c_bind fd a l : quiet (@c_bind K U fd a l).
Proof. unfold c_bind. frame_tac. Qed.
Lemma quiet_c_listen fd b : quiet (@c_listen K U fd b).
Proof. unfold c_listen. frame_tac. Qed.
Lemma quiet_c_send fd d : quiet (@c_send K U fd d).
Proof. unfold c_send. frame_tac. Qed.
Lemma quiet_c_sendto fd d a l : quiet (@c_sendto K U fd d a l).
Proof. unfold c_sendto. frame_tac. Qed.
Lemma quiet_c_recv fd n : quiet (@c_recv K U fd n).
Proof. unfold c_recv. frame_tac. Qed.
Lemma quiet_c_recvfrom fd n fl : quiet (@c_recvfrom K U fd n fl).
Proof. unfold c_recvfrom. frame_tac. Qed.
Lemma quiet_c_poll l t : quiet (@c_poll K U l t).
Proof. unfold c_poll. frame_tac. Qed.
Lemma quiet_c_setsockopt fd l n v : quiet (@c_setsockopt K U fd l n v).
Proof. unfold c_setsockopt. frame_tac. Qed.
Lemma quiet_c_getsockopt fd l n o : quiet (@c_getsockopt K U fd l n o).
Proof. unfold c_getsockopt. frame_tac. Qed.

(** [socket(2)] and [accept(2)]: a new descriptor, or no change. *)
Definition new_fd_post (w : world U) (fd : Z) (w' : world U) : Prop :=
  (fd = -1 /\ same w w') \/
  (0 <= fd /\ fds w !! fd = None /\ (exists fl, fds w' = <[fd := fl]> (fds w)) /\
   w_user w' = w_user w).

Lemma wp_c_socket d t p Q E (w : world U) :
  (forall fd w', new_fd_post w fd w' -> Q fd w') -> wp (c_socket d t p) Q E w.
Proof.
  intros HQ. apply wp_bind, wp_call. intros r k Hk.
  pose proof (law_socket d t p _ _ _ Hk) as Hl. destruct r as [fd|e]; apply HQ.
  - right. destruct Hl as (? & ? & ?). done.
  - by left.
Qed.

Lemma wp_c_accept s Q E (w : world U) :
  (forall fd w', new_fd_post w fd w' -> Q fd w') -> wp (c_accept s) Q E w.
Proof.
  intros HQ. apply wp_bind, wp_call. intros r k Hk.
  pose proof (law_accept s _ _ _ Hk) as Hl. destruct r as [fd|e]; apply HQ.
  - right. destruct Hl as (? & ? & ?). done.
  - by left.
Qed.

(** [close(2)] removes the descriptor from the table, whatever it returns. *)
Lemma wp_socket_close fd Q E (w : world U) :
  (forall w', fds w' = delete fd (fds w) -> w_user w' = w_user w -> Q tt w') ->
  wp (socket_close fd) Q E w.
Proof.
  intros HQ. apply wp_bind, wp_call. intros r k Hk. apply wp_bind.
  pose proof (law_close fd (w_kern w)) as Hl. rewrite Hk in Hl.
  destruct r; by apply HQ.
Qed.

Lemma wp_c_getfl fd arg Q E (w : world U) :
  (forall v w', v = -1 \/ fds w !! fd = Some v -> same w w' -> Q v w') ->
  wp (c_fcntl fd F_GETFL arg) Q E w.
Proof.
  intros HQ. apply wp_bind, wp_call. intros r k Hk.
  pose proof (law_frame (SysFcntl fd F_GETFL arg) (w_kern w) eq_refl) as Hf.
  rewrite Hk in Hf. destruct r as [v|e]; apply HQ; auto.
  - right. by eapply law_getfl.
  - by split.
  - by split.
Qed.

Lemma wp_c_setfl fd fl old Q E (w : world U) :
  fds w !! fd = Some old -> only_nonblock fl old ->
  (forall rc w', (rc = -1 /\ same w w') \/
     (rc <> -1 /\ fds w' = <[fd := fl]> (fds w) /\ w_user w' = w_user w) -> Q rc w') ->
  wp (c_fcntl fd F_SETFL fl) Q E w.
Proof.
  intros Hold Hfl HQ. apply wp_bind, wp_call. intros r k Hk.
  pose proof (law_setfl fd fl old _ Hold Hfl _ _ Hk) as Hl. destruct r as [v|e]; apply HQ.
  - right. by destruct Hl as [? ?].
  - by left.
Qed.
End CallRules.

#[export] Hint Resolve quiet_c_int quiet_c_bytes quiet_c_connect quiet_c_bind quiet_c_listen
  quiet_c_send quiet_c_sendto quiet_c_recv quiet_c_recvfrom quiet_c_poll
  quiet_c_setsockopt quiet_c_getsockopt : frame.

(** ** Traces

    [emits P m]: [m] always returns, leaves the user's object alone and adds
    to the trace only events that satisfy [P]. *)

Section Emits.
Context `{K : Kernel} {U : Type}.

Definition extends (P : event -> Prop) (w w' : world U) : Prop :=
  exists ev, w_trace w' = ev ++ w_trace w /\ Forall P ev /\ w_user w' = w_user w.

Definition emits (P : event -> Prop) {A} (m : M U A) : Prop := forall w,
  wp m (fun _ w' => extends P w w') (fun _ _ => False) w.

#[global] Instance extends_refl P : Reflexive (extends P).
Proof. intros w. by exists []. Qed.

#[global] Instance extends_trans P : Transitive (extends P).
Proof.
  intros w1 w2 w3 (e1 & H1 & F1 & U1) (e2 & H2 & F2 & U2). exists (e2 ++ e1).
  rewrite H2, H1, app_assoc. split_and!; [done|by apply Forall_app|congruence].
Qed.

Lemma extends_cons (P : event -> Prop) (w : world U) k e x :
  P x -> extends P w (World k e (x :: w_trace w) (w_user w)).
Proof. intros. exists [x]. split_and!; [done|by constructor|done]. Qed.

Lemma emits_ret P {A} (a : A) : emits P (ret a).
Proof. intros w. by exists []. Qed.

Lemma emits_bind P {A B} (m : M U A) (f : A -> M U B) :
  emits P m -> (forall a, emits P (f a)) -> emits P (bind m f).
Proof.
  intros Hm Hf w. apply wp_bind. eapply wp_mono; [apply Hm|simpl|by simpl].
  intros a w' Hw. eapply wp_mono; [apply Hf|simpl|by simpl]. intros ? w'' ?. by etrans.
Qed.

Lemma emits_emit (P : event -> Prop) e : P e -> emits P (@emit K U e).
Proof. intros He w. by apply extends_cons. Qed.

Lemma emits_call (P : event -> Prop) c : (forall r, P (EvCall c r)) -> emits P (@call K U c).
Proof. intros Hc w. apply wp_call. intros r k _. by apply extends_cons. Qed.

Lemma emits_seterror P e : emits P (@socket_seterror K U e).
Proof. intros w. by exists []. Qed.

Lemma emits_geterror P : emits P (@socket_geterror K U).
Proof. intros w. by exists []. Qed.

Lemma emits_at P {A} (m : M U A) w :
  emits P m -> wp m (fun _ w' => extends P w w') (fun _ _ => False) w.
Proof. intros Hm. apply Hm. Qed.

Lemma wp_emits P {A} (m : M U A) Q E w :
  emits P m -> (forall a w', extends P w w' -> Q a w') -> wp m Q E w.
Proof. intros Hm HQ. eapply wp_mono; [apply Hm|auto|by simpl]. Qed.
End Emits.

Create HintDb emits.
#[export] Hint Resolve emits_ret emits_emit emits_call emits_seterror emits_geterror : emits.

(** Proves [emits P m] by walking through [m]; leaves [P] of the events. *)
Ltac emits_tac :=
  repeat first
    [ progress intros
    | progress (cbn beta iota)
    | solve [eauto 3 with emits]
    | apply emits_bind | apply emits_call | apply emits_emit
    | match goal with |- emits _ (match ?x with _ => _ end) => destruct x end ].
