(* ===== verification/SimKernel.v ===== *)
(** * A concrete kernel

    A small simulated kernel that satisfies [KernelLaws], so that the theorems
    proved against the interface can be applied to runs that evaluate.  Its
    script says which calls fail and with what [errno], what arrives on the
    sockets and when SIGINT is delivered. *)

From S2P Require Import Prelude CInt CLib Sys.

Record sim := Sim {
  sim_fds : gmap Z Z;
  sim_plan : list Z;           (** one entry per failable call: 0, or an errno *)
  sim_rx : list (list Z);      (** what the next receives return *)
  sim_from : option sockaddr;  (** the sender [recvfrom] reports *)
  sim_sotype : Z;              (** the answer to [SO_TYPE] *)
  sim_addrs : list addrinfo;   (** what [getaddrinfo] resolves to *)
  sim_file : option (list Z);  (** the file [fopen] finds, if any *)
  sim_sigint : option nat      (** checks left before SIGINT is seen *)
}.

Definition sim_init : sim := Sim ∅ [] [] None SOCK_STREAM [] None None.

Definition set_fds (s : sim) (f : gmap Z Z) : sim :=
  Sim f (sim_plan s) (sim_rx s) (sim_from s) (sim_sotype s) (sim_addrs s)
    (sim_file s) (sim_sigint s).

Definition set_rx (s : sim) (rx : list (list Z)) : sim :=
  Sim (sim_fds s) (sim_plan s) rx (sim_from s) (sim_sotype s) (sim_addrs s)
    (sim_file s) (sim_sigint s).

Definition set_plan (s : sim) (p : list Z) : sim :=
  Sim (sim_fds s) p (sim_rx s) (sim_from s) (sim_sotype s) (sim_addrs s)
    (sim_file s) (sim_sigint s).

Definition set_sigint (s : sim) (n : option nat) : sim :=
  Sim (sim_fds s) (sim_plan s) (sim_rx s) (sim_from s) (sim_sotype s) (sim_addrs s)
    (sim_file s) n.

(** Pops the script: [0] lets the call succeed. *)
Definition pop_plan (s : sim) : Z * sim :=
  match sim_plan s with
  | [] => (0, s)
  | e :: p => (e, set_plan s p)
  end.

Definition fresh_fd (m : gmap Z Z) : Z := 1 + foldr Z.max 2 (map_to_list m).*1.

(** Runs [ok] unless the script makes the call fail. *)
Definition plan {A} (s : sim) (ok : sim -> (A + Z) * sim) : (A + Z) * sim :=
  let '(e, s) := pop_plan s in if e =? 0 then ok s else (inr e, s).

Definition new_fd (s : sim) : (Z + Z) * sim :=
  let fd := fresh_fd (sim_fds s) in (inl fd, set_fds s (<[fd := 2]> (sim_fds s))).

(** The bytes the next receive of at most [size] returns. *)
Definition pop_rx (peek : bool) (size : Z) (s : sim) : list Z * sim :=
  match sim_rx s with
  | [] => ([], s)
  | chunk :: rx =>
    let bs := u8 <$> take (Z.to_nat size) chunk in
    let rest := drop (Z.to_nat size) chunk in
    (bs, if peek then s
         else set_rx s (match rest with [] => rx | _ => rest :: rx end))
  end.

Definition sim_sigint_step (s : sim) : bool * sim :=
  match sim_sigint s with
  | None => (false, s)
  | Some O => (true, set_sigint s None)
  | Some (S n) => (false, set_sigint s (Some n))
  end.

Definition sim_fopen (mode : string) (s : sim) : (FILE + Z) * sim :=
  match sim_file s with
  | Some data => if String.eqb mode "w+b" then (inl (MkFile [] 0 4096), s)
                 else (inl (MkFile data 0 4096), s)
  | None => if String.eqb mode "w+b" then (inl (MkFile [] 0 4096), s) else (inr 2, s)
  end.

Definition sim_call (c : syscall) (s : sim) : sysres c * sim :=
  match c return sysres c * sim with
  | SysSocket _ _ _ => plan s new_fd
  | SysClose fd => plan (set_fds s (delete fd (sim_fds s))) (fun s => (inl 0, s))
  | SysConnect _ _ _ => plan s (fun s => (inl 0, s))
  | SysBind _ _ _ => plan s (fun s => (inl 0, s))
  | SysListen _ _ => plan s (fun s => (inl 0, s))
  | SysAccept _ => plan s new_fd
  | SysSend _ data => plan s (fun s => (inl (Z.of_nat (length data)), s))
  | SysSendto _ data _ _ => plan s (fun s => (inl (Z.of_nat (length data)), s))
  | SysRecv _ size => plan s (fun s => let '(bs, s) := pop_rx false size s in (inl bs, s))
  | SysRecvfrom _ size flags => plan s (fun s =>
      let '(bs, s) := pop_rx (flags =? MSG_PEEK) size s in (inl (bs, sim_from s), s))
  | SysPoll _ _ => plan s (fun s => (inl (match sim_rx s with [] => 0 | _ => 1 end), s))
  | SysGetsockopt _ _ name => plan s (fun s =>
      (inl (if name =? SO_TYPE then sim_sotype s else 0), s))
  | SysSetsockopt _ _ _ _ => plan s (fun s => (inl 0, s))
  | SysFcntl fd cmd arg => plan s (fun s =>
      match sim_fds s !! fd with
      | Some fl => if cmd =? F_SETFL then (inl 0, set_fds s (<[fd := arg]> (sim_fds s)))
                   else (inl fl, s)
      | None => (inr 9, s)
      end)
  | SysGetaddrinfo _ _ _ => plan s (fun s => (inl (sim_addrs s), s))
  | SysFopen _ mode => plan s (sim_fopen mode)
  | SysMalloc => plan s (fun s => (inl 1, s))
  | SysSigaction => plan s (fun s => (inl 0, s))
  | SysSigint => sim_sigint_step s
  end.

Definition sim_kernel : Kernel := {|
  kstate := sim; kcall := sim_call; kfds := sim_fds |}.

(** ** The laws hold *)

Lemma foldr_max_ge (l : list Z) b x : x ∈ l -> x <= foldr Z.max b l.
Proof. induction 1; simpl; lia. Qed.

Lemma foldr_max_base (l : list Z) b : b <= foldr Z.max b l.
Proof. induction l; simpl; lia. Qed.

Lemma fresh_fd_None m : m !! fresh_fd m = None.
Proof.
  destruct (m !! fresh_fd m) as [v|] eqn:Hm; [|done].
  assert (fresh_fd m ∈ (map_to_list m).*1) as Hin.
  { apply list_elem_of_fmap. exists (fresh_fd m, v). split; [done|].
    by apply elem_of_map_to_list. }
  apply (foldr_max_ge _ 2) in Hin. unfold fresh_fd in Hin. lia.
Qed.

Lemma fresh_fd_nonneg m : 0 <= fresh_fd m.
Proof. unfold fresh_fd. pose proof (foldr_max_base (map_to_list m).*1 2). lia. Qed.

Lemma pop_plan_fds s : sim_fds (snd (pop_plan s)) = sim_fds s.
Proof. unfold pop_plan. by destruct (sim_plan s). Qed.

Lemma pop_rx_fds peek n s : sim_fds (snd (pop_rx peek n s)) = sim_fds s.
Proof. unfold pop_rx. by destruct (sim_rx s), peek. Qed.

Lemma pop_rx_law peek n s :
  bytes_ok (fst (pop_rx peek n s)) /\ Z.of_nat (length (fst (pop_rx peek n s))) <= Z.max 0 n.
Proof.
  unfold pop_rx. destruct (sim_rx s) as [|chunk rx]; simpl.
  - split; [constructor|lia].
  - split; [apply Forall_fmap, Forall_true; intros; apply u8_range|].
    rewrite length_fmap, length_take. lia.
Qed.

(** What holds of a call made by [plan] from what holds of its success. *)
Lemma plan_inv {A} (s : sim) (ok : sim -> (A + Z) * sim) r s' :
  plan s ok = (r, s') ->
  (exists s1, sim_fds s1 = sim_fds s /\ ok s1 = (r, s')) \/
  (exists e, r = inr e /\ sim_fds s' = sim_fds s).
Proof.
  unfold plan. pose proof (pop_plan_fds s) as Hf.
  destruct (pop_plan s) as [e s1]. simpl in Hf.
  destruct (e =? 0); intros; simplify_eq; eauto.
Qed.

Lemma new_fd_law s r s' :
  plan s new_fd = (r, s') ->
  match r with
  | inl fd => 0 <= fd /\ sim_fds s !! fd = None /\ exists fl, sim_fds s' = <[fd := fl]> (sim_fds s)
  | inr _ => sim_fds s' = sim_fds s
  end.
Proof.
  intros [(s1 & <- & Hok)|(e & -> & He)]%plan_inv; [|done].
  unfold new_fd in Hok. simplify_eq/=.
  split_and!; [apply fresh_fd_nonneg|apply fresh_fd_None|by eexists].
Qed.

Lemma sim_frame_law c s : changes_fds c = false -> sim_fds (snd (sim_call c s)) = sim_fds s.
Proof.
  destruct (sim_call c s) as [r s'] eqn:Hc. simpl.
  destruct c; intros Hch; try discriminate Hch; simpl in Hc;
    try (apply plan_inv in Hc as [(s1 & <- & Hc)|(e & _ & He)]; [|done]);
    try (simplify_eq/=; done).
  - pose proof (pop_rx_fds false size s1). destruct (pop_rx false size s1).
    simplify_eq/=. done.
  - pose proof (pop_rx_fds (flags =? MSG_PEEK) size s1).
    destruct (pop_rx (flags =? MSG_PEEK) size s1). simplify_eq/=. done.
  - simpl in Hch. apply negb_false_iff, Z.eqb_eq in Hch. subst cmd.
    simpl in Hc. destruct (sim_fds s1 !! fd); by simplify_eq/=.
  - unfold sim_fopen in Hc. destruct (sim_file s1), (String.eqb mode "w+b"); by simplify_eq/=.
  - unfold sim_sigint_step in Hc. destruct (sim_sigint s) as [[|n]|]; by simplify_eq/=.
Qed.

Lemma sim_laws : KernelLaws sim_kernel.
Proof.
  split.
  - intros d t p k r k' Hc. by apply (new_fd_law k).
  - intros s k r k' Hc. by apply (new_fd_law k).
  - intros fd k. simpl.
    destruct (plan _ _) as [r s'] eqn:Hp.
    by apply plan_inv in Hp as [(s1 & Hs & Hc)|(e & _ & He)]; simplify_eq/=.
  - intros fd fl old k Hold Hfl r k' Hc. simpl in Hc.
    apply plan_inv in Hc as [(s1 & Hs & Hc)|(e & -> & He)]; [|done]. simpl in *.
    destruct (sim_fds s1 !! fd) eqn:Hfd; simplify_eq/=; by rewrite <- Hs.
  - intros fd arg k v k' Hc. simpl in Hc.
    apply plan_inv in Hc as [(s1 & Hs & Hc)|(e & ? & _)]; [|done]. simpl.
    rewrite <- Hs. by destruct (sim_fds s1 !! fd) eqn:Hfd; simplify_eq/=.
  - intros c k. apply sim_frame_law.
  - intros fd data k n k' Hc. simpl in Hc.
    apply plan_inv in Hc as [(s1 & _ & Hc)|(e & ? & _)]; simplify_eq/=. lia.
  - intros fd size k bs k' Hc. simpl in Hc.
    apply plan_inv in Hc as [(s1 & _ & Hc)|(e & ? & _)]; [|done].
    pose proof (pop_rx_law false size s1).
    destruct (pop_rx false size s1). simplify_eq/=. done.
  - intros fd size flags k bs from k' Hc. simpl in Hc.
    apply plan_inv in Hc as [(s1 & _ & Hc)|(e & ? & _)]; [|done].
    pose proof (pop_rx_law (flags =? MSG_PEEK) size s1).
    destruct (pop_rx (flags =? MSG_PEEK) size s1). simplify_eq/=. done.
Qed.

(** A C library whose tables are trivial. *)
Definition sim_libc : Libc := {|
  strerror_r := fun e => Some (String.append "error " (fmt_d e));
  gai_strerror := fun e => fmt_d e;
  inet_ntop := fun af bs len =>
    if af =? AF_INET then if len <? 16 then None else Some "127.0.0.1"%string
    else if len <? INET6_ADDRSTRLEN then None else Some "::1"%string
|}.

Definition sim_host : Host := LittleEndian.

Definition sim_world {U} (s : sim) (u : U) : @world sim_kernel U :=
  @World sim_kernel U s 0 [] u.

(** Importing this module makes the simulated kernel, C library and
    little-endian host the ones that statements mean. *)
Module SimInstances.
#[export] Existing Instance sim_kernel.
#[export] Existing Instance sim_laws.
#[export] Existing Instance sim_libc.
#[export] Existing Instance sim_host.
End SimInstances.
