(* ===== verification/Socket.v ===== *)
(** * socket.c: the socket utilities

    The POSIX side of source/socket.c, on top of the calls of [Sys]. *)

From S2P Require Import Prelude CInt CLib Sys Hoare SimKernel.

Definition SOCKET_STRADDR_MAXLEN : Z := INET6_ADDRSTRLEN + 7.

Section Socket.
Context `{K : Kernel} `{Libc} `{Host} {U : Type}.

(** Print last socket-related error *)
Definition socket_perror (func : option string) : M U unit :=
  (match func with
   | Some f => eprint (String.append f ": ")
   | None => ret tt
   end) ;;;
  let* errno := socket_geterror in
  match strerror_r errno with
  | None => eprint newline
  | Some error => eprint (String.append error newline)
  end.

(** The C library's own [perror]. *)
Definition perror (func : string) : M U unit :=
  let* errno := socket_geterror in
  eprint (String.append func (String.append ": "
    (String.append (default "" (strerror_r errno)) newline))).

(** [snprintf(res + pos, res_len - pos, ":%u", inport)] after [res] holds
    [s]: the string [res] holds then. *)
Definition append_port (s : string) (res_len : Z) (inport : Z) : string :=
  let room := (Z.to_nat res_len - String.length s)%nat in
  String.append s (String.substring 0 (room - 1) (String.append ":" (fmt_u inport))).

(** Convert a sockaddr to a printable string: the return code and the contents
    of [res], where it was written. *)
Definition socket_straddr (res_len : Z) (addr : option sockaddr) : M U (Z * option string) :=
  match addr with
  | None => halt StUB
  | Some addr =>
    match
      match addr with
      | SockIn port host => Some (host, Z.land (ntohs port) 0xFFFF)
      | SockIn6 port host => Some (host, Z.land (ntohs port) 0xFFFF)
      | SockOther _ => None
      end
    with
    | None => ret (-1, None)
    | Some (inaddr, inport) =>
      match inet_ntop (sa_family addr) inaddr res_len with
      | None => ret (-1, None)
      | Some res => ret (0, Some (append_port res res_len inport))
      end
    end
  end.

(** Check if a socket has data in the receive buffer (or an error) *)
Definition socket_hasdata (socket : Z) : M U Z :=
  let* rc := c_poll [PollFd socket (Z.lor POLLIN POLLPRI)] 0 in
  (if rc =? -1 then socket_perror (Some "poll") else ret tt) ;;;
  ret rc.

(** Check if a connect() call has completed *)
Definition socket_isconnected (socket : Z) : M U Z :=
  let* rc := c_poll [PollFd socket POLLOUT] 0 in
  (if rc =? -1 then socket_perror (Some "poll") else ret tt) ;;;
  if rc <=? 0 then ret rc else
  let* r := call (SysGetsockopt socket SOL_SOCKET SO_ERROR) in
  match r with
  | inr e => socket_seterror e ;;; halt StUB   (* err is read uninitialized *)
  | inl err =>
    socket_seterror err ;;;
    if negb (err =? 0) then ret (-1) else ret 1
  end.

(** Wait on one or more sockets to become readable *)
Definition socket_wait (sockets : list Z) (delay : Z) : M U Z :=
  let* rc := c_poll ((fun s => PollFd s POLLIN) <$> sockets) delay in
  (if rc =? -1 then socket_perror (Some "poll") else ret tt) ;;;
  ret rc.

Definition blocking_flags (flags : Z) (flag : bool) : Z :=
  let flags := Z.land flags (Z.lnot O_NONBLOCK) in
  if flag then flags else Z.lor flags O_NONBLOCK.

(** Set whether connect() and recv() calls on a socket block *)
Definition socket_setblocking (socket : Z) (flag : bool) : M U Z :=
  let* flags := c_fcntl socket F_GETFL 0 in
  if flags =? -1 then perror "fcntl" ;;; ret (-1) else
  let* rc := c_fcntl socket F_SETFL (blocking_flags flags flag) in
  if rc =? -1 then perror "fcntl" ;;; ret (-1) else
  ret 0.

(** The [for] loop of [socket_connect]: the socket that connected, if any,
    and the last connection error. *)
Fixpoint connect_loop (infos : list addrinfo) (error : Z) : M U (option Z * Z) :=
  match infos with
  | [] => ret (None, error)
  | info :: next =>
    socket_seterror 0 ;;;
    let* sock := c_socket (ai_family info) (ai_socktype info) (ai_protocol info) in
    if sock =? INVALID_SOCKET then
      socket_perror (Some "socket") ;;; connect_loop next error
    else
      let* rc := c_connect sock (Some (ai_addr info)) (ai_addrlen info) in
      if rc =? 0 then ret (Some sock, error) else
      let* error := socket_geterror in
      socket_close sock ;;;
      connect_loop next error
  end.

(** Connect a socket to a user-provided hostname and port *)
Definition socket_connect (host port : string) : M U Z :=
  let* r := call (SysGetaddrinfo host port (AF_UNSPEC, SOCK_STREAM, IPPROTO_TCP)) in
  match r with
  | inr gai_errno =>
    eprint (String.append "getaddrinfo: " (String.append (gai_strerror gai_errno) newline)) ;;;
    ret INVALID_SOCKET
  | inl result =>
    let* r := connect_loop result 0 in
    let '(sock, error) := r in
    socket_seterror error ;;;
    match sock with
    | None => ret INVALID_SOCKET
    | Some sock => ret sock
    end
  end.
End Socket.

(** ** Lemmas *)

Section Frames.
Context `{K : Kernel} `{!KernelLaws K} `{Libc} `{Host} {U : Type}.

Lemma quiet_socket_perror f : quiet (U := U) (socket_perror f).
Proof. unfold socket_perror. frame_tac. Qed.

Lemma quiet_perror f : quiet (U := U) (perror f).
Proof. unfold perror. frame_tac. Qed.
Hint Resolve quiet_socket_perror quiet_perror : frame.

Lemma framed_socket_straddr n a : framed (U := U) (socket_straddr n a).
Proof. unfold socket_straddr. frame_tac. Qed.

(** A null address is the only one [socket_straddr] cannot handle. *)
Lemma quiet_socket_straddr n a : quiet (U := U) (socket_straddr n (Some a)).
Proof. unfold socket_straddr. frame_tac. Qed.

Lemma quiet_socket_hasdata s : quiet (U := U) (socket_hasdata s).
Proof. unfold socket_hasdata. frame_tac. Qed.

Lemma framed_socket_isconnected s : framed (U := U) (socket_isconnected s).
Proof. unfold socket_isconnected. frame_tac. Qed.

Lemma quiet_socket_wait l d : quiet (U := U) (socket_wait l d).
Proof. unfold socket_wait. frame_tac. Qed.
End Frames.
#[export] Hint Resolve quiet_socket_perror quiet_perror framed_socket_straddr
  quiet_socket_straddr quiet_socket_hasdata framed_socket_isconnected quiet_socket_wait : frame.

Section Runs.
Context `{K : Kernel} `{Libc} `{Host} {U : Type}.

Lemma socket_hasdata_run s n k (w : world U) :
  kcall (SysPoll [PollFd s (Z.lor POLLIN POLLPRI)] 0) (w_kern w) = (inl n, k) -> n <> -1 ->
  exists tr, socket_hasdata s w = (Ret n, World k (w_errno w) tr (w_user w)).
Proof.
  intros Hp Hn. eexists. unfold socket_hasdata, c_poll.
  erewrite bind_run; [|by erewrite bind_run; [|by apply call_run]].
  by rewrite (proj2 (Z.eqb_neq n (-1))).
Qed.

(** A descriptor whose flags cannot be read is left as it is. *)
Lemma socket_setblocking_run_fail s flag e k (w : world U) :
  kcall (SysFcntl s F_GETFL 0) (w_kern w) = (inr e, k) ->
  exists tr, socket_setblocking s flag w = (Ret (-1), World k e tr (w_user w)).
Proof.
  intros Hc. eexists. unfold socket_setblocking, c_fcntl.
  erewrite bind_run; [|by erewrite bind_run; [|by apply call_run]]. done.
Qed.
End Runs.

Section Texts.
Context `{K : Kernel} `{Libc} `{Host} {U : Type} (P : event -> Prop).
Context (Herr : forall t, P (EvErr t)).

Lemma emits_eprint t : emits (U := U) P (eprint t).
Proof. unfold eprint. emits_tac. Qed.

Lemma emits_socket_perror f : emits (U := U) P (socket_perror f).
Proof. unfold socket_perror, eprint. emits_tac. Qed.

Lemma emits_perror f : emits (U := U) P (perror f).
Proof. unfold perror, eprint. emits_tac. Qed.

Lemma emits_socket_hasdata s :
  (forall fds t r, P (EvCall (SysPoll fds t) r)) -> emits (U := U) P (socket_hasdata s).
Proof.
  intros Hp. pose proof emits_socket_perror. unfold socket_hasdata, c_poll, c_int. emits_tac.
Qed.
End Texts.

(** The bits of the flags word that [socket_setblocking] writes. *)
Lemma blocking_flags_bits flags flag i : 0 <= i ->
  Z.testbit (blocking_flags flags flag) i =
    if i =? 11 then negb flag else Z.testbit flags i.
Proof.
  intros Hi. unfold blocking_flags.
  assert (Z.testbit O_NONBLOCK i = (i =? 11)) as Hb.
  { change O_NONBLOCK with (2 ^ 11). rewrite Z.pow2_bits_eqb by lia. apply Z.eqb_sym. }
  destruct flag; rewrite ?Z.lor_spec, Z.land_spec, Z.lnot_spec, ?Hb by done;
    destruct (i =? 11); simpl; by rewrite ?andb_false_r, ?andb_true_r, ?orb_false_r.
Qed.

Lemma blocking_flags_only fl flag : only_nonblock (blocking_flags fl flag) fl.
Proof.
  apply Z.bits_inj'. intros i Hi. rewrite !Z.land_spec, blocking_flags_bits, Z.lnot_spec by done.
  change O_NONBLOCK with (2 ^ 11). rewrite Z.pow2_bits_eqb, (Z.eqb_sym 11 i) by lia.
  destruct (i =? 11); [by rewrite !andb_false_r|done].
Qed.

Definition nonblocking (fl : Z) : Prop := Z.testbit fl 11 = true.

Section Specs.
Context `{K : Kernel} `{!KernelLaws K} `{Libc} `{Host} {U : Type}.

(** [socket_setblocking] as a transition of the descriptor table. *)
Lemma wp_socket_setblocking sock flag Q E (w : world U) :
  (forall w' fl, fds w !! sock = Some fl ->
     fds w' = <[sock := blocking_flags fl flag]> (fds w) -> w_user w' = w_user w -> Q 0 w') ->
  (forall w', same w w' -> Q (-1) w') ->
  wp (socket_setblocking sock flag) Q E w.
Proof.
  intros Hok Herr. apply wp_bind, wp_c_getfl. intros v w1 Hv Hw1.
  destruct (Z.eqb_spec v (-1)) as [->|Hne].
  { repeat wp_step. apply Herr. same_tac. }
  destruct Hv as [|Hv]; [done|].
  apply wp_bind, (wp_c_setfl _ _ v); [by destruct Hw1 as [-> _]|apply blocking_flags_only|].
  intros rc w2 [[-> Hw2]|(Hrc & Hf & Hu)]; cbn beta iota.
  - simpl. repeat wp_step. apply Herr. same_tac.
  - rewrite (proj2 (Z.eqb_neq rc (-1))) by done. apply wp_ret.
    destruct Hw1 as [Hf1 Hu1]. apply (Hok _ v); congruence.
Qed.

(** The last thing that happened is a successful [connect] on [fd]. *)
Definition connected (fd : Z) (w : world U) : Prop :=
  exists a l tr, w_trace w = EvCall (SysConnect fd a l) (inl 0) :: tr.

Definition connect_post (w : world U) (r : option Z) (w' : world U) : Prop :=
  match r with
  | Some fd => new_fd_post w fd w' /\ fd <> -1 /\ connected fd w'
  | None => same w w'
  end.

Lemma connect_post_same w w1 r w' :
  same w w1 -> connect_post w1 r w' -> connect_post w r w'.
Proof.
  intros [Hf Hu]. unfold connect_post, new_fd_post, same. by rewrite Hf, Hu.
Qed.

Lemma wp_c_connect fd a l Q E (w : world U) :
  (forall rc w', same w w' -> (rc = 0 -> connected fd w') -> Q rc w') ->
  wp (c_connect fd a l) Q E w.
Proof.
  intros HQ. apply wp_bind, wp_call. intros r k Hk.
  pose proof (law_frame (SysConnect fd a l) (w_kern w) eq_refl) as Hf. rewrite Hk in Hf.
  destruct r as [v|e]; apply HQ; try (by split); try done.
  intros ->. by exists a, l, (w_trace w).
Qed.

Lemma wp_connect_loop infos error Q E (w : world U) :
  (forall r e w', connect_post w r w' -> Q (r, e) w') -> wp (connect_loop infos error) Q E w.
Proof.
  revert error Q w. induction infos as [|info next IH]; intros error Q w HQ; simpl.
  { apply wp_ret, HQ. by split. }
  apply wp_bind, wp_quiet; [frame_tac|]. intros _ w1 Hw1.
  apply wp_bind, wp_c_socket. intros sock w2 [[-> Hw2]|(Hge & Hfree & [fl Hfl] & Hu)].
  - simpl. apply wp_bind, wp_quiet; [frame_tac|]. intros _ w3 Hw3. apply IH.
    intros r e w' Hp. apply HQ. eapply connect_post_same; [|done]. same_tac.
  - unfold INVALID_SOCKET. rewrite (proj2 (Z.eqb_neq sock (-1))) by lia.
    apply wp_bind, wp_c_connect. intros rc w3 [Hf3 Hu3] Hc.
    destruct Hw1 as [Hf1 Hu1].
    destruct (Z.eqb_spec rc 0) as [Hrc|_].
    + apply wp_ret, HQ. split_and!; [right|lia|by apply Hc].
      split_and!; try congruence. exists fl. congruence.
    + apply wp_bind, wp_quiet; [frame_tac|]. intros e w4 [Hf4 Hu4].
      apply wp_bind, wp_socket_close. intros w5 Hf5 Hu5. apply IH.
      assert (same w w5) as Hs.
      { split; [|congruence]. rewrite Hf5, Hf4, Hf3, Hfl, delete_insert_id; congruence. }
      intros r e' w' Hp. apply HQ. by eapply connect_post_same.
Qed.

Lemma wp_socket_connect host port E (w : world U) :
  wp (socket_connect host port)
     (fun fd w' => new_fd_post w fd w' /\ (fd <> -1 -> connected fd w'))
     E w.
Proof.
  apply wp_bind, wp_call. intros r k Hk.
  pose proof (law_frame (SysGetaddrinfo host port (AF_UNSPEC, SOCK_STREAM, IPPROTO_TCP))
    (w_kern w) eq_refl) as Hf. rewrite Hk in Hf.
  destruct r as [infos|e].
  - apply wp_bind, wp_connect_loop. intros r err w1 Hp.
    eapply connect_post_same in Hp; [|by split].
    destruct r as [fd|]; (split; [|done || by destruct Hp as (? & ? & ?)]).
    + by destruct Hp as (? & ? & ?).
    + by left.
  - repeat wp_step. split; [|done]. left. split; [done|].
    transitivity (World k (w_errno w) (EvCall (SysGetaddrinfo host port
      (AF_UNSPEC, SOCK_STREAM, IPPROTO_TCP)) (inr e) :: w_trace w) (w_user w)); [by split|].
    match goal with H : same _ _ |- _ => exact H end.
Qed.

(** C22: [socket_connect] always returns, and owns exactly what it returns: on
    failure it returns -1 with the descriptor table as it found it (every
    socket it tried is closed again); on success it adds exactly one
    descriptor, which was free before, and the last call made is the
    [connect] that succeeded on it. *)
Theorem socket_connect_owns host port (w : world U) :
  wp (socket_connect host port)
     (fun fd w' => new_fd_post w fd w' /\ (fd <> -1 -> connected fd w'))
     (fun _ _ => False) w.
Proof. apply wp_socket_connect. Qed.

(** C29: [socket_setblocking] on success changes exactly the [O_NONBLOCK] bit of
    the descriptor's status flags, to the negation of [flag], and no other
    descriptor; on failure it returns -1 and changes nothing. *)
Theorem socket_setblocking_flags sock flag (w : world U) :
  wp (socket_setblocking sock flag)
     (fun rc w' =>
        (rc = -1 /\ same w w') \/
        (rc = 0 /\ w_user w' = w_user w /\ exists fl fl',
           fds w !! sock = Some fl /\ fds w' = <[sock := fl']> (fds w) /\
           forall i, 0 <= i ->
             Z.testbit fl' i = if i =? 11 then negb flag else Z.testbit fl i))
     (fun _ _ => False) w.
Proof.
  apply wp_socket_setblocking; [|by left].
  intros w' fl Hfl Hf Hu. right. split_and!; [done..|].
  exists fl, (blocking_flags fl flag). split_and!; [done..|].
  intros. by apply blocking_flags_bits.
Qed.
End Specs.


Lemma substring_all (s : string) (n : nat) :
  (String.length s <= n)%nat -> String.substring 0 n s = s.
Proof.
  revert n. induction s as [|c s IH]; intros [|n] Hn; simpl in *; try done; try lia.
  rewrite IH; [done|lia].
Qed.

(** C30: with the buffer [socket_impl_connect] declares
    ([SOCKET_STRADDR_MAXLEN] bytes) and [inet_ntop] never producing more than
    an IPv6 textual address, the printed address is complete (the port is not
    truncated, and is the 16-bit port in host order) and fits the buffer with
    its terminator. *)
Theorem socket_straddr_fits `{Kernel} `{Libc} `{Host} {U} (a : sockaddr) (w : world U) s
    (Hntop : forall af bs len s, inet_ntop af bs len = Some s ->
       Z.of_nat (String.length s) < INET6_ADDRSTRLEN) :
  forall port host, a = SockIn port host \/ a = SockIn6 port host ->
  inet_ntop (sa_family a) host SOCKET_STRADDR_MAXLEN = Some s ->
  exists text,
    socket_straddr SOCKET_STRADDR_MAXLEN (Some a) w = (Ret (0, Some text), w) /\
    text = String.append s (String.append ":" (fmt_u (u16 (ntohs port)))) /\
    Z.of_nat (String.length text) < SOCKET_STRADDR_MAXLEN.
Proof.
  intros port host Ha Hs. pose proof (Hntop _ _ _ _ Hs) as Hlen.
  unfold INET6_ADDRSTRLEN in Hlen.
  set (p := u16 (ntohs port)).
  assert (String.length (String.append ":" (fmt_u p)) <= 6)%nat as Hp.
  { rewrite string_length_append. pose proof (fmt_u_u16_length p (u16_range _)). simpl; lia. }
  assert (append_port s SOCKET_STRADDR_MAXLEN p =
          String.append s (String.append ":" (fmt_u p))) as Happ.
  { unfold append_port. rewrite substring_all; [done|].
    change (Z.to_nat SOCKET_STRADDR_MAXLEN) with 53%nat. lia. }
  exists (String.append s (String.append ":" (fmt_u p))).
  split_and!; [|done|].
  - rewrite <- Happ. subst p. unfold u16. rewrite <- land_ffff.
    destruct Ha as [-> | ->]; unfold socket_straddr; simpl in *; by rewrite Hs.
  - rewrite string_length_append. change SOCKET_STRADDR_MAXLEN with 53. lia.
Qed.

(** ** Witnesses *)

Section Witnesses.
Import SimInstances.

Definition demo_info (n : Z) : addrinfo :=
  AddrInfo AF_INET SOCK_STREAM IPPROTO_TCP (SockIn n [127; 0; 0; 1]) 16.

(** Two addresses; connecting to the first is refused. *)
Definition demo_connect_kernel : sim :=
  Sim {[ 3 := 2 ]} [0; 0; 111; 0; 0; 0] [] None SOCK_STREAM [demo_info 1; demo_info 2] None None.

Lemma socket_connect_owns_witness :
  let w := sim_world demo_connect_kernel tt in
  wp (socket_connect "localhost" "8765")
     (fun fd w' => new_fd_post w fd w' /\ (fd <> -1 -> connected fd w'))
     (fun _ _ => False) w /\
  fst (socket_connect "localhost" "8765" w) = Ret 4.
Proof. split; [apply socket_connect_owns|vm_compute; reflexivity]. Defined.

Lemma socket_setblocking_flags_witness :
  let w := sim_world (Sim {[ 3 := 2 ]} [] [] None 1 [] None None) tt in
  fst (socket_setblocking 3 false w) = Ret 0 /\
  wp (socket_setblocking 3 false)
     (fun rc w' =>
        (rc = -1 /\ same w w') \/
        (rc = 0 /\ w_user w' = w_user w /\ exists fl fl',
           fds w !! 3 = Some fl /\ fds w' = <[3 := fl']> (fds w) /\
           forall i, 0 <= i ->
             Z.testbit fl' i = if i =? 11 then negb false else Z.testbit fl i))
     (fun _ _ => False) w.
Proof. split; [vm_compute; reflexivity|apply socket_setblocking_flags]. Defined.

Lemma socket_straddr_fits_witness :
  let w := sim_world sim_init tt in
  exists text,
    socket_straddr SOCKET_STRADDR_MAXLEN (Some (SockIn 0x3D22 [127; 0; 0; 1])) w
      = (Ret (0, Some text), w) /\
    text = "127.0.0.1:8765"%string /\ Z.of_nat (String.length text) < SOCKET_STRADDR_MAXLEN.
Proof.
  destruct (socket_straddr_fits (SockIn 0x3D22 [127; 0; 0; 1]) (sim_world sim_init tt)
    "127.0.0.1"%string) with (port := 0x3D22) (host := [127; 0; 0; 1])
    as (text & Hrun & Htext & Hlen).
  - intros af bs len s. simpl.
    destruct (af =? AF_INET); [destruct (len <? 16)|destruct (len <? INET6_ADDRSTRLEN)];
      intros; simplify_eq; reflexivity.
  - by left.
  - reflexivity.
  - exists text. split_and!; [exact Hrun|rewrite Htext; vm_compute; reflexivity|exact Hlen].
Defined.
End Witnesses.
