(* ===== verification/BgbLink.v ===== *)
(** * bgblink.c: the BGB link protocol

    The packets BGB's link protocol exchanges, the handshake ([bgb_init]) and
    the handling of one packet ([bgb_loop]).  The callbacks of [struct
    bgb_state] are computations over the user's object.  The module [LinkSpec]
    is the abstract machine the packet handling implements. *)

From S2P Require Import Prelude CInt CLib Sys Hoare SimKernel Socket.

Definition BGB_STATUS_RUNNING : Z := Z.shiftl 1 0.
Definition BGB_STATUS_PAUSED : Z := Z.shiftl 1 1.
Definition BGB_STATUS_SUPPORTRECONNECT : Z := Z.shiftl 1 2.

Definition BGB_CMD_VERSION : Z := 1.
Definition BGB_CMD_JOYPAD : Z := 101.
Definition BGB_CMD_SYNC1 : Z := 104.
Definition BGB_CMD_SYNC2 : Z := 105.
Definition BGB_CMD_SYNC3 : Z := 106.
Definition BGB_CMD_STATUS : Z := 108.
Definition BGB_CMD_WANTDISCONNECT : Z := 109.

Record bgb_packet := Packet {
  cmd : Z; b2 : Z; b3 : Z; b4 : Z; timestamp : Z
}.

#[global] Instance bgb_packet_eq_dec : EqDecision bgb_packet.
Proof. solve_decision. Defined.

Definition packet_ok (p : bgb_packet) : Prop :=
  is_u8 (cmd p) /\ is_u8 (b2 p) /\ is_u8 (b3 p) /\ is_u8 (b4 p) /\ is_u32 (timestamp p).

Definition sizeof_bgb_packet : Z := 8.

Definition handshake : bgb_packet := Packet BGB_CMD_VERSION 1 4 0 0.

(** The memory image of the packed struct, and the struct an image holds. *)
Definition packet_bytes `{Host} (p : bgb_packet) : list Z :=
  [cmd p; b2 p; b3 p; b4 p] ++ mem_of_uint 4 (timestamp p).

Definition packet_of_bytes `{Host} (l : list Z) : bgb_packet :=
  match l with
  | c :: x2 :: x3 :: x4 :: ts => Packet c x2 x3 x4 (uint_of_mem ts)
  | _ => Packet 0 0 0 0 0
  end.

(** The packet format of the protocol, whatever the host: the timestamp is
    little-endian. *)
Definition packet_wire (p : bgb_packet) : list Z :=
  [cmd p; b2 p; b3 p; b4 p;
   u8 (timestamp p); u8 (timestamp p / 2 ^ 8);
   u8 (timestamp p / 2 ^ 16); u8 (timestamp p / 2 ^ 24)].

Section BgbLink.
Context `{K : Kernel} `{Libc} `{Host} {U : Type}.

(** [user] is the world's user object. *)
Record bgb_state := BgbState {
  socket : Z;
  byte : Z;
  callback_transfer : option (Z -> M U Z);
  callback_timestamp : option (Z -> M U unit);
  timestamp_last : Z;
  timestamp_init : bool
}.

Definition set_byte (st : bgb_state) (x : Z) : bgb_state :=
  BgbState (socket st) x (callback_transfer st) (callback_timestamp st)
    (timestamp_last st) (timestamp_init st).

Definition set_timestamp (st : bgb_state) (last : Z) (init : bool) : bgb_state :=
  BgbState (socket st) (byte st) (callback_transfer st) (callback_timestamp st) last init.

Definition set_callback_timestamp (st : bgb_state) (cb : option (Z -> M U unit)) : bgb_state :=
  BgbState (socket st) (byte st) (callback_transfer st) cb
    (timestamp_last st) (timestamp_init st).

Definition bgb_send (sock : Z) (buf : bgb_packet) : M U bool :=
  let* num := c_send sock (packet_bytes buf) in
  if num =? -1 then socket_perror (Some "bgb_send") ;;; ret false
  else ret (num =? sizeof_bgb_packet).

(** [None] is the result [false]: the callers do not look at the buffer then. *)
Definition bgb_recv (sock : Z) : M U (option bgb_packet) :=
  let* '(num, bs) := c_recv sock sizeof_bgb_packet in
  if num =? -1 then socket_perror (Some "bgb_recv") ;;; ret None
  else if num =? sizeof_bgb_packet then ret (Some (packet_of_bytes bs))
  else ret None.

Definition bgb_init (sock init_byte : Z) (callback_transfer : option (Z -> M U Z))
    (callback_timestamp : option (Z -> M U unit)) : M U (bool * bgb_state) :=
  let state := BgbState sock init_byte callback_transfer callback_timestamp 0 false in
  (* Handshake *)
  let* ok := bgb_send sock handshake in
  if negb ok then ret (false, state) else
  let* r := bgb_recv sock in
  match r with
  | None => ret (false, state)
  | Some packet =>
    if negb (bool_decide (packet_bytes packet = packet_bytes handshake)) then
      eprint (String.append "bgb_loop: Invalid handshake" newline) ;;; ret (false, state)
    else
    (* Send initial status *)
    let* ok := bgb_send sock (Packet BGB_CMD_STATUS
      (Z.lor (Z.lor BGB_STATUS_RUNNING BGB_STATUS_PAUSED) BGB_STATUS_SUPPORTRECONNECT) 0 0 0) in
    if negb ok then ret (false, state) else
    (* Expect a status packet back *)
    let* r := bgb_recv sock in
    match r with
    | None => ret (false, state)
    | Some packet =>
      if negb (cmd packet =? BGB_CMD_STATUS) then
        eprint (String.append "bgb_init: unexpected packet (1)" newline) ;;; ret (false, state)
      else
      (* Unpause the emulator *)
      let* ok := bgb_send sock (Packet BGB_CMD_STATUS
        (Z.lor BGB_STATUS_RUNNING BGB_STATUS_SUPPORTRECONNECT) 0 0 (timestamp packet)) in
      if negb ok then ret (false, state) else
      ret (true, state)
    end
  end.

Definition unknown_command (p : bgb_packet) : string :=
  String.append "bgb_loop: Unknown command: " (String.append (fmt_d (cmd p))
    (String.append " (" (String.append (fmt_X 2 (b2 p)) (String.append " "
    (String.append (fmt_X 2 (b3 p)) (String.append " " (String.append (fmt_X 2 (b4 p))
    (String.append ") @ " (String.append (fmt_d (i32 (timestamp p))) newline))))))))).

Definition back_in_time (old new : Z) : string :=
  String.append "[BGB] Emulator went back in time? old: 0x" (String.append (fmt_X 8 old)
    (String.append "; new: 0x" (String.append (fmt_X 8 new) newline))).

(** The [switch] of [bgb_loop]: [None] is [return false]; otherwise the state
    and [timestamp_cur] at the end of the switch. *)
Definition bgb_switch (state : bgb_state) (packet : bgb_packet) (timestamp_cur : Z)
    : M U (option (bgb_state * Z)) :=
  if cmd packet =? BGB_CMD_JOYPAD then ret (Some (state, timestamp_cur))
  else if cmd packet =? BGB_CMD_SYNC1 then
    let byte_cur := b2 packet in
    let timestamp_cur := timestamp packet in
    let* ok := bgb_send (socket state) (Packet BGB_CMD_SYNC2 (byte state) 0x80 0 0) in
    if negb ok then ret None else
    match callback_transfer state with
    | Some cb =>
      let* x := cb byte_cur in
      ret (Some (set_byte state x, timestamp_cur))
    | None => ret (Some (state, timestamp_cur))
    end
  else if cmd packet =? BGB_CMD_SYNC2 then ret (Some (state, timestamp_cur))
  else if cmd packet =? BGB_CMD_SYNC3 then
    let timestamp_cur := timestamp packet in
    if negb (b2 packet =? 0) then ret (Some (state, timestamp_cur)) else
    let* ok := bgb_send (socket state) packet in
    if negb ok then ret None else ret (Some (state, timestamp_cur))
  else if cmd packet =? BGB_CMD_STATUS then ret (Some (state, timestamp_cur))
  else if cmd packet =? BGB_CMD_WANTDISCONNECT then ret (Some (state, timestamp_cur))
  else eprint (unknown_command packet) ;;; ret None.

(** The end of [bgb_loop], after the switch. *)
Definition bgb_timestamp (state : bgb_state) (timestamp_cur : Z) : M U bgb_state :=
  match callback_timestamp state with
  | None => ret state
  | Some cb =>
    let* state :=
      (if negb (timestamp_init state) then
         cb timestamp_cur ;;; ret (set_timestamp state timestamp_cur true)
       else ret state) in
    let diff := Z.land (u32 (timestamp_last state - timestamp_cur)) 0x7FFFFFFF in
    let* timestamp_cur :=
      (if negb (diff =? 0) && (diff <=? 0x100) then
         eprint (back_in_time (timestamp_last state) timestamp_cur) ;;;
         ret (timestamp_last state)
       else ret timestamp_cur) in
    (if negb (timestamp_last state =? timestamp_cur) then cb timestamp_cur else ret tt) ;;;
    ret (set_timestamp state timestamp_cur (timestamp_init state))
  end.

Definition bgb_loop (state : bgb_state) : M U (bool * bgb_state) :=
  let timestamp_cur := timestamp_last state in
  let* has := socket_hasdata (socket state) in
  if has <=? 0 then ret (true, state) else
  let* r := bgb_recv (socket state) in
  match r with
  | None => ret (false, state)
  | Some packet =>
    let* r := bgb_switch state packet timestamp_cur in
    match r with
    | None => ret (false, state)
    | Some (state, timestamp_cur) =>
      let* state := bgb_timestamp state timestamp_cur in
      ret (true, state)
    end
  end.

(** [n] calls of [bgb_loop] in a row, stopping at the first [false]: how the
    main program uses it. *)
Fixpoint bgb_run (n : nat) (state : bgb_state) : M U (bool * bgb_state) :=
  match n with
  | O => ret (true, state)
  | S n =>
    let* '(ok, state) := bgb_loop state in
    if negb ok then ret (false, state) else bgb_run n state
  end.
End BgbLink.
Arguments bgb_state {K} U.

(** ** The abstract machine *)

Module LinkSpec.

(** What a packet asks for: a reply, a byte to exchange with the adapter, and
    the emulator time it carries. *)
Record demand := Demand {
  d_reply : option bgb_packet; d_transfer : option Z; d_time : option Z
}.

(** [None]: the packet is not part of the protocol.  [out] is the byte the
    adapter has ready. *)
Definition demand_of (out : Z) (p : bgb_packet) : option demand :=
  if cmd p =? BGB_CMD_SYNC1 then
    Some (Demand (Some (Packet BGB_CMD_SYNC2 out 0x80 0 0)) (Some (b2 p)) (Some (timestamp p)))
  else if cmd p =? BGB_CMD_SYNC3 then
    Some (Demand (if b2 p =? 0 then Some p else None) None (Some (timestamp p)))
  else if bool_decide (cmd p ∈ [BGB_CMD_JOYPAD; BGB_CMD_SYNC2; BGB_CMD_STATUS;
                                BGB_CMD_WANTDISCONNECT]) then
    Some (Demand None None None)
  else None.

(** The emulator clock as seen through the link: [None] before the first
    packet.  A time at most 256 ticks behind (modulo 2^31) is taken for jitter. *)
Definition behind (last t : Z) : Prop := 1 <= (last - t) mod 2 ^ 31 <= 256.

#[global] Instance behind_dec last t : Decision (behind last t).
Proof. unfold behind. apply _. Defined.

Definition clock_next (last : option Z) (t : Z) : Z :=
  match last with
  | None => t
  | Some last => if decide (behind last t) then last else t
  end.

(** The time reported to the client, if any: every change, and the first. *)
Definition clock_report (last : option Z) (t : Z) : option Z :=
  match last with
  | None => Some t
  | Some last => if decide (behind last t \/ last = t) then None else Some t
  end.

(** The serial line: bytes come in, each is answered with the byte the adapter
    prepared for it while handling the byte before.  The accumulator is the
    adapter's state, its prepared byte and what was answered so far. *)
Definition pipe {S} (f : S -> Z -> S * Z) (acc : S * Z * list Z) (c : Z) : S * Z * list Z :=
  let '(s, out, sent) := acc in
  let '(s', r) := f s c in (s', r, sent ++ [out]).

Definition pipeline {S} (f : S -> Z -> S * Z) (s : S) (out : Z) (rx : list Z) : S * Z * list Z :=
  foldl (pipe f) (s, out, []) rx.

End LinkSpec.
