(* ===== verification/BgbLinkProofs.v ===== *)
(** * Properties of the BGB link

    The packet format, the refinement of [bgb_loop] to the abstract machine of
    [LinkSpec], the handshake, the clock filter and the serial pipeline. *)

From S2P Require Import Prelude CInt CLib Sys Hoare SimKernel Socket BgbLink.
Import LinkSpec.

(** ** The packet format *)

Lemma packet_of_packet_bytes `{Host} p :
  is_u32 (timestamp p) -> packet_of_bytes (packet_bytes p) = p.
Proof.
  intros Ht. unfold packet_of_bytes, packet_bytes.
  cbn [app]. rewrite uint_of_mem_of_uint, Z.mod_small by exact Ht. by destruct p.
Qed.

Lemma packet_bytes_of_packet `{Host} l :
  length l = 8%nat -> bytes_ok l -> packet_bytes (packet_of_bytes l) = l.
Proof.
  intros Hl Hb. do 4 (destruct l as [|? l]; [done|]).
  do 4 apply Forall_cons_1 in Hb as [_ Hb].
  unfold packet_bytes, packet_of_bytes. cbn [app cmd b2 b3 b4 timestamp].
  assert (4%nat = length l) as -> by (simpl in Hl; lia). by rewrite mem_of_uint_of_mem.
Qed.

Lemma length_packet_bytes `{Host} p : length (packet_bytes p) = 8%nat.
Proof. unfold packet_bytes. by rewrite length_app, length_mem_of_uint. Qed.

(** C21: the struct sent over the wire as it lies in memory is the protocol's
    packet (the timestamp little-endian) exactly on a little-endian host. *)
Theorem packet_wire_iff_little_endian `{Host} :
  (forall p, packet_bytes p = packet_wire p) <-> host_endian = LittleEndian.
Proof.
  unfold packet_bytes, packet_wire, mem_of_uint. split.
  - intros Hall. destruct host_endian; [done|].
    specialize (Hall (Packet 0 0 0 0 1)). discriminate Hall.
  - intros -> p. cbn [app le_split]. unfold u8.
    rewrite !Z.div_div by lia. done.
Qed.

(** ** The clock filter *)

Lemma behind_bool last t :
  (negb (Z.land (u32 (last - t)) 0x7FFFFFFF =? 0) &&
   (Z.land (u32 (last - t)) 0x7FFFFFFF <=? 0x100))%bool = bool_decide (behind last t).
Proof.
  rewrite diff_mod. unfold behind.
  pose proof (Z.mod_pos_bound (last - t) (2 ^ 31)).
  destruct (Z.eqb_spec ((last - t) mod 2 ^ 31) 0); simpl.
  - rewrite bool_decide_eq_false_2; [done|lia].
  - destruct (Z.leb_spec ((last - t) mod 2 ^ 31) 0x100).
    + rewrite bool_decide_eq_true_2; [done|lia].
    + rewrite bool_decide_eq_false_2; [done|lia].
Qed.

Lemma not_behind_self t : ~ behind t t.
Proof. unfold behind. rewrite Z.sub_diag, Z.mod_0_l by lia. lia. Qed.

Section Refinement.
Context `{K : Kernel} `{Libc} `{Host} {U : Type}.

(** The clock of the abstract machine that a link state stands for. *)
Definition clock_of (st : bgb_state U) : option Z :=
  if timestamp_init st then Some (timestamp_last st) else None.

(** The abstract machine run with the state's callbacks. *)
Definition spec_clock (st : bgb_state U) (t : Z) : M U (bgb_state U) :=
  match callback_timestamp st with
  | None => ret st
  | Some cb =>
    (match clock_report (clock_of st) t with
     | Some t => cb t
     | None => if decide (behind (timestamp_last st) t)
               then eprint (back_in_time (timestamp_last st) t) else ret tt
     end) ;;;
    ret (set_timestamp st (clock_next (clock_of st) t) true)
  end.

(** Meeting a demand: the reply, the byte, the clock. *)
Definition spec_transfer (st : bgb_state U) (d : demand) : M U (bool * bgb_state U) :=
  let* ok := (match d_reply d with Some q => bgb_send (socket st) q | None => ret true end) in
  if negb ok then ret (false, st) else
  let* st1 := (match d_transfer d, callback_transfer st with
               | Some c, Some cb => let* x := cb c in ret (set_byte st x)
               | _, _ => ret st
               end) in
  let* st2 := spec_clock st1 (default (timestamp_last st) (d_time d)) in
  ret (true, st2).

Definition spec_handle (st : bgb_state U) (p : bgb_packet) : M U (bool * bgb_state U) :=
  match demand_of (byte st) p with
  | None => eprint (unknown_command p) ;;; ret (false, st)
  | Some d => spec_transfer st d
  end.

Definition spec_loop (st : bgb_state U) : M U (bool * bgb_state U) :=
  let* has := socket_hasdata (socket st) in
  if has <=? 0 then ret (true, st) else
  let* r := bgb_recv (socket st) in
  match r with
  | None => ret (false, st)
  | Some p => spec_handle st p
  end.

Lemma bgb_timestamp_spec st t (w : world U) : bgb_timestamp st t w = spec_clock st t w.
Proof.
  unfold bgb_timestamp, spec_clock, clock_of. destruct (callback_timestamp st) as [cb|]; [|done].
  destruct (timestamp_init st) eqn:Hi; simpl.
  - unfold bind at 1, ret at 1. rewrite behind_bool.
    destruct (decide (behind (timestamp_last st) t)) as [Hb|Hb].
    + rewrite bool_decide_eq_true_2 by done. simpl.
      rewrite decide_True by auto. unfold bind, eprint, emit, ret; simpl.
      by rewrite Z.eqb_refl, Hi.
    + rewrite bool_decide_eq_false_2 by done. simpl. unfold bind, ret; simpl. rewrite Hi.
      destruct (Z.eqb_spec (timestamp_last st) t) as [He|He]; simpl.
      * rewrite decide_True by auto. done.
      * rewrite decide_False by tauto. done.
  - unfold bind. destruct (cb t w) as [[[]|s] w']; [|done]. simpl.
    rewrite behind_bool, bool_decide_eq_false_2 by apply not_behind_self. simpl.
    rewrite Z.eqb_refl. done.
Qed.

Lemma bind_ret_r_at {A} (m : M U A) w : bind m ret w = m w.
Proof. unfold bind. by destruct (m w) as [[a|s] w']. Qed.

Lemma bind_ext_at {A B} (m : M U A) (f g : A -> M U B) w :
  (forall a w', f a w' = g a w') -> bind m f w = bind m g w.
Proof. intros Hfg. unfold bind. destruct (m w) as [[a|s] w']; auto. Qed.

Lemma bind_assoc_at {A B C} (m : M U A) (f : A -> M U B) (g : B -> M U C) w :
  bind (bind m f) g w = bind m (fun a => bind (f a) g) w.
Proof. unfold bind. by destruct (m w) as [[a|s] w']. Qed.

Definition after_switch (st : bgb_state U) (r : option (bgb_state U * Z))
    : M U (bool * bgb_state U) :=
  match r with
  | None => ret (false, st)
  | Some (st, t) => let* st := bgb_timestamp st t in ret (true, st)
  end.

Lemma after_switch_spec st st' t w :
  after_switch st (Some (st', t)) w = (let* st2 := spec_clock st' t in ret (true, st2)) w.
Proof. unfold after_switch, bind. by rewrite bgb_timestamp_spec. Qed.

Lemma handle_spec st p w :
  (let* r := bgb_switch st p (timestamp_last st) in after_switch st r) w = spec_handle st p w.
Proof.
  unfold bgb_switch, spec_handle, demand_of, spec_transfer.
  destruct (Z.eqb_spec (cmd p) BGB_CMD_SYNC1) as [E1|E1].
  { rewrite (proj2 (Z.eqb_neq (cmd p) BGB_CMD_JOYPAD)) by (rewrite E1; done). cbn [d_reply d_transfer d_time].
    rewrite bind_assoc_at. apply bind_ext_at. intros ok w1. destruct ok; [|done].
    cbn [negb]. destruct (callback_transfer st) as [cb|].
    - rewrite !bind_assoc_at. apply bind_ext_at. intros x w2. apply after_switch_spec.
    - apply after_switch_spec. }
  destruct (Z.eqb_spec (cmd p) BGB_CMD_SYNC3) as [E3|E3].
  { rewrite (proj2 (Z.eqb_neq (cmd p) BGB_CMD_JOYPAD)), (proj2 (Z.eqb_neq (cmd p) BGB_CMD_SYNC2))
      by (rewrite E3; done). cbn [d_reply d_transfer d_time].
    destruct (b2 p =? 0); cbn [negb].
    - rewrite bind_assoc_at. apply bind_ext_at. intros ok w1. destruct ok; [|done].
      apply after_switch_spec.
    - apply after_switch_spec. }
  destruct (Z.eqb_spec (cmd p) BGB_CMD_JOYPAD) as [->|E];
    [rewrite bool_decide_eq_true_2 by set_solver; apply after_switch_spec|].
  destruct (Z.eqb_spec (cmd p) BGB_CMD_SYNC2) as [->|E2];
    [rewrite bool_decide_eq_true_2 by set_solver; apply after_switch_spec|].
  destruct (Z.eqb_spec (cmd p) BGB_CMD_STATUS) as [->|E4];
    [rewrite bool_decide_eq_true_2 by set_solver; apply after_switch_spec|].
  destruct (Z.eqb_spec (cmd p) BGB_CMD_WANTDISCONNECT) as [->|E5];
    [rewrite bool_decide_eq_true_2 by set_solver; apply after_switch_spec|].
  rewrite bool_decide_eq_false_2; [done|].
  rewrite !elem_of_cons, elem_of_nil. tauto.
Qed.

Lemma bgb_loop_spec_loop st w : bgb_loop st w = spec_loop st w.
Proof.
  unfold bgb_loop, spec_loop. apply bind_ext_at. intros has w1.
  destruct (has <=? 0); [done|]. apply bind_ext_at. intros [p|] w2; [|done].
  apply handle_spec.
Qed.

(** C2: [bgb_loop] implements the abstract link machine: for every link state
    and every kernel it behaves, effect for effect, as polling the socket,
    receiving one packet and doing what [LinkSpec] says the packet demands
    (the reply, the byte exchange, the clock update and report); an unknown
    command, a failed receive or a failed reply ends the link with the state
    unchanged. *)
Theorem bgb_loop_refines (st : bgb_state U) (w : world U) : bgb_loop st w = spec_loop st w.
Proof. apply bgb_loop_spec_loop. Qed.
End Refinement.

(** ** What the trace says about the link *)

Section LinkEvents.
Context `{K : Kernel} `{Host}.

(** The answer of a receive on the link; libmobile's own sockets are read with
    [recvfrom]. *)
Definition recv_answer (e : event) : option (list Z + Z) :=
  match e with
  | EvCall c r =>
    match c return sysres c -> option (list Z + Z) with
    | SysRecv _ _ => Some
    | _ => fun _ => None
    end r
  | _ => None
  end.

Definition send_answer (e : event) : option (list Z * (Z + Z)) :=
  match e with
  | EvCall c r =>
    match c return sysres c -> option (list Z * (Z + Z)) with
    | SysSend _ data => fun r => Some (data, r)
    | _ => fun _ => None
    end r
  | _ => None
  end.

(** The byte of a SYNC1 packet received, and of a SYNC2 packet sent. *)
Definition sync1_of (e : event) : option Z :=
  match recv_answer e with
  | Some (inl bs) =>
    if (length bs =? 8)%nat && (cmd (packet_of_bytes bs) =? BGB_CMD_SYNC1)
    then Some (b2 (packet_of_bytes bs)) else None
  | _ => None
  end.

Definition sync2_of (e : event) : option Z :=
  match send_answer e with
  | Some (data, inl n) =>
    if (n =? 8) && (cmd (packet_of_bytes data) =? BGB_CMD_SYNC2)
    then Some (b2 (packet_of_bytes data)) else None
  | _ => None
  end.

(** A receive that fails, is short or brings a packet outside the protocol; a
    send that fails or is short. *)
Definition link_fault (e : event) : bool :=
  match recv_answer e with
  | Some (inl bs) => negb (length bs =? 8)%nat ||
                     bool_decide (demand_of 0 (packet_of_bytes bs) = None)
  | Some (inr _) => true
  | None =>
    match send_answer e with
    | Some (_, inl n) => negb (n =? 8)
    | Some (_, inr _) => true
    | None => false
    end
  end.

Definition boring (e : event) : Prop := recv_answer e = None /\ send_answer e = None.

(** In order of time. *)
Definition sync1_bytes (ev : list event) : list Z := reverse (omap sync1_of ev).
Definition sync2_bytes (ev : list event) : list Z := reverse (omap sync2_of ev).
Definition faulty (ev : list event) : bool := existsb link_fault ev.

Lemma boring_bytes ev : Forall boring ev ->
  omap sync1_of ev = [] /\ omap sync2_of ev = [] /\ faulty ev = false.
Proof.
  induction 1 as [|e ev [Hr Hs] _ (IH1 & IH2 & IH3)]; [done|].
  unfold faulty in *. cbn [omap list_omap existsb].
  unfold sync1_of, sync2_of, link_fault. rewrite Hr, Hs. done.
Qed.

Lemma sync1_bytes_app e1 e2 : sync1_bytes (e2 ++ e1) = sync1_bytes e1 ++ sync1_bytes e2.
Proof. unfold sync1_bytes. by rewrite omap_app, reverse_app. Qed.

Lemma sync2_bytes_app e1 e2 : sync2_bytes (e2 ++ e1) = sync2_bytes e1 ++ sync2_bytes e2.
Proof. unfold sync2_bytes. by rewrite omap_app, reverse_app. Qed.

Lemma faulty_app e1 e2 : faulty (e2 ++ e1) = (faulty e2 || faulty e1)%bool.
Proof. apply existsb_app. Qed.
End LinkEvents.

Section Rules.
Context `{K : Kernel} `{Libc} `{Host} {U : Type}.

Definition sent8 (sock : Z) (q : bgb_packet) : event :=
  EvCall (SysSend sock (packet_bytes q)) (inl 8).

Definition received (sock : Z) (bs : list Z) : event :=
  EvCall (SysRecv sock sizeof_bgb_packet) (inl bs).

Lemma boring_perror f : emits (U := U) boring (socket_perror f).
Proof. by apply emits_socket_perror. Qed.

Lemma boring_hasdata sock : emits (U := U) boring (socket_hasdata sock).
Proof. by apply emits_socket_hasdata. Qed.

(** [bgb_send]: either the whole packet went out, or the trace shows a fault
    and nothing of the packet counts as sent. *)
Lemma wp_bgb_send sock q Q E (w : world U) :
  (forall w', w_trace w' = sent8 sock q :: w_trace w -> w_user w' = w_user w -> Q true w') ->
  (forall w' ev, w_trace w' = ev ++ w_trace w -> w_user w' = w_user w ->
     faulty ev = true -> omap sync1_of ev = [] -> omap sync2_of ev = [] -> Q false w') ->
  wp (bgb_send sock q) Q E w.
Proof.
  intros Hok Hbad. apply wp_bind, wp_bind, wp_call. intros r k Hk.
  assert (forall x, faulty [EvCall (SysSend sock (packet_bytes q)) x] = true ->
    forall w', extends boring (World k (w_errno w) (EvCall (SysSend sock (packet_bytes q)) x
                 :: w_trace w) (w_user w)) w' -> Q false w') as Hfault.
  { intros x Hx w' (ev & Hev & Hb & Hu). pose proof (boring_bytes _ Hb) as (H1 & H2 & H3).
    apply (Hbad _ (ev ++ [EvCall (SysSend sock (packet_bytes q)) x])).
    - rewrite Hev, <- app_assoc. done.
    - done.
    - by rewrite faulty_app, Hx, orb_true_r.
    - by rewrite omap_app, H1.
    - rewrite omap_app, H2. unfold faulty, link_fault in Hx. simpl in Hx.
      unfold sync2_of; cbn. destruct x as [n|e]; [|done].
      rewrite orb_false_r in Hx. apply negb_true_iff in Hx. by rewrite Hx. }
  destruct r as [n|e]; cbn [c_int].
  - apply wp_ret. destruct (Z.eqb_spec n (-1)) as [->|Hn].
    + apply wp_bind, (wp_emits boring); [apply boring_perror|].
      intros _ w' Hw'. apply wp_ret. by apply (Hfault (inl (-1))).
    + apply wp_ret. unfold sizeof_bgb_packet. destruct (Z.eqb_spec n 8) as [->|Hn8].
      * by apply Hok.
      * eapply (Hfault (inl n)); [|reflexivity]. unfold faulty, link_fault; simpl.
        by rewrite (proj2 (Z.eqb_neq n 8)).
  - apply wp_bind. apply (wp_ret (-1) (fun a w' => _)). simpl.
    apply wp_bind, (wp_emits boring); [apply boring_perror|].
    intros _ w' Hw'. apply wp_ret. apply (Hfault (inr e)); [done|].
    destruct Hw' as (ev & Hev & Hb & Hu). exists ev. done.
Qed.

(** [bgb_recv]: a full packet, or a fault. *)
Lemma wp_bgb_recv sock Q E (w : world U) :
  (forall bs w', length bs = 8%nat -> (KernelLaws K -> bytes_ok bs) ->
     w_trace w' = received sock bs :: w_trace w -> w_user w' = w_user w ->
     Q (Some (packet_of_bytes bs)) w') ->
  (forall w' ev, w_trace w' = ev ++ w_trace w -> w_user w' = w_user w ->
     faulty ev = true -> omap sync1_of ev = [] -> omap sync2_of ev = [] -> Q None w') ->
  wp (bgb_recv sock) Q E w.
Proof.
  intros Hok Hbad. apply wp_bind, wp_bind, wp_call. intros r k Hk.
  destruct r as [bs|e]; cbn [c_bytes].
  - apply wp_ret. rewrite (proj2 (Z.eqb_neq (Z.of_nat (length bs)) (-1))) by lia.
    unfold sizeof_bgb_packet. destruct (Z.eqb_spec (Z.of_nat (length bs)) 8) as [Hn|Hn].
    + apply wp_ret, Hok; try done; [lia|]. intros HL. by eapply law_recv.
    + assert ((length bs =? 8)%nat = false) as Hn' by (apply Nat.eqb_neq; lia).
      apply wp_ret, (Hbad _ [received sock bs]); try done; unfold received.
      * unfold faulty, link_fault; cbn -[Nat.eqb]. by rewrite Hn'.
      * cbn -[Nat.eqb]. unfold sync1_of; cbn -[Nat.eqb]. by rewrite Hn'.
  - apply wp_bind. apply (wp_ret (-1, []) (fun a w' => _)). simpl.
    apply wp_bind, (wp_emits boring); [apply boring_perror|].
    intros _ w' (ev & Hev & Hb & Hu). pose proof (boring_bytes _ Hb) as (H1 & H2 & H3).
    apply wp_ret, (Hbad _ (ev ++ [EvCall (SysRecv sock sizeof_bgb_packet) (inr e)])).
    + rewrite Hev, <- app_assoc. done.
    + done.
    + by rewrite faulty_app, H3, orb_true_r.
    + by rewrite omap_app, H1.
    + by rewrite omap_app, H2.
Qed.
End Rules.

(** ** The handshake *)

Section Handshake.
Context `{K : Kernel} `{Libc} `{Host} {U : Type}.

(** The link state [bgb_init] sets up. *)
Definition init_state (sock byte0 : Z) cbt cbts : bgb_state U :=
  BgbState sock byte0 cbt cbts 0 false.

(** The five transfers of a successful handshake, newest first; [bs] is the
    status packet the emulator answered with, whose timestamp the unpausing
    status packet carries back. *)
Definition handshake_events (sock : Z) (bs : list Z) : list event :=
  [ sent8 sock (Packet BGB_CMD_STATUS 5 0 0 (timestamp (packet_of_bytes bs)));
    received sock bs;
    sent8 sock (Packet BGB_CMD_STATUS 7 0 0 0);
    received sock (packet_bytes handshake);
    sent8 sock handshake ].

Lemma wp_init_exchange `{!KernelLaws K} sock byte0 cbt cbts E (w : world U) :
  wp (bgb_init sock byte0 cbt cbts)
     (fun '(ok, st) w' => st = init_state sock byte0 cbt cbts /\ w_user w' = w_user w /\
        (ok = true -> exists bs, length bs = 8%nat /\
           cmd (packet_of_bytes bs) = BGB_CMD_STATUS /\
           w_trace w' = handshake_events sock bs ++ w_trace w))
     E w.
Proof.
  apply wp_bind, wp_bgb_send; [|intros; by apply wp_ret].
  intros w1 T1 U1. apply wp_bind, wp_bgb_recv; [|intros; apply wp_ret; split_and!; [done|congruence|done]].
  intros bs w2 L2 B2 T2 U2. cbn beta iota.
  destruct (bool_decide_reflect (packet_bytes (packet_of_bytes bs) = packet_bytes handshake))
    as [Hh|Hh]; cbn [negb].
  2: { hnf. split_and!; [done|simpl; congruence|done]. }
  rewrite packet_bytes_of_packet in Hh by auto. subst bs.
  apply wp_bind, wp_bgb_send; [|intros; apply wp_ret; split_and!; [done|congruence|done]].
  intros w3 T3 U3. apply wp_bind, wp_bgb_recv; [|intros; apply wp_ret; split_and!; [done|congruence|done]].
  intros bs w4 L4 B4 T4 U4. cbn beta iota.
  destruct (Z.eqb_spec (cmd (packet_of_bytes bs)) BGB_CMD_STATUS) as [Hc|Hc]; cbn [negb].
  2: { hnf. split_and!; [done|simpl; congruence|done]. }
  apply wp_bind, wp_bgb_send; [|intros; apply wp_ret; split_and!; [done|congruence|done]].
  intros w5 T5 U5. apply wp_ret. split_and!; [done|congruence|].
  intros _. exists bs. split_and!; [done|done|]. by rewrite T5, T4, T3, T2, T1.
Qed.

(** The kernel's side of a whole packet sent, and of a whole packet received. *)
Definition sends (sock : Z) (q : bgb_packet) (k k' : kstate) : Prop :=
  kcall (SysSend sock (packet_bytes q)) k = (inl 8, k').

Definition receives (sock : Z) (bs : list Z) (k k' : kstate) : Prop :=
  kcall (SysRecv sock sizeof_bgb_packet) k = (inl bs, k') /\ length bs = 8%nat.

(** The emulator, as the kernel presents it, goes through the handshake: it
    takes our version packet and answers with the same, takes our status and
    answers with some status packet, and takes the status that unpauses it. *)
Definition link_accepts (sock : Z) (k : kstate) : Prop :=
  exists k1, sends sock handshake k k1 /\
  exists b1 k2, receives sock b1 k1 k2 /\ b1 = packet_bytes handshake /\
  exists k3, sends sock (Packet BGB_CMD_STATUS 7 0 0 0) k2 k3 /\
  exists b2 k4, receives sock b2 k3 k4 /\ cmd (packet_of_bytes b2) = BGB_CMD_STATUS /\
  exists k5, sends sock (Packet BGB_CMD_STATUS 5 0 0 (timestamp (packet_of_bytes b2))) k4 k5.

(** The kernel's answers are determined. *)
Lemma sends_next sock q k k1 (P : kstate -> Prop) :
  sends sock q k k1 -> (exists k', sends sock q k k' /\ P k') <-> P k1.
Proof.
  intros Hs. split; [|by eauto]. intros (k' & Hs' & HP). unfold sends in *.
  replace k1 with k' by congruence. done.
Qed.

Lemma receives_next sock bs k k1 (P : list Z -> kstate -> Prop) :
  receives sock bs k k1 -> (exists bs' k', receives sock bs' k k' /\ P bs' k') <-> P bs k1.
Proof.
  intros Hr. split; [|by eauto]. intros (bs' & k' & [Hr' _] & HP). destruct Hr as [Hr _].
  replace k1 with k' by congruence. replace bs with bs' by congruence. done.
Qed.

(** Rephrasing the condition under which a computation succeeds. *)
Lemma wp_iff {X} (m : M U (bool * X)) (A B : Prop) E (w : world U) : (A <-> B) ->
  wp m (fun '(ok, _) _ => ok = true <-> B) E w -> wp m (fun '(ok, _) _ => ok = true <-> A) E w.
Proof. intros HAB Hm. eapply wp_post; [exact Hm|]. intros [ok x] w' Hok. by rewrite HAB. Qed.

Lemma wp_send_kern sock q Q E (w : world U) :
  (forall w', sends sock q (w_kern w) (w_kern w') -> Q true w') ->
  ((forall k', ~ sends sock q (w_kern w) k') -> forall w', Q false w') ->
  wp (bgb_send sock q) Q E w.
Proof.
  intros Hok Hbad. apply wp_bind, wp_bind, wp_call. intros r k Hk.
  assert (r <> inl 8 -> forall w', Q false w') as Hno.
  { intros Hr. apply Hbad. intros k' Hs. unfold sends in Hs. congruence. }
  destruct r as [n|e]; cbn [c_int].
  - apply wp_ret. destruct (Z.eqb_spec n (-1)) as [->|Hn].
    + apply wp_bind, (wp_emits boring); [apply boring_perror|]. intros _ w' _. by apply wp_ret, Hno.
    + apply wp_ret. unfold sizeof_bgb_packet. destruct (Z.eqb_spec n 8) as [->|Hn8].
      * by apply Hok.
      * apply Hno. congruence.
  - apply wp_bind. hnf. simpl.
    apply wp_bind, (wp_emits boring); [apply boring_perror|]. intros _ w' _. by apply wp_ret, Hno.
Qed.

Lemma wp_recv_kern sock Q E (w : world U) :
  (forall bs w', receives sock bs (w_kern w) (w_kern w') -> Q (Some (packet_of_bytes bs)) w') ->
  ((forall bs k', ~ receives sock bs (w_kern w) k') -> forall w', Q None w') ->
  wp (bgb_recv sock) Q E w.
Proof.
  intros Hok Hbad. apply wp_bind, wp_bind, wp_call. intros r k Hk.
  assert ((forall bs, r = inl bs -> length bs <> 8%nat) -> forall w', Q None w') as Hno.
  { intros Hr. apply Hbad. intros bs k' [Hs Hl]. apply (Hr bs); congruence. }
  destruct r as [bs|e]; cbn [c_bytes].
  - apply wp_ret. rewrite (proj2 (Z.eqb_neq (Z.of_nat (length bs)) (-1))) by lia.
    unfold sizeof_bgb_packet. destruct (Z.eqb_spec (Z.of_nat (length bs)) 8) as [Hn|Hn].
    + apply wp_ret, Hok. split; [done|lia].
    + apply wp_ret, Hno. intros ? [= <-]. lia.
  - apply wp_bind. hnf. simpl.
    apply wp_bind, (wp_emits boring); [apply boring_perror|]. intros _ w' _. by apply wp_ret, Hno.
Qed.

Lemma wp_init_accepts `{!KernelLaws K} sock byte0 cbt cbts E (w : world U) :
  wp (bgb_init sock byte0 cbt cbts)
     (fun '(ok, _) _ => ok = true <-> link_accepts sock (w_kern w)) E w.
Proof.
  unfold bgb_init, link_accepts. apply wp_bind, wp_send_kern.
  2: { intros Hno w'. apply wp_ret. split; [done|]. intros (k' & Hs & _). by destruct (Hno k'). }
  intros w1 S1. apply (wp_iff _ _ _ _ _ (sends_next _ _ _ _ _ S1)). apply wp_bind, wp_recv_kern.
  2: { intros Hno w'. apply wp_ret. split; [done|]. intros (b & k' & Hr & _). by destruct (Hno b k'). }
  intros b1 w2 R2. apply (wp_iff _ _ _ _ _ (receives_next _ _ _ _ _ R2)). cbn beta iota.
  pose proof R2 as [R2c R2l]. pose proof (law_recv _ _ _ _ _ R2c) as [B2 _].
  destruct (bool_decide_reflect (packet_bytes (packet_of_bytes b1) = packet_bytes handshake))
    as [Hh|Hh]; cbn [negb]; rewrite packet_bytes_of_packet in Hh by done.
  2: { hnf. split; [done|]. by intros [? _]. }
  apply (wp_iff _ _ _ _ _ (and_is_True_l _ _ Hh)). apply wp_bind, wp_send_kern.
  2: { intros Hno w'. apply wp_ret. split; [done|]. intros (k' & Hs & _). by destruct (Hno k'). }
  intros w3 S3. apply (wp_iff _ _ _ _ _ (sends_next _ _ _ _ _ S3)). apply wp_bind, wp_recv_kern.
  2: { intros Hno w'. apply wp_ret. split; [done|]. intros (b & k' & Hr & _). by destruct (Hno b k'). }
  intros b2 w4 R4. apply (wp_iff _ _ _ _ _ (receives_next _ _ _ _ _ R4)). cbn beta iota.
  destruct (Z.eqb_spec (cmd (packet_of_bytes b2)) BGB_CMD_STATUS) as [Hc|Hc]; cbn [negb].
  2: { hnf. split; [done|]. by intros [? _]. }
  apply (wp_iff _ _ _ _ _ (and_is_True_l _ _ Hc)). apply wp_bind, wp_send_kern.
  2: { intros Hno w'. apply wp_ret. split; [done|]. intros [k' Hs]. by destruct (Hno k'). }
  intros w5 S5. apply wp_ret. split; [by eexists|done].
Qed.

End Handshake.

(** ** The serial pipeline *)

Section Pipeline.
Context `{K : Kernel} `{Libc} `{Host} {S : Type} (f : S -> Z -> S * Z).

(** An adapter that is a Mealy machine on bytes, and a client that stores the
    time reported, as callbacks over an object holding both. *)
Definition mealy_transfer (c : Z) : M (S * Z) Z :=
  let* u := get_user in
  let '(s, r) := f (fst u) c in
  put_user (s, snd u) ;;; ret r.

Definition store_clock (t : Z) : M (S * Z) unit :=
  let* u := get_user in put_user (fst u, t).

Definition mealy_link (st : bgb_state (S * Z)) : Prop :=
  callback_transfer st = Some mealy_transfer /\ callback_timestamp st = Some store_clock.

(** What one packet adds: nothing on the serial line, or one byte exchanged. *)
Definition exchange (st : bgb_state (S * Z)) (w : world (S * Z))
    (ok : bool) (st' : bgb_state (S * Z)) (w' : world (S * Z)) : Prop :=
  mealy_link st' /\ exists ev, w_trace w' = ev ++ w_trace w /\ faulty ev = negb ok /\
  ((ok = false /\ byte st' = byte st /\ fst (w_user w') = fst (w_user w) /\
    omap sync2_of ev = [] /\ (omap sync1_of ev = [] \/ exists c, omap sync1_of ev = [c])) \/
   (ok = true /\ byte st' = byte st /\ fst (w_user w') = fst (w_user w) /\
    omap sync1_of ev = [] /\ omap sync2_of ev = []) \/
   (ok = true /\ exists c, omap sync1_of ev = [c] /\ omap sync2_of ev = [byte st] /\
    f (fst (w_user w)) c = (fst (w_user w'), byte st'))).

Lemma wp_spec_clock st t Q E (w : world (S * Z)) :
  mealy_link st ->
  (forall st' w' ev, mealy_link st' -> byte st' = byte st ->
     w_trace w' = ev ++ w_trace w -> Forall boring ev -> fst (w_user w') = fst (w_user w) ->
     Q st' w') ->
  wp (spec_clock st t) Q E w.
Proof.
  intros [Ht Hc] HQ. unfold spec_clock. rewrite Hc. apply wp_bind.
  destruct (clock_report (clock_of st) t) as [t'|].
  - by apply (HQ _ _ []).
  - destruct (decide _).
    + apply (HQ _ _ [EvErr (back_in_time (timestamp_last st) t)]); try done. by repeat constructor.
    + by apply (HQ _ _ []).
Qed.

Lemma demand_none_out out p : demand_of out p = None <-> demand_of 0 p = None.
Proof. unfold demand_of. repeat case_match; done. Qed.

(** How the bytes of a received packet show in the trace. *)
Lemma received_sync1 sock bs : length bs = 8%nat ->
  sync1_of (received sock bs) =
    (if cmd (packet_of_bytes bs) =? BGB_CMD_SYNC1 then Some (b2 (packet_of_bytes bs)) else None).
Proof.
  intros Hl. unfold sync1_of, received; cbn -[Nat.eqb packet_of_bytes Z.eqb].
  by rewrite Hl.
Qed.

Lemma received_fault sock bs : length bs = 8%nat ->
  link_fault (received sock bs) = bool_decide (demand_of 0 (packet_of_bytes bs) = None).
Proof. intros Hl. unfold link_fault, received; cbn -[Nat.eqb packet_of_bytes]. by rewrite Hl. Qed.

Lemma received_sync2 sock bs : sync2_of (received sock bs) = None.
Proof. done. Qed.

Lemma sent8_sync1 sock q : sync1_of (sent8 sock q) = None.
Proof. done. Qed.

Lemma sent8_fault sock q : link_fault (sent8 sock q) = false.
Proof. done. Qed.

Lemma sent8_sync2 sock q :
  sync2_of (sent8 sock q) = (if cmd q =? BGB_CMD_SYNC2 then Some (b2 q) else None).
Proof. done. Qed.

(** The answers already given do not influence the rest. *)
Lemma pipe_shift s out sent rx s' out' sent' :
  foldl (pipe f) (s, out, []) rx = (s', out', sent') ->
  foldl (pipe f) (s, out, sent) rx = (s', out', sent ++ sent').
Proof.
  assert (forall pre acc, foldl (pipe f) (let '(s, o, l) := acc in (s, o, pre ++ l)) rx
    = let '(s, o, l) := foldl (pipe f) acc rx in (s, o, pre ++ l)) as Hgen.
  { induction rx as [|c rx IH]; intros pre [[s0 o0] l0]; [done|]. simpl.
    destruct (f s0 c) as [s1 r1]. rewrite <- app_assoc. by rewrite <- IH. }
  intros Hf. specialize (Hgen sent (s, out, [])). cbn beta iota in Hgen.
  by rewrite app_nil_r, Hf in Hgen.
Qed.

(** The clock update adds only boring events to what a packet did. *)
Lemma exchange_clock st w ok st1 w1 st2 w2 ev :
  exchange st w ok st1 w1 -> mealy_link st2 -> byte st2 = byte st1 ->
  w_trace w2 = ev ++ w_trace w1 -> Forall boring ev -> fst (w_user w2) = fst (w_user w1) ->
  exchange st w ok st2 w2.
Proof.
  intros [_ (ev1 & T1 & F1 & Hx)] Hm Hb T2 Hbor Hu.
  pose proof (boring_bytes _ Hbor) as (B1 & B2 & B3).
  split; [done|]. exists (ev ++ ev1).
  rewrite T2, T1, app_assoc, faulty_app, B3, !omap_app, B1, B2, Hb, Hu. done.
Qed.

(** Nothing but boring events happened after a packet's own. *)
Lemma exchange_boring st w ok st1 w1 ev w0 :
  w_trace w0 = ev ++ w_trace w -> Forall boring ev -> w_user w0 = w_user w ->
  exchange st w0 ok st1 w1 -> exchange st w ok st1 w1.
Proof.
  intros T0 Hbor Hu [Hm (ev1 & T1 & F1 & Hx)].
  pose proof (boring_bytes _ Hbor) as (B1 & B2 & B3).
  split; [done|]. exists (ev1 ++ ev).
  rewrite T1, T0, app_assoc, faulty_app, B3, orb_false_r, !omap_app, B1, B2, !app_nil_r, <- Hu.
  done.
Qed.

(** The packet [bs] has just been received. *)
Definition arrived (st : bgb_state (S * Z)) (bs : list Z) (w0 w : world (S * Z)) : Prop :=
  mealy_link st /\ length bs = 8%nat /\
  w_trace w = received (socket st) bs :: w_trace w0 /\ w_user w = w_user w0.

(** The link ends at this packet: it is unknown, or its reply failed. *)
Lemma exchange_fault st bs w0 w w1 ev :
  arrived st bs w0 w -> w_trace w1 = ev ++ w_trace w -> w_user w1 = w_user w ->
  faulty (ev ++ [received (socket st) bs]) = true ->
  omap sync1_of ev = [] -> omap sync2_of ev = [] -> exchange st w0 false st w1.
Proof.
  intros (Hm & Hlen & Tr & Hu) T1 U1 F1 S1 S2. split; [done|].
  exists (ev ++ [received (socket st) bs]). rewrite T1, Tr, <- app_assoc.
  rewrite F1, !omap_app, S1, S2, U1, Hu. cbn [omap list_omap app].
  rewrite received_sync1, received_sync2 by done.
  split_and!; [done|done|]. left. split_and!; try done. case_match; eauto.
Qed.

(** Any other packet only moves the clock. *)
Lemma exchange_idle st bs w0 w w1 ev t :
  arrived st bs w0 w -> link_fault (received (socket st) bs) = false ->
  sync1_of (received (socket st) bs) = None ->
  w_trace w1 = ev ++ w_trace w -> w_user w1 = w_user w ->
  faulty ev = false -> omap sync1_of ev = [] -> omap sync2_of ev = [] ->
  wp (let* st2 := spec_clock st t in ret (true, st2))
    (fun '(ok, st') w' => exchange st w0 ok st' w') (fun _ _ => False) w1.
Proof.
  intros (Hm & Hlen & Tr & Hu) RF R1 T1 U1 F1 S1 S2. apply wp_bind, wp_spec_clock; [done|].
  intros st2 w2 ev2 Hm2 Hb2 T2 B2 U2. apply wp_ret.
  eapply exchange_clock; try done. split; [done|].
  exists (ev ++ [received (socket st) bs]). rewrite T1, Tr, <- app_assoc.
  rewrite faulty_app, F1, !omap_app, S1, S2, U1, Hu. cbn [omap list_omap faulty existsb].
  rewrite R1, received_sync2, RF. split_and!; [done|done|]. right; left. split_and!; done.
Qed.

(** A byte arrives: the prepared byte goes out and the adapter steps. *)
Lemma exchange_sync1 st bs w0 w t :
  arrived st bs w0 w -> link_fault (received (socket st) bs) = false ->
  sync1_of (received (socket st) bs) = Some (b2 (packet_of_bytes bs)) ->
  wp (spec_transfer st (Demand (Some (Packet BGB_CMD_SYNC2 (byte st) 0x80 0 0))
        (Some (b2 (packet_of_bytes bs))) (Some t)))
     (fun '(ok, st') w' => exchange st w0 ok st' w') (fun _ _ => False) w.
Proof.
  intros Harr RF R1. pose proof Harr as (Hm & Hlen & Tr & Hu).
  unfold spec_transfer. cbn [d_reply d_transfer d_time]. apply wp_bind, wp_bgb_send.
  - intros w1 T1 U1. cbn [negb]. pose proof Hm as [Ht Hc]. rewrite Ht.
    apply wp_bind, wp_bind. unfold mealy_transfer. apply wp_bind, wp_get_user.
    destruct (f (fst (w_user w1)) (b2 (packet_of_bytes bs))) as [s' r] eqn:Hf.
    apply wp_bind, wp_put_user, wp_ret, wp_ret, wp_bind, wp_spec_clock; [by split|].
    intros st2 w2 ev Hm2 Hb2 T2 B2 U2. apply wp_ret.
    eapply exchange_clock; try done. split; [by split|].
    exists [sent8 (socket st) (Packet BGB_CMD_SYNC2 (byte st) 0x80 0 0); received (socket st) bs].
    simpl w_trace. rewrite T1, Tr. unfold faulty. cbn [existsb omap list_omap].
    rewrite R1, received_sync2, RF, sent8_sync1, sent8_sync2, sent8_fault. split_and!; [done|done|].
    right; right. split; [done|]. exists (b2 (packet_of_bytes bs)). split_and!; [done|done|].
    simpl. rewrite <- Hu, <- U1. done.
  - intros w1 ev T1 U1 F1 S1 S2. apply wp_ret. eapply exchange_fault; try done.
    by rewrite faulty_app, F1.
Qed.

Lemma exchange_handle st bs w0 w :
  arrived st bs w0 w ->
  wp (spec_handle st (packet_of_bytes bs))
     (fun '(ok, st') w' => exchange st w0 ok st' w') (fun _ _ => False) w.
Proof.
  intros Harr. pose proof Harr as (_ & Hlen & _). set (p := packet_of_bytes bs).
  pose proof (received_sync1 (socket st) bs Hlen) as R1.
  pose proof (received_fault (socket st) bs Hlen) as RF. fold p in R1, RF.
  unfold spec_handle. destruct (demand_of (byte st) p) as [d|] eqn:Hd.
  2: { hnf. apply (exchange_fault _ _ _ _ _ [EvErr (unknown_command p)] Harr); try done.
       unfold faulty. cbn [existsb app]. rewrite RF.
       by rewrite bool_decide_eq_true_2 by (by apply (demand_none_out (byte st))). }
  rewrite bool_decide_eq_false_2 in RF.
  2: { intros Hn. apply (demand_none_out (byte st)) in Hn. congruence. }
  fold (spec_transfer st d). unfold demand_of in Hd.
  destruct (Z.eqb_spec (cmd p) BGB_CMD_SYNC1) as [E1|E1].
  { simplify_eq. by apply exchange_sync1. }
  destruct (Z.eqb_spec (cmd p) BGB_CMD_SYNC3) as [E3|E3].
  2: { destruct (bool_decide _); simplify_eq. by eapply (exchange_idle _ _ _ _ _ []). }
  simplify_eq. unfold spec_transfer. cbn [d_reply d_transfer d_time].
  destruct (b2 p =? 0); [|by eapply (exchange_idle _ _ _ _ _ [])].
  apply wp_bind, wp_bgb_send.
  - intros w1 T1 U1. eapply (exchange_idle _ _ _ _ _ [sent8 (socket st) p]); try done.
    cbn [omap list_omap]. rewrite sent8_sync2. by rewrite E3.
  - intros w1 ev T1 U1 F1 S1 S2. apply wp_ret. eapply exchange_fault; try done.
    by rewrite faulty_app, F1.
Qed.

Lemma exchange_loop st w :
  mealy_link st ->
  wp (bgb_loop st) (fun '(ok, st') w' => exchange st w ok st' w') (fun _ _ => False) w.
Proof.
  intros Hm. unfold wp. rewrite bgb_loop_spec_loop. fold (wp (spec_loop st)
    (fun '(ok, st') w' => exchange st w ok st' w') (fun _ _ => False) w).
  apply wp_bind, (wp_emits boring); [apply boring_hasdata|].
  intros has w1 (ev & T1 & B1 & U1). pose proof (boring_bytes _ B1) as (S1 & S2 & S3).
  destruct (has <=? 0).
  { apply wp_ret. split; [done|]. exists ev. rewrite S1, S2, S3, U1.
    split_and!; [done|done|]. right; left. by split_and!. }
  apply wp_bind, wp_bgb_recv.
  - intros bs w2 L2 _ T2 U2. eapply wp_mono; [by apply exchange_handle|simpl|done].
    intros [ok st'] w' Hx. by eapply exchange_boring.
  - intros w2 ev2 T2 U2 F2 X1 X2. apply wp_ret.
    eapply exchange_boring; [done..|]. split; [done|]. exists ev2.
    rewrite F2, X1, X2, U2. split_and!; [done|done|]. left. split_and!; auto.
Qed.

(** C3: the serial line is a one-byte pipeline, over any number of packets and
    whatever the kernel does.  Running [bgb_loop] repeatedly with an adapter
    that maps each byte to the next answer, the bytes answered (SYNC2) are the
    byte prepared initially followed by the adapter's answers to the bytes
    received (SYNC1), one answer per byte and in order; the adapter has seen
    exactly those bytes.  The run ends early exactly when the trace shows a
    fault, and then at most the last byte received was not answered. *)
Theorem serial_pipeline n (st : bgb_state (S * Z)) (w : world (S * Z)) (Hm : mealy_link st) :
  wp (bgb_run n st)
     (fun '(ok, st') w' => exists ev rx, w_trace w' = ev ++ w_trace w /\
        pipeline f (fst (w_user w)) (byte st) rx
          = (fst (w_user w'), byte st', sync2_bytes ev) /\
        faulty ev = negb ok /\
        (sync1_bytes ev = rx \/ (ok = false /\ exists c, sync1_bytes ev = rx ++ [c])))
     (fun _ _ => False) w.
Proof.
  revert st w Hm. induction n as [|n IH]; intros st w Hm; simpl.
  { apply wp_ret. exists [], []. split_and!; try done. by left. }
  apply wp_bind. eapply wp_mono; [by apply exchange_loop|simpl|done].
  intros [ok st1] w1 [Hm1 (ev1 & T1 & F1 & Hx)].
  assert (ok = false \/ pipeline f (fst (w_user w)) (byte st) (sync1_bytes ev1)
      = (fst (w_user w1), byte st1, sync2_bytes ev1)) as Hpipe.
  { unfold sync1_bytes, sync2_bytes, pipeline.
    destruct Hx as [(-> & _)|[(-> & -> & -> & -> & ->)|(-> & c & -> & -> & Hf)]]; [by left|right..].
    - done.
    - simpl. rewrite Hf. done. }
  destruct ok; simpl.
  - destruct Hpipe as [|Hpipe]; [done|].
    eapply wp_mono; [by apply IH|simpl|done].
    intros [ok st2] w2 (ev2 & rx2 & T2 & P2 & F2 & X2).
    exists (ev2 ++ ev1), (sync1_bytes ev1 ++ rx2). split_and!.
    + by rewrite T2, T1, app_assoc.
    + unfold pipeline in *. rewrite foldl_app, Hpipe, sync2_bytes_app.
      apply pipe_shift. done.
    + by rewrite faulty_app, F1, F2, orb_false_r.
    + rewrite sync1_bytes_app. destruct X2 as [-> | (-> & c & ->)]; [by left|right].
      split; [done|]. exists c. by rewrite app_assoc.
  - apply wp_ret. exists ev1, []. destruct Hx as [(_ & -> & -> & H2 & H1)|[(? & _)|(? & _)]];
      [|done|done].
    unfold sync2_bytes, sync1_bytes. rewrite H2. split_and!; try done.
    destruct H1 as [-> | [c ->]]; [by left|right]. eauto.
Qed.
End Pipeline.

(** ** Witnesses *)

Section Witnesses.
Import SimInstances.

Definition wire (p : bgb_packet) : list Z := packet_bytes p.

(** An emulator that completes the handshake. *)
Definition demo_handshake : sim :=
  Sim {[ 3 := 2 ]} [] [wire handshake; wire (Packet BGB_CMD_STATUS 1 0 0 77)] None
    SOCK_STREAM [] None None.


(** An adapter that counts the bytes and answers with their running sum. *)
Definition demo_adapter (s : Z) (c : Z) : Z * Z := (u8 (s + c), u8 (s + c)).

Definition demo_state : bgb_state (Z * Z) :=
  BgbState 3 0xD2 (Some (mealy_transfer demo_adapter)) (Some store_clock) 0 false.

Definition demo_bytes : sim :=
  Sim {[ 3 := 2 ]} []
    [wire (Packet BGB_CMD_SYNC1 5 0x81 0 100); wire (Packet BGB_CMD_SYNC3 0 0 0 200);
     wire (Packet BGB_CMD_SYNC1 6 0x81 0 300); wire (Packet BGB_CMD_SYNC1 7 0x81 0 400)]
    None SOCK_STREAM [] None None.

Lemma serial_pipeline_witness :
  let w := sim_world demo_bytes (0, 0) in
  wp (bgb_run 4 demo_state)
     (fun '(ok, st') w' => exists ev rx, w_trace w' = ev ++ w_trace w /\
        pipeline demo_adapter (fst (w_user w)) (byte demo_state) rx
          = (fst (w_user w'), byte st', sync2_bytes ev) /\
        faulty ev = negb ok /\
        (sync1_bytes ev = rx \/ (ok = false /\ exists c, sync1_bytes ev = rx ++ [c])))
     (fun _ _ => False) w /\
  sync2_bytes (w_trace (snd (bgb_run 4 demo_state w))) = [0xD2; 5; 11] /\
  w_user (snd (bgb_run 4 demo_state w)) = (18, 400).
Proof.
  intros w. split_and!; [|vm_compute; reflexivity|vm_compute; reflexivity].
  apply (serial_pipeline demo_adapter 4 demo_state w). split; reflexivity.
Defined.
End Witnesses.
