(* ===== verification/Libmobile.v ===== *)
(** * The interface of the libmobile library

    libmobile is a library outside this repository: its constants, its types
    where the program only passes them on, and its functions are parameters,
    the class [Libmobile].  A library function that may call back into the
    program is a [cbprog]: a program over the callbacks that
    [mobile_def_*] registers, which ends with a result after finitely many of
    them. *)

From S2P Require Import Prelude CInt CLib.

(** ** Enumerations and addresses; [_other] stands for every value that the
    program does not name. *)

Inductive mobile_socktype :=
| MOBILE_SOCKTYPE_TCP
| MOBILE_SOCKTYPE_UDP
| MOBILE_SOCKTYPE_other (v : Z).

Inductive mobile_addrtype :=
| MOBILE_ADDRTYPE_IPV4
| MOBILE_ADDRTYPE_IPV6
| MOBILE_ADDRTYPE_other (v : Z).

Inductive mobile_number :=
| MOBILE_NUMBER_USER
| MOBILE_NUMBER_PEER
| MOBILE_NUMBER_other (v : Z).

(** [struct mobile_addr], which the program casts to [mobile_addr4] or
    [mobile_addr6] according to its type; both have a port and a host. *)
Record mobile_addr := MobileAddr {
  addr_type : mobile_addrtype;
  addr_port : Z;
  addr_host : list Z
}.

(** What [mobile_inet_pton] recognises. *)
Inductive pton_result :=
| MOBILE_INET_PTON_IPV4 (ip : list Z)
| MOBILE_INET_PTON_IPV6 (ip : list Z)
| MOBILE_INET_PTON_none.

#[global] Instance mobile_addrtype_eq_dec : EqDecision mobile_addrtype.
Proof. solve_decision. Defined.
#[global] Instance mobile_socktype_eq_dec : EqDecision mobile_socktype.
Proof. solve_decision. Defined.
#[global] Instance mobile_number_eq_dec : EqDecision mobile_number.
Proof. solve_decision. Defined.
#[global] Instance mobile_addr_eq_dec : EqDecision mobile_addr.
Proof. solve_decision. Defined.

(** ** Callbacks *)

Inductive callback :=
| CbDebugLog (line : string)
| CbConfigRead (offset size : Z)
| CbConfigWrite (src : list Z) (offset : Z)
| CbTimeLatch (timer : nat)
| CbTimeCheckMs (timer : nat) (ms : Z)
| CbSockOpen (conn : nat) (type : mobile_socktype) (addrtype : mobile_addrtype) (bindport : Z)
| CbSockClose (conn : nat)
| CbSockConnect (conn : nat) (addr : option mobile_addr)
| CbSockListen (conn : nat)
| CbSockAccept (conn : nat)
| CbSockSend (conn : nat) (data : list Z) (addr : option mobile_addr)
| CbSockRecv (conn : nat) (data : bool) (size : Z) (addr : option mobile_addr)
| CbUpdateNumber (type : mobile_number) (number : option string).

(** What the library gets back: the return value and what was stored through
    the pointers it passed. *)
Definition cbres (c : callback) : Type :=
  match c with
  | CbDebugLog _ | CbTimeLatch _ | CbSockClose _ | CbUpdateNumber _ _ => unit
  | CbConfigRead _ _ => bool * list Z
  | CbConfigWrite _ _ | CbTimeCheckMs _ _ | CbSockOpen _ _ _ _
  | CbSockListen _ | CbSockAccept _ => bool
  | CbSockConnect _ _ | CbSockSend _ _ _ => Z
  | CbSockRecv _ _ _ _ => Z * list Z * option mobile_addr
  end.

Inductive cbprog (R : Type) : Type :=
| CbRet (r : R)
| CbCall (c : callback) (k : cbres c -> cbprog R).
Arguments CbRet {R} r.
Arguments CbCall {R} c k.

Fixpoint cb_bind {A B} (p : cbprog A) (f : A -> cbprog B) : cbprog B :=
  match p with
  | CbRet a => f a
  | CbCall c k => CbCall c (fun r => cb_bind (k r) f)
  end.

(** ** The library *)

Class Libmobile := {
  adapter : Type;
  MOBILE_MAX_CONNECTIONS : nat;
  MOBILE_MAX_TIMERS : nat;
  MOBILE_MAX_NUMBER_SIZE : nat;
  MOBILE_CONFIG_SIZE : Z;
  MOBILE_RELAY_TOKEN_SIZE : nat;
  MOBILE_SERIAL_IDLE_BYTE : Z;
  MOBILE_DNS_PORT : Z;
  MOBILE_DEFAULT_P2P_PORT : Z;
  MOBILE_DEFAULT_RELAY_PORT : Z;
  MOBILE_ADAPTER_BLUE : Z;
  MOBILE_ACTION_NONE : Z;
  MOBILE_ACTION_RESET_SERIAL : Z;
  MOBILE_DNS1 : Z;
  MOBILE_DNS2 : Z;
  sizeof_host4 : nat;
  sizeof_host6 : nat;
  addr_zero : mobile_addr;   (** [struct mobile_addr x = {0}] *)
  mobile_new : option adapter;   (** [None]: the null pointer *)
  mobile_start : adapter -> cbprog adapter;
  mobile_stop : adapter -> cbprog adapter;
  mobile_transfer : adapter -> Z -> cbprog (Z * adapter);
  mobile_actions_get : adapter -> cbprog (Z * adapter);
  mobile_actions_process : adapter -> Z -> cbprog adapter;
  mobile_config_load : adapter -> cbprog adapter;
  mobile_config_save : adapter -> cbprog adapter;
  mobile_config_set_device : adapter -> Z -> bool -> cbprog adapter;
  mobile_config_set_dns : adapter -> mobile_addr -> Z -> cbprog adapter;
  mobile_config_set_p2p_port : adapter -> Z -> cbprog adapter;
  mobile_config_set_relay : adapter -> mobile_addr -> cbprog adapter;
  mobile_config_set_relay_token : adapter -> option (list Z) -> cbprog adapter;
  mobile_inet_pton : string -> pton_result
}.

(** Facts about the library's headers that the program's own size checks rely
    on: a host of a [mobile_addr4]/[mobile_addr6] is as long as an IPv4/IPv6
    address, phone numbers are short, the defaults are unsigned numbers, and a
    zeroed address names no address family. *)
Class LibmobileLaws (L : Libmobile) : Prop := {
  law_host4 : sizeof_host4 = 4%nat;
  law_host6 : sizeof_host6 = 16%nat;
  law_number_size : (MOBILE_MAX_NUMBER_SIZE <= 64)%nat;
  law_defaults : is_u32 MOBILE_ADAPTER_BLUE /\ is_u32 MOBILE_DNS_PORT /\
                 is_u32 MOBILE_DEFAULT_P2P_PORT;
  law_addr_zero : exists v, addr_type addr_zero = MOBILE_ADDRTYPE_other v;
  law_pton4 s ip : mobile_inet_pton s = MOBILE_INET_PTON_IPV4 ip -> (4 <= length ip)%nat;
  law_pton6 s ip : mobile_inet_pton s = MOBILE_INET_PTON_IPV6 ip -> (16 <= length ip)%nat
}.

(** ** A toy library

    A small instance for runs that evaluate: it opens one connection when its
    pending action is processed and closes it when stopped. *)

Definition toy_stop (a : Z) : cbprog Z :=
  if a =? 2 then CbCall (CbSockClose 0) (fun _ => CbRet 0) else CbRet 0.

Definition toy_process (a act : Z) : cbprog Z :=
  if a =? 2 then CbRet a else
  CbCall (CbTimeLatch 0) (fun _ =>
  CbCall (CbSockOpen 0 MOBILE_SOCKTYPE_TCP MOBILE_ADDRTYPE_IPV4 1027) (fun ok =>
  CbRet (if ok : bool then 2 else a))).

Definition toy_pton (s : string) : pton_result :=
  if String.eqb s "127.0.0.1" then MOBILE_INET_PTON_IPV4 [127; 0; 0; 1]
  else if String.eqb s "::1" then MOBILE_INET_PTON_IPV6 (replicate 15 0 ++ [1])
  else MOBILE_INET_PTON_none.

Definition toy_mobile : Libmobile := {|
  adapter := Z;
  MOBILE_MAX_CONNECTIONS := 2;
  MOBILE_MAX_TIMERS := 4;
  MOBILE_MAX_NUMBER_SIZE := 8;
  MOBILE_CONFIG_SIZE := 16;
  MOBILE_RELAY_TOKEN_SIZE := 4;
  MOBILE_SERIAL_IDLE_BYTE := 0xD2;
  MOBILE_DNS_PORT := 53;
  MOBILE_DEFAULT_P2P_PORT := 1027;
  MOBILE_DEFAULT_RELAY_PORT := 31227;
  MOBILE_ADAPTER_BLUE := 8;
  MOBILE_ACTION_NONE := 0;
  MOBILE_ACTION_RESET_SERIAL := 4;
  MOBILE_DNS1 := 0;
  MOBILE_DNS2 := 1;
  sizeof_host4 := 4;
  sizeof_host6 := 16;
  addr_zero := MobileAddr (MOBILE_ADDRTYPE_other 0) 0 [];
  mobile_new := Some 0;
  mobile_start := fun a => CbRet (if a =? 2 then 2 else 1);
  mobile_stop := toy_stop;
  mobile_transfer := fun a c => CbRet (u8 (c + 1), a);
  mobile_actions_get := fun a => CbRet (if a =? 1 then 6 else 4, a);
  mobile_actions_process := toy_process;
  mobile_config_load := fun a => CbCall (CbConfigRead 0 16) (fun _ => CbRet a);
  mobile_config_save := fun a => CbCall (CbConfigWrite [77; 65] 0) (fun _ => CbRet a);
  mobile_config_set_device := fun a _ _ => CbRet a;
  mobile_config_set_dns := fun a _ _ => CbRet a;
  mobile_config_set_p2p_port := fun a _ => CbRet a;
  mobile_config_set_relay := fun a _ => CbRet a;
  mobile_config_set_relay_token := fun a _ => CbRet a;
  mobile_inet_pton := toy_pton
|}.

Lemma toy_laws : LibmobileLaws toy_mobile.
Proof.
  split; try done.
  - simpl; lia.
  - by exists 0.
  - intros s ip. cbn. unfold toy_pton. repeat case_match; intros; simplify_eq; simpl; lia.
  - intros s ip. cbn. unfold toy_pton. repeat case_match; intros; simplify_eq; simpl; lia.
Qed.

Module ToyInstances.
#[export] Existing Instance toy_mobile.
#[export] Existing Instance toy_laws.
End ToyInstances.
