(* ===== verification/SocketImpl.v ===== *)
(** * socket_impl.c: libmobile's sockets

    The table of sockets the library's connections use, and the operations on
    it. *)

From S2P Require Import Prelude CInt CLib Sys Hoare SimKernel Socket Libmobile.

Section SocketImpl.
Context `{K : Kernel} `{Libc} `{Host} `{L : Libmobile} {U : Type}.

Record socket_impl := SocketImplState { sockets : list Z }.

(** [state->sockets[conn]]; reading outside the array is undefined. *)
Definition get_slot (state : socket_impl) (conn : nat) : M U Z :=
  match sockets state !! conn with
  | Some s => ret s
  | None => halt StUB
  end.

(** [state->sockets[conn] = s]; every function that does this has read the same
    slot before, so it exists. *)
Definition set_slot (state : socket_impl) (conn : nat) (s : Z) : socket_impl :=
  SocketImplState (<[conn := s]> (sockets state)).

(** The loop from index [i] on, with [n] iterations left. *)
Fixpoint init_loop (n i : nat) (socks : list Z) : M U (list Z) :=
  match n with
  | O => ret socks
  | S n => let* socks := store socks i INVALID_SOCKET in init_loop n (S i) socks
  end.

Definition socket_impl_init (state : socket_impl) : M U socket_impl :=
  let* socks := init_loop MOBILE_MAX_CONNECTIONS 0 (sockets state) in
  ret (SocketImplState socks).

Fixpoint stop_loop (socks : list Z) : M U unit :=
  match socks with
  | [] => ret tt
  | s :: socks =>
    (if negb (s =? INVALID_SOCKET) then socket_close s else ret tt) ;;;
    stop_loop socks
  end.

(** The loop covers [MOBILE_MAX_CONNECTIONS] slots, all there are; the slots
    keep their values. *)
Definition socket_impl_stop (state : socket_impl) : M U unit :=
  stop_loop (take MOBILE_MAX_CONNECTIONS (sockets state)).

(** The address, and [*addrlen]: [None] where the function returns without
    setting it. *)
Definition convert_sockaddr (addr : option mobile_addr) : option sockaddr * option Z :=
  match addr with
  | None => (None, Some 0)
  | Some addr =>
    match addr_type addr with
    | MOBILE_ADDRTYPE_IPV4 =>
      if negb (4 =? sizeof_host4)%nat then (None, None)
      else (Some (SockIn (htons (addr_port addr)) (take 4 (addr_host addr))),
            Some sizeof_sockaddr_in)
    | MOBILE_ADDRTYPE_IPV6 =>
      if negb (16 =? sizeof_host6)%nat then (None, None)
      else (Some (SockIn6 (htons (addr_port addr)) (take 16 (addr_host addr))),
            Some sizeof_sockaddr_in6)
    | MOBILE_ADDRTYPE_other _ => (None, Some 0)
    end
  end.

(** Passing an indeterminate length on is undefined. *)
Definition determinate (len : option Z) : M U Z :=
  match len with
  | Some l => ret l
  | None => halt StUB
  end.

(** The wildcard address [socket_impl_open] binds to, and its size. *)
Definition bind_addr (addrtype : mobile_addrtype) (bindport : Z) : sockaddr * Z :=
  match addrtype with
  | MOBILE_ADDRTYPE_IPV4 => (SockIn (htons bindport) (replicate 4 0), sizeof_sockaddr_in)
  | _ => (SockIn6 (htons bindport) (replicate 16 0), sizeof_sockaddr_in6)
  end.

Definition socket_impl_open (state : socket_impl) (conn : nat) (type : mobile_socktype)
    (addrtype : mobile_addrtype) (bindport : Z) : M U (bool * socket_impl) :=
  let* s := get_slot state conn in
  c_assert (s =? INVALID_SOCKET) ;;;
  let* sock_type :=
    (match type with
     | MOBILE_SOCKTYPE_TCP => ret SOCK_STREAM
     | MOBILE_SOCKTYPE_UDP => ret SOCK_DGRAM
     | MOBILE_SOCKTYPE_other _ => halt StAbort
     end) in
  let* sock_addrtype :=
    (match addrtype with
     | MOBILE_ADDRTYPE_IPV4 => ret AF_INET
     | MOBILE_ADDRTYPE_IPV6 => ret AF_INET6
     | MOBILE_ADDRTYPE_other _ => halt StAbort
     end) in
  let* sock := c_socket sock_addrtype sock_type 0 in
  if sock =? INVALID_SOCKET then
    socket_perror (Some "socket") ;;; ret (false, state)
  else
  let* rc := socket_setblocking sock false in
  if rc =? -1 then
    socket_close sock ;;; ret (false, state)
  else
  (* Set SO_REUSEADDR so that we can bind to the same port again after *)
  let* rc := c_setsockopt sock SOL_SOCKET SO_REUSEADDR 1 in
  if rc =? SOCKET_ERROR then
    socket_perror (Some "setsockopt") ;;; socket_close sock ;;; ret (false, state)
  else
  (* Set TCP_NODELAY to aid sending packets inmediately, reducing latency *)
  let* rc := (if bool_decide (type = MOBILE_SOCKTYPE_TCP)
              then c_setsockopt sock IPPROTO_TCP TCP_NODELAY 1 else ret 0) in
  if rc =? SOCKET_ERROR then
    socket_perror (Some "setsockopt") ;;; socket_close sock ;;; ret (false, state)
  else
  let '(addr, len) := bind_addr addrtype bindport in
  let* rc := c_bind sock addr len in
  if rc =? SOCKET_ERROR then
    socket_perror (Some "bind") ;;; socket_close sock ;;; ret (false, state)
  else
  ret (true, set_slot state conn sock).

Definition socket_impl_close (state : socket_impl) (conn : nat) : M U socket_impl :=
  let* s := get_slot state conn in
  c_assert (negb (s =? INVALID_SOCKET)) ;;;
  socket_close s ;;;
  ret (set_slot state conn INVALID_SOCKET).

(** The slot's socket, asserted to be open. *)
Definition open_slot (state : socket_impl) (conn : nat) : M U Z :=
  let* sock := get_slot state conn in
  c_assert (negb (sock =? INVALID_SOCKET)) ;;;
  ret sock.

Definition socket_impl_connect (state : socket_impl) (conn : nat) (addr : option mobile_addr)
    : M U Z :=
  let* sock := open_slot state conn in
  let '(sock_addr, len) := convert_sockaddr addr in
  let* sock_addrlen := determinate len in
  (* Try to connect/check if we're connected *)
  let* rc := c_connect sock sock_addr sock_addrlen in
  let* err := socket_geterror in
  if negb (rc =? SOCKET_ERROR) then ret 1 else
  (* If the connection is in progress, try again in a bit. *)
  if (err =? EWOULDBLOCK) || (err =? EINPROGRESS) || (err =? EALREADY) then ret 0 else
  if err =? EISCONN then ret 1 else
  let* '(_, sock_str) := socket_straddr SOCKET_STRADDR_MAXLEN sock_addr in
  socket_seterror err ;;;
  eprint (String.append "Could not connect (" (String.append (default "" sock_str) "): ")) ;;;
  socket_perror None ;;;
  ret (-1).

Definition socket_impl_listen (state : socket_impl) (conn : nat) : M U bool :=
  let* sock := open_slot state conn in
  let* rc := c_listen sock 1 in
  if rc =? SOCKET_ERROR then socket_perror (Some "listen") ;;; ret false
  else ret true.

Definition socket_impl_accept (state : socket_impl) (conn : nat) : M U (bool * socket_impl) :=
  let* sock := open_slot state conn in
  let* has := socket_hasdata sock in
  if has <=? 0 then ret (false, state) else
  let* newsock := c_accept sock in
  if newsock =? INVALID_SOCKET then
    socket_perror (Some "accept") ;;; ret (false, state)
  else
  let* rc := socket_setblocking newsock false in
  if rc =? -1 then ret (false, state) else
  socket_close sock ;;;
  ret (true, set_slot state conn newsock).

Definition socket_impl_send (state : socket_impl) (conn : nat) (data : list Z)
    (addr : option mobile_addr) : M U Z :=
  let* sock := open_slot state conn in
  let '(sock_addr, len) := convert_sockaddr addr in
  let* sock_addrlen := determinate len in
  let* len := c_sendto sock data sock_addr sock_addrlen in
  if len =? SOCKET_ERROR then
    (* If the socket is blocking, we just haven't sent anything *)
    let* err := socket_geterror in
    if err =? EWOULDBLOCK then ret 0 else
    socket_perror (Some "send") ;;; ret (-1)
  else ret (i32 len).

(** Writing the sender's address through [addr], when it is not null and the
    kernel reported one. *)
Definition store_addr (addr : option mobile_addr) (from : option sockaddr) : option mobile_addr :=
  match addr, from with
  | Some _, Some (SockIn port host) =>
    Some (MobileAddr MOBILE_ADDRTYPE_IPV4 (ntohs port) (take sizeof_host4 host))
  | Some _, Some (SockIn6 port host) =>
    Some (MobileAddr MOBILE_ADDRTYPE_IPV6 (ntohs port) (take sizeof_host6 host))
  | _, _ => addr
  end.

(** [data]: whether the pointer is not null.  The result: the return value,
    the bytes stored through [data] and what [*addr] holds then. *)
Definition socket_impl_recv (state : socket_impl) (conn : nat) (data : bool) (size : Z)
    (addr : option mobile_addr) : M U (Z * list Z * option mobile_addr) :=
  let* sock := open_slot state conn in
  (* Make sure at least one byte is in the buffer *)
  let* has := socket_hasdata sock in
  if has <=? 0 then ret (0, [], addr) else
  let* '(len, bs, from) :=
    (if data then c_recvfrom sock size 0 else c_recvfrom sock 1 MSG_PEEK) in
  let stored := if data then bs else [] in
  if len =? SOCKET_ERROR then
    let* err := socket_geterror in
    if err =? EWOULDBLOCK then ret (0, [], addr) else
    socket_perror (Some "recv") ;;; ret (-1, [], addr)
  else
  (* A length of 0 will be returned if the remote has disconnected. *)
  let* closed :=
    (if len =? 0 then
       let* '(rc, sock_type) := c_getsockopt sock SOL_SOCKET SO_TYPE 0 in
       if rc =? SOCKET_ERROR then socket_perror (Some "getsockopt") ;;; ret (Some (-1))
       else if sock_type =? SOCK_STREAM then ret (Some (-2)) else ret None
     else ret None) in
  match closed with
  | Some rc => ret (rc, stored, addr)
  | None =>
    if negb data then ret (0, [], addr) else
    ret (i32 len, stored, store_addr addr from)
  end.
End SocketImpl.
