(* ===== verification/SocketImplProofs.v ===== *)
(** * Properties of libmobile's sockets

    The ownership invariant of the socket table, its preservation by every
    operation, and what each operation returns. *)

From S2P Require Import Prelude CInt CLib Sys Hoare SimKernel Socket Libmobile SocketImpl.

(** ** The invariant *)

(** The descriptors the table holds. *)
Definition open_fds (st : socket_impl) : list Z := filter (.≠ INVALID_SOCKET) (sockets st).

(** [base] are the descriptors the rest of the program owns (the link to the
    emulator).  Every slot is closed or holds a descriptor of its own, which is
    open, in non-blocking mode and nobody else's. *)
Record table_ok `{Libmobile} (base : gset Z) (st : socket_impl) (m : gmap Z Z) : Prop := {
  tk_length : length (sockets st) = MOBILE_MAX_CONNECTIONS;
  tk_distinct : NoDup (open_fds st);
  tk_owned s : (s ∈ open_fds st) ->
    0 <= s /\ (s ∉ base) /\ exists fl, (m !! s = Some fl) /\ nonblocking fl;
  tk_base : base ⊆ dom m
}.

(** No descriptor is open that neither the table nor the rest of the program
    knows. *)
Definition no_leak (base : gset Z) (st : socket_impl) (m : gmap Z Z) : Prop :=
  dom m = base ∪ list_to_set (open_fds st).

(** ** Slots as lists *)

Lemma open_fds_lookup st (i : nat) s :
  sockets st !! i = Some s -> s <> -1 -> s ∈ open_fds st.
Proof.
  intros Hi Hs. apply list_elem_of_filter. split; [done|]. by eapply list_elem_of_lookup_2.
Qed.

Lemma open_fds_split st (conn : nat) old s :
  sockets st !! conn = Some old ->
  exists l1 l2, sockets st = l1 ++ old :: l2 /\ length l1 = conn /\
    open_fds (set_slot st conn s)
      = filter (.≠ INVALID_SOCKET) l1 ++ filter (.≠ INVALID_SOCKET) (s :: l2) /\
    open_fds st = filter (.≠ INVALID_SOCKET) l1 ++ filter (.≠ INVALID_SOCKET) (old :: l2).
Proof.
  intros Hc. destruct (list_elem_of_split_length _ _ _ Hc) as (l1 & l2 & Hl & Hn).
  exists l1, l2. split_and!; [done|done| |].
  - unfold open_fds, set_slot; simpl. rewrite Hl, Hn.
    rewrite insert_app_r_alt, Nat.sub_diag by done. simpl. apply list_basics.list.filter_app.
  - unfold open_fds. rewrite Hl. apply list_basics.list.filter_app.
Qed.

(** Opening a closed slot adds the descriptor; closing an open one removes it. *)
Lemma open_fds_open st (conn : nat) s :
  sockets st !! conn = Some INVALID_SOCKET -> s <> -1 ->
  open_fds (set_slot st conn s) ≡ₚ s :: open_fds st.
Proof.
  intros Hc Hs. destruct (open_fds_split st conn _ s Hc) as (l1 & l2 & _ & _ & -> & ->).
  rewrite filter_cons_True, filter_cons_False by naive_solver.
  by rewrite Permutation_middle.
Qed.

Lemma open_fds_close st (conn : nat) s :
  sockets st !! conn = Some s -> s <> -1 ->
  open_fds st ≡ₚ s :: open_fds (set_slot st conn INVALID_SOCKET).
Proof.
  intros Hc Hs. destruct (open_fds_split st conn _ INVALID_SOCKET Hc)
    as (l1 & l2 & _ & _ & -> & ->).
  rewrite filter_cons_True, filter_cons_False by naive_solver.
  by rewrite Permutation_middle.
Qed.

Lemma open_fds_replace st (conn : nat) s s' :
  sockets st !! conn = Some s -> s <> -1 -> s' <> -1 ->
  exists rest, open_fds st ≡ₚ s :: rest /\ open_fds (set_slot st conn s') ≡ₚ s' :: rest.
Proof.
  intros Hc Hs Hs'. destruct (open_fds_split st conn _ s' Hc) as (l1 & l2 & _ & _ & -> & ->).
  exists (filter (.≠ INVALID_SOCKET) l1 ++ filter (.≠ INVALID_SOCKET) l2).
  rewrite !filter_cons_True by done. by rewrite <- !Permutation_middle.
Qed.

Lemma length_set_slot st conn s : length (sockets (set_slot st conn s)) = length (sockets st).
Proof. apply length_insert. Qed.

(** ** The invariant under changes of the kernel's table *)

Section Table.
Context `{L : Libmobile}.

Lemma table_ok_open base st m conn fd fl :
  table_ok base st m -> sockets st !! conn = Some INVALID_SOCKET ->
  0 <= fd -> m !! fd = None -> nonblocking fl ->
  table_ok base (set_slot st conn fd) (<[fd := fl]> m).
Proof.
  intros [Hl Hd Ho Hb] Hc Hfd Hm Hfl.
  assert (fd ∉ open_fds st) as Hnew.
  { intros Hin. destruct (Ho _ Hin) as (_ & _ & ? & ? & _). congruence. }
  assert (fd ∉ base) as Hnb.
  { intros Hin%Hb. apply elem_of_dom in Hin as [? ?]. congruence. }
  split.
  - by rewrite length_set_slot.
  - rewrite open_fds_open by (done || lia). by constructor.
  - intros s. rewrite open_fds_open by (done || lia).
    intros [->|Hs]%elem_of_cons.
    + split_and!; [done|done|]. exists fl. by rewrite lookup_insert_eq.
    + rewrite lookup_insert_ne by set_solver. auto.
  - rewrite dom_insert_L. set_solver.
Qed.

Lemma table_ok_close base st m conn s :
  table_ok base st m -> sockets st !! conn = Some s -> s <> -1 ->
  table_ok base (set_slot st conn INVALID_SOCKET) (delete s m).
Proof.
  intros [Hl Hd Ho Hb] Hc Hs. pose proof (open_fds_close st conn s Hc Hs) as Hp.
  rewrite Hp in Hd. apply NoDup_cons_inv in Hd as [Hnin Hd].
  split.
  - by rewrite length_set_slot.
  - done.
  - intros s' Hs'. rewrite lookup_delete_ne by set_solver.
    apply Ho. rewrite Hp. by right.
  - rewrite dom_delete_L. assert (s ∉ base) by (apply Ho; rewrite Hp; left). set_solver.
Qed.

(** A descriptor nobody accounts for does not disturb the others. *)
Lemma table_ok_extra base st m fd fl :
  table_ok base st m -> m !! fd = None -> table_ok base st (<[fd := fl]> m).
Proof.
  intros [Hl Hd Ho Hb] Hm. split; [done|done| |rewrite dom_insert_L; set_solver].
  intros s Hs. destruct (Ho s Hs) as (? & ? & fl' & Hfl & ?). split_and!; [done|done|].
  exists fl'. rewrite lookup_insert_ne; [done|congruence].
Qed.

Lemma no_leak_open base st m conn fd fl :
  no_leak base st m -> sockets st !! conn = Some INVALID_SOCKET -> 0 <= fd ->
  no_leak base (set_slot st conn fd) (<[fd := fl]> m).
Proof.
  unfold no_leak. intros Hn Hc Hfd. rewrite dom_insert_L, Hn.
  rewrite (list_to_set_perm_L _ _ (open_fds_open st conn fd Hc ltac:(lia))). set_solver.
Qed.

Lemma no_leak_close base st m conn s :
  table_ok base st m -> no_leak base st m -> sockets st !! conn = Some s -> s <> -1 ->
  no_leak base (set_slot st conn INVALID_SOCKET) (delete s m).
Proof.
  unfold no_leak. intros [Hl Hd Ho Hb] Hn Hc Hs.
  pose proof (open_fds_close st conn s Hc Hs) as Hp.
  assert (s ∉ base) by (apply Ho; rewrite Hp; left).
  rewrite Hp in Hd. apply NoDup_cons_inv in Hd as [Hnin Hd].
  rewrite dom_delete_L, Hn, (list_to_set_perm_L _ _ Hp). set_solver.
Qed.

(** Accepting: the new descriptor takes the slot of the one that is closed. *)
Lemma table_ok_replace base st m conn s fd fl :
  table_ok base st m -> sockets st !! conn = Some s -> s <> -1 ->
  0 <= fd -> m !! fd = None -> nonblocking fl ->
  table_ok base (set_slot st conn fd) (delete s (<[fd := fl]> m)).
Proof.
  intros Hok Hc Hs Hfd Hm Hfl.
  assert (s <> fd) as Hne.
  { destruct (tk_owned _ _ _ Hok s) as (_ & _ & ? & ? & _); [by eapply open_fds_lookup|].
    congruence. }
  pose proof (table_ok_close _ _ _ _ _ Hok Hc Hs) as Hclosed.
  assert (sockets (set_slot st conn INVALID_SOCKET) !! conn = Some INVALID_SOCKET) as Hc'.
  { apply list_lookup_insert_eq. by eapply lookup_lt_Some. }
  pose proof (table_ok_open _ _ _ conn fd fl Hclosed Hc' Hfd) as Hopen.
  rewrite delete_insert_ne by done.
  replace (set_slot st conn fd) with (set_slot (set_slot st conn INVALID_SOCKET) conn fd).
  - apply Hopen; [|done]. by rewrite lookup_delete_ne.
  - unfold set_slot; simpl. by rewrite list_insert_insert_eq.
Qed.
End Table.

(** ** The operations *)

Section Operations.
Context `{K : Kernel} `{!KernelLaws K} `{Libc} `{Host} `{L : Libmobile} {U : Type}.

Lemma wp_get_slot st (conn : nat) s Q E (w : world U) :
  sockets st !! conn = Some s -> Q s w -> wp (get_slot st conn) Q E w.
Proof. intros Hs HQ. unfold get_slot. by rewrite Hs. Qed.

Lemma wp_open_slot st (conn : nat) s Q E (w : world U) :
  sockets st !! conn = Some s -> s <> -1 -> Q s w -> wp (open_slot st conn) Q E w.
Proof.
  intros Hs Hne HQ. unfold open_slot. apply wp_bind. eapply wp_get_slot; [done|].
  apply wp_bind, wp_assert; intros Hb; [done|].
  apply negb_false_iff, Z.eqb_eq in Hb. done.
Qed.

Lemma setblocking_nonblocking fl : nonblocking (blocking_flags fl false).
Proof. unfold nonblocking. by rewrite blocking_flags_bits. Qed.

(** Everything [socket_impl_open] does after [socket(2)] either keeps the new
    descriptor, non-blocking, or closes it again. *)
Definition open_post (st : socket_impl) (conn : nat) (w : world U)
    (r : bool * socket_impl) (w' : world U) : Prop :=
  let '(ok, st') := r in
  w_user w' = w_user w /\
  if ok then exists fd fl, 0 <= fd /\ fds w !! fd = None /\ nonblocking fl /\
               st' = set_slot st conn fd /\ fds w' = <[fd := fl]> (fds w)
  else st' = st /\ fds w' = fds w.

(** A failing step: print, close the new socket, return [false]. *)
Lemma wp_open_fail st conn (w w1 : world U) fd fl (m : M U unit) E :
  quiet m -> fds w !! fd = None -> fds w1 = <[fd := fl]> (fds w) -> w_user w1 = w_user w ->
  wp (m ;;; socket_close fd ;;; ret (false, st)) (open_post st conn w) E w1.
Proof.
  intros Hm Hfree Hf Hu. apply wp_bind, wp_quiet; [done|]. intros _ w2 [Hf2 Hu2].
  apply wp_bind, wp_socket_close. intros w3 Hf3 Hu3. apply wp_ret.
  split_and!; [congruence|done|]. by rewrite Hf3, Hf2, Hf, delete_insert_id.
Qed.

Lemma wp_socket_impl_open st (conn : nat) type addrtype port E (w : world U) :
  sockets st !! conn = Some INVALID_SOCKET ->
  (forall v, type <> MOBILE_SOCKTYPE_other v) -> (forall v, addrtype <> MOBILE_ADDRTYPE_other v) ->
  wp (socket_impl_open st conn type addrtype port) (open_post st conn w) E w.
Proof.
  intros Hc Ht Ha. unfold socket_impl_open. apply wp_bind. eapply wp_get_slot; [done|].
  apply wp_bind, wp_assert; [intros _|done].
  apply wp_bind, wp_quiet. { destruct type; try apply quiet_ret. by destruct (Ht v). }
  intros sock_type w1 [Hf1 Hu1].
  apply wp_bind, wp_quiet. { destruct addrtype; try apply quiet_ret. by destruct (Ha v). }
  intros sock_addrtype w2 [Hf2 Hu2].
  apply wp_bind, wp_c_socket. intros sock w3 [[-> [Hf3 Hu3]]|(Hge & Hfree & [fl Hf3] & Hu3)].
  { apply wp_bind, wp_quiet; [frame_tac|]. intros _ w4 [Hf4 Hu4]. apply wp_ret.
    split_and!; [congruence|done|congruence]. }
  unfold INVALID_SOCKET at 1. rewrite (proj2 (Z.eqb_neq sock (-1))) by lia.
  assert (fds w !! sock = None) as Hfree' by congruence.
  assert (fds w3 = <[sock := fl]> (fds w)) as Hf3' by congruence.
  assert (w_user w3 = w_user w) as Hu3' by congruence.
  apply wp_bind, wp_socket_setblocking.
  2: { intros w4 [Hf4 Hu4]. simpl.
       apply (wp_open_fail st conn w w4 sock fl (ret tt)); [frame_tac|done|congruence..]. }
  intros w4 fl4 Hfl4 Hf4 Hu4. simpl.
  assert (fds w4 = <[sock := blocking_flags fl4 false]> (fds w)) as Hf4'.
  { by rewrite Hf4, Hf3', insert_insert_eq. }
  assert (w_user w4 = w_user w) as Hu4' by congruence.
  apply wp_bind, wp_quiet; [frame_tac|]. intros rc w5 [Hf5 Hu5].
  destruct (rc =? SOCKET_ERROR);
    [apply (wp_open_fail st conn w w5 sock (blocking_flags fl4 false));
     [frame_tac|done|congruence..]|].
  apply wp_bind, wp_quiet; [frame_tac|]. intros rc' w6 [Hf6 Hu6].
  destruct (rc' =? SOCKET_ERROR);
    [apply (wp_open_fail st conn w w6 sock (blocking_flags fl4 false));
     [frame_tac|done|congruence..]|].
  destruct (bind_addr addrtype port) as [ba len].
  apply wp_bind, wp_quiet; [frame_tac|]. intros rc'' w7 [Hf7 Hu7].
  destruct (rc'' =? SOCKET_ERROR);
    [apply (wp_open_fail st conn w w7 sock (blocking_flags fl4 false));
     [frame_tac|done|congruence..]|].
  apply wp_ret. split; [congruence|].
  exists sock, (blocking_flags fl4 false).
  split_and!; [done|done|apply setblocking_nonblocking|done|congruence].
Qed.

(** C9: opening a connection.  Called as libmobile does (a slot that is not in
    use, a known socket and address type), [socket_impl_open] never aborts and
    always returns; on success the slot holds a fresh non-blocking descriptor
    and nothing else changed; on every failure path the slot and the
    descriptor table are exactly as before (the socket it made is closed
    again).  The ownership invariant and the absence of leaks are preserved. *)
Theorem socket_impl_open_ok base st (conn : nat) type addrtype port (w : world U)
    (Hinv : table_ok base st (fds w)) (Hleak : no_leak base st (fds w))
    (Hslot : sockets st !! conn = Some INVALID_SOCKET)
    (Htype : type = MOBILE_SOCKTYPE_TCP \/ type = MOBILE_SOCKTYPE_UDP)
    (Haddr : addrtype = MOBILE_ADDRTYPE_IPV4 \/ addrtype = MOBILE_ADDRTYPE_IPV6) :
  wp (socket_impl_open st conn type addrtype port)
     (fun '(ok, st') w' => open_post st conn w (ok, st') w' /\
        table_ok base st' (fds w') /\ no_leak base st' (fds w'))
     (fun _ _ => False) w.
Proof.
  eapply wp_post.
  { apply wp_socket_impl_open; [done|intros v ->; by destruct Htype|intros v ->; by destruct Haddr]. }
  intros [[] st'] w' Hp; (split; [done|]); destruct Hp as [_ Hp]; simpl in Hp.
  - destruct Hp as (fd & fl & ? & ? & ? & -> & ->).
    split; [by apply table_ok_open|by apply no_leak_open].
  - destruct Hp as [-> ->]. done.
Qed.

Lemma wp_socket_impl_close st (conn : nat) s Q E (w : world U) :
  sockets st !! conn = Some s -> s <> -1 ->
  (forall w', fds w' = delete s (fds w) -> w_user w' = w_user w ->
     Q (set_slot st conn INVALID_SOCKET) w') ->
  wp (socket_impl_close st conn) Q E w.
Proof.
  intros Hc Hs HQ. unfold socket_impl_close. apply wp_bind. eapply wp_get_slot; [done|].
  apply wp_bind, wp_assert; intros Hb; [|apply negb_false_iff, Z.eqb_eq in Hb; done].
  apply wp_bind, wp_socket_close. intros w' Hf Hu. apply wp_ret. auto.
Qed.

(** C11: closing an open connection closes exactly its descriptor, frees its
    slot, keeps the others, and preserves ownership and the absence of leaks. *)
Theorem socket_impl_close_ok base st (conn : nat) s (w : world U)
    (Hinv : table_ok base st (fds w)) (Hleak : no_leak base st (fds w))
    (Hslot : sockets st !! conn = Some s) (Hopen : s <> INVALID_SOCKET) :
  wp (socket_impl_close st conn)
     (fun st' w' => st' = set_slot st conn INVALID_SOCKET /\ fds w' = delete s (fds w) /\
        w_user w' = w_user w /\ table_ok base st' (fds w') /\ no_leak base st' (fds w'))
     (fun _ _ => False) w.
Proof.
  eapply wp_socket_impl_close; [done..|]. intros w' Hf Hu. rewrite Hf.
  split_and!; [done|done|done|by eapply table_ok_close|by eapply no_leak_close].
Qed.

(** What [socket_impl_accept] may do to the table of descriptors. *)
Definition accept_post (st : socket_impl) (conn : nat) (s : Z) (w : world U)
    (r : bool * socket_impl) (w' : world U) : Prop :=
  let '(ok, st') := r in
  w_user w' = w_user w /\
  if ok then exists fd fl, 0 <= fd /\ fds w !! fd = None /\ nonblocking fl /\
               st' = set_slot st conn fd /\ fds w' = delete s (<[fd := fl]> (fds w))
  else st' = st /\
       (fds w' = fds w \/
        exists fd fl, 0 <= fd /\ fds w !! fd = None /\ fds w' = <[fd := fl]> (fds w)).

Lemma wp_socket_impl_accept st (conn : nat) s E (w : world U) :
  sockets st !! conn = Some s -> s <> -1 ->
  wp (socket_impl_accept st conn) (accept_post st conn s w) E w.
Proof.
  intros Hc Hs. unfold socket_impl_accept. apply wp_bind. eapply wp_open_slot; [done..|].
  apply wp_bind, wp_quiet; [frame_tac|]. intros has w1 [Hf1 Hu1].
  destruct (has <=? 0). { apply wp_ret. split_and!; [done|done|by left]. }
  apply wp_bind, wp_c_accept. intros fd w2 [[-> [Hf2 Hu2]]|(Hge & Hfree & [fl Hf2] & Hu2)].
  { apply wp_bind, wp_quiet; [frame_tac|]. intros _ w3 [Hf3 Hu3]. apply wp_ret.
    split_and!; [congruence|done|left; congruence]. }
  unfold INVALID_SOCKET. rewrite (proj2 (Z.eqb_neq fd (-1))) by lia.
  apply wp_bind, wp_socket_setblocking.
  - intros w3 fl3 Hfl3 Hf3 Hu3. simpl. apply wp_bind, wp_socket_close.
    intros w4 Hf4 Hu4. apply wp_ret. split; [congruence|].
    exists fd, (blocking_flags fl3 false).
    split_and!; [done|congruence|apply setblocking_nonblocking|done|].
    by rewrite Hf4, Hf3, Hf2, insert_insert_eq, Hf1.
  - intros w3 [Hf3 Hu3]. simpl. apply wp_ret. split_and!; [congruence|done|].
    right. exists fd, fl. split_and!; [done|congruence|congruence].
Qed.

(** C10: accepting on a listening connection never aborts on an open slot; on
    success the slot's descriptor is the accepted one (fresh, non-blocking)
    and the listening one is closed; on failure the slot keeps the listening
    descriptor.  Ownership is preserved either way.  When no descriptor is
    leaked, the table has the descriptors it had but for that replacement. *)
Theorem socket_impl_accept_ok base st (conn : nat) s (w : world U)
    (Hinv : table_ok base st (fds w))
    (Hslot : sockets st !! conn = Some s) (Hopen : s <> INVALID_SOCKET) :
  wp (socket_impl_accept st conn)
     (fun '(ok, st') w' => accept_post st conn s w (ok, st') w' /\ table_ok base st' (fds w'))
     (fun _ _ => False) w.
Proof.
  eapply wp_post; [by apply wp_socket_impl_accept|].
  intros [[] st'] w' Hp; (split; [done|]); destruct Hp as [_ Hp]; simpl in Hp.
  - destruct Hp as (fd & fl & ? & ? & ? & -> & ->). by eapply table_ok_replace.
  - destruct Hp as [-> [-> | (fd & fl & Hge & Hfree & ->)]]; [done|].
    by apply table_ok_extra.
Qed.

(** ** Connecting and sending *)

Definition in_progress (e : Z) : Prop := e ∈ [EWOULDBLOCK; EINPROGRESS; EALREADY].

(** C13: what [socket_impl_connect] tells libmobile about an open connection,
    for every answer of [connect(2)]: 1 (done) on success or when already
    connected, 0 (try again) while the attempt is in progress, -1 on any other
    error, but only if the address was of a known family: for a null or
    unknown address such an error makes it format a null [sockaddr], which is
    undefined. *)
Theorem socket_impl_connect_result st (conn : nat) s addr sa len (w : world U) r k
    (Hslot : sockets st !! conn = Some s) (Hopen : s <> INVALID_SOCKET)
    (Haddr : convert_sockaddr addr = (sa, Some len))
    (Hcall : kcall (SysConnect s sa len) (w_kern w) = (r, k)) (Hr : r <> inl (-1)) :
  fst (socket_impl_connect st conn addr w) =
    match r with
    | inl _ => Ret 1
    | inr e => if decide (in_progress e) then Ret 0
               else if decide (e = EISCONN) then Ret 1
               else match sa with Some _ => Ret (-1) | None => Stop StUB end
    end.
Proof.
  unfold socket_impl_connect, open_slot, get_slot. rewrite Hslot, Haddr.
  unfold INVALID_SOCKET in *. unfold bind, ret, c_assert; simpl.
  rewrite (proj2 (Z.eqb_neq s (-1))) by done. simpl.
  unfold c_connect, bind, call. rewrite Hcall. simpl.
  destruct r as [v|e]; simpl.
  { unfold SOCKET_ERROR. rewrite (proj2 (Z.eqb_neq v (-1))) by congruence. done. }
  unfold in_progress.
  destruct (Z.eqb_spec e EWOULDBLOCK); [rewrite decide_True by set_solver; done|].
  destruct (Z.eqb_spec e EINPROGRESS); [rewrite decide_True by set_solver; done|].
  destruct (Z.eqb_spec e EALREADY); [rewrite decide_True by set_solver; done|]. simpl.
  rewrite decide_False by set_solver.
  destruct (Z.eqb_spec e EISCONN); [by rewrite decide_True|]. rewrite decide_False by done.
  destruct sa as [a|]; [|done]. unfold socket_straddr, socket_perror, bind, ret.
  destruct a; simpl; repeat (case_match; simpl; try done).
Qed.

(** C14: [socket_impl_send] reports the number of bytes the kernel took, 0 when
    the socket would block, and -1 for any other error, and changes neither
    the socket table nor the descriptors. *)
Theorem socket_impl_send_result st (conn : nat) s data addr sa len (w : world U) r k
    (Hslot : sockets st !! conn = Some s) (Hopen : s <> INVALID_SOCKET)
    (Haddr : convert_sockaddr addr = (sa, Some len))
    (Hcall : kcall (SysSendto s data sa len) (w_kern w) = (r, k))
    (Hr : forall n, r = inl n -> 0 <= n < 2 ^ 31) :
  wp (socket_impl_send st conn data addr)
     (fun rc w' => same w w' /\
        rc = match r with
             | inl n => n
             | inr e => if decide (e = EWOULDBLOCK) then 0 else -1
             end)
     (fun _ _ => False) w.
Proof.
  unfold socket_impl_send. apply wp_bind. eapply wp_open_slot; [done..|].
  rewrite Haddr. apply wp_bind, wp_ret, wp_bind, wp_bind, wp_call.
  intros r' k' Hk. rewrite Hcall in Hk. simplify_eq.
  pose proof (law_frame (SysSendto s data sa len) (w_kern w) eq_refl) as Hf.
  rewrite Hcall in Hf. simpl in Hf.
  destruct r' as [n|e].
  - specialize (Hr n eq_refl). apply wp_ret. unfold SOCKET_ERROR.
    rewrite (proj2 (Z.eqb_neq n (-1))) by lia. apply wp_ret. split; [done|].
    unfold i32. rewrite Z.mod_small; lia.
  - apply wp_bind. change (wp (let* err := socket_geterror in
      if err =? EWOULDBLOCK then ret 0 else socket_perror (Some "send"%string) ;;; ret (-1))
      (fun rc w' => same w w' /\ rc = (if decide (e = EWOULDBLOCK) then 0 else -1))
      (fun _ _ => False)
      (World k' e (EvCall (SysSendto s data sa len) (inr e) :: w_trace w) (w_user w))).
    apply wp_bind. hnf. simpl. destruct (Z.eqb_spec e EWOULDBLOCK).
    + apply wp_ret. rewrite decide_True by done. done.
    + apply wp_bind, wp_quiet; [frame_tac|]. intros _ w' [Hf' Hu']. apply wp_ret.
      rewrite decide_False by done. split; [|done]. split; [|done].
      rewrite Hf'. done.
Qed.

(** ** Receiving *)

(** The kernel's answer to the receive [socket_impl_recv] makes: of [size]
    bytes, or a peek at one byte when there is no buffer. *)
Definition recv_answer (s : Z) (data : bool) (size : Z) (k : kstate)
    (r : (list Z * option sockaddr) + Z) (k' : kstate) : Prop :=
  if data then kcall (SysRecvfrom s size 0) k = (r, k')
  else kcall (SysRecvfrom s 1 MSG_PEEK) k = (r, k').

(** The socket has something to receive. *)
Definition readable (s : Z) (k k1 : kstate) : Prop :=
  exists n, 0 < n /\ kcall (SysPoll [PollFd s (Z.lor POLLIN POLLPRI)] 0) k = (inl n, k1).

(** The result of receiving, the bytes stored and the address left in [*addr],
    for every sequence of answers of the kernel. *)
Inductive recv_outcome (s : Z) (data : bool) (size : Z) (addr : option mobile_addr) (k : kstate)
    : Z -> list Z -> option mobile_addr -> Prop :=
| RecvNothing r k1 :
    kcall (SysPoll [PollFd s (Z.lor POLLIN POLLPRI)] 0) k = (r, k1) ->
    (forall n, r = inl n -> n <= 0) -> recv_outcome s data size addr k 0 [] addr
| RecvBlocked k1 k2 :
    readable s k k1 -> recv_answer s data size k1 (inr EWOULDBLOCK) k2 ->
    recv_outcome s data size addr k 0 [] addr
| RecvFailed k1 e k2 :
    readable s k k1 -> recv_answer s data size k1 (inr e) k2 -> e <> EWOULDBLOCK ->
    recv_outcome s data size addr k (-1) [] addr
| RecvPeeked k1 bs from k2 :
    data = false -> readable s k k1 -> recv_answer s data size k1 (inl (bs, from)) k2 ->
    bs <> [] -> recv_outcome s data size addr k 0 [] addr
| RecvData k1 bs from k2 :
    data = true -> readable s k k1 -> recv_answer s data size k1 (inl (bs, from)) k2 ->
    bs <> [] ->
    recv_outcome s data size addr k (Z.of_nat (length bs)) bs (store_addr addr from)
| RecvClosed k1 from k2 k3 :
    readable s k k1 -> recv_answer s data size k1 (inl ([], from)) k2 ->
    kcall (SysGetsockopt s SOL_SOCKET SO_TYPE) k2 = (inl SOCK_STREAM, k3) ->
    recv_outcome s data size addr k (-2) [] addr
| RecvEmpty k1 from k2 v k3 :
    readable s k k1 -> recv_answer s data size k1 (inl ([], from)) k2 ->
    kcall (SysGetsockopt s SOL_SOCKET SO_TYPE) k2 = (inl v, k3) -> v <> SOCK_STREAM ->
    recv_outcome s data size addr k 0 [] (if data then store_addr addr from else addr)
| RecvUntyped k1 from k2 e k3 :
    readable s k k1 -> recv_answer s data size k1 (inl ([], from)) k2 ->
    kcall (SysGetsockopt s SOL_SOCKET SO_TYPE) k2 = (inr e, k3) ->
    recv_outcome s data size addr k (-1) [] addr.

Definition recv_post (s : Z) (data : bool) (size : Z) (addr : option mobile_addr) (w : world U)
    (r : Z * list Z * option mobile_addr) (w' : world U) : Prop :=
  let '(rc, bs, addr') := r in
  same w w' /\ recv_outcome s data size addr (w_kern w) rc bs addr' /\ bytes_ok bs /\
  (rc = -1 \/ rc = -2 \/ (0 <= rc <= size /\ rc = Z.of_nat (length bs))).

(** [socket_hasdata] reports what [poll] answered. *)
Lemma wp_socket_hasdata s Q E (w : world U) :
  (forall r n k1 w', kcall (SysPoll [PollFd s (Z.lor POLLIN POLLPRI)] 0) (w_kern w) = (r, k1) ->
     n = match r with inl v => v | inr _ => -1 end -> same w w' ->
     (0 < n -> w_kern w' = k1) -> Q n w') ->
  wp (socket_hasdata s) Q E w.
Proof.
  intros HQ. apply wp_bind, wp_bind, wp_call. intros r k Hk.
  pose proof (law_frame (SysPoll [PollFd s (Z.lor POLLIN POLLPRI)] 0) (w_kern w) eq_refl) as Hf.
  rewrite Hk in Hf. simpl in Hf.
  assert (forall rc w1, rc = match r with inl v => v | inr _ => -1 end -> same w w1 ->
    w_kern w1 = k -> wp (let* _ := (if rc =? -1 then socket_perror (Some "poll"%string) else ret tt) in
      ret rc) Q E w1) as Hrest.
  { intros rc w1 Hrc Hw1 Hk1. apply wp_bind. destruct (Z.eqb_spec rc (-1)) as [Hm|_].
    - apply wp_quiet; [frame_tac|]. intros _ w2 Hw2. apply wp_ret.
      eapply HQ; [done|done|by etrans|lia].
    - by apply wp_ret, wp_ret, (HQ r rc k w1). }
  destruct r as [v|e]; cbn [c_int].
  - apply wp_ret. apply Hrest; by try split.
  - apply wp_bind. hnf. apply (Hrest (-1)); by try split.
Qed.

(** The receive: its answer, and [errno] when it failed. *)
Lemma wp_recv_source s (data : bool) size Q E (w : world U) :
  (forall bs from w', recv_answer s data size (w_kern w) (inl (bs, from)) (w_kern w') ->
     same w w' -> bytes_ok bs -> Z.of_nat (length bs) <= Z.max 0 (if data then size else 1) ->
     Q (Z.of_nat (length bs), bs, from) w') ->
  (forall e w', recv_answer s data size (w_kern w) (inr e) (w_kern w') -> same w w' ->
     w_errno w' = e -> Q (-1, [], None) w') ->
  wp (if data then c_recvfrom s size 0 else c_recvfrom s 1 MSG_PEEK) Q E w.
Proof.
  intros Hok Herr.
  assert (forall n f, (forall r k, kcall (SysRecvfrom s n f) (w_kern w) = (r, k) ->
      recv_answer s data size (w_kern w) r k) -> n = (if data then size else 1) ->
    wp (c_recvfrom s n f) Q E w) as Hgo; [|by destruct data; apply Hgo].
  intros n f Hans Hn. apply wp_bind, wp_call. intros r k Hk.
  pose proof (law_frame (SysRecvfrom s n f) (w_kern w) eq_refl) as Hf. rewrite Hk in Hf.
  destruct r as [[bs from]|e].
  - pose proof (law_recvfrom _ _ _ _ _ _ _ Hk) as [? ?]. rewrite <- Hn in Hok.
    apply wp_ret, Hok; [by apply Hans|by split|done|done].
  - by apply (Herr e); [apply Hans|split|].
Qed.

(** The check for a closed stream. *)
Lemma wp_closed_check s len Q E (w : world U) :
  (len <> 0 -> Q None w) ->
  (forall v k3 w', len = 0 -> kcall (SysGetsockopt s SOL_SOCKET SO_TYPE) (w_kern w) = (inl v, k3) ->
     same w w' -> Q (if v =? SOCK_STREAM then Some (-2) else None) w') ->
  (forall e k3 w', len = 0 -> kcall (SysGetsockopt s SOL_SOCKET SO_TYPE) (w_kern w) = (inr e, k3) ->
     same w w' -> Q (Some (-1)) w') ->
  wp (if len =? 0 then
        let* '(rc, sock_type) := c_getsockopt s SOL_SOCKET SO_TYPE 0 in
        if rc =? SOCKET_ERROR then socket_perror (Some "getsockopt"%string) ;;; ret (Some (-1))
        else if sock_type =? SOCK_STREAM then ret (Some (-2)) else ret None
      else ret None) Q E w.
Proof.
  intros Hdata Hok Herr. destruct (Z.eqb_spec len 0) as [->|Hne]; [|by apply wp_ret, Hdata].
  apply wp_bind, wp_bind, wp_call. intros r k Hk.
  pose proof (law_frame (SysGetsockopt s SOL_SOCKET SO_TYPE) (w_kern w) eq_refl) as Hf.
  rewrite Hk in Hf. destruct r as [v|e].
  - apply wp_ret. specialize (Hok v k (World k (w_errno w)
      (EvCall (SysGetsockopt s SOL_SOCKET SO_TYPE) (inl v) :: w_trace w) (w_user w)) eq_refl Hk).
    simpl. destruct (v =? SOCK_STREAM); apply wp_ret, Hok; by split.
  - apply wp_bind. hnf. simpl. apply wp_bind, wp_quiet; [frame_tac|].
    intros _ w' [Hf' Hu']. apply wp_ret, (Herr e k); [done..|]. split; [|done].
    rewrite Hf'. done.
Qed.

Lemma wp_socket_impl_recv st (conn : nat) s data size addr E (w : world U) :
  sockets st !! conn = Some s -> s <> -1 -> 0 <= size < 2 ^ 31 ->
  wp (socket_impl_recv st conn data size addr) (recv_post s data size addr w) E w.
Proof.
  intros Hslot Hopen Hsize. unfold socket_impl_recv. apply wp_bind. eapply wp_open_slot; [done..|].
  apply wp_bind, wp_socket_hasdata. intros r has k1 w1 Hpoll Hhas Hw1 Hk1.
  destruct (Z.leb_spec has 0) as [Hle|Hgt].
  { apply wp_ret. split_and!; [done| |constructor|right; right; simpl; lia].
    eapply RecvNothing; [done|]. intros n ->. lia. }
  assert (readable s (w_kern w) (w_kern w1)) as Hrd.
  { rewrite Hk1 by done. exists has. destruct r as [v|e]; [by subst|lia]. }
  clear Hpoll Hhas Hk1 r k1. apply wp_bind, wp_recv_source.
  2: { intros e w2 Hans Hw2 He. simpl. apply wp_bind. hnf. rewrite He.
       destruct (Z.eqb_spec e EWOULDBLOCK) as [->|Hne].
       - apply wp_ret. split_and!; [by etrans|by eapply RecvBlocked|constructor|].
         right; right; simpl; lia.
       - apply wp_bind, wp_quiet; [frame_tac|]. intros _ w3 Hw3. apply wp_ret.
         split_and!; [same_tac|by eapply RecvFailed|constructor|by left]. }
  intros bs from w2 Hans Hw2 Hb Hle. unfold SOCKET_ERROR.
  rewrite (proj2 (Z.eqb_neq (Z.of_nat (length bs)) (-1))) by lia.
  assert (same w w2) as Hww2 by by etrans.
  assert (i32 (Z.of_nat (length bs)) = Z.of_nat (length bs)) as Hi.
  { unfold i32. rewrite Z.mod_small; [lia|]. destruct data; lia. }
  apply wp_bind, wp_closed_check.
  - intros Hne. assert (bs <> []) by (by intros ->).
    destruct data; cbn [negb]; apply wp_ret; rewrite ?Hi; split_and!; try done.
    + by eapply RecvData.
    + right; right. lia.
    + by eapply RecvPeeked.
    + constructor.
    + right; right; simpl; lia.
  - intros v k3 w3 Hz Hopt Hw3. assert (bs = []) as -> by (destruct bs; [done|simpl in Hz; lia]).
    assert (same w w3) as Hww3 by by etrans.
    assert ((if data then [] else []) = @nil Z) as Hnil by by destruct data.
    destruct (Z.eqb_spec v SOCK_STREAM) as [->|Hv].
    + apply wp_ret. rewrite Hnil. split_and!; [done|by eapply RecvClosed|constructor|by right; left].
    + pose proof (RecvEmpty s data size addr (w_kern w) _ _ _ _ _ Hrd Hans Hopt Hv) as Ho.
      assert (0 = -1 \/ 0 = -2 \/ 0 <= 0 <= size /\ 0 = Z.of_nat (length (@nil Z))) by (simpl; lia).
      destruct data; cbn [negb]; apply wp_ret; rewrite ?Hi;
        (split_and!; [done|exact Ho|constructor|done]).
  - intros e k3 w3 Hz Hopt Hw3. assert (bs = []) as -> by (destruct bs; [done|simpl in Hz; lia]).
    apply wp_ret. replace (if data then [] else []) with (@nil Z) by by destruct data.
    split_and!; [by etrans|by eapply RecvUntyped|constructor|by left].
Qed.

(** Without a buffer nothing is stored and the address is left alone. *)
Lemma recv_outcome_peek s size addr k rc bs addr' :
  recv_outcome s false size addr k rc bs addr' -> bs = [] /\ addr' = addr.
Proof. by inversion 1. Qed.

(** C12: receiving on an open connection, for every sequence of answers of the
    kernel.  It always returns.  The result is 0 when there is nothing to
    receive or the receive would block; -1 when the receive or the query of the
    socket's type fails, and in no other case; -2 when the receive returns no
    bytes on a stream socket (the remote closed it, or the caller asked for no
    bytes); otherwise the number of bytes stored, with the sender's address.
    Never more than the buffer holds is stored, and without a buffer nothing
    is, the receive being a peek; no descriptor changes. *)
Theorem socket_impl_recv_ok st (conn : nat) s data size addr (w : world U)
    (Hslot : sockets st !! conn = Some s) (Hopen : s <> INVALID_SOCKET)
    (Hsize : 0 <= size < 2 ^ 31) :
  wp (socket_impl_recv st conn data size addr) (recv_post s data size addr w) (fun _ _ => False) w.
Proof. by eapply wp_socket_impl_recv. Qed.

(** ** Computations that leave the table alone *)

Definition known_addr (addr : option mobile_addr) : Prop :=
  exists a, addr = Some a /\ forall v, addr_type a <> MOBILE_ADDRTYPE_other v.

Lemma convert_sockaddr_len `{!LibmobileLaws L} addr :
  exists sa len, convert_sockaddr addr = (sa, Some len) /\ (known_addr addr -> is_Some sa).
Proof.
  destruct addr as [[ty port host]|]; simpl.
  - rewrite law_host4, law_host6. simpl.
    destruct ty; eexists _, _; (split; [done|]); try done; [by eexists..|].
    intros (a & [= <-] & Hv). by destruct (Hv v).
  - eexists _, _. split; [done|]. by intros (? & ? & _).
Qed.

Lemma wp_socket_impl_connect `{!LibmobileLaws L} st (conn : nat) s addr E (w : world U) :
  sockets st !! conn = Some s -> s <> -1 -> known_addr addr ->
  wp (socket_impl_connect st conn addr)
     (fun rc w' => same w w' /\ (rc = -1 \/ rc = 0 \/ rc = 1)) E w.
Proof.
  intros Hslot Hopen Haddr. unfold socket_impl_connect.
  apply wp_bind. eapply wp_open_slot; [done..|].
  destruct (convert_sockaddr_len addr) as (sa & len & -> & Hsa).
  destruct (Hsa Haddr) as [a ->]. apply wp_bind, wp_ret.
  apply wp_bind, wp_quiet; [frame_tac|]. intros rc w1 Hw1.
  apply wp_bind, wp_quiet; [frame_tac|]. intros err w2 Hw2.
  destruct (negb _); [apply wp_ret; split; [same_tac|auto]|].
  destruct (_ || _); [apply wp_ret; split; [same_tac|auto]|].
  destruct (_ =? _); [apply wp_ret; split; [same_tac|auto]|].
  apply wp_bind, wp_quiet; [frame_tac|]. intros [n str] w3 Hw3.
  do 3 (apply wp_bind, wp_quiet; [frame_tac|]; intros ? ? ?).
  apply wp_ret. split; [same_tac|auto].
Qed.

Lemma wp_socket_impl_send `{!LibmobileLaws L} st (conn : nat) s data addr E (w : world U) :
  sockets st !! conn = Some s -> s <> -1 ->
  wp (socket_impl_send st conn data addr) (fun _ w' => same w w') E w.
Proof.
  intros Hslot Hopen. unfold socket_impl_send.
  apply wp_bind. eapply wp_open_slot; [done..|].
  destruct (convert_sockaddr_len addr) as (sa & len & -> & _). apply wp_bind, wp_ret.
  apply wp_quiet; [frame_tac|]. auto.
Qed.

Lemma wp_socket_impl_listen st (conn : nat) s E (w : world U) :
  sockets st !! conn = Some s -> s <> -1 ->
  wp (socket_impl_listen st conn) (fun _ w' => same w w') E w.
Proof.
  intros Hslot Hopen. unfold socket_impl_listen.
  apply wp_bind. eapply wp_open_slot; [done..|]. apply wp_quiet; [frame_tac|]. auto.
Qed.

(** ** Peeking, stopping, initialising *)

Definition consumes (e : event) : bool :=
  match e with
  | EvCall (SysRecvfrom _ _ flags) _ => negb (flags =? MSG_PEEK)
  | EvCall (SysRecv _ _) _ => true
  | _ => false
  end.

(** C25: checking a connection without a buffer consumes nothing: every receive
    it makes leaves the data in the socket's queue ([MSG_PEEK]), and it always
    returns, whatever the kernel answers. *)
Theorem socket_impl_peek st (conn : nat) s size addr (w : world U)
    (Hslot : sockets st !! conn = Some s) (Hopen : s <> INVALID_SOCKET) :
  wp (socket_impl_recv st conn false size addr)
     (fun _ w' => extends (fun e => consumes e = false) w w') (fun _ _ => False) w.
Proof.
  unfold socket_impl_recv. apply wp_bind. eapply wp_open_slot; [done..|].
  apply emits_at. set (P := fun e => consumes e = false).
  assert (forall f, emits (U := U) P (socket_perror f)) by by apply emits_socket_perror.
  assert (emits (U := U) P (socket_hasdata s)) by by apply emits_socket_hasdata.
  unfold c_recvfrom, c_getsockopt. emits_tac; done.
Qed.

Lemma wp_stop_loop socks Q E (w : world U) :
  (forall w', (forall fd, fds w' !! fd =
      if decide (fd ∈ filter (.≠ INVALID_SOCKET) socks) then None else fds w !! fd) ->
     w_user w' = w_user w -> Q tt w') ->
  wp (stop_loop socks) Q E w.
Proof.
  revert w. induction socks as [|s socks IH]; intros w HQ; simpl.
  { apply wp_ret, HQ; [|done]. intros fd. by rewrite decide_False by set_solver. }
  apply wp_bind. destruct (Z.eqb_spec s INVALID_SOCKET) as [->|Hs]; cbn [negb].
  - apply wp_ret, IH. intros w' Hf Hu. apply HQ; [|done].
    rewrite filter_cons_False by naive_solver. done.
  - apply wp_socket_close. intros w1 Hf1 Hu1. apply IH. intros w' Hf Hu.
    apply HQ; [|congruence]. intros fd. rewrite filter_cons_True by done.
    rewrite Hf, Hf1. destruct (decide (fd = s)) as [->|Hne].
    + rewrite (decide_True (P := s ∈ s :: _)) by set_solver.
      case_decide; [done|]. apply lookup_delete_eq.
    + rewrite lookup_delete_ne by done. do 2 case_decide; set_solver.
Qed.

(** C24: stopping closes every socket of the table and nothing else: afterwards
    exactly the descriptors the rest of the program owns are open, as they
    were. *)
Theorem socket_impl_stop_closes base st (w : world U)
    (Hinv : table_ok base st (fds w)) (Hleak : no_leak base st (fds w)) :
  wp (socket_impl_stop st)
     (fun _ w' => dom (fds w') = base /\ (forall fd, fd ∈ base -> fds w' !! fd = fds w !! fd) /\
        w_user w' = w_user w)
     (fun _ _ => False) w.
Proof.
  unfold socket_impl_stop. rewrite take_ge by by rewrite (tk_length _ _ _ Hinv).
  apply wp_stop_loop. intros w' Hf Hu. fold (open_fds st) in Hf.
  assert (forall fd, fd ∈ base -> fd ∉ open_fds st) as Hdisj.
  { intros fd Hb Ho. destruct (tk_owned _ _ _ Hinv fd Ho) as (_ & ? & _). done. }
  split_and!; [|intros fd Hb; rewrite Hf, decide_False by auto; done|done].
  apply set_eq. intros fd. rewrite elem_of_dom, Hf. split.
  - case_decide as Ho; [by intros [? ?]|]. intros Hs%elem_of_dom.
    unfold no_leak in Hleak. rewrite Hleak in Hs. set_solver.
  - intros Hb. rewrite decide_False by auto. apply elem_of_dom. by apply (tk_base _ _ _ Hinv).
Qed.

Lemma init_loop_run l (n k : nat) (w : world U) :
  (k + n <= length l)%nat ->
  init_loop n k l w = (Ret (take k l ++ replicate n INVALID_SOCKET ++ drop (k + n) l), w).
Proof.
  revert l k. induction n as [|n IH]; intros l k Hl; simpl.
  { rewrite Nat.add_0_r. unfold ret. by rewrite take_drop. }
  erewrite bind_run by (apply store_run; lia). rewrite IH by (rewrite length_insert; lia).
  rewrite drop_insert_lt by lia. replace (S k + n)%nat with (k + S n)%nat by lia.
  rewrite (take_S_r _ _ INVALID_SOCKET) by (apply list_lookup_insert_eq; lia).
  rewrite take_insert_ge by done. by rewrite <- app_assoc.
Qed.

(** The table after initialising. *)
Definition closed_table : socket_impl :=
  SocketImplState (replicate MOBILE_MAX_CONNECTIONS INVALID_SOCKET).

Lemma socket_impl_init_run st (w : world U) :
  length (sockets st) = MOBILE_MAX_CONNECTIONS -> socket_impl_init st w = (Ret closed_table, w).
Proof.
  intros Hlen. unfold socket_impl_init. erewrite bind_run by (apply init_loop_run; lia).
  simpl. rewrite drop_ge by lia. by rewrite app_nil_r.
Qed.

Lemma open_fds_closed : open_fds closed_table = [].
Proof.
  unfold open_fds, closed_table; simpl. induction MOBILE_MAX_CONNECTIONS as [|n IH]; [done|].
  simpl. rewrite filter_cons_False by naive_solver. done.
Qed.

Lemma closed_table_ok base m : base ⊆ dom m -> table_ok base closed_table m.
Proof.
  intros Hbase. split; rewrite ?open_fds_closed; simpl; rewrite ?length_replicate; try done;
    [constructor|set_solver].
Qed.

(** C33: initialising stores within the (uninitialised) array, marks every slot
    of it closed, and so establishes the ownership invariant with no
    descriptor held. *)
Theorem socket_impl_init_ok base st (w : world U)
    (Hlen : length (sockets st) = MOBILE_MAX_CONNECTIONS) (Hbase : dom (fds w) = base) :
  exists st', socket_impl_init st w = (Ret st', w) /\
    sockets st' = replicate MOBILE_MAX_CONNECTIONS INVALID_SOCKET /\
    table_ok base st' (fds w) /\ no_leak base st' (fds w).
Proof.
  exists closed_table. split_and!; [by apply socket_impl_init_run|done| |].
  - apply closed_table_ok. set_solver.
  - unfold no_leak. rewrite open_fds_closed, Hbase. set_solver.
Qed.

(** ** Addresses *)

Definition addr_ok (a : mobile_addr) : Prop :=
  is_u16 (addr_port a) /\
  match addr_type a with
  | MOBILE_ADDRTYPE_IPV4 => length (addr_host a) = 4%nat
  | MOBILE_ADDRTYPE_IPV6 => length (addr_host a) = 16%nat
  | MOBILE_ADDRTYPE_other _ => False
  end.

(** C26: an address libmobile sends to and the address it is told on receiving
    from there are the same: converting an IPv4 or IPv6 address to the
    kernel's form (family, port in network order, host bytes) and back gives
    the address, on either byte order, and the length passed is that of the
    address family. *)
Theorem sockaddr_roundtrip `{!LibmobileLaws L} (a old : mobile_addr) (Ha : addr_ok a) :
  exists sa, convert_sockaddr (Some a) = (Some sa, Some
      (if decide (addr_type a = MOBILE_ADDRTYPE_IPV4) then sizeof_sockaddr_in
       else sizeof_sockaddr_in6)) /\
    store_addr (Some old) (Some sa) = Some a.
Proof.
  destruct a as [ty port host], Ha as [Hp Hh]. simpl in *. unfold convert_sockaddr; simpl.
  destruct ty; [| |done]; rewrite ?law_host4, ?law_host6; simpl; eexists; (split; [done|]);
    unfold store_addr; rewrite ntohs_htons, u16_small by done;
    rewrite ?law_host4, ?law_host6, take_take, take_ge by (rewrite Hh; lia); done.
Qed.

(** C34: the one path that leaks: when the accepted socket cannot be made
    non-blocking, [socket_impl_accept] reports failure and forgets the
    descriptor without closing it, so a table without leaks has one
    afterwards. *)
Theorem socket_impl_accept_leaks base st (conn : nat) s fd e n k1 k2 k3 (w : world U)
    (Hinv : table_ok base st (fds w)) (Hleak : no_leak base st (fds w))
    (Hslot : sockets st !! conn = Some s) (Hopen : s <> INVALID_SOCKET)
    (Hpoll : kcall (SysPoll [PollFd s (Z.lor POLLIN POLLPRI)] 0) (w_kern w) = (inl n, k1))
    (Hn : 0 < n)
    (Haccept : kcall (SysAccept s) k1 = (inl fd, k2))
    (Hfcntl : kcall (SysFcntl fd F_GETFL 0) k2 = (inr e, k3)) :
  exists w', socket_impl_accept st conn w = (Ret (false, st), w') /\
    fd ∈ dom (fds w') /\ ~ no_leak base st (fds w').
Proof.
  pose proof (law_frame (SysPoll [PollFd s (Z.lor POLLIN POLLPRI)] 0) (w_kern w) eq_refl) as F1.
  pose proof (law_accept s _ _ _ Haccept) as (Hge & Hfree & fl & F2).
  pose proof (law_frame (SysFcntl fd F_GETFL 0) k2 eq_refl) as F3.
  rewrite Hpoll in F1. rewrite Hfcntl in F3. simpl in F1, F3.
  destruct (socket_hasdata_run s n k1 w Hpoll) as [tr1 Hrun1]; [lia|].
  destruct (socket_setblocking_run_fail fd false e k3
    (World k2 (w_errno w) (EvCall (SysAccept s) (inl fd) :: tr1) (w_user w)) Hfcntl)
    as [tr3 Hrun3].
  exists (World k3 e tr3 (w_user w)). split.
  { unfold socket_impl_accept, open_slot, get_slot. rewrite Hslot.
    erewrite bind_run by (unfold bind, ret, c_assert; simpl;
      by rewrite (proj2 (Z.eqb_neq s INVALID_SOCKET))).
    erewrite bind_run by exact Hrun1. rewrite (proj2 (Z.leb_gt n 0)) by lia.
    unfold c_accept. erewrite bind_run; [|by erewrite bind_run; [|by apply call_run]].
    unfold INVALID_SOCKET. rewrite (proj2 (Z.eqb_neq fd (-1))) by lia.
    erewrite bind_run by exact Hrun3. done. }
  unfold no_leak, fds in *; simpl. rewrite F3, F2, dom_insert_L, F1.
  split; [set_solver|]. rewrite Hleak. intros Heq.
  assert (fd ∈ dom (kfds (w_kern w))) as Hin by (rewrite Hleak; set_solver).
  apply elem_of_dom in Hin as [? Hin]. rewrite <- F1 in Hin. congruence.
Qed.
End Operations.

(** ** Witnesses *)

Section Witnesses.
Import SimInstances ToyInstances.

(** Connection 0 closed, connection 1 open on descriptor 5; descriptor 3 is the
    link to the emulator. *)
Definition demo_table : socket_impl := SocketImplState [-1; 5].

Definition demo_sockets (plan : list Z) (rx : list (list Z)) : sim :=
  Sim (<[3 := 2]> {[ 5 := 2050 ]}) plan rx None SOCK_STREAM [] None None.

Lemma demo_table_ok plan rx : table_ok {[ 3 ]} demo_table (fds (sim_world (demo_sockets plan rx) tt)).
Proof.
  split; try reflexivity.
  - repeat constructor; set_solver.
  - intros s Hs. apply list_elem_of_singleton in Hs as ->.
    split_and!; [lia|set_solver|]. exists 2050. split; reflexivity.
  - unfold fds; simpl. rewrite dom_insert_L. set_solver.
Qed.

Lemma demo_no_leak plan rx : no_leak {[ 3 ]} demo_table (fds (sim_world (demo_sockets plan rx) tt)).
Proof. vm_compute. reflexivity. Qed.

(** Opening fails at [bind]: nothing is left behind. *)
Lemma socket_impl_open_ok_witness :
  let w := sim_world (demo_sockets [0; 0; 0; 0; 0; 98] []) tt in
  wp (socket_impl_open demo_table 0 MOBILE_SOCKTYPE_TCP MOBILE_ADDRTYPE_IPV4 1027)
     (fun '(ok, st') w' => open_post demo_table 0 w (ok, st') w' /\
        table_ok {[ 3 ]} st' (fds w') /\ no_leak {[ 3 ]} st' (fds w'))
     (fun _ _ => False) w /\
  match socket_impl_open demo_table 0 MOBILE_SOCKTYPE_TCP MOBILE_ADDRTYPE_IPV4 1027 w with
  | (Ret (ok, st), _) => (ok, sockets st) | _ => (true, []) end = (false, [-1; 5]).
Proof.
  intros w. split; [|vm_compute; reflexivity].
  apply (socket_impl_open_ok {[ 3 ]} demo_table 0 MOBILE_SOCKTYPE_TCP MOBILE_ADDRTYPE_IPV4 1027 w).
  - apply demo_table_ok.
  - apply demo_no_leak.
  - reflexivity.
  - by left.
  - by left.
Defined.

Lemma socket_impl_close_ok_witness :
  let w := sim_world (demo_sockets [] []) tt in
  wp (socket_impl_close demo_table 1)
     (fun st' w' => st' = set_slot demo_table 1 INVALID_SOCKET /\ fds w' = delete 5 (fds w) /\
        w_user w' = w_user w /\ table_ok {[ 3 ]} st' (fds w') /\ no_leak {[ 3 ]} st' (fds w'))
     (fun _ _ => False) w.
Proof.
  intros w. apply (socket_impl_close_ok {[ 3 ]} demo_table 1 5 w).
  - apply demo_table_ok.
  - apply demo_no_leak.
  - reflexivity.
  - done.
Defined.

(** A connection is waiting; it gets descriptor 6. *)
Lemma socket_impl_accept_ok_witness :
  let w := sim_world (demo_sockets [] [[1]]) tt in
  wp (socket_impl_accept demo_table 1)
     (fun '(ok, st') w' => accept_post demo_table 1 5 w (ok, st') w' /\ table_ok {[ 3 ]} st' (fds w'))
     (fun _ _ => False) w /\
  match socket_impl_accept demo_table 1 w with
  | (Ret (ok, st), _) => (ok, sockets st) | _ => (false, []) end = (true, [-1; 6]).
Proof.
  intros w. split; [|vm_compute; reflexivity].
  apply (socket_impl_accept_ok {[ 3 ]} demo_table 1 5 w); [apply demo_table_ok|reflexivity|done].
Defined.

Lemma socket_impl_accept_leaks_witness :
  let w := sim_world (demo_sockets [0; 0; 9] [[1]]) tt in
  exists w', socket_impl_accept demo_table 1 w = (Ret (false, demo_table), w') /\
    6 ∈ dom (fds w') /\ ~ no_leak {[ 3 ]} demo_table (fds w').
Proof.
  intros w.
  apply (socket_impl_accept_leaks {[ 3 ]} demo_table 1 5 6 9 1
    (snd (kcall (SysPoll [PollFd 5 (Z.lor POLLIN POLLPRI)] 0) (w_kern w)))
    (snd (kcall (SysAccept 5) (snd (kcall (SysPoll [PollFd 5 (Z.lor POLLIN POLLPRI)] 0) (w_kern w)))))
    (snd (kcall (SysFcntl 6 F_GETFL 0) (snd (kcall (SysAccept 5)
       (snd (kcall (SysPoll [PollFd 5 (Z.lor POLLIN POLLPRI)] 0) (w_kern w))))))) w).
  - apply demo_table_ok.
  - apply demo_no_leak.
  - reflexivity.
  - done.
  - reflexivity.
  - lia.
  - reflexivity.
  - reflexivity.
Defined.

Definition demo_addr : mobile_addr := MobileAddr MOBILE_ADDRTYPE_IPV4 1027 [127; 0; 0; 1].

(** Refused (ECONNREFUSED) with a real address, and with a null one. *)
Lemma socket_impl_connect_result_witness :
  let w := sim_world (demo_sockets [111] []) tt in
  fst (socket_impl_connect demo_table 1 (Some demo_addr) w) = Ret (-1) /\
  fst (socket_impl_connect demo_table 1 None w) = Stop StUB.
Proof.
  intros w. split.
  - apply (socket_impl_connect_result demo_table 1 5 (Some demo_addr)
      (Some (SockIn 772 [127; 0; 0; 1])) 16 w (inr 111) (set_plan (demo_sockets [111] []) []));
      [reflexivity|done|reflexivity|reflexivity|done].
  - apply (socket_impl_connect_result demo_table 1 5 None
      None 0 w (inr 111) (set_plan (demo_sockets [111] []) []));
      [reflexivity|done|reflexivity|reflexivity|done].
Defined.

Lemma socket_impl_send_result_witness :
  let w := sim_world (demo_sockets [11] []) tt in
  wp (socket_impl_send demo_table 1 [1; 2; 3] None)
     (fun rc w' => same w w' /\ rc = 0) (fun _ _ => False) w.
Proof.
  intros w.
  apply (socket_impl_send_result demo_table 1 5 [1; 2; 3] None None 0 w (inr 11)
    (set_plan (demo_sockets [11] []) [])); [reflexivity|done|reflexivity|reflexivity|done].
Defined.

(** The remote has closed: a receive of no bytes on a stream. *)
Lemma socket_impl_recv_ok_witness :
  let w := sim_world (demo_sockets [] [[]]) tt in
  wp (socket_impl_recv demo_table 1 true 100 None) (recv_post 5 true 100 None w)
     (fun _ _ => False) w /\
  fst (socket_impl_recv demo_table 1 true 100 None w) = Ret (-2, [], None).
Proof.
  intros w. split; [|vm_compute; reflexivity].
  apply (socket_impl_recv_ok demo_table 1 5 true 100 None w); [reflexivity|done|lia].
Defined.

Lemma socket_impl_peek_witness :
  let w := sim_world (demo_sockets [] [[7; 8]]) tt in
  wp (socket_impl_recv demo_table 1 false 0 None)
     (fun _ w' => extends (fun e => consumes e = false) w w') (fun _ _ => False) w /\
  sim_rx (w_kern (snd (socket_impl_recv demo_table 1 false 0 None w))) = [[7; 8]].
Proof.
  intros w. split; [|vm_compute; reflexivity].
  apply (socket_impl_peek demo_table 1 5 0 None w); [reflexivity|done].
Defined.

Lemma socket_impl_stop_closes_witness :
  let w := sim_world (demo_sockets [] []) tt in
  wp (socket_impl_stop demo_table)
     (fun _ w' => dom (fds w') = {[ 3 ]} /\
        (forall fd, fd ∈ ({[ 3 ]} : gset Z) -> fds w' !! fd = fds w !! fd) /\ w_user w' = w_user w)
     (fun _ _ => False) w.
Proof.
  intros w. apply (socket_impl_stop_closes {[ 3 ]} demo_table w);
    [apply demo_table_ok|apply demo_no_leak].
Defined.

Lemma socket_impl_init_ok_witness :
  let w := sim_world (demo_sockets [] []) tt in
  exists st', socket_impl_init (SocketImplState [17; 4]) w = (Ret st', w) /\
    sockets st' = replicate MOBILE_MAX_CONNECTIONS INVALID_SOCKET /\
    table_ok (dom (fds w)) st' (fds w) /\ no_leak (dom (fds w)) st' (fds w).
Proof.
  intros w. apply (socket_impl_init_ok (dom (fds w)) (SocketImplState [17; 4]) w); reflexivity.
Defined.

Lemma sockaddr_roundtrip_witness :
  exists sa, convert_sockaddr (Some demo_addr) = (Some sa, Some 16) /\
    store_addr (Some addr_zero) (Some sa) = Some demo_addr.
Proof.
  apply (sockaddr_roundtrip demo_addr addr_zero).
  split; [unfold is_u16; simpl; lia|reflexivity].
Defined.
End Witnesses.
