(* ===== verification/MobileUser.v ===== *)
(** * main.c: the adapter's environment

    [struct mobile_user], the callbacks registered with libmobile
    ([impl_*]), the handler that drives the library's actions and the
    callbacks given to the BGB link. *)

From S2P Require Import Prelude CInt CLib Sys Hoare SimKernel Socket BgbLink Libmobile SocketImpl.

(** ** Milliseconds to emulator ticks

    [(uint32_t)((double)ms * (1 << 21) / 1000)].  The product is exact in a
    double: [ms] has at most 32 bits and the factor is a power of two.  The
    quotient is rounded to 53 significant bits, to nearest, ties to even. *)

Definition round_half_even (n d : Z) : Z :=
  let q := n / d in
  let r := n mod d in
  if 2 * r <? d then q
  else if d <? 2 * r then q + 1
  else if Z.even q then q else q + 1.

(** The integer part of the double nearest to [a / b], for [1 <= a / b < 2^53]. *)
Definition double_div_trunc (a b : Z) : Z :=
  let scale := 52 - Z.log2 (a / b) in
  round_half_even (a * 2 ^ scale) b / 2 ^ scale.

(** [None]: the value does not fit [uint32_t] and the conversion is undefined. *)
Definition ticks_of_ms (ms : Z) : option Z :=
  let t := if ms =? 0 then 0 else double_div_trunc (ms * 2 ^ 21) 1000 in
  if t <? 2 ^ 32 then Some t else None.

Fixpoint string_of_bytes (l : list Z) : string :=
  match l with
  | [] => ""
  | b :: l => String (Ascii.ascii_of_N (Z.to_N b)) (string_of_bytes l)
  end.

Section MobileUser.
Context `{K : Kernel} `{Libc} `{Host} `{L : Libmobile}.

Record mobile_user := MobileUser {
  mu_adapter : adapter;
  mu_socket : socket_impl;
  mu_action : Z;
  mu_config : FILE;
  mu_reset : bool;
  mu_bgb_clock : Z;
  mu_bgb_clock_init : bool;
  mu_bgb_clock_latch : list Z;
  mu_number_user : list Z;
  mu_number_peer : list Z
}.

Definition set_adapter (m : mobile_user) (a : adapter) : mobile_user :=
  MobileUser a (mu_socket m) (mu_action m) (mu_config m) (mu_reset m) (mu_bgb_clock m)
    (mu_bgb_clock_init m) (mu_bgb_clock_latch m) (mu_number_user m) (mu_number_peer m).

Definition set_socket (m : mobile_user) (s : socket_impl) : mobile_user :=
  MobileUser (mu_adapter m) s (mu_action m) (mu_config m) (mu_reset m) (mu_bgb_clock m)
    (mu_bgb_clock_init m) (mu_bgb_clock_latch m) (mu_number_user m) (mu_number_peer m).

Definition set_action (m : mobile_user) (a : Z) : mobile_user :=
  MobileUser (mu_adapter m) (mu_socket m) a (mu_config m) (mu_reset m) (mu_bgb_clock m)
    (mu_bgb_clock_init m) (mu_bgb_clock_latch m) (mu_number_user m) (mu_number_peer m).

Definition set_config (m : mobile_user) (f : FILE) : mobile_user :=
  MobileUser (mu_adapter m) (mu_socket m) (mu_action m) f (mu_reset m) (mu_bgb_clock m)
    (mu_bgb_clock_init m) (mu_bgb_clock_latch m) (mu_number_user m) (mu_number_peer m).

Definition set_reset (m : mobile_user) (b : bool) : mobile_user :=
  MobileUser (mu_adapter m) (mu_socket m) (mu_action m) (mu_config m) b (mu_bgb_clock m)
    (mu_bgb_clock_init m) (mu_bgb_clock_latch m) (mu_number_user m) (mu_number_peer m).

Definition set_clock (m : mobile_user) (t : Z) (init : bool) : mobile_user :=
  MobileUser (mu_adapter m) (mu_socket m) (mu_action m) (mu_config m) (mu_reset m) t
    init (mu_bgb_clock_latch m) (mu_number_user m) (mu_number_peer m).

Definition set_latch (m : mobile_user) (l : list Z) : mobile_user :=
  MobileUser (mu_adapter m) (mu_socket m) (mu_action m) (mu_config m) (mu_reset m) (mu_bgb_clock m)
    (mu_bgb_clock_init m) l (mu_number_user m) (mu_number_peer m).

Definition set_numbers (m : mobile_user) (user peer : list Z) : mobile_user :=
  MobileUser (mu_adapter m) (mu_socket m) (mu_action m) (mu_config m) (mu_reset m) (mu_bgb_clock m)
    (mu_bgb_clock_init m) (mu_bgb_clock_latch m) user peer.

(** ** The callbacks registered with libmobile *)

Definition impl_debug_log (line : string) : M mobile_user unit :=
  eprint (String.append line newline).

(** The result and the bytes stored at [dest]. *)
Definition impl_config_read (offset size : Z) : M mobile_user (bool * list Z) :=
  let* mobile := get_user in
  let f := fseek (mu_config mobile) (i64 offset) SEEK_SET in
  let '(dest, f) := fread f size in
  put_user (set_config mobile f) ;;;
  ret (Z.of_nat (length dest) =? size, dest).

Definition impl_config_write (src : list Z) (offset : Z) : M mobile_user bool :=
  let* mobile := get_user in
  let f := fseek (mu_config mobile) (i64 offset) SEEK_SET in
  let '(n, f) := fwrite f src in
  put_user (set_config mobile f) ;;;
  ret (n =? Z.of_nat (length src)).

Definition impl_time_latch (timer : nat) : M mobile_user unit :=
  let* mobile := get_user in
  match mu_bgb_clock_latch mobile !! timer with
  | Some _ => put_user (set_latch mobile
                (<[timer := mu_bgb_clock mobile]> (mu_bgb_clock_latch mobile)))
  | None => halt StUB
  end.

Definition impl_time_check_ms (timer : nat) (ms : Z) : M mobile_user bool :=
  let* mobile := get_user in
  match mu_bgb_clock_latch mobile !! timer, ticks_of_ms ms with
  | Some latch, Some ticks =>
    ret (ticks <=? Z.land (u32 (mu_bgb_clock mobile - latch)) 0x7FFFFFFF)
  | _, _ => halt StUB
  end.

Definition impl_sock_open (conn : nat) (type : mobile_socktype) (addrtype : mobile_addrtype)
    (bindport : Z) : M mobile_user bool :=
  let* mobile := get_user in
  let* '(ok, s) := socket_impl_open (mu_socket mobile) conn type addrtype bindport in
  put_user (set_socket mobile s) ;;; ret ok.

Definition impl_sock_close (conn : nat) : M mobile_user unit :=
  let* mobile := get_user in
  let* s := socket_impl_close (mu_socket mobile) conn in
  put_user (set_socket mobile s).

Definition impl_sock_connect (conn : nat) (addr : option mobile_addr) : M mobile_user Z :=
  let* mobile := get_user in
  socket_impl_connect (mu_socket mobile) conn addr.

Definition impl_sock_listen (conn : nat) : M mobile_user bool :=
  let* mobile := get_user in
  socket_impl_listen (mu_socket mobile) conn.

Definition impl_sock_accept (conn : nat) : M mobile_user bool :=
  let* mobile := get_user in
  let* '(ok, s) := socket_impl_accept (mu_socket mobile) conn in
  put_user (set_socket mobile s) ;;; ret ok.

Definition impl_sock_send (conn : nat) (data : list Z) (addr : option mobile_addr)
    : M mobile_user Z :=
  let* mobile := get_user in
  socket_impl_send (mu_socket mobile) conn data addr.

Definition impl_sock_recv (conn : nat) (data : bool) (size : Z) (addr : option mobile_addr)
    : M mobile_user (Z * list Z * option mobile_addr) :=
  let* mobile := get_user in
  socket_impl_recv (mu_socket mobile) conn data size addr.

(** ** The window title *)

Definition TITLE_SIZE : Z := 0x100.

(** [i += swprintf(title + i, size - i, s)]: the title so far is [t].  A text
    that does not fit makes [swprintf] fail; what the program computes with
    its -1 afterwards is not modelled. *)
Definition title_append (t s : string) : M mobile_user string :=
  if Z.of_nat (String.length t) + Z.of_nat (String.length s) <? TITLE_SIZE
  then ret (String.append t s)
  else halt StUB.

(** The text of a number field; reading past an unterminated one is undefined. *)
Definition number_text (buf : list Z) : M mobile_user string :=
  match buf_string buf with
  | Some l => ret (string_of_bytes l)
  | None => halt StUB
  end.

Definition update_title : M mobile_user unit :=
  let* mobile := get_user in
  let* title := title_append "" "Mobile Adapter - " in
  let* peer := number_text (mu_number_peer mobile) in
  let* title :=
    (if negb (String.eqb peer "") then title_append title (String.append "Call: " peer)
     else title_append title "Disconnected") in
  let* user := number_text (mu_number_user mobile) in
  let* title :=
    (if negb (String.eqb user "")
     then title_append title (String.append " (Your number: " (String.append user ")"))
     else ret title) in
  emit (EvTitle title).

(** The bytes of a number field after storing [number]. *)
Definition store_number (dest : list Z) (number : option string) : list Z :=
  match number with
  | Some s => <[MOBILE_MAX_NUMBER_SIZE := 0]> (strncpy dest s MOBILE_MAX_NUMBER_SIZE)
  | None => <[0%nat := 0]> dest
  end.

Definition impl_update_number (type : mobile_number) (number : option string) : M mobile_user unit :=
  let* mobile := get_user in
  (match type with
   | MOBILE_NUMBER_USER =>
     put_user (set_numbers mobile (store_number (mu_number_user mobile) number)
                 (mu_number_peer mobile))
   | MOBILE_NUMBER_PEER =>
     put_user (set_numbers mobile (mu_number_user mobile)
                 (store_number (mu_number_peer mobile) number))
   | MOBILE_NUMBER_other _ => halt StAbort
   end) ;;;
  update_title.

(** ** The library calling back *)

(** Which function each [mobile_def_*] call of [main] registers. *)
Definition dispatch (c : callback) : M mobile_user (cbres c) :=
  match c return M mobile_user (cbres c) with
  | CbDebugLog line => impl_debug_log line
  | CbConfigRead offset size => impl_config_read offset size
  | CbConfigWrite src offset => impl_config_write src offset
  | CbTimeLatch timer => impl_time_latch timer
  | CbTimeCheckMs timer ms => impl_time_check_ms timer ms
  | CbSockOpen conn type addrtype bindport => impl_sock_open conn type addrtype bindport
  | CbSockClose conn => impl_sock_close conn
  | CbSockConnect conn addr => impl_sock_connect conn addr
  | CbSockListen conn => impl_sock_listen conn
  | CbSockAccept conn => impl_sock_accept conn
  | CbSockSend conn data addr => impl_sock_send conn data addr
  | CbSockRecv conn data size addr => impl_sock_recv conn data size addr
  | CbUpdateNumber type number => impl_update_number type number
  end.

Fixpoint run_cb {R} (p : cbprog R) : M mobile_user R :=
  match p with
  | CbRet r => ret r
  | CbCall c k => let* r := dispatch c in run_cb (k r)
  end.

(** A call of a library function on the adapter, with and without a result. *)
Definition lib_call {R} (f : adapter -> cbprog (R * adapter)) : M mobile_user R :=
  let* mobile := get_user in
  let* '(r, a) := run_cb (f (mu_adapter mobile)) in
  let* mobile := get_user in
  put_user (set_adapter mobile a) ;;; ret r.

Definition lib_do (f : adapter -> cbprog adapter) : M mobile_user unit :=
  let* mobile := get_user in
  let* a := run_cb (f (mu_adapter mobile)) in
  let* mobile := get_user in
  put_user (set_adapter mobile a).

(** ** Driving the adapter *)

Definition filter_actions (actions : Z) : Z :=
  Z.land actions (Z.lnot MOBILE_ACTION_RESET_SERIAL).

Definition mobile_handle_loop : M mobile_user bool :=
  (* Reset the adapter if requested *)
  let* mobile := get_user in
  (if mu_reset mobile then
     lib_do mobile_stop ;;;
     lib_do mobile_start ;;;
     let* mobile := get_user in
     put_user (set_reset mobile false)
   else ret tt) ;;;
  (* Fetch action if none exists *)
  let* mobile := get_user in
  (if mu_action mobile =? MOBILE_ACTION_NONE then
     let* actions := lib_call mobile_actions_get in
     let* mobile := get_user in
     put_user (set_action mobile (filter_actions actions))
   else ret tt) ;;;
  (* Process action *)
  let* mobile := get_user in
  (if negb (mu_action mobile =? MOBILE_ACTION_NONE) then
     lib_do (fun a => mobile_actions_process a (mu_action mobile)) ;;;
     (* Fetch next action *)
     let* actions := lib_call mobile_actions_get in
     let* mobile := get_user in
     put_user (set_action mobile (filter_actions actions))
   else ret tt) ;;;
  ret true.

(** ** The callbacks given to the BGB link *)

Definition bgb_loop_transfer (c : Z) : M mobile_user Z :=
  let* c := lib_call (fun a => mobile_transfer a c) in ret (u8 c).

Definition bgb_loop_timestamp (t : Z) : M mobile_user unit :=
  let* mobile := get_user in
  let diff := Z.land (u32 (t - mu_bgb_clock mobile)) 0x7FFFFFFF in
  (if 0x1000 <? diff then
     eprint (String.append "[BGB] Emulator reset detected! Resetting adapter" newline) ;;;
     put_user (set_reset mobile true)
   else ret tt) ;;;
  let* mobile := get_user in
  put_user (set_clock mobile t (mu_bgb_clock_init mobile)).

Definition bgb_loop_timestamp_init (t : Z) : M mobile_user unit :=
  let* mobile := get_user in
  put_user (set_clock mobile t true).
End MobileUser.
