(* ===== verification/MobileUserProofs.v ===== *)
(** * Properties of the adapter's environment

    Time conversion, configuration storage, phone numbers and the window
    title, and the safety of the callbacks whatever the library does. *)

From S2P Require Import Prelude CInt CLib Sys Hoare SimKernel Socket BgbLink Libmobile SocketImpl.
From S2P Require Import SocketImplProofs MobileUser.
From Stdlib Require Import Floats.SpecFloat.

(** ** Milliseconds to ticks *)

Lemma round_half_even_bounds n d : 0 < d ->
  n / d <= round_half_even n d <= n / d + 1 /\
  2 * d * round_half_even n d <= 2 * n + d.
Proof.
  intros Hd. unfold round_half_even.
  pose proof (Z.div_mod n d ltac:(lia)) as Hdm. pose proof (Z.mod_pos_bound n d Hd).
  destruct (Z.ltb_spec (2 * (n mod d)) d); [split; nia|].
  destruct (Z.ltb_spec d (2 * (n mod d))); [split; nia|].
  destruct (Z.even (n / d)); split; nia.
Qed.

(** Rounding at a fine enough scale does not change the integer part. *)
Lemma round_trunc a b s : 0 <= a -> 0 < b -> 2 * b <= s ->
  round_half_even (a * s) b / s = a / b.
Proof.
  intros Ha Hb Hs.
  pose proof (round_half_even_bounds (a * s) b Hb) as [[Hlo Hhi] Hup].
  set (r := round_half_even (a * s) b) in *.
  pose proof (Z.div_mod a b ltac:(lia)) as Hdm. pose proof (Z.mod_pos_bound a b Hb).
  symmetry. apply (Z.div_unique_pos _ _ _ (r - s * (a / b))); [|lia].
  assert (s * (a / b) <= a * s / b) as H1.
  { apply Z.div_le_lower_bound; [lia|]. nia. }
  split; [lia|].
  assert (2 * b * r < 2 * b * (s * (a / b + 1))); [|nia]. nia.
Qed.

Lemma double_div_exact a b : 0 < b -> b <= a -> a / b < 2 ^ 40 -> b <= 2 ^ 10 ->
  double_div_trunc a b = a / b.
Proof.
  intros Hb Hab Hq Hb'. unfold double_div_trunc.
  assert (1 <= a / b) by (apply Z.div_le_lower_bound; lia).
  assert (0 <= Z.log2 (a / b) < 40) as [? ?].
  { split; [apply Z.log2_nonneg|]. by apply Z.log2_lt_pow2; [lia|]. }
  apply round_trunc; [lia|lia|].
  transitivity (2 ^ 11); [lia|]. apply Z.pow_le_mono_r; lia.
Qed.

(** Rounding never drops below the integer part. *)
Lemma double_div_lower a b : 0 <= a -> 0 < b -> a / b < 2 ^ 52 -> a / b <= double_div_trunc a b.
Proof.
  intros Ha Hb Hq. unfold double_div_trunc.
  assert (0 < 2 ^ (52 - Z.log2 (a / b))) as Hs.
  { apply Z.pow_pos_nonneg; [lia|].
    destruct (Z.eq_dec (a / b) 0) as [->|]; [done|].
    assert (0 < a / b) by (pose proof (Z.div_pos a b); lia).
    assert (Z.log2 (a / b) < 52) by by apply Z.log2_lt_pow2. lia. }
  set (s := 2 ^ _) in *. apply Z.div_le_lower_bound; [done|].
  etrans; [|apply round_half_even_bounds; done].
  apply Z.div_le_lower_bound; [done|]. pose proof (Z.mul_div_le a b Hb). nia.
Qed.

Lemma ticks_of_ms_cases ms : 0 <= ms < 2 ^ 32 ->
  ticks_of_ms ms = if ms <? 2048000 then Some (ms * 2 ^ 21 / 1000) else None.
Proof.
  intros Hms. unfold ticks_of_ms. destruct (Z.eqb_spec ms 0) as [->|]; [done|].
  assert (ms * 2 ^ 21 / 1000 < 2 ^ 52) by (apply Z.div_lt_upper_bound; lia).
  destruct (Z.ltb_spec ms 2048000).
  - assert (ms * 2 ^ 21 / 1000 < 2 ^ 32) by (apply Z.div_lt_upper_bound; lia).
    rewrite double_div_exact by lia. by rewrite (proj2 (Z.ltb_lt _ _)).
  - assert (2 ^ 32 <= ms * 2 ^ 21 / 1000) by (apply Z.div_le_lower_bound; lia).
    pose proof (double_div_lower (ms * 2 ^ 21) 1000).
    by rewrite (proj2 (Z.ltb_ge _ _)) by lia.
Qed.

Lemma ticks_of_ms_below ms : 0 <= ms < 2048000 -> ticks_of_ms ms = Some (ms * 2 ^ 21 / 1000).
Proof. intros. rewrite ticks_of_ms_cases by lia. by rewrite (proj2 (Z.ltb_lt _ _)) by lia. Qed.

(** C28: converting a timeout to emulator ticks through doubles loses nothing:
    below 2048000 ms (about 34 minutes) the result is exactly
    [ms * 2^21 / 1000] rounded down; from there on the value does not fit
    [uint32_t] and the conversion is undefined. *)
Theorem ticks_of_ms_exact ms (Hms : 0 <= ms < 2 ^ 32) :
  ticks_of_ms ms = if ms <? 2048000 then Some (ms * 2 ^ 21 / 1000) else None.
Proof. by apply ticks_of_ms_cases. Qed.

Lemma ticks_of_ms_exact_witness : ticks_of_ms 5000 = Some 10485760.
Proof. exact (ticks_of_ms_exact 5000 ltac:(lia)). Defined.

(** The rounding used here agrees with the Standard Library's model of IEEE
    double division on a range of timeouts. *)
Definition sf_trunc (x : spec_float) : Z :=
  match x with
  | S754_finite _ m e => if 0 <=? e then Z.pos m * 2 ^ e else Z.pos m / 2 ^ (- e)
  | _ => 0
  end.

Definition sf_ticks (ms : Z) : Z :=
  let d z := binary_normalize 53 1024 z 0 false in
  sf_trunc (SFdiv 53 1024 (SFmul 53 1024 (d ms) (d (2 ^ 21))) (d 1000)).

Example ticks_agree_with_doubles :
  forallb (fun ms => sf_ticks ms =? double_div_trunc (ms * 2 ^ 21) 1000)
    ((fun k => Z.of_nat k * 7919 + 1) <$> seq 0 250) = true.
Proof. vm_compute. reflexivity. Qed.

(** ** Timers *)

Section Timers.
Context `{K : Kernel} `{Libc} `{Host} `{L : Libmobile}.

(** C19: a timer latched now and checked later reports exactly whether the
    emulator clock, which counts modulo 2^31, has advanced by the timeout's
    ticks; latching changes no other timer. *)
Theorem timer_check (timer : nat) ms (w w1 : world mobile_user) t
    (Htimer : (timer < length (mu_bgb_clock_latch (w_user w)))%nat)
    (Hms : 0 <= ms < 2048000)
    (Hlatch : impl_time_latch timer w = (Ret tt, w1)) :
  let w2 := World (w_kern w1) (w_errno w1) (w_trace w1)
              (set_clock (w_user w1) t (mu_bgb_clock_init (w_user w1))) in
  impl_time_check_ms timer ms w2 =
    (Ret (bool_decide (ms * 2 ^ 21 / 1000 <= (t - mu_bgb_clock (w_user w)) mod 2 ^ 31)), w2) /\
  (forall i, i <> timer ->
     mu_bgb_clock_latch (w_user w1) !! i = mu_bgb_clock_latch (w_user w) !! i).
Proof.
  unfold impl_time_latch, bind, get_user in Hlatch.
  destruct (lookup_lt_is_Some_2 _ _ Htimer) as [old Hold]. rewrite Hold in Hlatch.
  unfold put_user in Hlatch. injection Hlatch as <-. simpl. split.
  - unfold impl_time_check_ms, bind, get_user. simpl.
    rewrite list_lookup_insert_eq by done.
    rewrite ticks_of_ms_below by lia. unfold ret. do 2 f_equal.
    rewrite diff_mod.
    apply eq_true_iff_eq. rewrite Z.leb_le, bool_decide_eq_true. done.
  - intros i Hi. by apply list_lookup_insert_ne.
Qed.
End Timers.

(** ** Configuration storage *)

Section Config.
Context `{K : Kernel} `{Libc} `{Host} `{L : Libmobile}.

(** The configuration file's contents. *)
Definition config_data (w : world mobile_user) : list Z := f_data (mu_config (w_user w)).

Lemma impl_config_read_run offset size (w : world mobile_user) :
  0 <= offset < 2 ^ 63 ->
  exists w', impl_config_read offset size w =
    (Ret (bool_decide (Z.of_nat (length (take (Z.to_nat size)
            (drop (Z.to_nat offset) (config_data w)))) = size),
          take (Z.to_nat size) (drop (Z.to_nat offset) (config_data w))), w') /\
    config_data w' = config_data w /\ f_room (mu_config (w_user w')) = f_room (mu_config (w_user w)).
Proof.
  intros Ho. unfold impl_config_read, bind, get_user, put_user, ret, fseek, fread.
  rewrite i64_small, (proj2 (Z.ltb_ge offset 0)) by lia. simpl.
  eexists. split; [rewrite eqb_bool_decide; reflexivity|]. done.
Qed.

Lemma impl_config_write_run src offset (w : world mobile_user) :
  0 <= offset < 2 ^ 63 -> offset + Z.of_nat (length src) <= f_room (mu_config (w_user w)) ->
  src <> [] ->
  exists w', impl_config_write src offset w = (Ret true, w') /\
    config_data w' = overwrite (config_data w) (Z.to_nat offset) src /\
    f_room (mu_config (w_user w')) = f_room (mu_config (w_user w)).
Proof.
  intros Ho Hr Hne. unfold impl_config_write, bind, get_user, put_user, ret, fseek.
  rewrite i64_small, (proj2 (Z.ltb_ge offset 0)) by lia.
  rewrite fwrite_fits by (simpl; lia || done). simpl. rewrite Z.eqb_refl. by eexists.
Qed.

(** C18: what the adapter stores in its configuration it reads back: a write
    that the device has room for succeeds; reading the same range returns the
    bytes written, and reading a range disjoint from it, within the file as it
    was, returns what it held before. *)
Theorem config_roundtrip src offset (w : world mobile_user)
    (Ho : 0 <= offset < 2 ^ 63)
    (Hroom : offset + Z.of_nat (length src) <= f_room (mu_config (w_user w))) (Hne : src <> []) :
  exists w1, impl_config_write src offset w = (Ret true, w1) /\
    fst (impl_config_read offset (Z.of_nat (length src)) w1) = Ret (true, src) /\
    forall off size, 0 <= off < 2 ^ 63 -> 0 <= size ->
      off + size <= Z.of_nat (length (config_data w)) ->
      off + size <= offset \/ offset + Z.of_nat (length src) <= off ->
      fst (impl_config_read off size w1) = fst (impl_config_read off size w).
Proof.
  destruct (impl_config_write_run src offset w Ho Hroom Hne) as (w1 & Hw & Hd & _).
  exists w1. split_and!; [done| |].
  - destruct (impl_config_read_run offset (Z.of_nat (length src)) w1 Ho) as (w2 & -> & _).
    rewrite Hd, Nat2Z.id, overwrite_read. by rewrite bool_decide_eq_true_2.
  - intros off size Hoff Hsize Hin Hdisj.
    destruct (impl_config_read_run off size w1 Hoff) as (w2 & -> & _).
    destruct (impl_config_read_run off size w Hoff) as (w3 & -> & _). rewrite Hd.
    assert (take (Z.to_nat size) (drop (Z.to_nat off)
        (overwrite (config_data w) (Z.to_nat offset) src))
      = take (Z.to_nat size) (drop (Z.to_nat off) (config_data w))) as ->; [|done].
    apply list_eq. intros i.
    destruct (decide (i < Z.to_nat size)%nat).
    + rewrite !lookup_take_lt, !lookup_drop by done. apply overwrite_frame; lia.
    + by rewrite !lookup_take_ge by lia.
Qed.
End Config.

(** ** Phone numbers *)

Section Numbers.
Context `{L : Libmobile}.

(** A number field: as long as its declaration, and terminated. *)
Definition number_ok (buf : list Z) : Prop :=
  length buf = S MOBILE_MAX_NUMBER_SIZE /\ is_Some (buf_string buf).

Definition no_nul (s : string) : Prop := Forall (.≠ 0) (string_bytes s).

Lemma buf_string_app (l rest : list Z) :
  is_Some (buf_string (l ++ 0 :: rest)).
Proof.
  induction l as [|b l [s IH]]; simpl; [by eexists|].
  destruct (b =? 0); [by eexists|]. rewrite IH. by eexists.
Qed.

Lemma buf_string_length (l s : list Z) : buf_string l = Some s -> (length s < length l)%nat.
Proof.
  revert s. induction l as [|b l IH]; intros s; simpl; [done|].
  destruct (b =? 0); [intros; simplify_eq; simpl; lia|].
  destruct (buf_string l) as [s'|]; [|done]. intros; simplify_eq/=.
  specialize (IH s' eq_refl). lia.
Qed.

Lemma store_number_Some (buf : list Z) s :
  length buf = S MOBILE_MAX_NUMBER_SIZE ->
  store_number buf (Some s) =
    take MOBILE_MAX_NUMBER_SIZE (string_bytes s ++ replicate MOBILE_MAX_NUMBER_SIZE 0) ++ [0].
Proof.
  intros Hl. simpl. unfold strncpy. set (n := MOBILE_MAX_NUMBER_SIZE) in *.
  assert (length (take n (string_bytes s ++ replicate n 0)) = n) as Ht.
  { rewrite length_take, length_app, length_replicate. lia. }
  rewrite insert_app_r_alt by lia. rewrite Ht, Nat.sub_diag.
  assert (length (drop n buf) = 1%nat) as Hd by (rewrite length_drop; lia).
  destruct (drop n buf) as [|b [|]]; try done; simpl in Hd; lia.
Qed.

Lemma store_number_ok buf number : number_ok buf -> number_ok (store_number buf number).
Proof.
  intros [Hl Hs]. destruct number as [s|].
  - rewrite store_number_Some by done. split; [|apply buf_string_app].
    rewrite length_app, length_take, length_app, length_replicate. simpl. lia.
  - simpl. split; [by rewrite length_insert|].
    destruct buf as [|b buf]; [done|]. by eexists.
Qed.

(** Reading back a stored number: its first [MOBILE_MAX_NUMBER_SIZE] bytes. *)
Lemma store_number_read buf s :
  length buf = S MOBILE_MAX_NUMBER_SIZE -> no_nul s ->
  buf_string (store_number buf (Some s)) = Some (take MOBILE_MAX_NUMBER_SIZE (string_bytes s)).
Proof.
  intros Hl Hs. rewrite store_number_Some by done. set (n := MOBILE_MAX_NUMBER_SIZE).
  destruct (decide (length (string_bytes s) < n)%nat).
  - rewrite (take_ge (string_bytes s)), take_app_ge by lia.
    destruct (n - length (string_bytes s))%nat as [|m] eqn:Hm; [lia|].
    rewrite take_replicate. rewrite Nat.min_l by lia. simpl.
    rewrite <- app_assoc. by apply buf_string_prefix.
  - rewrite take_app_le by lia. apply (buf_string_prefix _ []). by apply Forall_take.
Qed.

Lemma string_of_bytes_length l : String.length (string_of_bytes l) = length l.
Proof. induction l; simpl; congruence. Qed.

Lemma number_ok_length buf l :
  number_ok buf -> buf_string buf = Some l -> (length l <= MOBILE_MAX_NUMBER_SIZE)%nat.
Proof. intros [Hl _] Hs. apply buf_string_length in Hs. lia. Qed.
End Numbers.

Lemma string_of_string_bytes s : string_of_bytes (string_bytes s) = s.
Proof.
  induction s as [|a s IH]; simpl; [done|]. rewrite IH. f_equal.
  unfold byte_of. rewrite N2Z.id. apply Ascii.ascii_N_embedding.
Qed.

(** ** The window title *)

Section Title.
Context `{K : Kernel} `{!KernelLaws K} `{Libc} `{Host} `{L : Libmobile} `{!LibmobileLaws L}.

(** What the title says: the call and the user's own number, if any. *)
Definition title_of (user peer : string) : string :=
  let call := if String.eqb peer "" then "Disconnected"%string else String.append "Call: " peer in
  let own := if String.eqb user "" then ""%string
             else String.append " (Your number: " (String.append user ")") in
  String.append (String.append "Mobile Adapter - " call) own.

Lemma title_append_fits t s (w : world mobile_user) :
  (String.length t + String.length s < 256)%nat -> title_append t s w = (Ret (String.append t s), w).
Proof.
  intros Hl. unfold title_append, TITLE_SIZE. by rewrite (proj2 (Z.ltb_lt _ _)) by lia.
Qed.

Lemma update_title_run (w : world mobile_user) user peer :
  number_ok (mu_number_user (w_user w)) -> number_ok (mu_number_peer (w_user w)) ->
  buf_string (mu_number_user (w_user w)) = Some user ->
  buf_string (mu_number_peer (w_user w)) = Some peer ->
  update_title w = (Ret tt, World (w_kern w) (w_errno w)
    (EvTitle (title_of (string_of_bytes user) (string_of_bytes peer)) :: w_trace w) (w_user w)).
Proof.
  intros Hu Hp Hsu Hsp.
  pose proof (number_ok_length _ _ Hu Hsu). pose proof (number_ok_length _ _ Hp Hsp).
  pose proof law_number_size.
  unfold update_title, number_text. unfold bind at 1, get_user at 1.
  erewrite bind_run by (apply title_append_fits; simpl; lia).
  rewrite Hsp, Hsu. unfold bind at 1, ret at 1, title_of.
  destruct (String.eqb_spec (string_of_bytes peer) "") as [Ep|Ep]; cbn [negb];
    (erewrite bind_run;
       [|apply title_append_fits; rewrite ?string_length_append, ?string_of_bytes_length; simpl; lia]);
    unfold bind at 1, ret at 1;
    (destruct (String.eqb_spec (string_of_bytes user) "") as [Eu|Eu]; cbn [negb];
     [unfold bind, ret, emit; by rewrite string_append_nil|]);
    (erewrite bind_run;
       [|apply title_append_fits;
         rewrite !string_length_append, ?string_of_bytes_length; simpl; lia]); done.
Qed.

(** The text of a number field. *)
Definition number_value (buf : list Z) : string :=
  string_of_bytes (default [] (buf_string buf)).

(** What a field of the given type holds after an update. *)
Definition stored_value (number : option string) : string :=
  match number with
  | Some s => string_of_bytes (take MOBILE_MAX_NUMBER_SIZE (string_bytes s))
  | None => ""
  end.

Lemma store_number_value buf number :
  number_ok buf -> (forall s, number = Some s -> no_nul s) ->
  buf_string (store_number buf number) =
    Some (match number with Some s => take MOBILE_MAX_NUMBER_SIZE (string_bytes s) | None => [] end).
Proof.
  intros [Hl _] Hn. destruct number as [s|].
  - apply store_number_read; auto.
  - destruct buf; [done|]. done.
Qed.

Definition known_number (type : mobile_number) : Prop :=
  type = MOBILE_NUMBER_USER \/ type = MOBILE_NUMBER_PEER.

(** C20: when libmobile reports the user's or the peer's number, the matching
    field reads back as that number, cut to the field's size, and terminated
    (empty when the number is withdrawn); the other field and the rest of the
    program's state are untouched, and the window title, which always fits its
    buffer, shows both. *)
Theorem impl_update_number_ok type number (w : world mobile_user)
    (Hu : number_ok (mu_number_user (w_user w))) (Hp : number_ok (mu_number_peer (w_user w)))
    (Htype : known_number type) (Hnul : forall s, number = Some s -> no_nul s) :
  exists user peer,
    let value old t := if decide (type = t) then stored_value number else number_value old in
    number_value user = value (mu_number_user (w_user w)) MOBILE_NUMBER_USER /\
    number_value peer = value (mu_number_peer (w_user w)) MOBILE_NUMBER_PEER /\
    number_ok user /\ number_ok peer /\
    impl_update_number type number w = (Ret tt,
      World (w_kern w) (w_errno w)
        (EvTitle (title_of (number_value user) (number_value peer)) :: w_trace w)
        (set_numbers (w_user w) user peer)).
Proof.
  pose proof (store_number_ok _ number Hu) as Hu'. pose proof (store_number_ok _ number Hp) as Hp'.
  pose proof (store_number_value _ number Hu Hnul) as Vu.
  pose proof (store_number_value _ number Hp Hnul) as Vp.
  destruct Hu as [Hlu [su Hsu]], Hp as [Hlp [sp Hsp]].
  unfold number_value. unfold impl_update_number, bind at 1, get_user at 1.
  destruct Htype as [-> | ->]; unfold bind at 1, put_user at 1; simpl.
  - exists (store_number (mu_number_user (w_user w)) number), (mu_number_peer (w_user w)).
    erewrite update_title_run; simpl; [|done..]. rewrite Vu, Hsp. simpl.
    by destruct number.
  - exists (mu_number_user (w_user w)), (store_number (mu_number_peer (w_user w)) number).
    erewrite update_title_run; simpl; [|done..]. rewrite Vp, Hsu. simpl.
    by destruct number.
Qed.
End Title.

(** ** Concrete runs *)

Section Examples.
Import SimInstances ToyInstances.

Definition toy_user : mobile_user :=
  MobileUser 0 (SocketImplState [-1; -1]) 0 (MkFile [1; 2; 3; 4; 5; 6] 0 4096) false 100 true
    [0; 0; 0; 0] (replicate 9 0) (replicate 9 0).

Definition toy_world : world mobile_user := sim_world sim_init toy_user.

Lemma toy_number_ok : number_ok (replicate 9 0).
Proof. split; [done|]. by eexists. Qed.

Lemma timer_check_witness :
  fst (impl_time_check_ms 2 1000 (sim_world sim_init
        (set_clock (set_latch toy_user [0; 0; 100; 0]) 2097252 true))) = Ret true.
Proof.
  pose proof (timer_check 2 1000 toy_world
    (sim_world sim_init (set_latch toy_user [0; 0; 100; 0])) 2097252
    ltac:(simpl; lia) ltac:(lia) eq_refl) as [Hc _].
  unfold toy_world, sim_world in *. cbn beta iota zeta in Hc. etransitivity; [apply (f_equal fst Hc)|].
  vm_compute. reflexivity.
Defined.

Lemma config_roundtrip_witness : exists w1,
  impl_config_write [77; 65] 1 toy_world = (Ret true, w1) /\
  fst (impl_config_read 1 2 w1) = Ret (true, [77; 65]) /\
  fst (impl_config_read 3 3 w1) = Ret (true, [4; 5; 6]).
Proof.
  destruct (config_roundtrip [77; 65] 1 toy_world ltac:(lia) ltac:(simpl; lia) ltac:(done))
    as (w1 & Hw & Hr & Hframe).
  exists w1. split_and!; [exact Hw|exact Hr|].
  rewrite (Hframe 3 3); [vm_compute; reflexivity|lia|lia|simpl; lia|simpl; lia].
Defined.

Lemma impl_update_number_ok_witness : exists user peer,
  number_value user = "12345678"%string /\ number_value peer = ""%string /\
  number_ok user /\ number_ok peer /\
  impl_update_number MOBILE_NUMBER_USER (Some "1234567890"%string) toy_world = (Ret tt,
    World sim_init 0 [EvTitle (title_of (number_value user) (number_value peer))]
      (set_numbers toy_user user peer)).
Proof.
  destruct (impl_update_number_ok MOBILE_NUMBER_USER (Some "1234567890"%string) toy_world
    toy_number_ok toy_number_ok ltac:(by left)) as (user & peer & Hu & Hp & Ho & Ho' & Hrun).
  { intros s [= <-]. unfold no_nul. simpl.
    repeat (apply Forall_cons_2; [done|]). apply Forall_nil_2. }
  exists user, peer. split_and!; [exact Hu|exact Hp|exact Ho|exact Ho'|exact Hrun].
Defined.
End Examples.
