(* ===== verification/Callbacks.v ===== *)
(** * The callbacks as an implementation of libmobile's environment

    [cb_pre], [cb_ret] and [cb_post] are the contract between the library and
    the program that hosts it, over an abstract state: which connections are
    open.  A library program [respects] it when it only makes calls that are
    allowed in the abstract state, whatever allowed answers it gets.  The
    program's callbacks implement the contract, so no such library program can
    make them abort or run into undefined behaviour, and the invariant
    [user_ok] holds after every one of them. *)

From S2P Require Import Prelude CInt CLib Sys Hoare SimKernel Socket BgbLink Libmobile SocketImpl.
From S2P Require Import SocketImplProofs MobileUser MobileUserProofs.

(** ** The contract *)

Section Contract.
Context `{L : Libmobile}.

Definition known_socktype (t : mobile_socktype) : Prop := forall v, t <> MOBILE_SOCKTYPE_other v.
Definition known_addrtype (t : mobile_addrtype) : Prop := forall v, t <> MOBILE_ADDRTYPE_other v.

(** When the library may make a call; [opened] has one entry per connection. *)
Definition cb_pre (opened : list bool) (c : callback) : Prop :=
  match c with
  | CbDebugLog _ | CbConfigRead _ _ | CbConfigWrite _ _ => True
  | CbTimeLatch timer => (timer < MOBILE_MAX_TIMERS)%nat
  | CbTimeCheckMs timer ms => (timer < MOBILE_MAX_TIMERS)%nat /\ 0 <= ms < 2048000
  | CbSockOpen conn type addrtype _ =>
    opened !! conn = Some false /\ known_socktype type /\ known_addrtype addrtype
  | CbSockClose conn | CbSockListen conn | CbSockAccept conn | CbSockSend conn _ _ =>
    opened !! conn = Some true
  | CbSockConnect conn addr => opened !! conn = Some true /\ known_addr addr
  | CbSockRecv conn _ size _ => opened !! conn = Some true /\ 0 <= size < 2 ^ 31
  | CbUpdateNumber type _ => known_number type
  end.

(** What the library may rely on in the answer. *)
Definition cb_ret (c : callback) : cbres c -> Prop :=
  match c return cbres c -> Prop with
  | CbConfigRead _ size => fun '(ok, dest) =>
      ok = true <-> Z.of_nat (length dest) = size
  | CbSockConnect _ _ => fun rc => rc = -1 \/ rc = 0 \/ rc = 1
  | CbSockRecv _ data size addr => fun '(rc, bs, addr') =>
      bytes_ok bs /\
      (rc = -1 \/ rc = -2 \/ (0 <= rc <= size /\ rc = Z.of_nat (length bs))) /\
      (data = false -> bs = [] /\ addr' = addr)
  | _ => fun _ => True
  end.

(** The connections open after the call. *)
Definition cb_post (opened : list bool) (c : callback) : cbres c -> list bool :=
  match c return cbres c -> list bool with
  | CbSockOpen conn _ _ _ => fun ok => if ok : bool then <[conn := true]> opened else opened
  | CbSockClose conn => fun _ => <[conn := false]> opened
  | _ => fun _ => opened
  end.

Fixpoint respects {R} (opened : list bool) (p : cbprog R) (Q : R -> list bool -> Prop) : Prop :=
  match p with
  | CbRet r => Q r opened
  | CbCall c k => cb_pre opened c /\
      forall r, cb_ret c r -> respects (cb_post opened c r) (k r) Q
  end.

Lemma respects_mono {R} opened (p : cbprog R) (Q Q' : R -> list bool -> Prop) :
  respects opened p Q -> (forall r o, Q r o -> Q' r o) -> respects opened p Q'.
Proof.
  revert opened. induction p as [r|c k IH]; intros opened; simpl; [auto|].
  intros [Hpre Hk] HQ. split; [done|]. intros r Hr. apply IH; auto.
Qed.

Lemma respects_bind {A B} opened (p : cbprog A) (f : A -> cbprog B) Q :
  respects opened p (fun a o => respects o (f a) Q) -> respects opened (cb_bind p f) Q.
Proof.
  revert opened. induction p as [a|c k IH]; intros opened; simpl; [auto|].
  intros [Hpre Hk]. split; [done|]. intros r Hr. apply IH; auto.
Qed.
End Contract.

(** The contract of the whole library: an invariant of the adapter that relates
    it to the open connections, kept by every function, each of which respects
    the contract of the callbacks.  It covers the runs in which the library can
    allocate its adapter. *)
Class LibmobileContract (L : Libmobile) := {
  lib_inv : adapter -> list bool -> Prop;
  ct_new : exists a, mobile_new = Some a /\ lib_inv a (replicate MOBILE_MAX_CONNECTIONS false);
  ct_start a o : lib_inv a o -> respects o (mobile_start a) lib_inv;
  ct_stop a o : lib_inv a o -> respects o (mobile_stop a) lib_inv;
  ct_transfer a o c : lib_inv a o ->
    respects o (mobile_transfer a c) (fun r => lib_inv (snd r));
  ct_actions_get a o : lib_inv a o ->
    respects o (mobile_actions_get a) (fun r => lib_inv (snd r));
  ct_actions_process a o act : lib_inv a o -> respects o (mobile_actions_process a act) lib_inv;
  ct_config_load a o : lib_inv a o -> respects o (mobile_config_load a) lib_inv;
  ct_config_save a o : lib_inv a o -> respects o (mobile_config_save a) lib_inv;
  ct_set_device a o d b : lib_inv a o -> respects o (mobile_config_set_device a d b) lib_inv;
  ct_set_dns a o x n : lib_inv a o -> respects o (mobile_config_set_dns a x n) lib_inv;
  ct_set_p2p a o p : lib_inv a o -> respects o (mobile_config_set_p2p_port a p) lib_inv;
  ct_set_relay a o x : lib_inv a o -> respects o (mobile_config_set_relay a x) lib_inv;
  ct_set_token a o t : lib_inv a o -> respects o (mobile_config_set_relay_token a t) lib_inv
}.

(** ** The invariant of the environment *)

Section Safety.
Context `{K : Kernel} `{!KernelLaws K} `{Libc} `{Host} `{L : Libmobile} `{!LibmobileLaws L}.

Record user_ok (base : gset Z) (w : world mobile_user) : Prop := {
  uk_table : table_ok base (mu_socket (w_user w)) (fds w);
  uk_latch : length (mu_bgb_clock_latch (w_user w)) = MOBILE_MAX_TIMERS;
  uk_user : number_ok (mu_number_user (w_user w));
  uk_peer : number_ok (mu_number_peer (w_user w))
}.

(** What no callback changes. *)
Definition kept (m m' : mobile_user) : Prop :=
  mu_adapter m' = mu_adapter m /\ mu_action m' = mu_action m /\ mu_reset m' = mu_reset m /\
  mu_bgb_clock m' = mu_bgb_clock m /\ mu_bgb_clock_init m' = mu_bgb_clock_init m.

#[global] Instance kept_refl : Reflexive kept.
Proof. by intros m. Qed.

#[global] Instance kept_trans : Transitive kept.
Proof. intros m1 m2 m3 (?&?&?&?&?) (?&?&?&?&?). split_and!; congruence. Qed.

(** The connections the table holds a socket for. *)
Definition opened (m : mobile_user) : list bool :=
  (fun s => negb (s =? INVALID_SOCKET)) <$> sockets (mu_socket m).

Lemma opened_lookup m (conn : nat) (b : bool) :
  opened m !! conn = Some b ->
  exists s, sockets (mu_socket m) !! conn = Some s /\
    (if b then s <> -1 else s = INVALID_SOCKET).
Proof.
  unfold opened. rewrite list_lookup_fmap. intros Hc.
  destruct (sockets (mu_socket m) !! conn) as [s|]; [|done]. injection Hc as <-.
  exists s. split; [done|]. by destruct (Z.eqb_spec s INVALID_SOCKET).
Qed.

Lemma opened_set_slot m (conn : nat) s :
  opened (set_socket m (set_slot (mu_socket m) conn s))
    = <[conn := negb (s =? INVALID_SOCKET)]> (opened m).
Proof. unfold opened; simpl. by rewrite list_fmap_insert. Qed.

(** A callback that leaves the descriptors and the user's object alone. *)
Lemma user_ok_same base w w' : user_ok base w -> same w w' -> user_ok base w'.
Proof. intros [? ? ? ?] [Hf Hu]. by split; rewrite ?Hf, ?Hu. Qed.

(** What a callback [c] guarantees when it returns [r]. *)
Definition meets (base : gset Z) (c : callback) (w : world mobile_user)
    (r : cbres c) (w' : world mobile_user) : Prop :=
  cb_ret c r /\ user_ok base w' /\ kept (w_user w) (w_user w') /\
  opened (w_user w') = cb_post (opened (w_user w)) c r.

(** A callback with no effect on the abstract state. *)
Lemma meets_same base c w r w' :
  (forall o, cb_post o c r = o) -> cb_ret c r -> user_ok base w -> same w w' ->
  meets base c w r w'.
Proof.
  intros Hpost Hr Hok Hsame. split_and!; [done|by eapply user_ok_same| |].
  - destruct Hsame as [_ ->]. done.
  - rewrite Hpost. destruct Hsame as [_ ->]. done.
Qed.

Lemma wp_impl_sock_open base conn type addrtype port E (w : world mobile_user) :
  user_ok base w -> cb_pre (opened (w_user w)) (CbSockOpen conn type addrtype port) ->
  wp (impl_sock_open conn type addrtype port)
     (meets base (CbSockOpen conn type addrtype port) w) E w.
Proof.
  intros [Ht Hl Hu Hp] (Ho & Hty & Haty). destruct (opened_lookup _ _ _ Ho) as (s & Hs & ->).
  unfold impl_sock_open. apply wp_bind, wp_get_user, wp_bind.
  eapply wp_post; [by apply wp_socket_impl_open|].
  intros [[] st'] w' [Hw Hpost]; apply wp_bind, wp_put_user, wp_ret; simpl in Hpost.
  - destruct Hpost as (fd & fl & Hge & Hfree & Hfl & -> & Hf). split_and!; [done| |done|].
    + split; simpl; [|done..]. unfold fds in *; simpl. rewrite Hf. by apply table_ok_open.
    + simpl. rewrite opened_set_slot. unfold INVALID_SOCKET.
      by rewrite (proj2 (Z.eqb_neq fd (-1))) by lia.
  - destruct Hpost as [-> Hf]. split_and!; [done| |done|done].
    split; simpl; [|done..]. unfold fds in *; simpl. by rewrite Hf.
Qed.

Lemma wp_impl_sock_close base conn E (w : world mobile_user) :
  user_ok base w -> cb_pre (opened (w_user w)) (CbSockClose conn) ->
  wp (impl_sock_close conn) (meets base (CbSockClose conn) w) E w.
Proof.
  intros [Ht Hl Hu Hp] Ho. destruct (opened_lookup _ _ _ Ho) as (s & Hs & Hne).
  unfold impl_sock_close. apply wp_bind, wp_get_user, wp_bind.
  eapply wp_socket_impl_close; [done..|]. intros w' Hf Hw. apply wp_put_user.
  split_and!; [done| |done|].
  - split; simpl; [|done..]. unfold fds in *; simpl. rewrite Hf. by eapply table_ok_close.
  - simpl. by rewrite opened_set_slot.
Qed.

Lemma wp_impl_sock_accept base conn E (w : world mobile_user) :
  user_ok base w -> cb_pre (opened (w_user w)) (CbSockAccept conn) ->
  wp (impl_sock_accept conn) (meets base (CbSockAccept conn) w) E w.
Proof.
  intros [Ht Hl Hu Hp] Ho. destruct (opened_lookup _ _ _ Ho) as (s & Hs & Hne).
  unfold impl_sock_accept. apply wp_bind, wp_get_user, wp_bind.
  eapply wp_post; [by apply wp_socket_impl_accept|].
  intros [[] st'] w' [Hw Hpost]; apply wp_bind, wp_put_user, wp_ret; simpl in Hpost.
  - destruct Hpost as (fd & fl & Hge & Hfree & Hfl & -> & Hf). split_and!; [done| |done|].
    + split; simpl; [|done..]. unfold fds in *; simpl. rewrite Hf. by eapply table_ok_replace.
    + simpl. rewrite opened_set_slot. unfold INVALID_SOCKET.
      rewrite (proj2 (Z.eqb_neq fd (-1))) by lia. by apply list_insert_id.
  - destruct Hpost as [-> Hf]. split_and!; [done| |done|done].
    split; simpl; [|done..]. unfold fds in *; simpl.
    destruct Hf as [-> | (fd & fl & _ & Hfree & ->)]; [done|by apply table_ok_extra].
Qed.

Lemma wp_impl_update_number base type number E (w : world mobile_user) :
  user_ok base w -> known_number type ->
  wp (impl_update_number type number) (meets base (CbUpdateNumber type number) w) E w.
Proof.
  intros [Ht Hl Hu Hp] Htype.
  pose proof (store_number_ok _ number Hu) as Hu'. pose proof (store_number_ok _ number Hp) as Hp'.
  pose proof Hu as [_ [su Hsu]]. pose proof Hp as [_ [sp Hsp]].
  pose proof Hu' as [_ [su' Hsu']]. pose proof Hp' as [_ [sp' Hsp']].
  unfold impl_update_number. apply wp_bind, wp_get_user, wp_bind.
  destruct Htype as [-> | ->]; apply wp_put_user.
  - unfold wp; erewrite update_title_run by done. split_and!; [done|by split|done|done].
  - unfold wp; erewrite update_title_run by done. split_and!; [done|by split|done|done].
Qed.

(** ** Every callback meets its contract *)

Lemma wp_impl_config base c E (w : world mobile_user) :
  (exists o n, c = CbConfigRead o n) \/ (exists src o, c = CbConfigWrite src o) ->
  user_ok base w -> wp (dispatch c) (meets base c w) E w.
Proof.
  intros [(o & n & ->)|(src & o & ->)] [Ht Hl Hu Hp]; simpl.
  - unfold impl_config_read. apply wp_bind, wp_get_user.
    destruct (fread _ n) as [dest f]. apply wp_bind, wp_put_user, wp_ret.
    split_and!; [|by split|done|done]. simpl. by rewrite Z.eqb_eq.
  - unfold impl_config_write. apply wp_bind, wp_get_user.
    destruct (fwrite _ src) as [n f]. apply wp_bind, wp_put_user, wp_ret.
    split_and!; [done|by split|done|done].
Qed.

Lemma wp_impl_time base c E (w : world mobile_user) :
  (exists t, c = CbTimeLatch t) \/ (exists t ms, c = CbTimeCheckMs t ms) ->
  user_ok base w -> cb_pre (opened (w_user w)) c -> wp (dispatch c) (meets base c w) E w.
Proof.
  intros [(t & ->)|(t & ms & ->)] Hok Hpre; pose proof Hok as [Ht Hl Hu Hp]; simpl in *.
  - unfold impl_time_latch. apply wp_bind, wp_get_user.
    destruct (lookup_lt_is_Some_2 (mu_bgb_clock_latch (w_user w)) t) as [x ->]; [lia|].
    apply wp_put_user. split_and!; [done| |done|done].
    split; [done| |done|done]. simpl. by rewrite length_insert.
  - unfold impl_time_check_ms. apply wp_bind, wp_get_user.
    destruct (lookup_lt_is_Some_2 (mu_bgb_clock_latch (w_user w)) t) as [x ->]; [lia|].
    rewrite ticks_of_ms_below by lia. apply wp_ret. by apply meets_same.
Qed.

(** The socket callbacks that only use an open connection. *)
Lemma wp_impl_sock_use base c conn s E (w : world mobile_user) :
  sockets (mu_socket (w_user w)) !! conn = Some s -> s <> -1 ->
  c = CbSockListen conn \/ (exists data addr, c = CbSockSend conn data addr) \/
  (exists addr, c = CbSockConnect conn addr /\ known_addr addr) \/
  (exists data size addr, c = CbSockRecv conn data size addr /\ 0 <= size < 2 ^ 31) ->
  user_ok base w -> wp (dispatch c) (meets base c w) E w.
Proof.
  intros Hs Hne [->|[(data & addr & ->)|[(addr & -> & Ha)|(data & size & addr & -> & Hsz)]]] Hok;
    apply wp_bind, wp_get_user.
  - eapply wp_post; [by eapply wp_socket_impl_listen|]. intros. by apply meets_same.
  - eapply wp_post; [by eapply wp_socket_impl_send|]. intros. by apply meets_same.
  - eapply wp_post; [by eapply wp_socket_impl_connect|].
    intros rc w' [Hw Hrc]. by apply meets_same.
  - eapply wp_post; [by eapply wp_socket_impl_recv|].
    intros [[rc bs] addr'] w' (Hw & Ho & Hb & Hrc). apply meets_same; [done| |done|done].
    split_and!; [done|done|]. intros ->. by eapply recv_outcome_peek.
Qed.

Lemma wp_dispatch base c E (w : world mobile_user) :
  user_ok base w -> cb_pre (opened (w_user w)) c -> wp (dispatch c) (meets base c w) E w.
Proof.
  intros Hok Hpre.
  destruct c; try (by apply wp_impl_config; eauto); try (by apply wp_impl_time; eauto).
  - apply wp_quiet; [unfold dispatch, impl_debug_log; frame_tac|]. intros. by apply meets_same.
  - by apply wp_impl_sock_open.
  - by apply wp_impl_sock_close.
  - destruct Hpre as [Ho Ha]. destruct (opened_lookup _ _ _ Ho) as (s & ? & ?).
    eapply wp_impl_sock_use; eauto 8.
  - destruct (opened_lookup _ _ _ Hpre) as (s & ? & ?). eapply wp_impl_sock_use; eauto.
  - by apply wp_impl_sock_accept.
  - destruct (opened_lookup _ _ _ Hpre) as (s & ? & ?). eapply wp_impl_sock_use; eauto.
  - destruct Hpre as [Ho Hsz]. destruct (opened_lookup _ _ _ Ho) as (s & ? & ?).
    eapply wp_impl_sock_use; eauto 10.
  - by apply wp_impl_update_number.
Qed.

(** Running a library program that respects the contract. *)
Lemma wp_run_cb {R} base (p : cbprog R) Q E (w : world mobile_user) :
  user_ok base w -> respects (opened (w_user w)) p Q ->
  wp (run_cb p) (fun r w' => user_ok base w' /\ kept (w_user w) (w_user w') /\
                   Q r (opened (w_user w'))) E w.
Proof.
  revert w. induction p as [r|c k IH]; intros w Hok; simpl.
  - intros HQ. apply wp_ret. done.
  - intros [Hpre Hk]. apply wp_bind. eapply wp_post; [by apply wp_dispatch|].
    intros r w1 (Hr & Hok1 & Hkept & Ho). eapply wp_post.
    + apply IH; [done|]. rewrite Ho. by apply Hk.
    + intros r' w' (? & ? & ?). split_and!; [done|by etrans|done].
Qed.

(** C4: the environment is safe for every library program that respects the
    contract, whatever it does with the answers and whatever the kernel
    answers: running it always returns (no callback aborts, reads an array out
    of range or otherwise runs into undefined behaviour), the invariant holds
    at the end, the connections open are those the library believes open, and
    no callback touches the adapter, the pending action, the reset flag or the
    clock. *)
Theorem run_cb_safe {R} base (p : cbprog R) Q (w : world mobile_user)
    (Hok : user_ok base w) (Hp : respects (opened (w_user w)) p Q) :
  wp (run_cb p) (fun r w' => user_ok base w' /\ kept (w_user w) (w_user w') /\
                   Q r (opened (w_user w')))
     (fun _ _ => False) w.
Proof. by apply wp_run_cb. Qed.

(** ** The library driven by the program *)

Context `{C : !LibmobileContract L}.

(** The environment's invariant with the library's. *)
Definition driven (base : gset Z) (w : world mobile_user) : Prop :=
  user_ok base w /\ lib_inv (mu_adapter (w_user w)) (opened (w_user w)).

(** What a call of the library does not change. *)
Definition driven_kept (m m' : mobile_user) : Prop :=
  mu_action m' = mu_action m /\ mu_reset m' = mu_reset m /\
  mu_bgb_clock m' = mu_bgb_clock m /\ mu_bgb_clock_init m' = mu_bgb_clock_init m.

#[global] Instance driven_kept_trans : Transitive driven_kept.
Proof. intros m1 m2 m3 (?&?&?&?) (?&?&?&?). split_and!; congruence. Qed.

Lemma wp_lib_do base (f : adapter -> cbprog adapter) E (w : world mobile_user) :
  (forall a o, lib_inv a o -> respects o (f a) lib_inv) -> driven base w ->
  wp (lib_do f) (fun _ w' => driven base w' /\ driven_kept (w_user w) (w_user w')) E w.
Proof.
  intros Hf [Hok Hinv]. unfold lib_do. apply wp_bind, wp_get_user, wp_bind.
  eapply wp_post; [apply wp_run_cb; [done|by apply Hf]|].
  intros a w' ([? ? ? ?] & (_ & ? & ? & ? & ?) & Ha). apply wp_bind, wp_get_user, wp_put_user.
  split; [|done]. split; [by split|done].
Qed.

Lemma wp_lib_call {R} base (f : adapter -> cbprog (R * adapter)) E (w : world mobile_user) :
  (forall a o, lib_inv a o -> respects o (f a) (fun r => lib_inv (snd r))) -> driven base w ->
  wp (lib_call f) (fun _ w' => driven base w' /\ driven_kept (w_user w) (w_user w')) E w.
Proof.
  intros Hf [Hok Hinv]. unfold lib_call. apply wp_bind, wp_get_user, wp_bind.
  eapply wp_post; [apply wp_run_cb; [done|by apply Hf]|].
  intros [r a] w' ([? ? ? ?] & (_ & ? & ? & ? & ?) & Ha).
  apply wp_bind, wp_get_user, wp_bind, wp_put_user, wp_ret.
  split; [|done]. split; [by split|done].
Qed.

(** Changing the fields no invariant mentions. *)
Lemma driven_set_action base w a :
  driven base w ->
  driven base (World (w_kern w) (w_errno w) (w_trace w) (set_action (w_user w) a)).
Proof. intros [[? ? ? ?] ?]. split; [by split|done]. Qed.

Lemma driven_set_reset base w b :
  driven base w ->
  driven base (World (w_kern w) (w_errno w) (w_trace w) (set_reset (w_user w) b)).
Proof. intros [[? ? ? ?] ?]. split; [by split|done]. Qed.

Lemma driven_set_clock base w t b k e tr :
  driven base w -> kfds k = fds w ->
  driven base (World k e tr (set_clock (w_user w) t b)).
Proof.
  intros [[? ? ? ?] ?] Hk. split; [|done]. split; try done. unfold fds; simpl. by rewrite Hk.
Qed.

Lemma filter_actions_clear x : Z.land (filter_actions x) MOBILE_ACTION_RESET_SERIAL = 0.
Proof.
  unfold filter_actions. apply Z.bits_inj'. intros n Hn.
  rewrite !Z.land_spec, Z.lnot_spec, Z.bits_0 by done.
  destruct (Z.testbit x n), (Z.testbit _ n); done.
Qed.

(** Storing the filtered action the library reports. *)
Definition fetch_action : M mobile_user unit :=
  let* actions := lib_call mobile_actions_get in
  let* mobile := get_user in
  put_user (set_action mobile (filter_actions actions)).

Definition fetched (w w' : world mobile_user) : Prop :=
  mu_reset (w_user w') = mu_reset (w_user w) /\
  mu_bgb_clock (w_user w') = mu_bgb_clock (w_user w) /\
  mu_bgb_clock_init (w_user w') = mu_bgb_clock_init (w_user w).

Lemma wp_fetch_action base Q E (w : world mobile_user) :
  driven base w ->
  (forall w', driven base w' -> fetched w w' ->
     Z.land (mu_action (w_user w')) MOBILE_ACTION_RESET_SERIAL = 0 -> Q tt w') ->
  wp fetch_action Q E w.
Proof.
  intros Hd HQ. apply wp_bind. eapply wp_post; [apply wp_lib_call; [apply ct_actions_get|done]|].
  intros x w' [Hd' (? & ? & ? & ?)]. apply wp_bind, wp_get_user, wp_put_user, HQ.
  - by apply driven_set_action.
  - by split_and!.
  - apply filter_actions_clear.
Qed.

(** The first step of the handler. *)
Lemma wp_handle_reset base Q E (w : world mobile_user) :
  driven base w ->
  (forall w', driven base w' -> mu_reset (w_user w') = false ->
     mu_bgb_clock (w_user w') = mu_bgb_clock (w_user w) ->
     mu_bgb_clock_init (w_user w') = mu_bgb_clock_init (w_user w) -> Q tt w') ->
  wp (if mu_reset (w_user w) then
        lib_do mobile_stop ;;;
        lib_do mobile_start ;;;
        let* mobile := get_user in
        put_user (set_reset mobile false)
      else ret tt) Q E w.
Proof.
  intros Hd HQ. destruct (mu_reset (w_user w)) eqn:Hr; [|apply wp_ret; by apply HQ].
  apply wp_bind. eapply wp_post; [apply wp_lib_do; [apply ct_stop|done]|].
  intros _ w1 [Hd1 (? & ? & ? & ?)].
  apply wp_bind. eapply wp_post; [apply wp_lib_do; [apply ct_start|done]|].
  intros _ w2 [Hd2 (? & ? & ? & ?)]. apply wp_bind, wp_get_user, wp_put_user, HQ; simpl.
  - by apply driven_set_reset.
  - done.
  - congruence.
  - congruence.
Qed.

Lemma wp_mobile_handle_loop base E (w : world mobile_user) :
  driven base w ->
  wp mobile_handle_loop
     (fun b w' => b = true /\ driven base w' /\ mu_reset (w_user w') = false /\
        Z.land (mu_action (w_user w')) MOBILE_ACTION_RESET_SERIAL = 0 /\
        mu_bgb_clock (w_user w') = mu_bgb_clock (w_user w) /\
        mu_bgb_clock_init (w_user w') = mu_bgb_clock_init (w_user w)) E w.
Proof.
  intros Hd. unfold mobile_handle_loop. fold fetch_action.
  apply wp_bind, wp_get_user, wp_bind, (wp_handle_reset base); [done|]. intros w1 Hd1 Hr1 Hc1 Hi1.
  apply wp_bind, wp_get_user, wp_bind.
  apply (wp_post _ (fun _ w2 => driven base w2 /\ fetched w1 w2 /\
    (mu_action (w_user w2) = MOBILE_ACTION_NONE ->
     Z.land (mu_action (w_user w2)) MOBILE_ACTION_RESET_SERIAL = 0))).
  { destruct (Z.eqb_spec (mu_action (w_user w1)) MOBILE_ACTION_NONE) as [_|Hne].
    - apply (wp_fetch_action base); [done|]. auto.
    - apply wp_ret. split_and!; try done. }
  intros _ w2 (Hd2 & (Hr2 & Hc2 & Hi2) & Ha2). apply wp_bind, wp_get_user, wp_bind.
  destruct (Z.eqb_spec (mu_action (w_user w2)) MOBILE_ACTION_NONE) as [He|Hne]; cbn [negb].
  { apply wp_ret, wp_ret. split_and!; auto; congruence. }
  apply wp_bind. eapply wp_post; [apply wp_lib_do; [|done]; intros; by apply ct_actions_process|].
  intros _ w3 [Hd3 (? & ? & ? & ?)]. apply (wp_fetch_action base); [done|].
  intros w4 Hd4 (? & ? & ?) Ha4. apply wp_ret. split_and!; try done; congruence.
Qed.

End Safety.

(** ** Reset detection *)

Section Reset.
Context `{K : Kernel} `{Libc} `{Host} `{L : Libmobile}.

(** A jump of the emulator clock, modulo 2^31, that no running game makes. *)
Definition clock_jump (old new : Z) : Prop := 0x1000 < (new - old) mod 2 ^ 31.

#[global] Instance clock_jump_dec old new : Decision (clock_jump old new).
Proof. unfold clock_jump. apply _. Defined.

Lemma bgb_loop_timestamp_run t (w : world mobile_user) : exists tr,
  bgb_loop_timestamp t w = (Ret tt, World (w_kern w) (w_errno w) tr
    (set_clock (set_reset (w_user w)
       (mu_reset (w_user w) || bool_decide (clock_jump (mu_bgb_clock (w_user w)) t)))
       t (mu_bgb_clock_init (w_user w)))).
Proof.
  unfold bgb_loop_timestamp, bind, get_user, clock_jump. rewrite diff_mod.
  destruct (Z.ltb_spec 4096 ((t - mu_bgb_clock (w_user w)) mod 2 ^ 31)).
  - rewrite bool_decide_eq_true_2, orb_true_r by done. by eexists.
  - rewrite bool_decide_eq_false_2, orb_false_r by lia. exists (w_trace w).
    unfold ret, put_user. simpl. by destruct (w_user w).
Qed.

(** C27: a new emulator time is stored, and requests a reset of the adapter
    exactly when it is more than 4096 ticks ahead of the last one modulo 2^31
    (so also whenever it lies behind it); a reset already requested stays
    requested, and nothing else changes. *)
Theorem bgb_loop_timestamp_resets t (w : world mobile_user) : exists tr,
  bgb_loop_timestamp t w = (Ret tt, World (w_kern w) (w_errno w) tr
    (set_clock (set_reset (w_user w)
       (mu_reset (w_user w) || bool_decide (clock_jump (mu_bgb_clock (w_user w)) t)))
       t (mu_bgb_clock_init (w_user w)))).
Proof. apply bgb_loop_timestamp_run. Qed.
End Reset.

(** ** The toy library keeps the contract *)

Definition toy_inv (a : Z) (o : list bool) : Prop := o = [a =? 2; false].

Lemma toy_contract_process a o act : toy_inv a o -> respects (L := toy_mobile) o (toy_process a act) toy_inv.
Proof.
  intros ->. unfold toy_process. destruct (Z.eqb_spec a 2) as [->|Hne]; [done|].
  apply Z.eqb_neq in Hne. split; [simpl; lia|]. intros [] _. split; [done|].
  intros [] _; simpl; unfold toy_inv; [done|]. by rewrite Hne.
Qed.

Definition toy_contract : LibmobileContract toy_mobile.
Proof.
  apply (Build_LibmobileContract toy_mobile toy_inv); try (by intros); try (by intros; split; auto).
  - by exists 0.
  - intros a o ->. cbn. unfold toy_inv. by destruct (a =? 2).
  - intros a o ->. cbn. unfold toy_stop. by destruct (Z.eqb_spec a 2).
  - intros. by apply toy_contract_process.
Defined.

Module ToyContract.
#[export] Existing Instance toy_contract.
End ToyContract.

(** ** Concrete runs *)

Section Examples.
Import SimInstances ToyInstances ToyContract.

(** The link's socket is descriptor 3; no connection is open. *)
Definition idle_world (a : Z) (reset : bool) : world mobile_user :=
  sim_world (set_fds sim_init {[ 3 := 2 ]}) (set_reset (set_adapter toy_user a) reset).

Lemma idle_ok a reset : user_ok {[ 3 ]} (idle_world a reset).
Proof.
  split; [|done|apply toy_number_ok|apply toy_number_ok].
  split; [done|constructor| |].
  - intros s Hs. by apply elem_of_nil in Hs.
  - unfold idle_world, fds. simpl. rewrite dom_singleton_L. done.
Qed.

(** A library program that opens a connection, polls it and closes it. *)
Definition demo_prog : cbprog Z :=
  CbCall (CbSockOpen 0 MOBILE_SOCKTYPE_UDP MOBILE_ADDRTYPE_IPV4 0) (fun ok =>
  if ok : bool then
    CbCall (CbSockRecv 0 true 64 None) (fun r => CbCall (CbSockClose 0) (fun _ => CbRet (fst (fst r))))
  else CbRet (-1)).

Lemma run_cb_safe_witness :
  wp (run_cb demo_prog)
    (fun r w' => user_ok {[ 3 ]} w' /\ kept (w_user (idle_world 1 false)) (w_user w') /\
                 (r <= 64 /\ opened (w_user w') = [false; false]))
    (fun _ _ => False) (idle_world 1 false) /\
  fst (run_cb demo_prog (idle_world 1 false)) = Ret 0.
Proof.
  split; [|vm_compute; reflexivity].
  apply (run_cb_safe {[ 3 ]} demo_prog (fun r o => r <= 64 /\ o = [false; false])).
  - apply idle_ok.
  - split; [split_and!; [done|by intros ?|by intros ?]|].
    intros [] _; [|split; [lia|done]].
    split; [split; [done|lia]|]. intros [[rc bs] addr] (_ & Hrc & _).
    split; [done|]. intros [] _. split; [simpl; lia|done].
Defined.
End Examples.
