(* ===== verification/Handler.v ===== *)
(** * The handler as one library program

    [mobile_handle_loop] calls the library several times and keeps the
    adapter, the pending action and the reset flag in the user's object.
    [handle_prog] is the same turn as a single library program, its calls in
    their order, with those three passed along.  No callback looks at them
    ([blind]), so running the handler is running that program. *)

From S2P Require Import Prelude CInt CLib Sys Hoare SimKernel Socket BgbLink Libmobile SocketImpl.
From S2P Require Import SocketImplProofs MobileUser MobileUserProofs Callbacks.

(** ** The turn as a library program *)

Section Program.
Context `{L : Libmobile}.

(** The next action, filtered. *)
Definition fetch_prog (a : adapter) : cbprog (Z * adapter) :=
  cb_bind (mobile_actions_get a) (fun '(actions, a) => CbRet (filter_actions actions, a)).

(** Stop and start when a reset is requested. *)
Definition reset_prog (reset : bool) (action : Z) (a : adapter) : cbprog (Z * adapter) :=
  if reset then
    cb_bind (mobile_stop a) (fun a => cb_bind (mobile_start a) (fun a => CbRet (action, a)))
  else CbRet (action, a).

(** An action is fetched when there is none, processed when there is one then,
    and the next one fetched. *)
Definition handle_prog (reset : bool) (action : Z) (a : adapter) : cbprog (Z * adapter) :=
  cb_bind (reset_prog reset action a) (fun '(action, a) =>
  cb_bind (if action =? MOBILE_ACTION_NONE then fetch_prog a else CbRet (action, a))
    (fun '(action, a) =>
  if action =? MOBILE_ACTION_NONE then CbRet (action, a)
  else cb_bind (mobile_actions_process a action) fetch_prog)).
End Program.

(** ** What callbacks do not look at *)

Section Blind.
Context `{K : Kernel} `{Libc} `{Host} `{L : Libmobile}.

(** The object with another adapter, action and reset flag. *)
Definition refit (a : adapter) (action : Z) (reset : bool) (m : mobile_user) : mobile_user :=
  MobileUser a (mu_socket m) action (mu_config m) reset (mu_bgb_clock m)
    (mu_bgb_clock_init m) (mu_bgb_clock_latch m) (mu_number_user m) (mu_number_peer m).

Definition refit_world (a : adapter) (action : Z) (reset : bool) (w : world mobile_user)
    : world mobile_user :=
  World (w_kern w) (w_errno w) (w_trace w) (refit a action reset (w_user w)).

(** [m1] in the refitted world does what [m2] does in the world itself. *)
Definition blind (a : adapter) (action : Z) (reset : bool) {A} (m1 m2 : M mobile_user A) : Prop :=
  forall w, m1 (refit_world a action reset w) =
    let '(x, w') := m2 w in (x, refit_world a action reset w').

Section Rules.
Variables (a : adapter) (action : Z) (reset : bool).

Lemma blind_ret {A} (x : A) : blind a action reset (ret x) (ret x).
Proof. done. Qed.
Lemma blind_halt {A} s : blind a action reset (A := A) (halt s) (halt s).
Proof. done. Qed.
Lemma blind_assert b : blind a action reset (c_assert b) (c_assert b).
Proof. by destruct b. Qed.
Lemma blind_emit e : blind a action reset (emit e) (emit e).
Proof. done. Qed.
Lemma blind_geterror : blind a action reset socket_geterror socket_geterror.
Proof. done. Qed.
Lemma blind_seterror e : blind a action reset (socket_seterror e) (socket_seterror e).
Proof. done. Qed.
Lemma blind_call c : blind a action reset (call c) (call c).
Proof. intros w. unfold call; simpl. by destruct (kcall c (w_kern w)). Qed.
Lemma blind_put m : blind a action reset (put_user (refit a action reset m)) (put_user m).
Proof. done. Qed.

Lemma blind_get {A} (k1 k2 : mobile_user -> M mobile_user A) :
  (forall m, blind a action reset (k1 (refit a action reset m)) (k2 m)) ->
  blind a action reset (bind get_user k1) (bind get_user k2).
Proof. intros Hk w. apply Hk. Qed.

Lemma blind_bind {A B} (m1 m2 : M mobile_user A) (k1 k2 : A -> M mobile_user B) :
  blind a action reset m1 m2 -> (forall x, blind a action reset (k1 x) (k2 x)) ->
  blind a action reset (bind m1 k1) (bind m2 k2).
Proof.
  intros Hm Hk w. unfold bind. rewrite Hm. destruct (m2 w) as [[x|s] w']; [apply Hk|done].
Qed.
End Rules.
End Blind.

Create HintDb blind.
#[export] Hint Resolve blind_ret blind_halt blind_assert blind_emit blind_geterror
  blind_seterror blind_call : blind.

Ltac blind_tac :=
  repeat first
    [ progress intros
    | progress (cbn beta iota)
    | progress (cbn [refit mu_adapter mu_socket mu_action mu_config mu_reset mu_bgb_clock
        mu_bgb_clock_init mu_bgb_clock_latch mu_number_user mu_number_peer])
    | solve [eauto 3 with blind]
    | apply blind_get
    | match goal with |- blind _ _ _ _ (put_user ?m) => exact (blind_put _ _ _ m) end
    | apply blind_bind
    | match goal with |- blind _ _ _ _ (match ?x with _ => _ end) => destruct x end ].

Section Callbacks.
Context `{K : Kernel} `{Libc} `{Host} `{L : Libmobile}.
Variables (a : adapter) (action : Z) (reset : bool).
Notation "'ignored' m" := (blind a action reset m m) (at level 10).

Lemma blind_c_int r : ignored (c_int r).
Proof. unfold c_int. blind_tac. Qed.
Hint Resolve blind_c_int : blind.

Lemma blind_perror f : ignored (socket_perror f).
Proof. unfold socket_perror, eprint. blind_tac. Qed.
Hint Resolve blind_perror : blind.

Lemma blind_hasdata s : ignored (socket_hasdata s).
Proof. unfold socket_hasdata, c_poll. blind_tac. Qed.
Lemma blind_close s : ignored (socket_close s).
Proof. unfold socket_close. blind_tac. Qed.
Lemma blind_setblocking s b : ignored (socket_setblocking s b).
Proof. unfold socket_setblocking, c_fcntl, perror, eprint. blind_tac. Qed.
Lemma blind_straddr n x : ignored (socket_straddr n x).
Proof. unfold socket_straddr. blind_tac. Qed.
Lemma blind_open_slot st conn : ignored (open_slot st conn).
Proof. unfold open_slot, get_slot. blind_tac. Qed.
Lemma blind_determinate l : ignored (determinate l).
Proof. unfold determinate. blind_tac. Qed.
Hint Resolve blind_hasdata blind_close blind_setblocking blind_straddr blind_open_slot
  blind_determinate : blind.

Lemma blind_title : ignored update_title.
Proof. unfold update_title, title_append, number_text. blind_tac. Qed.
Hint Resolve blind_title : blind.

Lemma blind_dispatch c : ignored (dispatch c).
Proof.
  destruct c; simpl;
    unfold impl_debug_log, impl_config_read, impl_config_write, impl_time_latch, impl_time_check_ms,
      impl_sock_open, impl_sock_close, impl_sock_connect, impl_sock_listen, impl_sock_accept,
      impl_sock_send, impl_sock_recv, impl_update_number, socket_impl_open, socket_impl_close,
      socket_impl_connect, socket_impl_listen, socket_impl_accept, socket_impl_send,
      socket_impl_recv, get_slot, c_socket, c_setsockopt, c_bind, c_connect, c_listen, c_accept,
      c_sendto, c_recvfrom, c_getsockopt, eprint; blind_tac.
Qed.

Lemma blind_run_cb {R} (p : cbprog R) : ignored (run_cb p).
Proof.
  induction p as [r|c k IH]; simpl; [apply blind_ret|].
  apply blind_bind; [apply blind_dispatch|auto].
Qed.
End Callbacks.

(** ** The handler is the program *)

Section Refinement.
Context `{K : Kernel} `{Libc} `{Host} `{L : Libmobile}.

(** The run [x] of a step of the handler is the run [y] of a library program:
    where [y] ends with an action and an adapter, [x] ends with them in place
    and the reset flag [r]; where [y] stops, [x] stops. *)
Definition tracks (x : result unit * world mobile_user) (r : bool)
    (y : result (Z * adapter) * world mobile_user) : Prop :=
  match y with
  | (Ret (action, a), w') => x = (Ret tt, refit_world a action r w')
  | (Stop s, _) => fst x = Stop s
  end.

Lemma run_cb_bind {A B} (p : cbprog A) (f : A -> cbprog B) w :
  run_cb (cb_bind p f) w = bind (run_cb p) (fun x => run_cb (f x)) w.
Proof.
  revert w. induction p as [x|c k IH]; intros w; [done|]. simpl. unfold bind at 1 2 3.
  destruct (dispatch c w) as [[r|s] w']; [|done]. apply IH.
Qed.

Lemma tracks_bind (m k : M mobile_user unit) r r' p f w w0 :
  tracks (m w) r (run_cb p w0) ->
  (forall action a w', tracks (k (refit_world a action r w')) r' (run_cb (f (action, a)) w')) ->
  tracks (bind m (fun _ => k) w) r' (run_cb (cb_bind p f) w0).
Proof.
  intros Hm Hk. rewrite run_cb_bind. unfold bind, tracks in *.
  destruct (run_cb p w0) as [[[action a]|s] w1].
  - rewrite Hm. apply Hk.
  - destruct (m w) as [x w2]. simpl in Hm. by subst x.
Qed.

(** Calls of the library, in terms of the program they run. *)
Lemma lib_do_run f a action r w :
  lib_do f (refit_world a action r w) =
    match run_cb (f a) w with
    | (Ret a', w') => (Ret tt, refit_world a' action r w')
    | (Stop s, w') => (Stop s, refit_world a action r w')
    end.
Proof.
  unfold lib_do, bind, get_user. simpl. rewrite (blind_run_cb a action r (f a) w).
  by destruct (run_cb (f a) w) as [[a'|s] w'].
Qed.

Lemma lib_call_run {R} (f : adapter -> cbprog (R * adapter)) a action r w :
  lib_call f (refit_world a action r w) =
    match run_cb (f a) w with
    | (Ret (x, a'), w') => (Ret x, refit_world a' action r w')
    | (Stop s, w') => (Stop s, refit_world a action r w')
    end.
Proof.
  unfold lib_call, bind, get_user. simpl. rewrite (blind_run_cb a action r (f a) w).
  by destruct (run_cb (f a) w) as [[[x a']|s] w'].
Qed.

Lemma fetch_tracks a action r w :
  tracks (fetch_action (refit_world a action r w)) r (run_cb (fetch_prog a) w).
Proof.
  unfold fetch_action, fetch_prog, tracks. rewrite run_cb_bind.
  unfold bind. rewrite lib_call_run.
  by destruct (run_cb (mobile_actions_get a) w) as [[[x a']|s] w'].
Qed.

Lemma reset_tracks a action (r : bool) w :
  tracks ((if r then
             lib_do mobile_stop ;;; lib_do mobile_start ;;;
             let* mobile := get_user in put_user (set_reset mobile false)
           else ret tt) (refit_world a action r w)) false (run_cb (reset_prog r action a) w).
Proof.
  unfold reset_prog. destruct r; [|done]. unfold tracks. rewrite run_cb_bind.
  unfold bind. rewrite lib_do_run.
  destruct (run_cb (mobile_stop a) w) as [[a1|s] w1]; [|done]. rewrite run_cb_bind.
  unfold bind. rewrite lib_do_run.
  by destruct (run_cb (mobile_start a1) w1) as [[a2|s] w2].
Qed.

Lemma refit_same w :
  refit_world (mu_adapter (w_user w)) (mu_action (w_user w)) (mu_reset (w_user w)) w = w.
Proof. by destruct w as [k e tr []]. Qed.

(** The steps after the reset. *)
Lemma action_tracks a action r w :
  tracks ((let* mobile := get_user in
           (if mu_action mobile =? MOBILE_ACTION_NONE then fetch_action else ret tt))
            (refit_world a action r w)) r
    (run_cb (if action =? MOBILE_ACTION_NONE then fetch_prog a else CbRet (action, a)) w).
Proof.
  unfold bind at 1, get_user. simpl.
  destruct (action =? MOBILE_ACTION_NONE); [apply fetch_tracks|done].
Qed.

Lemma process_tracks a action r w :
  tracks ((let* mobile := get_user in
           (if negb (mu_action mobile =? MOBILE_ACTION_NONE) then
              lib_do (fun a => mobile_actions_process a (mu_action mobile)) ;;; fetch_action
            else ret tt)) (refit_world a action r w)) r
    (run_cb (if action =? MOBILE_ACTION_NONE then CbRet (action, a)
             else cb_bind (mobile_actions_process a action) fetch_prog) w).
Proof.
  unfold bind at 1, get_user. simpl.
  destruct (action =? MOBILE_ACTION_NONE); [done|]. simpl. unfold tracks. rewrite run_cb_bind.
  unfold bind. rewrite lib_do_run.
  destruct (run_cb (mobile_actions_process a action) w) as [[a1|s] w1]; [|done].
  apply fetch_tracks.
Qed.

(** The handler's three steps in sequence. *)
Definition handle_steps : M mobile_user unit :=
  (let* mobile := get_user in
   (if mu_reset mobile then
      lib_do mobile_stop ;;; lib_do mobile_start ;;;
      let* mobile := get_user in put_user (set_reset mobile false)
    else ret tt)) ;;;
  (let* mobile := get_user in
   (if mu_action mobile =? MOBILE_ACTION_NONE then fetch_action else ret tt)) ;;;
  (let* mobile := get_user in
   (if negb (mu_action mobile =? MOBILE_ACTION_NONE) then
      lib_do (fun a => mobile_actions_process a (mu_action mobile)) ;;; fetch_action
    else ret tt)).

Lemma three_steps (f1 f2 f3 : mobile_user -> M mobile_user unit) w :
  (let* m := get_user in f1 m ;;; let* m := get_user in f2 m ;;;
   let* m := get_user in f3 m ;;; ret true) w =
  (((let* m := get_user in f1 m) ;;; (let* m := get_user in f2 m) ;;;
    (let* m := get_user in f3 m)) ;;; ret true) w.
Proof.
  unfold bind, get_user. destruct (f1 (w_user w) w) as [[[]|s] w1]; [|done].
  destruct (f2 (w_user w1) w1) as [[[]|s] w2]; [|done]. done.
Qed.

Lemma handle_loop_steps w : mobile_handle_loop w = (handle_steps ;;; ret true) w.
Proof. unfold mobile_handle_loop, handle_steps. fold fetch_action. exact (three_steps _ _ _ w). Qed.

Lemma handle_steps_tracks a action r w :
  tracks (handle_steps (refit_world a action r w)) false (run_cb (handle_prog r action a) w).
Proof.
  unfold handle_steps, handle_prog. eapply tracks_bind.
  { unfold bind at 1, get_user. simpl. apply reset_tracks. }
  intros action1 a1 w1. eapply tracks_bind; [apply action_tracks|].
  intros action2 a2 w2. apply process_tracks.
Qed.

(** Running the handler is running the program, from any world. *)
Lemma handle_loop_run w :
  match run_cb (handle_prog (mu_reset (w_user w)) (mu_action (w_user w)) (mu_adapter (w_user w))) w with
  | (Ret (action, a), w') => mobile_handle_loop w = (Ret true, refit_world a action false w')
  | (Stop s, _) => fst (mobile_handle_loop w) = Stop s
  end.
Proof.
  rewrite !handle_loop_steps.
  pose proof (handle_steps_tracks (mu_adapter (w_user w)) (mu_action (w_user w))
    (mu_reset (w_user w)) w) as Ht. rewrite refit_same in Ht. unfold tracks in Ht.
  destruct (run_cb _ w) as [[[action a]|s] w1]; unfold bind.
  - by rewrite Ht.
  - destruct (handle_steps w) as [x w2]. simpl in Ht. by subst x.
Qed.
End Refinement.

(** ** One turn *)

Section Turn.
Context `{K : Kernel} `{!KernelLaws K} `{Libc} `{Host} `{L : Libmobile} `{!LibmobileLaws L}.
Context `{C : !LibmobileContract L}.

(** C8: one turn of the adapter's handler, for any library that keeps the
    contract.  It always returns, and returns true.  It is exactly one run of
    the library program [handle_prog]: when a reset is requested the adapter is
    stopped and then started, before anything else; an action is fetched when
    none is pending; a pending action is processed and the next one fetched;
    and nothing else is called.  Afterwards no reset is requested, the pending
    action is the one that program ends with and never contains the serial
    reset, which the emulator link does not need, the clock is untouched, and
    the invariants of the environment and of the library hold. *)
Theorem mobile_handle_loop_ok base (w : world mobile_user) (Hd : driven base w) :
  wp mobile_handle_loop
     (fun b w' => b = true /\
        (exists action a w1,
           run_cb (handle_prog (mu_reset (w_user w)) (mu_action (w_user w))
                     (mu_adapter (w_user w))) w = (Ret (action, a), w1) /\
           w' = refit_world a action false w1) /\
        driven base w' /\ mu_reset (w_user w') = false /\
        Z.land (mu_action (w_user w')) MOBILE_ACTION_RESET_SERIAL = 0 /\
        mu_bgb_clock (w_user w') = mu_bgb_clock (w_user w) /\
        mu_bgb_clock_init (w_user w') = mu_bgb_clock_init (w_user w))
     (fun _ _ => False) w.
Proof.
  pose proof (handle_loop_run w) as Hrun.
  pose proof (wp_mobile_handle_loop base (fun _ _ => False) w Hd) as Hwp. unfold wp in *.
  destruct (run_cb _ w) as [[[action a]|s] w1].
  - rewrite Hrun in Hwp |- *. destruct Hwp as (? & ? & ? & ? & ? & ?).
    split_and!; try done. by exists action, a, w1.
  - destruct (mobile_handle_loop w) as [x w2]. simpl in Hrun. by subst x.
Qed.
End Turn.

(** ** A concrete turn *)

Section Examples.
Import SimInstances ToyInstances ToyContract.

(** A reset is requested and no action is pending: the toy adapter is started,
    its action processed, and its connection open afterwards. *)
Lemma mobile_handle_loop_ok_witness :
  wp mobile_handle_loop
     (fun b w' => b = true /\
        (exists action a w1, run_cb (handle_prog true 0 1) (idle_world 1 true) = (Ret (action, a), w1) /\
           w' = refit_world a action false w1) /\
        driven {[ 3 ]} w' /\ mu_reset (w_user w') = false /\
        Z.land (mu_action (w_user w')) MOBILE_ACTION_RESET_SERIAL = 0 /\
        mu_bgb_clock (w_user w') = 100 /\ mu_bgb_clock_init (w_user w') = true)
     (fun _ _ => False) (idle_world 1 true) /\
  match snd (mobile_handle_loop (idle_world 1 true)) with
  | World _ _ _ u => (mu_adapter u, mu_reset u, opened u)
  end = (2, false, [true; false]).
Proof.
  split; [|vm_compute; reflexivity].
  apply (mobile_handle_loop_ok {[ 3 ]} (idle_world 1 true)). split; [apply idle_ok|done].
Defined.
End Examples.
