(* ===== verification/Options.v ===== *)
(** * main.c: the command line

    The helpers [main] parses parameters with, and its option loop.  The
    pointer [argv] is the list of the arguments from the current one on.
    Command-line parsing runs before any other state exists and is
    polymorphic in the user's object. *)

From S2P Require Import Prelude CInt CLib Sys Hoare SimKernel Libmobile.
From Stdlib Require Import Ascii.

Definition EXIT_SUCCESS : Z := 0.
Definition EXIT_FAILURE : Z := 1.

(** ** Hexadecimal strings *)

(** [str[i]], with the terminating NUL at the end of the string; the loop
    stops at it and reads no further. *)
Definition char_at (str : string) (i : nat) : Z :=
  match String.get i str with
  | Some c => char_of c
  | None => 0
  end.

(** The value of [c] after the [if] chain, or [None] for [return false]. *)
Definition hex_value (c : Z) : option Z :=
  if (48 <=? c) && (c <=? 57) then Some (c - 48)
  else if (65 <=? c) && (c <=? 70) then Some (c - (65 - 10))
  else if (97 <=? c) && (c <=? 102) then Some (c - (97 - 10))
  else None.

(** The loop at index [i] with [n] iterations left; [x] is the byte being
    assembled.  Returns the result and the buffer; [None] for a store outside
    the buffer, which is undefined. *)
Fixpoint parse_hex_loop (n i : nat) (x : Z) (buf : list Z) (str : string)
    : option (bool * list Z) :=
  match n with
  | O => Some (true, buf)
  | S n =>
    match hex_value (char_at str i) with
    | None => Some (false, buf)
    | Some c =>
      let x := Z.lor (u8 (Z.shiftl x 4)) c in
      if (i mod 2 =? 1)%nat then
        match array_set buf (i / 2) x with
        | Some buf => parse_hex_loop n (S i) 0 buf str
        | None => None
        end
      else parse_hex_loop n (S i) x buf str
    end
  end.

Definition main_parse_hex (buf : list Z) (str : string) (size : nat) : option (bool * list Z) :=
  parse_hex_loop (size * 2) 0 0 buf str.

Section Options.
Context `{K : Kernel} `{L : Libmobile} {U : Type}.
Variable program_name : string.

Definition usage : string :=
  String.append program_name (String.append
    " [-h] [-c config] [options] [bgb_host [bgb_port]]" newline).

Definition show_help {A} : M U A :=
  eprint usage ;;; halt (StExit EXIT_FAILURE).

Definition help_text : list string :=
  [ "";
    "-h|--help           Show this help";
    "-c|--config config  Config file path";
    "--device device     Adapter to emulate";
    "--unmetered         Signal unmetered communications to Pokémon";
    "--dns1 addr         Set DNS1 address override";
    "--dns2 addr         Set DNS2 address override";
    "--dns_port port     Set DNS port for address overrides";
    "--p2p_port port     Port to use for relay-less P2P communications";
    "--relay addr        Set relay server for P2P communications";
    "--relay-token hex   Set relay token (or empty to clear)" ]%string.

Definition show_help_full {A} : M U A :=
  eprint usage ;;;
  eprint (foldr (fun l t => String.append l (String.append newline t)) ""%string help_text) ;;;
  halt (StExit EXIT_SUCCESS).

Definition invalid_parameter (opt param : string) : string :=
  String.append "Invalid parameter for " (String.append opt (String.append ": "
    (String.append param newline))).

(** [argv] starts with the option. *)
Definition main_checkparam (argv : list string) : M U unit :=
  match argv with
  | opt :: [] =>
    eprint (String.append "Missing parameter for " (String.append opt newline)) ;;; show_help
  | _ => ret tt
  end.

(** The new value of [*dest]: its type and host, the port kept.  [memcpy]
    copies as many bytes as the host field holds. *)
Definition main_parse_addr (dest : mobile_addr) (opt param : string) : M U mobile_addr :=
  match mobile_inet_pton param with
  | MOBILE_INET_PTON_IPV4 ip =>
    ret (MobileAddr MOBILE_ADDRTYPE_IPV4 (addr_port dest) (take sizeof_host4 ip))
  | MOBILE_INET_PTON_IPV6 ip =>
    ret (MobileAddr MOBILE_ADDRTYPE_IPV6 (addr_port dest) (take sizeof_host6 ip))
  | MOBILE_INET_PTON_none =>
    eprint (invalid_parameter opt param) ;;; show_help
  end.

Definition main_set_port (dest : mobile_addr) (port : Z) : mobile_addr :=
  match addr_type dest with
  | MOBILE_ADDRTYPE_IPV4 | MOBILE_ADDRTYPE_IPV6 =>
    MobileAddr (addr_type dest) port (addr_host dest)
  | MOBILE_ADDRTYPE_other _ => dest
  end.

(** ** The options *)

(** The local variables of [main] that options set.  [relay_token] is a null
    pointer ([false]) or points at [relay_token_buf]. *)
Record options := Options {
  fname_config : string;
  device : Z;
  device_unmetered : bool;
  dns1 : mobile_addr;
  dns2 : mobile_addr;
  dns_port : Z;
  p2p_port : Z;
  relay : mobile_addr;
  relay_token_update : bool;
  relay_token : bool;
  relay_token_buf : list Z
}.

(** [buf] is what the uninitialised token buffer holds. *)
Definition default_options (buf : list Z) : options :=
  Options "config.bin" MOBILE_ADAPTER_BLUE false addr_zero addr_zero MOBILE_DNS_PORT
    MOBILE_DEFAULT_P2P_PORT addr_zero false false buf.

Definition set_fname (o : options) (f : string) : options :=
  Options f (device o) (device_unmetered o) (dns1 o) (dns2 o) (dns_port o) (p2p_port o)
    (relay o) (relay_token_update o) (relay_token o) (relay_token_buf o).
Definition set_device (o : options) (d : Z) (unmetered : bool) : options :=
  Options (fname_config o) d unmetered (dns1 o) (dns2 o) (dns_port o) (p2p_port o)
    (relay o) (relay_token_update o) (relay_token o) (relay_token_buf o).
Definition set_dns (o : options) (a1 a2 : mobile_addr) : options :=
  Options (fname_config o) (device o) (device_unmetered o) a1 a2 (dns_port o) (p2p_port o)
    (relay o) (relay_token_update o) (relay_token o) (relay_token_buf o).
Definition set_ports (o : options) (dns p2p : Z) : options :=
  Options (fname_config o) (device o) (device_unmetered o) (dns1 o) (dns2 o) dns p2p
    (relay o) (relay_token_update o) (relay_token o) (relay_token_buf o).
Definition set_relay (o : options) (r : mobile_addr) : options :=
  Options (fname_config o) (device o) (device_unmetered o) (dns1 o) (dns2 o) (dns_port o)
    (p2p_port o) r (relay_token_update o) (relay_token o) (relay_token_buf o).
Definition set_token (o : options) (present : bool) (buf : list Z) : options :=
  Options (fname_config o) (device o) (device_unmetered o) (dns1 o) (dns2 o) (dns_port o)
    (p2p_port o) (relay o) true present buf.

(** [--dns_port]: the check looks at the option's own first character
    ([**argv]), not at the parameter's. *)
Definition parse_dns_port (o : options) (opt param : string) : M U options :=
  let '(v, endptr) := strtol param 10 in
  if String.eqb opt "" || negb (String.eqb endptr "") then
    eprint (invalid_parameter "--dns_port" param) ;;; show_help
  else ret (set_ports o (u32 v) (p2p_port o)).

(** [--relay-token] *)
Definition parse_relay_token (o : options) (param : string) : M U options :=
  let* '(ok, present, buf) :=
    (if (String.length param =? 0)%nat then ret (true, false, relay_token_buf o)
     else if (String.length param =? MOBILE_RELAY_TOKEN_SIZE * 2)%nat then
       match main_parse_hex (relay_token_buf o) param MOBILE_RELAY_TOKEN_SIZE with
       | Some (ok, buf) => ret (ok, true, buf)
       | None => halt StUB
       end
     else ret (false, relay_token o, relay_token_buf o)) in
  if negb ok then eprint (invalid_parameter "--relay-token" param) ;;; show_help
  else ret (set_token o present buf).

Definition is_dash (s : string) : bool :=
  match s with
  | String "-"%char _ => true
  | _ => false
  end.

(** The option loop: the arguments left when it ends, and the options. *)
Fixpoint parse_options (argv : list string) (o : options) : M U (list string * options) :=
  match argv with
  | [] => ret ([], o)
  | opt :: next =>
    let with_param (f : string -> M U options) : M U (list string * options) :=
      main_checkparam argv ;;;
      match next with
      | param :: next => let* o := f param in parse_options next o
      | [] => halt StUB
      end in
    if negb (is_dash opt) then ret (argv, o)
    else if String.eqb opt "--" then ret (next, o)
    else if String.eqb opt "-h" || String.eqb opt "--help" then show_help_full
    else if String.eqb opt "-c" || String.eqb opt "--config" then
      with_param (fun param => ret (set_fname o param))
    else if String.eqb opt "--device" then
      with_param (fun param => ret (set_device o (u32 (fst (strtol param 0))) (device_unmetered o)))
    else if String.eqb opt "--unmetered" then
      parse_options next (set_device o (device o) true)
    else if String.eqb opt "--dns1" then
      with_param (fun param =>
        let* a := main_parse_addr (dns1 o) opt param in ret (set_dns o a (dns2 o)))
    else if String.eqb opt "--dns2" then
      with_param (fun param =>
        let* a := main_parse_addr (dns2 o) opt param in ret (set_dns o (dns1 o) a))
    else if String.eqb opt "--dns_port" then
      with_param (parse_dns_port o opt)
    else if String.eqb opt "--p2p_port" then
      with_param (fun param => ret (set_ports o (dns_port o) (u32 (fst (strtol param 0)))))
    else if String.eqb opt "--relay" then
      with_param (fun param =>
        let* a := main_parse_addr (relay o) opt param in
        ret (set_relay o (main_set_port a MOBILE_DEFAULT_RELAY_PORT)))
    else if String.eqb opt "--relay-token" then
      with_param (parse_relay_token o)
    else
      eprint (String.append "Unknown option: " (String.append opt newline)) ;;; show_help
  end.

(** The emulator's address: the arguments left after the options. *)
Definition parse_host (argv : list string) : string * string :=
  match argv with
  | [] => ("127.0.0.1", "8765")
  | host :: [] => (host, "8765")
  | host :: port :: _ => (host, port)
  end%string.

(** The whole command line, [argv[0]] left out: host, port and options, with
    the DNS ports set. *)
Definition parse_command_line (args : list string) (buf : list Z)
    : M U (string * string * options) :=
  let* '(rest, o) := parse_options args (default_options buf) in
  let '(host, port) := parse_host rest in
  ret (host, port, set_dns o (main_set_port (dns1 o) (dns_port o))
                             (main_set_port (dns2 o) (dns_port o))).

(** The pointer handed to the library. *)
Definition token_arg (o : options) : option (list Z) :=
  if relay_token o then Some (relay_token_buf o) else None.
End Options.
