(* ===== verification/OptionsProofs.v ===== *)
(** * Properties of the command line

    Hexadecimal and decimal parameters against reference definitions, and
    what the option loop does on every argument list. *)

From S2P Require Import Prelude CInt CLib Sys Hoare SimKernel Libmobile Options.
From Stdlib Require Import Ascii.

(** ** Hexadecimal *)

(** The reference decoder: two digits per byte. *)
Fixpoint decode_hex (s : string) : option (list Z) :=
  match s with
  | EmptyString => Some []
  | String a (String b s) =>
    match digit_in 16 a, digit_in 16 b, decode_hex s with
    | Some h, Some l, Some bs => Some (16 * h + l :: bs)
    | _, _, _ => None
    end
  | _ => None
  end.

Fixpoint encode_hex (bs : list Z) : string :=
  match bs with
  | [] => ""
  | b :: bs => String.append (fmt_X 2 b) (encode_hex bs)
  end.

Lemma hex_value_digit c : hex_value (char_of c) = digit_in 16 c.
Proof. by destruct c as [[] [] [] [] [] [] [] []]. Qed.

Lemma digit_in_range base c d : digit_in base c = Some d -> 0 <= d < base.
Proof.
  unfold digit_in, digit_value. intros Hd.
  repeat case_match; zbool; simplify_eq; lia.
Qed.

Lemma hex_byte h l : 0 <= h < 16 -> 0 <= l < 16 ->
  Z.lor (u8 (Z.shiftl (Z.lor (u8 (Z.shiftl 0 4)) h) 4)) l = 16 * h + l.
Proof.
  intros Hh Hl. apply Z.eqb_eq. revert l Hl. apply (forall_below 16).
  revert h Hh. apply (forall_below 16). vm_compute. reflexivity.
Qed.

Lemma char_at_app p s (i : nat) :
  char_at (String.append p s) (String.length p + i) = char_at s i.
Proof.
  unfold char_at. rewrite Nat.add_comm, <- String.append_correct2. done.
Qed.

(** Two iterations from an even index read one byte. *)
Lemma parse_hex_two n (k : nat) buf str a b :
  (k < length buf)%nat ->
  char_at str (2 * k) = char_of a -> char_at str (2 * k + 1) = char_of b ->
  parse_hex_loop (S (S n)) (2 * k) 0 buf str =
    match digit_in 16 a, digit_in 16 b with
    | Some h, Some l => parse_hex_loop n (2 * S k) 0 (<[k := 16 * h + l]> buf) str
    | _, _ => Some (false, buf)
    end.
Proof.
  intros Hk Ca Cb. cbn [parse_hex_loop]. rewrite Ca, hex_value_digit.
  destruct (digit_in 16 a) as [h|] eqn:Ha; [|done].
  assert ((2 * k) mod 2 = 0)%nat as -> by (rewrite Nat.mul_comm; apply Nat.Div0.mod_mul).
  replace (S (2 * k)) with (2 * k + 1)%nat by lia. cbn [Nat.eqb].
  rewrite Cb, hex_value_digit. destruct (digit_in 16 b) as [l|] eqn:Hb; [|done].
  rewrite (Nat.add_comm (2 * k)), (Nat.mul_comm 2 k), Nat.Div0.mod_add, Nat.div_add by done.
  cbn [Nat.eqb Nat.modulo Nat.divmod Nat.div fst snd Nat.sub Nat.add].
  rewrite hex_byte by (by eapply digit_in_range).
  replace (0 + k)%nat with k by lia. unfold array_set.
  rewrite (proj2 (Nat.ltb_lt _ _)) by done. f_equal; lia.
Qed.

(** The loop from an even index on: [p] is what it has consumed, [pre] the
    bytes it has stored. *)
Lemma parse_hex_loop_ok rest p s pre :
  String.length p = (2 * length pre)%nat -> String.length s = (2 * length rest)%nat ->
  let r := parse_hex_loop (length rest * 2) (2 * length pre) 0 (pre ++ rest) (String.append p s) in
  match decode_hex s with
  | Some bs => r = Some (true, pre ++ bs)
  | None => exists buf, r = Some (false, buf) /\ length buf = length (pre ++ rest)
  end.
Proof.
  revert p s pre. induction rest as [|x rest IH]; intros p s pre Hp Hs.
  { destruct s; [|done]. done. }
  destruct s as [|a [|b s]]; [done|simpl in Hs; lia|].
  replace (length (x :: rest) * 2)%nat with (S (S (length rest * 2))) by (simpl; lia).
  cbn zeta. rewrite (parse_hex_two _ _ _ _ a b).
  2: { rewrite length_app. simpl. lia. }
  2: { rewrite <- Hp, <- (Nat.add_0_r (String.length p)).
       exact (char_at_app p (String a (String b s)) 0). }
  2: { rewrite <- Hp. exact (char_at_app p (String a (String b s)) 1). }
  cbn [decode_hex].
  destruct (digit_in 16 a) as [h|]; [|by eexists]. destruct (digit_in 16 b) as [l|]; [|by eexists].
  rewrite insert_app_r_alt, Nat.sub_diag by done. cbn [insert list_insert].
  specialize (IH (String.append p (String a (String b ""))) s (pre ++ [16 * h + l])).
  rewrite string_length_append, length_app, <- string_append_assoc, <- !app_assoc in IH.
  simpl in Hs. specialize (IH ltac:(simpl; lia) ltac:(lia)). cbn zeta in IH.
  replace (length pre + length [(16 * h + l)%Z])%nat with (S (length pre)) in IH by (simpl; lia).
  destruct (decode_hex s) as [bs|]; [by rewrite <- app_assoc in IH|].
  destruct IH as (buf & Hr & Hl). exists buf. split; [exact Hr|].
  rewrite Hl, !length_app. simpl. lia.
Qed.

(** C17: parsing a relay token of the right length accepts exactly the strings
    of hexadecimal digits, upper or lower case, and stores the bytes they
    denote, most significant digit first; every store is inside the buffer. *)
Theorem main_parse_hex_decodes buf str
    (Hlen : String.length str = (2 * length buf)%nat) :
  match decode_hex str with
  | Some bs => main_parse_hex buf str (length buf) = Some (true, bs)
  | None => exists buf', main_parse_hex buf str (length buf) = Some (false, buf') /\
              length buf' = length buf
  end.
Proof. exact (parse_hex_loop_ok buf "" str [] eq_refl Hlen). Qed.

Lemma main_parse_hex_decodes_witness :
  main_parse_hex [9; 9; 9] "00fFa5" 3 = Some (true, [0; 255; 165]) /\
  exists buf, main_parse_hex [9; 9; 9] "00fGa5" 3 = Some (false, buf) /\ length buf = 3%nat.
Proof.
  split.
  - exact (main_parse_hex_decodes [9; 9; 9] "00fFa5" eq_refl).
  - exact (main_parse_hex_decodes [9; 9; 9] "00fGa5" eq_refl).
Defined.

(** Printing a byte gives its two digits. *)
Lemma fmt_X_byte b : is_u8 b -> exists x y, fmt_X 2 b = String x (String y "") /\
  digit_in 16 x = Some (b / 16) /\ digit_in 16 y = Some (b mod 16).
Proof.
  intros Hb.
  assert (match fmt_X 2 b with
    | String x (String y EmptyString) =>
      bool_decide (digit_in 16 x = Some (b / 16)) && bool_decide (digit_in 16 y = Some (b mod 16))
    | _ => false
    end = true) as Hall.
  { revert b Hb. apply (forall_below 256). vm_compute. reflexivity. }
  destruct (fmt_X 2 b) as [|x [|y [|]]]; try done.
  apply andb_true_iff in Hall as [Hx%bool_decide_eq_true Hy%bool_decide_eq_true].
  by exists x, y.
Qed.

Lemma decode_hex_length s bs : decode_hex s = Some bs -> String.length s = (2 * length bs)%nat.
Proof.
  revert s. induction bs as [|b bs IH]; intros s Hs.
  - destruct s as [|x [|y s]]; try done. simpl in Hs. repeat case_match; done.
  - destruct s as [|x [|y s]]; try done. simpl in Hs. repeat case_match; simplify_eq.
    simpl. rewrite (IH s) by done. lia.
Qed.

Lemma decode_encode_hex bs : bytes_ok bs ->
  decode_hex (encode_hex bs) = Some bs /\ String.length (encode_hex bs) = (2 * length bs)%nat.
Proof.
  induction 1 as [|b bs Hb Hbs [IH IHl]]; [done|]. cbn [encode_hex].
  destruct (fmt_X_byte b Hb) as (x & y & -> & Hx & Hy).
  change (String.append (String x (String y "")) (encode_hex bs))
    with (String x (String y (encode_hex bs))).
  cbn [decode_hex String.length length]. rewrite Hx, Hy, IH, IHl. split; [|lia].
  do 2 f_equal. pose proof (Z.div_mod b 16). lia.
Qed.

(** ** Decimal *)

Lemma digit_in_char base d : 0 <= d < base -> base <= 16 -> digit_in base (digit_char d) = Some d.
Proof.
  intros Hd Hb. unfold digit_in.
  assert (digit_value (digit_char d) = Some d) as ->.
  { assert (d = 0 \/ d = 1 \/ d = 2 \/ d = 3 \/ d = 4 \/ d = 5 \/ d = 6 \/ d = 7 \/ d = 8 \/
            d = 9 \/ d = 10 \/ d = 11 \/ d = 12 \/ d = 13 \/ d = 14 \/ d = 15) by lia.
    destruct_or?; subst; vm_compute; done. }
  by rewrite (proj2 (Z.ltb_lt d base)) by lia.
Qed.

(** Reading back printed digits. *)
Lemma read_digits_digits fuel base z acc :
  1 < base <= 16 -> 0 <= z < base ^ Z.of_nat fuel -> (0 < fuel)%nat ->
  read_digits base (digits fuel base z acc) None = read_digits base acc (Some z).
Proof.
  intros Hb. revert z acc. induction fuel as [|fuel IH]; intros z acc Hz Hf; [lia|].
  cbn [digits]. pose proof (Z.mod_pos_bound z base ltac:(lia)).
  destruct (Z.ltb_spec z base).
  - cbn [read_digits]. rewrite digit_in_char by lia. rewrite Z.mod_small by lia. done.
  - assert (1 <= z / base) by (apply Z.div_le_lower_bound; lia).
    replace (Z.of_nat (S fuel)) with (1 + Z.of_nat fuel) in Hz by lia.
    rewrite Z.pow_add_r, Z.pow_1_r in Hz by lia.
    assert (z / base < base ^ Z.of_nat fuel) by (apply Z.div_lt_upper_bound; lia).
    rewrite IH; [|lia|destruct fuel; [simpl in *; lia|lia]].
    cbn [read_digits]. rewrite digit_in_char by lia. simpl. do 2 f_equal.
    pose proof (Z.div_mod z base). lia.
Qed.

Lemma digits_head fuel base z acc : 1 < base -> 0 < z < base ^ Z.of_nat fuel ->
  exists d s, digits fuel base z acc = String (digit_char d) s /\ 1 <= d < base.
Proof.
  intros Hb. revert z acc. induction fuel as [|fuel IH]; intros z acc Hz; [simpl in Hz; lia|].
  cbn [digits]. pose proof (Z.mod_pos_bound z base ltac:(lia)).
  destruct (Z.ltb_spec z base).
  - rewrite Z.mod_small by lia. eexists _, _. split; [done|lia].
  - assert (1 <= z / base) by (apply Z.div_le_lower_bound; lia).
    replace (Z.of_nat (S fuel)) with (1 + Z.of_nat fuel) in Hz by lia.
    rewrite Z.pow_add_r, Z.pow_1_r in Hz by lia. apply IH.
    split; [lia|]. apply Z.div_lt_upper_bound; lia.
Qed.

(** [strtol] reads back what [%u] prints, in base 10 and in base 0. *)
Lemma strtol_fmt_u z base : 0 <= z < 2 ^ 32 -> base = 0 \/ base = 10 ->
  strtol (fmt_u z) base = (z, ""%string).
Proof.
  intros Hz Hbase. destruct (Z.eq_dec z 0) as [->|Hnz].
  { by destruct Hbase as [-> | ->]. }
  pose proof (read_digits_digits 20 10 z "" ltac:(lia) ltac:(simpl; lia) ltac:(lia)) as Hr.
  unfold fmt_u. destruct (digits_head 20 10 z "") as (d & s & Hs & Hd); [lia|simpl; lia|].
  rewrite Hs in Hr |- *. unfold strtol.
  assert (long_clamp (1 * z) = z) as Hc by (unfold long_clamp; lia).
  assert (d = 1 \/ d = 2 \/ d = 3 \/ d = 4 \/ d = 5 \/ d = 6 \/ d = 7 \/ d = 8 \/ d = 9)
    as Hcases by lia.
  assert (skip_space (String (digit_char d) s) = String (digit_char d) s) as ->
    by (destruct_or! Hcases; subst; done).
  assert (read_sign (String (digit_char d) s) = (1, String (digit_char d) s)) as ->
    by (destruct_or! Hcases; subst; done).
  assert (detect_base base (String (digit_char d) s) = (10, String (digit_char d) s)) as ->.
  { destruct Hbase as [-> | ->]; [|done]. destruct_or! Hcases; subst; done. }
  rewrite Hr. cbn [read_digits]. by rewrite Hc.
Qed.

(** ** The option loop *)

Section OptionLoop.
Context `{K : Kernel} `{L : Libmobile} `{!LibmobileLaws L} {U : Type}.
Variable program_name : string.

Definition addr_fits (a : mobile_addr) : Prop :=
  match addr_type a with
  | MOBILE_ADDRTYPE_IPV4 => length (addr_host a) = 4%nat
  | MOBILE_ADDRTYPE_IPV6 => length (addr_host a) = 16%nat
  | MOBILE_ADDRTYPE_other _ => True
  end.

(** What the rest of the program may rely on. *)
Record options_ok (o : options) : Prop := {
  ok_device : is_u32 (device o);
  ok_dns1 : addr_fits (dns1 o);
  ok_dns2 : addr_fits (dns2 o);
  ok_dns_port : is_u32 (dns_port o);
  ok_p2p_port : is_u32 (p2p_port o);
  ok_relay : addr_fits (relay o);
  ok_token : length (relay_token_buf o) = MOBILE_RELAY_TOKEN_SIZE
}.

Lemma addr_fits_set_port a p : addr_fits a -> addr_fits (main_set_port a p).
Proof. unfold addr_fits, main_set_port. destruct (addr_type a) eqn:Ht; simpl; by rewrite ?Ht. Qed.

(** The two ways the parser ends the program. *)
Definition exits (w : world U) (s : stop) (w' : world U) : Prop :=
  (s = StExit EXIT_SUCCESS \/ s = StExit EXIT_FAILURE) /\
  extends (fun e => exists t, e = EvErr t) w w'.

(** A step that returns a value satisfying [P] without any effect, or exits. *)
Definition pure_or_exit {A} (P : A -> Prop) (m : M U A) : Prop := forall w,
  wp m (fun a w' => P a /\ w' = w) (exits w) w.

Lemma pure_show_help {A} (P : A -> Prop) : pure_or_exit P (show_help program_name).
Proof.
  intros w. apply wp_bind. hnf. split; [by right|]. apply extends_cons. by eexists.
Qed.

Lemma pure_show_help_full {A} (P : A -> Prop) : pure_or_exit P (show_help_full program_name).
Proof.
  intros w. apply wp_bind, wp_bind. hnf. split; [by left|].
  eexists [_; _]. split_and!; [reflexivity| |done]. repeat constructor; by eexists.
Qed.

Lemma pure_complain {A} (P : A -> Prop) t :
  pure_or_exit P (eprint t ;;; show_help program_name).
Proof.
  intros w. apply wp_bind, wp_bind. hnf. split; [by right|].
  eexists [_; _]. split_and!; [reflexivity| |done]. repeat constructor; by eexists.
Qed.

Lemma pure_ret {A} (P : A -> Prop) a : P a -> pure_or_exit P (ret a).
Proof. intros Ha w. by apply wp_ret. Qed.

Lemma pure_bind {A B} (P : A -> Prop) (Q : B -> Prop) (m : M U A) (f : A -> M U B) :
  pure_or_exit P m -> (forall a, P a -> pure_or_exit Q (f a)) -> pure_or_exit Q (bind m f).
Proof.
  intros Hm Hf w. apply wp_bind. eapply wp_post; [apply Hm|]. intros a w' [Ha ->]. by apply Hf.
Qed.

Lemma pure_checkparam opt next :
  pure_or_exit (fun _ => next <> []) (main_checkparam program_name (opt :: next)).
Proof.
  destruct next as [|p next]; [apply pure_complain|]. by apply pure_ret.
Qed.

Lemma pure_parse_addr dest opt param :
  pure_or_exit addr_fits (main_parse_addr program_name dest opt param).
Proof.
  unfold main_parse_addr. destruct (mobile_inet_pton param) as [ip|ip|] eqn:Hp.
  - apply pure_ret. unfold addr_fits; simpl. apply law_pton4 in Hp.
    rewrite length_take, law_host4. lia.
  - apply pure_ret. unfold addr_fits; simpl. apply law_pton6 in Hp.
    rewrite length_take, law_host6. lia.
  - apply pure_complain.
Qed.

(** A string of the right length is parsed within the buffer, whatever it says. *)
Lemma main_parse_hex_total buf str :
  String.length str = (2 * length buf)%nat ->
  exists ok buf', main_parse_hex buf str (length buf) = Some (ok, buf') /\ length buf' = length buf.
Proof.
  intros Hl. pose proof (parse_hex_loop_ok buf "" str [] eq_refl Hl) as Hp. cbn zeta in Hp.
  destruct (decode_hex str) as [bs|] eqn:Hd.
  - exists true, bs. split; [exact Hp|]. apply decode_hex_length in Hd. lia.
  - destruct Hp as (buf' & Hp & Hl'). by exists false, buf'.
Qed.

Lemma pure_parse_dns_port o opt param : options_ok o ->
  pure_or_exit options_ok (parse_dns_port program_name o opt param).
Proof.
  intros []. unfold parse_dns_port. destruct (strtol param 10) as [v e].
  destruct (_ || _); [apply pure_complain|]. apply pure_ret. split; simpl; try done.
  apply u32_range.
Qed.

Lemma pure_parse_relay_token o param : options_ok o ->
  pure_or_exit options_ok (parse_relay_token program_name o param).
Proof.
  intros Ho. pose proof Ho as []. unfold parse_relay_token.
  eapply (pure_bind (fun '(ok, _, buf) => length (buf : list Z) = MOBILE_RELAY_TOKEN_SIZE)).
  - destruct (_ =? 0)%nat; [by apply pure_ret|].
    destruct (Nat.eqb_spec (String.length param) (MOBILE_RELAY_TOKEN_SIZE * 2)) as [Hl|];
      [|by apply pure_ret].
    destruct (main_parse_hex_total (relay_token_buf o) param ltac:(lia)) as (ok & buf & Hp & Hb).
    rewrite ok_token0 in Hp. rewrite Hp. apply pure_ret. congruence.
  - intros [[ok present] buf] Hb. destruct ok; [|apply pure_complain]. apply pure_ret. by split.
Qed.

(** One option with a parameter. *)
Lemma pure_with_param opt next f rest (Q : list string * options -> Prop) :
  (forall p, pure_or_exit options_ok (f p)) ->
  (forall p next' o, next = p :: next' -> options_ok o -> pure_or_exit Q (rest next' o)) ->
  pure_or_exit Q
    (main_checkparam program_name (opt :: next) ;;;
     match next with
     | p :: next => let* o := f p in rest next o
     | [] => halt StUB
     end).
Proof.
  intros Hf Hrest. eapply pure_bind; [apply pure_checkparam|]. intros u Hne. cbn beta in *.
  destruct next as [|p next']; [done|]. eapply pure_bind; [apply Hf|]. intros o Ho.
  by eapply Hrest.
Qed.

Lemma pure_parse_options n argv o : (length argv <= n)%nat -> options_ok o ->
  pure_or_exit (fun '(rest, o') => (rest `suffix_of` argv) /\ options_ok o')
    (parse_options program_name argv o).
Proof.
  revert argv o. induction n as [|n IH]; intros argv o Hn Ho.
  { destruct argv; [|simpl in Hn; lia]. by apply pure_ret. }
  destruct argv as [|opt next]; [by apply pure_ret|]. simpl in Hn.
  set (Q := fun '(rest, o') => (rest `suffix_of` opt :: next) /\ options_ok o').
  assert (forall f, (forall p, pure_or_exit options_ok (f p)) ->
    pure_or_exit Q (main_checkparam program_name (opt :: next) ;;;
     match next with
     | p :: next => let* o := f p in parse_options program_name next o
     | [] => halt StUB
     end)) as Hparam.
  { intros f Hf. apply pure_with_param; [done|]. intros p next' o' -> Ho' w.
    eapply wp_post; [apply IH; [simpl in Hn; lia|done]|].
    intros [rest o2] w' [[Hs Ho2] ->]. split; [|done]. split; [|done].
    by do 2 apply suffix_cons_r. }
  pose proof Ho as []. cbn [parse_options].
  repeat match goal with
  | |- pure_or_exit _ (if ?b then _ else _) => destruct b
  end; try apply pure_complain; try apply pure_show_help_full;
    try (apply Hparam; intros p);
    try (eapply pure_bind; [apply pure_parse_addr|intros a Ha]);
    try (apply pure_ret; split; simpl; auto using u32_range, addr_fits_set_port; fail).
  - apply pure_ret. split; [by apply suffix_cons_r|done].
  - intros w. eapply wp_post.
    { apply IH; [lia|]. split; simpl; try done. }
    intros [rest o2] w' [[Hs Ho2] ->]. split; [|done]. split; [|done]. by apply suffix_cons_r.
  - by apply pure_parse_dns_port.
  - by apply pure_parse_relay_token.
Qed.

(** C16: parsing the command line is total: for every list of arguments it
    either returns, having printed nothing, with the arguments it did not
    consume, or ends the program with a status of 0 or 1 having only printed
    to the standard error; it never reads a parameter that is not there.  The
    options it returns satisfy what the rest of the program relies on: an
    address has the length of its family and the token buffer its size. *)
Theorem parse_options_total argv o (w : world U) (Ho : options_ok o) :
  wp (parse_options program_name argv o)
     (fun '(rest, o') w' => ((rest `suffix_of` argv) /\ options_ok o') /\ w' = w)
     (exits w) w.
Proof.
  eapply wp_post; [by apply (pure_parse_options (length argv))|].
  intros [rest o'] w' Hr. exact Hr.
Qed.

(** C38: the check of [--dns_port] for an empty parameter looks at the option
    instead of the parameter: an empty parameter is accepted, as port 0. *)
Theorem dns_port_empty_accepted rest o (w : world U) :
  parse_options program_name ("--dns_port" :: "" :: rest)%string o w =
  parse_options program_name rest (set_ports o 0 (p2p_port o)) w.
Proof. done. Qed.

Lemma default_options_ok buf : length buf = MOBILE_RELAY_TOKEN_SIZE -> options_ok (default_options buf).
Proof.
  intros Hb. destruct law_defaults as (? & ? & ?). destruct law_addr_zero as [v Hv].
  assert (addr_fits addr_zero) by (unfold addr_fits; by rewrite Hv). by split.
Qed.

(** ** Settings as a command line *)

(** What a user may want to set; an address is given by its text. *)
Record settings := Settings {
  s_config : string;
  s_device : Z;
  s_unmetered : bool;
  s_dns1 : option string;
  s_dns2 : option string;
  s_dns_port : Z;
  s_p2p_port : Z;
  s_relay : option string;
  s_token : option (list Z)
}.

Definition addr_args (opt : string) (a : option string) : list string :=
  match a with Some s => [opt; s] | None => [] end.

Definition command_line (s : settings) : list string :=
  ["--config"; s_config s; "--device"; fmt_u (s_device s)]%string
   ++ (if s_unmetered s then ["--unmetered"%string] else [])
   ++ addr_args "--dns1" (s_dns1 s) ++ addr_args "--dns2" (s_dns2 s)
   ++ ["--dns_port"; fmt_u (s_dns_port s); "--p2p_port"; fmt_u (s_p2p_port s)]%string
   ++ addr_args "--relay" (s_relay s)
   ++ ["--relay-token"; match s_token s with Some bs => encode_hex bs | None => "" end]%string.

(** The address a text denotes, keeping the old port. *)
Definition resolve (old : mobile_addr) (text : option string) : mobile_addr :=
  match text with
  | None => old
  | Some t =>
    match mobile_inet_pton t with
    | MOBILE_INET_PTON_IPV4 ip =>
      MobileAddr MOBILE_ADDRTYPE_IPV4 (addr_port old) (take sizeof_host4 ip)
    | MOBILE_INET_PTON_IPV6 ip =>
      MobileAddr MOBILE_ADDRTYPE_IPV6 (addr_port old) (take sizeof_host6 ip)
    | MOBILE_INET_PTON_none => old
    end
  end.

Definition is_addr (text : option string) : Prop :=
  forall t, text = Some t -> mobile_inet_pton t <> MOBILE_INET_PTON_none.

Record settings_ok (s : settings) : Prop := {
  sk_device : is_u32 (s_device s);
  sk_dns_port : is_u32 (s_dns_port s);
  sk_p2p_port : is_u32 (s_p2p_port s);
  sk_dns1 : is_addr (s_dns1 s);
  sk_dns2 : is_addr (s_dns2 s);
  sk_relay : is_addr (s_relay s);
  sk_token bs : s_token s = Some bs ->
    bs <> [] /\ bytes_ok bs /\ length bs = MOBILE_RELAY_TOKEN_SIZE
}.

(** The options those settings amount to. *)
Definition apply_settings (s : settings) (o : options) : options :=
  Options (s_config s) (s_device s) (s_unmetered s || device_unmetered o)
    (resolve (dns1 o) (s_dns1 s)) (resolve (dns2 o) (s_dns2 s)) (s_dns_port s) (s_p2p_port s)
    (match s_relay s with
     | Some _ => main_set_port (resolve (relay o) (s_relay s)) MOBILE_DEFAULT_RELAY_PORT
     | None => relay o
     end)
    true (match s_token s with Some _ => true | None => false end)
    (default (relay_token_buf o) (s_token s)).

Lemma parse_addr_resolve dest opt t (w : world U) :
  is_addr (Some t) -> main_parse_addr program_name dest opt t w = (Ret (resolve dest (Some t)), w).
Proof.
  intros Ht. specialize (Ht t eq_refl). unfold main_parse_addr, resolve.
  by destruct (mobile_inet_pton t).
Qed.

Lemma step_device n rest o (w : world U) : is_u32 n ->
  parse_options program_name ("--device" :: fmt_u n :: rest)%string o w = parse_options program_name rest (set_device o n (device_unmetered o)) w.
Proof.
  intros Hn. cbn -[fmt_u strtol]. unfold bind, ret.
  rewrite strtol_fmt_u by (unfold is_u32 in *; auto). by rewrite u32_small.
Qed.

Lemma step_unmetered (b : bool) rest o (w : world U) :
  parse_options program_name ((if b then ["--unmetered"%string] else []) ++ rest) o w
  = parse_options program_name rest (set_device o (device o) (b || device_unmetered o)) w.
Proof. by destruct b, o. Qed.

Lemma step_dns1 t rest o (w : world U) : is_addr t ->
  parse_options program_name (addr_args "--dns1" t ++ rest) o w = parse_options program_name rest (set_dns o (resolve (dns1 o) t) (dns2 o)) w.
Proof.
  intros Ht. destruct t as [t|]; [|by destruct o]. cbn -[main_parse_addr]. unfold bind, ret.
  by rewrite parse_addr_resolve.
Qed.

Lemma step_dns2 t rest o (w : world U) : is_addr t ->
  parse_options program_name (addr_args "--dns2" t ++ rest) o w = parse_options program_name rest (set_dns o (dns1 o) (resolve (dns2 o) t)) w.
Proof.
  intros Ht. destruct t as [t|]; [|by destruct o]. cbn -[main_parse_addr]. unfold bind, ret.
  by rewrite parse_addr_resolve.
Qed.

Lemma step_dns_port n rest o (w : world U) : is_u32 n ->
  parse_options program_name ("--dns_port" :: fmt_u n :: rest)%string o w = parse_options program_name rest (set_ports o n (p2p_port o)) w.
Proof.
  intros Hn. cbn -[fmt_u parse_dns_port]. unfold bind, ret, parse_dns_port.
  rewrite strtol_fmt_u by (unfold is_u32 in *; auto). simpl. by rewrite u32_small.
Qed.

Lemma step_p2p_port n rest o (w : world U) : is_u32 n ->
  parse_options program_name ("--p2p_port" :: fmt_u n :: rest)%string o w = parse_options program_name rest (set_ports o (dns_port o) n) w.
Proof.
  intros Hn. cbn -[fmt_u strtol]. unfold bind, ret.
  rewrite strtol_fmt_u by (unfold is_u32 in *; auto). by rewrite u32_small.
Qed.

Lemma step_relay t rest o (w : world U) : is_addr t ->
  parse_options program_name (addr_args "--relay" t ++ rest) o w = parse_options program_name rest (set_relay o (match t with
    | Some _ => main_set_port (resolve (relay o) t) MOBILE_DEFAULT_RELAY_PORT
    | None => relay o end)) w.
Proof.
  intros Ht. destruct t as [t|]; [|by destruct o]. cbn -[main_parse_addr]. unfold bind, ret.
  by rewrite parse_addr_resolve.
Qed.

Lemma step_token t rest o (w : world U) :
  length (relay_token_buf o) = MOBILE_RELAY_TOKEN_SIZE ->
  (forall bs, t = Some bs -> bs <> [] /\ bytes_ok bs /\ length bs = MOBILE_RELAY_TOKEN_SIZE) ->
  parse_options program_name ("--relay-token" :: match t with Some bs => encode_hex bs | None => "" end :: rest)%string o w
  = parse_options program_name rest (set_token o (match t with Some _ => true | None => false end)
      (default (relay_token_buf o) t)) w.
Proof.
  intros Hbuf Ht. cbn -[parse_relay_token]. unfold bind, ret, parse_relay_token.
  destruct t as [bs|]; [|done]. destruct (Ht bs eq_refl) as (Hne & Hbs & Hl).
  destruct (decode_encode_hex bs Hbs) as [Hd Hlen]. rewrite Hlen.
  pose proof (parse_hex_loop_ok (relay_token_buf o) "" (encode_hex bs) [] eq_refl ltac:(congruence)) as Hp.
  rewrite Hd, Hbuf in Hp.
  destruct (Nat.eqb_spec (2 * length bs) 0); [destruct bs; [done|simpl in *; lia]|].
  rewrite (proj2 (Nat.eqb_eq _ _)) by lia. unfold main_parse_hex.
  change (parse_hex_loop (MOBILE_RELAY_TOKEN_SIZE * 2) 0 0 (relay_token_buf o) (encode_hex bs)
    = Some (true, bs)) in Hp. by rewrite Hp.
Qed.

(** C15: settings written as a command line are read back: parsing the options
    that state them yields exactly those settings (numbers printed in decimal,
    addresses as [mobile_inet_pton] reads them, with the relay's default port,
    the token in hexadecimal or empty to clear it) and goes on with what
    follows them. *)
Theorem command_line_roundtrip s rest o (w : world U)
    (Hs : settings_ok s) (Hbuf : length (relay_token_buf o) = MOBILE_RELAY_TOKEN_SIZE) :
  parse_options program_name (command_line s ++ rest) o w =
  parse_options program_name rest (apply_settings s o) w.
Proof.
  destruct Hs. unfold command_line. rewrite <- !app_assoc.
  transitivity (parse_options program_name (["--device"%string; fmt_u (s_device s)] ++
    (if s_unmetered s then ["--unmetered"%string] else [])
    ++ addr_args "--dns1" (s_dns1 s) ++ addr_args "--dns2" (s_dns2 s)
    ++ ["--dns_port"%string; fmt_u (s_dns_port s); "--p2p_port"%string; fmt_u (s_p2p_port s)]
    ++ addr_args "--relay" (s_relay s)
    ++ ["--relay-token"%string; match s_token s with Some bs => encode_hex bs | None => ""%string end]
    ++ rest) (set_fname o (s_config s)) w); [done|].
  cbn [app]. rewrite step_device by done. rewrite step_unmetered, step_dns1, step_dns2 by done.
  cbn [app]. rewrite step_dns_port, step_p2p_port, step_relay by done.
  cbn [app]. by rewrite step_token.
Qed.
End OptionLoop.

(** ** Concrete command lines *)

Section Examples.
Import SimInstances ToyInstances.

Definition demo_settings : settings :=
  Settings "my.bin" 9 true (Some "127.0.0.1"%string) None 5353 1027 (Some "::1"%string)
    (Some [222; 173; 190; 239]).

Definition demo_defaults : options := default_options [0; 0; 0; 0].

Lemma parse_options_total_witness :
  wp (parse_options "mobile" ["--dns1"; "127.0.0.1"; "host"]%string demo_defaults)
     (fun '(rest, o') w' => ((rest `suffix_of` ["--dns1"; "127.0.0.1"; "host"]%string) /\
        options_ok o') /\ w' = sim_world sim_init tt)
     (exits (sim_world sim_init tt)) (sim_world sim_init tt) /\
  (match parse_options "mobile" ["--dns1"; "127.0.0.1"; "host"]%string demo_defaults
           (sim_world sim_init tt) with
   | (Ret (rest, o), _) => (rest, addr_host (dns1 o))
   | _ => ([], [])
   end) = (["host"%string], [127; 0; 0; 1]).
Proof.
  split; [|vm_compute; reflexivity].
  apply (parse_options_total "mobile" _ demo_defaults). by apply default_options_ok.
Defined.

Lemma command_line_roundtrip_witness :
  parse_options "mobile" (command_line demo_settings ++ ["host"; "1234"]%string) demo_defaults
    (sim_world sim_init tt) =
  (Ret (["host"; "1234"]%string, apply_settings demo_settings demo_defaults),
   sim_world sim_init tt).
Proof.
  apply (command_line_roundtrip "mobile" demo_settings ["host"; "1234"]%string demo_defaults
    (sim_world sim_init tt)); [|done].
  split; try done.
  - by intros t [= <-].
  - by intros t [= <-].
  - intros bs [= <-]. split_and!; [done| |done].
    repeat (apply Forall_cons_2; [done|]). apply Forall_nil_2.
Defined.
End Examples.
