(* ===== verification/MobileMain.v ===== *)
(** * main.c: the program

    What [main] does after parsing its command line: it opens and pads the
    configuration file, sets up the environment and the library, connects to
    the emulator, waits for its clock and runs the main loop.  The two loops
    take fuel, a bound on their iterations; running out of it is the result
    [StFuel], which no other path produces. *)

From S2P Require Import Prelude CInt CLib Sys Hoare SimKernel Socket BgbLink Libmobile SocketImpl.
From S2P Require Import MobileUser Options.

Section Main.
Context `{K : Kernel} `{Libc} `{Host} `{L : Libmobile}.

(** ** The configuration file *)

(** The loop that appends zeros: [n] iterations left. *)
Fixpoint pad_loop (n : nat) (config : FILE) : FILE :=
  match n with
  | O => config
  | S n => pad_loop n (fputc 0 config)
  end.

(** Make sure the file is at least [MOBILE_CONFIG_SIZE] bytes big.  The loop
    counts from [ftell] up, whether or not [fputc] succeeds. *)
Definition pad_config (config : FILE) : FILE :=
  let config := fseek config 0 SEEK_END in
  rewind (pad_loop (Z.to_nat (MOBILE_CONFIG_SIZE - ftell config)) config).

Definition open_config (fname : string) : M mobile_user (option FILE) :=
  let* r := call (SysFopen fname "r+b") in
  match r with
  | inl config => ret (Some config)
  | inr e =>
    socket_seterror e ;;;
    let* r := call (SysFopen fname "w+b") in
    match r with
    | inl config => ret (Some config)
    | inr e => socket_seterror e ;;; perror "fopen" ;;; ret None
    end
  end.

(** ** The environment and the library *)

(** The initial value of the allocated structure; [mem] is what the memory
    held, which the number fields and the socket table keep where the code
    does not write.  The result of [mobile_new] is not checked: a null pointer
    is handed to the library's functions, which is undefined. *)
Definition user_init (mem : mobile_user) (config : FILE) : M mobile_user unit :=
  let* number_user := store (mu_number_user mem) 0 0 in
  let* number_peer := store (mu_number_peer mem) 0 0 in
  let* socket := socket_impl_init (mu_socket mem) in
  (* Initialize mobile library *)
  match mobile_new with
  | None => halt StUB
  | Some adapter =>
    put_user (MobileUser adapter socket MOBILE_ACTION_NONE config false 0 false
      (replicate MOBILE_MAX_TIMERS 0) number_user number_peer)
  end.

Definition configure (o : options) : M mobile_user unit :=
  lib_do mobile_config_load ;;;
  lib_do (fun a => mobile_config_set_device a (device o) (device_unmetered o)) ;;;
  lib_do (fun a => mobile_config_set_dns a (dns1 o) MOBILE_DNS1) ;;;
  lib_do (fun a => mobile_config_set_dns a (dns2 o) MOBILE_DNS2) ;;;
  lib_do (fun a => mobile_config_set_p2p_port a (p2p_port o)) ;;;
  lib_do (fun a => mobile_config_set_relay a (relay o)) ;;;
  (if relay_token_update o
   then lib_do (fun a => mobile_config_set_relay_token a (token_arg o)) else ret tt) ;;;
  lib_do mobile_config_save.

(** ** The loops *)

(** [while (!mobile->bgb_clock_init) if (!bgb_loop(&bgb_state)) goto error;]
    The result is [false] for the jump. *)
Fixpoint wait_clock (fuel : nat) (st : bgb_state mobile_user)
    : M mobile_user (bool * bgb_state mobile_user) :=
  match fuel with
  | O => halt StFuel
  | S fuel =>
    let* mobile := get_user in
    if mu_bgb_clock_init mobile then ret (true, st) else
    let* '(ok, st) := bgb_loop st in
    if negb ok then ret (false, st) else wait_clock fuel st
  end.

(** The [for] loop that collects the open connections: [n] iterations left
    from connection [i] on; the array and [socket_count]. *)
Fixpoint polled_loop (n i : nat) (mobile : mobile_user) (socks : list Z) (count : nat)
    : M mobile_user (list Z * nat) :=
  match n with
  | O => ret (socks, count)
  | S n =>
    let* fd := get_slot (mu_socket mobile) i in
    if fd =? INVALID_SOCKET then polled_loop n (S i) mobile socks count else
    let* socks := store socks count fd in
    polled_loop n (S i) mobile socks (S count)
  end.

(** [SOCKET sockets[1 + MOBILE_MAX_CONNECTIONS]]: only the entries that were
    written are passed on, so what it holds before does not matter. *)
Definition polled_array : list Z := replicate (1 + MOBILE_MAX_CONNECTIONS) 0.

(** The sockets the main loop waits on. *)
Definition polled_sockets (bgb_sock : Z) (mobile : mobile_user) : M mobile_user (list Z) :=
  let* socks := store polled_array 0 bgb_sock in
  let* '(socks, count) := polled_loop MOBILE_MAX_CONNECTIONS 0 mobile socks 1 in
  ret (take count socks).

Fixpoint main_loop (fuel : nat) (bgb_sock : Z) (st : bgb_state mobile_user)
    : M mobile_user (bgb_state mobile_user) :=
  match fuel with
  | O => halt StFuel
  | S fuel =>
    let* signal_int_trig := call SysSigint in
    if signal_int_trig then ret st else
    let* '(ok, st) := bgb_loop st in
    if negb ok then ret st else
    let* ok := mobile_handle_loop in
    if negb ok then ret st else
    (* Wait for any of the sockets to do something; time out after 100ms *)
    let* mobile := get_user in
    let* socks := polled_sockets bgb_sock mobile in
    let* _ := socket_wait socks 100 in
    main_loop fuel bgb_sock st
  end.

(** Stopping the library and closing all sockets. *)
Definition teardown (bgb_sock : Z) : M mobile_user unit :=
  lib_do mobile_stop ;;;
  let* mobile := get_user in
  socket_impl_stop (mu_socket mobile) ;;;
  socket_close bgb_sock.

(** From the connection to the emulator on. *)
Definition session (fuel : nat) (bgb_sock : Z) : M mobile_user Z :=
  let* rc := c_setsockopt bgb_sock IPPROTO_TCP TCP_NODELAY 1 in
  if rc =? SOCKET_ERROR then socket_perror (Some "setsockopt") ;;; ret EXIT_FAILURE else
  (* Set up CTRL+C signal handler *)
  let* r := call SysSigaction in
  let* rc := c_int r in
  if rc =? -1 then perror "sigaction" ;;; ret EXIT_FAILURE else
  update_title ;;;
  (* Connect to the emulator *)
  let* '(ok, st) := bgb_init bgb_sock MOBILE_SERIAL_IDLE_BYTE
                      (Some bgb_loop_transfer) (Some bgb_loop_timestamp) in
  if negb ok then ret EXIT_FAILURE else
  (* Wait for the timestamp to be initialized *)
  let* '(ok, st) := wait_clock fuel (set_callback_timestamp st (Some bgb_loop_timestamp_init)) in
  if negb ok then ret EXIT_FAILURE else
  let st := set_callback_timestamp st (Some bgb_loop_timestamp) in
  (* Start main mobile thread *)
  lib_do mobile_start ;;;
  let* _ := main_loop fuel bgb_sock st in
  teardown bgb_sock ;;;
  ret EXIT_SUCCESS.

(** The exit status.  [mem] is the memory [malloc] returns, [buf] the
    uninitialised token buffer; freeing memory and closing the configuration
    file at the end have no effect that the model shows. *)
Definition main (fuel : nat) (program_name : string) (args : list string)
    (mem : mobile_user) (buf : list Z) : M mobile_user Z :=
  let* '(host, port, o) := parse_command_line program_name args buf in
  (* Open or create configuration *)
  let* config := open_config (fname_config o) in
  match config with
  | None => ret EXIT_FAILURE
  | Some config =>
    let config := pad_config config in
    (* Initialize main data structure *)
    let* r := call SysMalloc in
    match r with
    | inr e => socket_seterror e ;;; perror "malloc" ;;; ret EXIT_FAILURE
    | inl _ =>
      user_init mem config ;;;
      configure o ;;;
      (* Connect to the emulator *)
      let* bgb_sock := socket_connect host port in
      if bgb_sock =? INVALID_SOCKET then
        eprint (String.append "Could not connect (" (String.append host (String.append ":"
          (String.append port "): ")))) ;;;
        socket_perror None ;;;
        ret EXIT_FAILURE
      else session fuel bgb_sock
    end
  end.
End Main.
