(* ===== verification/MobileMainProofs.v ===== *)
(** * Properties of the program

    The configuration file, the clock the link and the adapter share, the
    safety of a whole run, and when it ends. *)

From S2P Require Import Prelude CInt CLib Sys Hoare SimKernel Socket BgbLink BgbLinkProofs.
From S2P Require Import Libmobile SocketImpl SocketImplProofs MobileUser MobileUserProofs Callbacks.
From S2P Require Import Options OptionsProofs MobileMain.
Import LinkSpec.

(** ** The configuration file *)

Section Config.
Context `{K : Kernel} `{Libc} `{Host} `{L : Libmobile}.

Lemma fputc_end f : f_pos f = flen f -> flen f < f_room f ->
  fputc 0 f = MkFile (f_data f ++ [0]) (flen f + 1) (f_room f).
Proof.
  intros Hp Hr. unfold fputc, flen in *.
  rewrite fwrite_fits by (simpl; lia || done). simpl.
  rewrite Hp, Nat2Z.id, overwrite_end. done.
Qed.

Lemma pad_loop_end n f :
  f_pos f = flen f -> flen f + Z.of_nat n <= f_room f ->
  f_data (pad_loop n f) = f_data f ++ replicate n 0 /\ f_room (pad_loop n f) = f_room f.
Proof.
  revert f. induction n as [|n IH]; intros f Hp Hr; simpl; [by rewrite app_nil_r|].
  rewrite fputc_end by lia. destruct (IH (MkFile (f_data f ++ [0]) (flen f + 1) (f_room f))) as [-> ->].
  - unfold flen; simpl. rewrite length_app. simpl. lia.
  - unfold flen in *; simpl. rewrite length_app. simpl. lia.
  - simpl. split; [|done]. by rewrite <- app_assoc.
Qed.

(** C31: preparing the configuration file keeps everything it holds and, where
    the device has room, pads it with zeros to exactly [MOBILE_CONFIG_SIZE]
    bytes when it was shorter, leaving the position at the start. *)
Theorem pad_config_ok f (Hroom : MOBILE_CONFIG_SIZE <= f_room f) :
  f_data (pad_config f) =
    f_data f ++ replicate (Z.to_nat MOBILE_CONFIG_SIZE - length (f_data f)) 0 /\
  f_pos (pad_config f) = 0 /\ f_room (pad_config f) = f_room f.
Proof.
  unfold pad_config, rewind, fseek, ftell at 1. unfold flen at 2.
  rewrite (proj2 (Z.ltb_ge (flen f + 0) 0)) by (unfold flen; lia). simpl.
  set (g := MkFile (f_data f) (flen f + 0) (f_room f)).
  destruct (decide (MOBILE_CONFIG_SIZE <= flen f)).
  - replace (Z.to_nat (MOBILE_CONFIG_SIZE - (flen f + 0))) with 0%nat by lia.
    replace (Z.to_nat MOBILE_CONFIG_SIZE - length (f_data f))%nat with 0%nat
      by (unfold flen in *; lia).
    simpl. by rewrite app_nil_r.
  - destruct (pad_loop_end (Z.to_nat (MOBILE_CONFIG_SIZE - (flen f + 0))) g) as [-> ->];
      [unfold g, flen; simpl; lia|unfold g, flen in *; simpl; lia|].
    simpl. split_and!; [|done|done]. do 2 f_equal. unfold flen. lia.
Qed.
End Config.

(** ** The link and the environment together *)

Section Session.
Context `{K : Kernel} `{!KernelLaws K} `{Libc} `{Host} `{L : Libmobile} `{!LibmobileLaws L}.
Context `{C : !LibmobileContract L}.

Lemma driven_same base w w' : driven base w -> same w w' -> driven base w'.
Proof. intros [Hok Hi] Hs. split; [by eapply user_ok_same|]. destruct Hs as [_ ->]. done. Qed.

(** The link's clock and the adapter's: both unset, or both set and equal. *)
Definition in_sync (st : bgb_state mobile_user) (m : mobile_user) : Prop :=
  mu_bgb_clock_init m = timestamp_init st /\
  (timestamp_init st = true -> mu_bgb_clock m = timestamp_last st).

(** The link as [main] sets it up: [first] while it waits for the clock. *)
Definition link_cb (first : bool) : Z -> M mobile_user unit :=
  if first then bgb_loop_timestamp_init else bgb_loop_timestamp.

Record link_ok (base : gset Z) (first : bool) (st : bgb_state mobile_user)
    (w : world mobile_user) : Prop := {
  lk_driven : driven base w;
  lk_transfer : callback_transfer st = Some bgb_loop_transfer;
  lk_timestamp : callback_timestamp st = Some (link_cb first);
  lk_sync : in_sync st (w_user w);
  lk_phase : first = true \/ timestamp_init st = true
}.

Lemma link_ok_same base first st w w' :
  link_ok base first st w -> same w w' -> link_ok base first st w'.
Proof.
  intros [] Hs. pose proof Hs as [_ Hu]. split; try done; [by eapply driven_same|by rewrite Hu].
Qed.

Lemma wp_link_cb base first t E (w : world mobile_user) :
  driven base w -> first = true \/ mu_bgb_clock_init (w_user w) = true ->
  wp (link_cb first t)
     (fun _ w' => driven base w' /\ mu_bgb_clock (w_user w') = t /\
                  mu_bgb_clock_init (w_user w') = true) E w.
Proof.
  intros Hd Hphase. unfold wp. destruct first; simpl.
  - split_and!; try done. by apply driven_set_clock.
  - destruct Hphase as [|Hinit]; [done|].
    destruct (bgb_loop_timestamp_run t w) as [tr ->]. split_and!; try done.
    pose proof (driven_set_reset base w (mu_reset (w_user w) ||
      bool_decide (clock_jump (mu_bgb_clock (w_user w)) t)) Hd) as Hd'.
    by apply (driven_set_clock _ _ t (mu_bgb_clock_init (w_user w)) (w_kern w) (w_errno w) tr) in Hd'.
Qed.

(** The clock update at the end of a packet. *)
Lemma wp_link_clock base first st t E (w : world mobile_user) :
  link_ok base first st w ->
  wp (spec_clock st t)
     (fun st' w' => link_ok base first st' w' /\ timestamp_init st' = true) E w.
Proof.
  intros [Hd Ht Hc [Hi Hl] Hp]. unfold spec_clock. rewrite Hc. apply wp_bind.
  assert (forall w' x, driven base w' -> mu_bgb_clock (w_user w') = x ->
    mu_bgb_clock_init (w_user w') = true ->
    link_ok base first (set_timestamp st x true) w') as Hok.
  { intros w' x Hd' Hx Hi'. split; try done; by right. }
  destruct (clock_report (clock_of st) t) as [t'|] eqn:Hr.
  - eapply wp_post; [apply wp_link_cb; [done|destruct Hp; [by left|right; congruence]]|].
    intros _ w' (Hd' & Hx & Hi'). apply wp_ret. split; [|done]. apply Hok; try done.
    rewrite Hx. unfold clock_report, clock_next in *. destruct (clock_of st); [|congruence].
    case_decide as Hcase; [done|]. rewrite decide_False by tauto. congruence.
  - unfold clock_report, clock_next, clock_of in *.
    destruct (timestamp_init st) eqn:Hinit; [|done].
    case_decide as Hcase; [|done].
    assert ((if decide (behind (timestamp_last st) t) then timestamp_last st else t)
      = timestamp_last st) as ->.
    { case_decide; [done|]. by destruct Hcase. }
    apply wp_quiet; [frame_tac|]. intros _ w' Hs. apply wp_ret. split; [|done].
    pose proof Hs as [_ Hu]. apply Hok; [by eapply driven_same|rewrite Hu; auto|by rewrite Hu].
Qed.

Lemma quiet_bgb_send sock q : quiet (U := mobile_user) (bgb_send sock q).
Proof. unfold bgb_send. frame_tac. Qed.

Lemma quiet_bgb_recv sock : quiet (U := mobile_user) (bgb_recv sock).
Proof. unfold bgb_recv. frame_tac. Qed.

Lemma wp_bgb_loop_transfer base c E (w : world mobile_user) :
  driven base w ->
  wp (bgb_loop_transfer c)
     (fun _ w' => driven base w' /\ driven_kept (w_user w) (w_user w')) E w.
Proof.
  intros Hd. apply wp_bind. eapply wp_post; [apply wp_lib_call; [|done]; intros; by apply ct_transfer|].
  intros x w' Hw'. by apply wp_ret.
Qed.

(** One call of [bgb_loop], run by [main]. *)
Lemma wp_link_loop base first st E (w : world mobile_user) :
  link_ok base first st w ->
  wp (bgb_loop st) (fun '(_, st') w' => link_ok base first st' w' /\
        (timestamp_init st = true -> timestamp_init st' = true)) E w.
Proof.
  intros Hok. unfold wp. rewrite bgb_loop_spec_loop. fold (wp (spec_loop st)
    (fun '(_, st') w' => link_ok base first st' w' /\
        (timestamp_init st = true -> timestamp_init st' = true)) E w).
  apply wp_bind, wp_quiet; [frame_tac|]. intros has w1 Hw1.
  destruct (has <=? 0); [apply wp_ret; split; [by eapply link_ok_same|done]|].
  apply wp_bind, wp_quiet; [apply quiet_bgb_recv|]. intros [p|] w2 Hw2;
    (assert (link_ok base first st w2) as Hok2 by (eapply link_ok_same; [done|by etrans]));
    [|by apply wp_ret].
  unfold spec_handle, spec_transfer. destruct (demand_of (byte st) p) as [d|].
  2: { apply wp_bind, wp_quiet; [frame_tac|]. intros _ w3 Hw3. apply wp_ret.
       split; [by eapply link_ok_same|done]. }
  apply wp_bind, wp_quiet; [destruct (d_reply d); [apply quiet_bgb_send|frame_tac]|].
  intros ok w3 Hw3. assert (link_ok base first st w3) as Hok3 by by eapply link_ok_same.
  destruct ok; [|by apply wp_ret]. cbn [negb]. apply wp_bind.
  apply (wp_post _ (fun st1 w' => link_ok base first st1 w')).
  { destruct (d_transfer d) as [c|]; [|by apply wp_ret].
    destruct Hok3 as [Hd3 Ht3 Hc3 [Hi3 Hl3] Hp3]. rewrite Ht3. apply wp_bind.
    eapply wp_post; [by apply wp_bgb_loop_transfer|].
    intros x w4 [Hd4 (_ & _ & Hk1 & Hk2)]. apply wp_ret. split; try done.
    split; simpl; [congruence|]. intros. rewrite Hk1. auto. }
  intros st1 w4 Hok4. apply wp_bind. eapply wp_post; [by apply wp_link_clock|].
  intros st2 w5 [Hok5 Hinit]. by apply wp_ret.
Qed.

(** ** The loops *)

Lemma wp_wait_clock base fuel st (w : world mobile_user) :
  link_ok base true st w ->
  wp (wait_clock fuel st)
     (fun '(ok, st') w' => link_ok base true st' w' /\ (ok = true -> timestamp_init st' = true))
     (fun s _ => s = StFuel) w.
Proof.
  revert st w. induction fuel as [|fuel IH]; intros st w Hok; simpl; [done|].
  apply wp_bind, wp_get_user. destruct (mu_bgb_clock_init (w_user w)) eqn:Hi.
  { apply wp_ret. split; [done|]. intros _. pose proof (lk_sync _ _ _ _ Hok) as [Hs _]. congruence. }
  apply wp_bind. eapply wp_post; [by apply wp_link_loop|]. intros [[] st'] w' [Hok' _]; cbn [negb].
  - by apply IH.
  - by apply wp_ret.
Qed.

(** The sockets are collected without leaving the array.  [pre] is what the
    array holds already, [l1] the connections passed. *)
Lemma polled_loop_run m l2 l1 pre rest (w : world mobile_user) :
  sockets (mu_socket m) = l1 ++ l2 ->
  (length (filter (.≠ INVALID_SOCKET) l2) <= length rest)%nat ->
  exists rest', polled_loop (length l2) (length l1) m (pre ++ rest) (length pre) w =
    (Ret (pre ++ filter (.≠ INVALID_SOCKET) l2 ++ rest',
          length pre + length (filter (.≠ INVALID_SOCKET) l2))%nat, w).
Proof.
  revert l1 pre rest. induction l2 as [|s l2 IH]; intros l1 pre rest Hl Hr; simpl.
  { exists rest. by rewrite Nat.add_0_r. }
  unfold get_slot. rewrite Hl, list_lookup_middle by done. unfold bind at 1, ret at 1.
  specialize (IH (l1 ++ [s])). rewrite length_app, <- app_assoc in IH. simpl in IH.
  replace (length l1 + 1)%nat with (S (length l1)) in IH by lia.
  destruct (Z.eqb_spec s INVALID_SOCKET) as [->|Hs].
  - rewrite filter_cons_False in Hr |- * by naive_solver. by apply IH.
  - rewrite filter_cons_True in Hr |- * by done. simpl in Hr.
    destruct rest as [|y rest]; [simpl in Hr; lia|].
    erewrite bind_run by (apply store_run; rewrite length_app; simpl; lia).
    rewrite insert_app_r_alt, Nat.sub_diag by done. cbn [insert list_insert].
    destruct (IH (pre ++ [s]) rest Hl) as [rest' Hrun]; [simpl in Hr; lia|].
    rewrite length_app, <- !app_assoc in Hrun. simpl in Hrun.
    replace (length pre + 1)%nat with (S (length pre)) in Hrun by lia.
    exists rest'. rewrite Hrun. simpl. do 3 f_equal. lia.
Qed.

Lemma polled_sockets_run sock m (w : world mobile_user) :
  length (sockets (mu_socket m)) = MOBILE_MAX_CONNECTIONS ->
  polled_sockets sock m w = (Ret (sock :: open_fds (mu_socket m)), w).
Proof.
  intros Hl. unfold polled_sockets, polled_array. simpl.
  erewrite bind_run by (apply store_run; simpl; lia). simpl.
  destruct (polled_loop_run m (sockets (mu_socket m)) [] [sock]
    (replicate MOBILE_MAX_CONNECTIONS 0) w eq_refl) as [rest' Hrun].
  { rewrite length_replicate, <- Hl. apply length_filter. }
  rewrite Hl in Hrun. simpl in Hrun. erewrite bind_run by exact Hrun. unfold ret. do 2 f_equal.
  simpl. f_equal. apply take_app_length.
Qed.

(** The state the main loop keeps. *)
Lemma wp_main_loop base fuel sock st (w : world mobile_user) :
  link_ok base false st w ->
  wp (main_loop fuel sock st) (fun st' w' => link_ok base false st' w') (fun s _ => s = StFuel) w.
Proof.
  revert st w. induction fuel as [|fuel IH]; intros st w Hok; simpl; [done|].
  apply wp_bind, wp_quiet; [exact (quiet_call SysSigint eq_refl)|]. intros trig w1 Hw1.
  assert (link_ok base false st w1) as Hok1 by by eapply link_ok_same.
  destruct trig; [by apply wp_ret|].
  apply wp_bind. eapply wp_post; [by apply wp_link_loop|]. intros [ok st'] w2 [Hok2 _].
  destruct ok; [|by apply wp_ret]. cbn [negb]. apply wp_bind.
  destruct Hok2 as [Hd2 Ht2 Hc2 [Hi2 Hl2] Hp2].
  eapply wp_post; [by apply wp_mobile_handle_loop|].
  intros b w3 (-> & Hd3 & _ & _ & Hk1 & Hk2). cbn [negb].
  assert (link_ok base false st' w3) as Hok3.
  { split; try done. split; [congruence|]. intros. rewrite Hk1. auto. }
  apply wp_bind, wp_get_user, wp_bind. unfold wp at 1.
  rewrite polled_sockets_run by apply (tk_length _ _ _ (uk_table _ _ (proj1 Hd3))).
  apply wp_bind, wp_quiet; [frame_tac|]. intros x4 w4 Hw4. apply IH. by eapply link_ok_same.
Qed.

(** C6: the link's clock and the adapter's never drift apart: through any
    number of turns of the main loop, whatever the emulator sends and whatever
    the library and the kernel do, the adapter's clock is the last time the
    link accepted, the adapter's invariants hold, and the loop ends only by
    SIGINT, by a link failure or by running on. *)
Theorem main_loop_in_sync base fuel sock st (w : world mobile_user)
    (Hok : link_ok base false st w) :
  wp (main_loop fuel sock st)
     (fun st' w' => driven base w' /\ timestamp_init st' = true /\
        mu_bgb_clock_init (w_user w') = true /\ mu_bgb_clock (w_user w') = timestamp_last st')
     (fun s _ => s = StFuel) w.
Proof.
  eapply wp_post; [by apply wp_main_loop|]. intros st' w' [Hd _ _ [Hi Hl] [|Hp]]; [done|].
  split_and!; [done|done|congruence|auto].
Qed.

(** ** The end of a run *)

Lemma wp_teardown base sock E (w : world mobile_user) :
  driven base w ->
  wp (teardown sock)
     (fun _ w' => (sock ∉ dom (fds w')) /\
        forall s, s ∈ open_fds (mu_socket (w_user w')) -> s ∉ dom (fds w')) E w.
Proof.
  intros Hd. apply wp_bind. eapply wp_post; [apply wp_lib_do; [apply ct_stop|done]|].
  intros _ w1 [[Hok _] _]. apply wp_bind, wp_get_user, wp_bind.
  unfold socket_impl_stop. rewrite take_ge by by rewrite (tk_length _ _ _ (uk_table _ _ Hok)).
  apply wp_stop_loop. intros w2 Hf2 Hu2. fold (open_fds (mu_socket (w_user w1))) in Hf2.
  apply wp_socket_close. intros w3 Hf3 Hu3. rewrite Hf3, dom_delete_L, Hu3, Hu2.
  split; [set_solver|]. intros s Hs. rewrite elem_of_difference, elem_of_dom, Hf2.
  rewrite decide_True by done. intros [[? ?] _]. done.
Qed.

(** ** A whole run *)

Lemma wp_bgb_init sock byte0 cbt cbts E (w : world mobile_user) :
  wp (bgb_init sock byte0 cbt cbts)
     (fun '(_, st) w' => st = init_state sock byte0 cbt cbts /\ same w w') E w.
Proof.
  unfold bgb_init. fold (init_state sock byte0 cbt cbts).
  do 2 (apply wp_bind, wp_quiet; [apply quiet_bgb_send || apply quiet_bgb_recv|];
    intros [] ? ?; cbn [negb]; try (by apply wp_ret; split; [|same_tac])).
  destruct (negb _).
  { apply wp_bind, wp_quiet; [frame_tac|]. intros. apply wp_ret. split; [done|same_tac]. }
  do 2 (apply wp_bind, wp_quiet; [apply quiet_bgb_send || apply quiet_bgb_recv|];
    intros [] ? ?; cbn [negb]; try (by apply wp_ret; split; [|same_tac])).
  destruct (negb _).
  { apply wp_bind, wp_quiet; [frame_tac|]. intros. apply wp_ret. split; [done|same_tac]. }
  apply wp_bind, wp_quiet; [apply quiet_bgb_send|]. intros [] ? ?; apply wp_ret; split; done || same_tac.
Qed.

Lemma quiet_update_title (w : world mobile_user) E base :
  user_ok base w -> wp update_title (fun _ w' => same w w') E w.
Proof.
  intros [_ _ Hu Hp]. pose proof Hu as [_ [su Hsu]]. pose proof Hp as [_ [sp Hsp]].
  unfold wp. erewrite update_title_run by done. done.
Qed.

(** How [main] may stop before returning. *)
Definition main_stop (s : stop) : Prop :=
  s = StExit EXIT_SUCCESS \/ s = StExit EXIT_FAILURE \/ s = StFuel.

Lemma wp_session base fuel sock (w : world mobile_user) :
  driven base w -> mu_bgb_clock_init (w_user w) = false ->
  wp (session fuel sock)
     (fun code w' => (code = EXIT_FAILURE /\ driven base w') \/
        (code = EXIT_SUCCESS /\ (sock ∉ dom (fds w')) /\
         forall s, s ∈ open_fds (mu_socket (w_user w')) -> s ∉ dom (fds w')))
     (fun s _ => s = StFuel) w.
Proof.
  intros Hd Hi. unfold session. apply wp_bind, wp_quiet; [frame_tac|]. intros rc w1 Hw1.
  assert (forall w', same w w' -> driven base w') as Hsame by (intros; by eapply driven_same).
  destruct (_ =? _).
  { apply wp_bind, wp_quiet; [frame_tac|]. intros _ w2 Hw2. apply wp_ret. left.
    split; [done|]. apply Hsame. same_tac. }
  apply wp_bind, wp_quiet; [by apply quiet_call|]. intros r w2 Hw2.
  apply wp_bind, wp_quiet; [frame_tac|]. intros rc' w3 Hw3.
  destruct (_ =? _).
  { apply wp_bind, wp_quiet; [frame_tac|]. intros _ w4 Hw4. apply wp_ret. left.
    split; [done|]. apply Hsame. same_tac. }
  assert (driven base w3) as Hd3 by (apply Hsame; same_tac).
  apply wp_bind. eapply wp_post; [by eapply quiet_update_title, Hd3|]. intros u4 w4 Hw4.
  apply wp_bind. eapply wp_post; [apply wp_bgb_init|]. intros [ok st] w5 [-> Hw5].
  assert (same w w5) as Hw by same_tac. pose proof Hw as [_ Hu].
  destruct ok; [|apply wp_ret; left; by auto]. cbn [negb]. apply wp_bind.
  eapply wp_post.
  { apply (wp_wait_clock base). split; try done; [exact (Hsame w5 Hw)| |by left].
    split; [by rewrite Hu|done]. }
  intros [ok st'] w6 [Hok6 Hinit]. destruct Hok6 as [Hd6 Ht6 Hc6 [Hi6 Hl6] _].
  destruct ok; [|apply wp_ret; left; by auto]. cbn [negb]. specialize (Hinit eq_refl).
  apply wp_bind. eapply wp_mono; [apply wp_lib_do; [apply ct_start|exact Hd6]| |].
  2: { intros s w' Hs. exact Hs. }
  intros _ w7 [Hd7 (_ & _ & Hk1 & Hk2)]. apply wp_bind. eapply wp_post.
  { apply (wp_main_loop base). split; try done; [|by right].
    split; simpl; [congruence|]. intros. rewrite Hk1. auto. }
  intros st8 w8 [Hd8 _ _ _ _]. apply wp_bind. eapply wp_post; [by eapply wp_teardown|].
  intros u9 w9 Hclosed. apply wp_ret. by right.
Qed.

(** C23: how a session ends.  Started with the link's socket open among the
    descriptors [base] the library must not touch, and before the emulator's
    clock is known, it returns success only after the orderly end, and then neither the link's socket nor any socket
    of the library's table is open; it returns failure from one of the error
    exits, which leave the link's socket open for the process to drop; it does
    nothing else than that or run on. *)
Theorem session_closes base fuel sock (w : world mobile_user)
    (Hd : driven base w) (Hi : mu_bgb_clock_init (w_user w) = false) (Hsock : sock ∈ base) :
  wp (session fuel sock)
     (fun code w' => (code = EXIT_FAILURE /\ (sock ∈ dom (fds w'))) \/
        (code = EXIT_SUCCESS /\ (sock ∉ dom (fds w')) /\
         forall s, s ∈ open_fds (mu_socket (w_user w')) -> s ∉ dom (fds w')))
     (fun s _ => s = StFuel) w.
Proof.
  eapply wp_post; [by apply (wp_session base)|].
  intros code w' [[-> [Hok _]]|?]; [left|by right]. split; [done|].
  by apply (tk_base _ _ _ (uk_table _ _ Hok)).
Qed.

Lemma wp_configure base o E (w : world mobile_user) :
  driven base w ->
  wp (configure o) (fun _ w' => driven base w' /\ driven_kept (w_user w) (w_user w')) E w.
Proof.
  intros Hd.
  assert (forall f (m : M mobile_user unit) w1,
    (forall a o, lib_inv a o -> respects o (f a) lib_inv) -> driven base w1 ->
    (forall w2, driven base w2 -> driven_kept (w_user w1) (w_user w2) ->
       wp m (fun _ w' => driven base w' /\ driven_kept (w_user w2) (w_user w')) E w2) ->
    wp (lib_do f ;;; m) (fun _ w' => driven base w' /\ driven_kept (w_user w1) (w_user w')) E w1)
    as Hseq.
  { intros f m w1 Hf Hd1 Hm. apply wp_bind. eapply wp_post; [by apply wp_lib_do|].
    intros _ w2 [Hd2 Hk2]. eapply wp_post; [by apply Hm|].
    intros u w3 [Hd3 Hk3]. split; [done|by etrans]. }
  unfold configure.
  apply Hseq; [apply ct_config_load|done|]; intros ? ? _.
  apply Hseq; [intros; by apply ct_set_device|done|]; intros ? ? _.
  apply Hseq; [intros; by apply ct_set_dns|done|]; intros ? ? _.
  apply Hseq; [intros; by apply ct_set_dns|done|]; intros ? ? _.
  apply Hseq; [intros; by apply ct_set_p2p|done|]; intros ? ? _.
  apply Hseq; [intros; by apply ct_set_relay|done|]; intros ? ? _.
  destruct (relay_token_update o).
  - apply Hseq; [intros; by apply ct_set_token|done|]; intros ? ? _.
    apply wp_lib_do; [apply ct_config_save|done].
  - apply wp_bind, wp_ret, wp_lib_do; [apply ct_config_save|done].
Qed.

(** The memory [malloc] returns has the arrays of the structure, with any
    contents. *)
Definition mem_ok (mem : mobile_user) : Prop :=
  length (sockets (mu_socket mem)) = MOBILE_MAX_CONNECTIONS /\
  length (mu_number_user mem) = S MOBILE_MAX_NUMBER_SIZE /\
  length (mu_number_peer mem) = S MOBILE_MAX_NUMBER_SIZE.

Lemma number_ok_empty (buf : list Z) :
  length buf = S MOBILE_MAX_NUMBER_SIZE -> number_ok (<[0%nat := 0]> buf).
Proof. intros Hl. split; [by rewrite length_insert|]. destruct buf; [done|]. by eexists. Qed.

(** Initialising stays within the arrays and establishes every invariant. *)
Lemma wp_user_init mem config E (w : world mobile_user) :
  mem_ok mem ->
  wp (user_init mem config)
     (fun _ w' => driven ∅ w' /\ mu_bgb_clock_init (w_user w') = false) E w.
Proof.
  intros (Hs & Hu & Hp). destruct ct_new as (a & Hnew & Ha). unfold wp, user_init.
  erewrite bind_run by (apply store_run; lia). erewrite bind_run by (apply store_run; lia).
  erewrite bind_run by by apply socket_impl_init_run. rewrite Hnew. unfold put_user.
  split; [|done]. split; simpl.
  - split; simpl; [apply closed_table_ok; set_solver|by rewrite length_replicate|
      by apply number_ok_empty..].
  - unfold opened, closed_table; simpl. by rewrite fmap_replicate.
Qed.

(** The link's socket joins the descriptors the table must not touch. *)
Lemma driven_new_fd base sock w w' :
  driven base w -> new_fd_post w sock w' -> sock <> -1 -> driven ({[ sock ]} ∪ base) w'.
Proof.
  intros [[[Hl Hn Ho Hb] ? ? ?] ?] [[-> _]|(Hge & Hfree & [fl Hf] & Hu)] Hne; [done|].
  split; [|by rewrite Hu]. split; rewrite ?Hu; try done. split; [done|done| |].
  - intros s Hs. destruct (Ho s Hs) as (? & Hnb & fl' & Hfl & ?).
    assert (s <> sock) by congruence. split_and!; [done|set_solver|].
    exists fl'. rewrite Hf, lookup_insert_ne by done. done.
  - rewrite Hf, dom_insert_L. set_solver.
Qed.

(** C1: the whole program is safe: for any command line, any contents of the
    memory it does not initialise, any behaviour of the kernel and of the
    emulator, and any library that keeps its contract, [main] never aborts an
    assertion, never reads out of an array and never meets undefined
    behaviour: it exits from the command line, returns a status of 0 or 1, or
    is still running when the fuel ends. *)
Theorem main_safe fuel program_name args mem buf (w : world mobile_user)
    (Hmem : mem_ok mem) (Hbuf : length buf = MOBILE_RELAY_TOKEN_SIZE) :
  wp (main fuel program_name args mem buf)
     (fun code _ => code = EXIT_SUCCESS \/ code = EXIT_FAILURE) (fun s _ => main_stop s) w.
Proof.
  unfold main, parse_command_line. apply wp_bind, wp_bind.
  eapply wp_mono; [apply (pure_parse_options program_name (length args)); [done|by apply default_options_ok]| |].
  2: { intros s w' [[->| ->] _]; [by left|by right; left]. }
  intros [rest o] w1 [_ ->]. destruct (parse_host rest) as [host port]. apply wp_ret.
  apply wp_bind, wp_quiet; [unfold open_config; frame_tac|]. intros [config|] w2 Hw2;
    [|apply wp_ret; by right].
  apply wp_bind, wp_call. intros [v|e] k Hk.
  2: { apply wp_bind, wp_quiet; [frame_tac|]. intros. apply wp_bind, wp_quiet; [frame_tac|].
       intros. apply wp_ret. by right. }
  apply wp_bind. eapply wp_post; [by apply wp_user_init|]. intros _ w3' [Hd3' Hi3'].
  apply wp_bind. eapply wp_post; [by apply wp_configure|].
  intros _ w3 [Hd3 (_ & _ & _ & Hi3)]. apply wp_bind.
  eapply wp_post; [apply wp_socket_connect|]. intros sock w4 [Hnew _].
  destruct (Z.eqb_spec sock INVALID_SOCKET) as [|Hne].
  { do 2 (apply wp_bind, wp_quiet; [frame_tac|]; intros). apply wp_ret. by right. }
  eapply wp_mono; [apply (wp_session ({[ sock ]} ∪ ∅))| |].
  - by eapply driven_new_fd.
  - destruct Hnew as [[-> _]|(_ & _ & _ & ->)]; [done|]. congruence.
  - intros code w' [[-> _]|[-> _]]; [by right|by left].
  - intros s w' ->. by right; right.
Qed.
End Session.
