(* ===== verification/Progress.v ===== *)
(** * When the program ends

    Every function between two checks of the signal flag makes calls other
    than the check itself, so a fact about the kernel that those calls keep
    ([steady]) survives a turn of the main loop.  With it: a delivered SIGINT
    ends the main loop.  The loop that waits for the emulator's clock has no
    such check. *)

From S2P Require Import Prelude CInt CLib Sys Hoare SimKernel Socket BgbLink BgbLinkProofs.
From S2P Require Import Libmobile SocketImpl SocketImplProofs MobileUser MobileUserProofs Callbacks.
From S2P Require Import Options OptionsProofs MobileMain MobileMainProofs.
Import LinkSpec.

Definition is_sigint (c : syscall) : bool := match c with SysSigint => true | _ => false end.

(** ** Facts about the kernel that only the check of the flag changes *)

Section Steady.
Context `{K : Kernel}.
Variable J : kstate -> Prop.
Hypothesis HJ : forall c k, is_sigint c = false -> J k -> J (snd (kcall c k)).

Definition steady {V A} (m : M V A) : Prop := forall w,
  J (w_kern w) -> wp m (fun _ w' => J (w_kern w')) (fun _ w' => J (w_kern w')) w.

Lemma steady_ret {V A} (a : A) : steady (V := V) (ret a).
Proof. by intros w. Qed.
Lemma steady_halt {V A} s : steady (V := V) (A := A) (halt s).
Proof. by intros w. Qed.
Lemma steady_assert {V} b : steady (V := V) (c_assert b).
Proof. by destruct b; intros w. Qed.
Lemma steady_emit {V} e : steady (V := V) (emit e).
Proof. by intros w. Qed.
Lemma steady_get {V} : steady (V := V) get_user.
Proof. by intros w. Qed.
Lemma steady_put {V} (u : V) : steady (put_user u).
Proof. by intros w. Qed.
Lemma steady_geterror {V} : steady (V := V) socket_geterror.
Proof. by intros w. Qed.
Lemma steady_seterror {V} e : steady (V := V) (socket_seterror e).
Proof. by intros w. Qed.

Lemma steady_bind {V A B} (m : M V A) (f : A -> M V B) :
  steady m -> (forall a, steady (f a)) -> steady (bind m f).
Proof.
  intros Hm Hf w Hw. apply wp_bind. eapply wp_mono; [by apply Hm|simpl|by simpl].
  intros a w' Hw'. by apply Hf.
Qed.

Lemma steady_call {V} c : is_sigint c = false -> steady (V := V) (call c).
Proof.
  intros Hc w Hw. apply wp_call. intros r k Hk. simpl.
  pose proof (HJ c (w_kern w) Hc Hw) as Hj. by rewrite Hk in Hj.
Qed.
End Steady.

Create HintDb steady.
#[export] Hint Resolve steady_ret steady_halt steady_assert steady_emit steady_get steady_put
  steady_geterror steady_seterror : steady.

Ltac steady_tac :=
  repeat first
    [ progress intros
    | progress (cbn beta iota)
    | solve [eauto 3 with steady]
    | apply steady_bind
    | apply steady_call; [assumption|reflexivity]
    | match goal with |- steady _ (match ?x with _ => _ end) => destruct x end ].

(** ** The program's functions *)

Section SteadyCalls.
Context `{K : Kernel} `{Libc} `{Host} `{L : Libmobile}.
Variable J : kstate -> Prop.
Hypothesis HJ : forall c k, is_sigint c = false -> J k -> J (snd (kcall c k)).

Lemma steady_c_int {V} r : steady J (V := V) (c_int r).
Proof. unfold c_int. steady_tac. Qed.
Hint Resolve steady_c_int : steady.

Lemma steady_perror {V} f : steady J (V := V) (socket_perror f).
Proof. unfold socket_perror, eprint. steady_tac. Qed.
Hint Resolve steady_perror : steady.

Lemma steady_hasdata {V} s : steady J (V := V) (socket_hasdata s).
Proof. unfold socket_hasdata, c_poll. steady_tac. Qed.
Hint Resolve steady_hasdata : steady.

Lemma steady_wait {V} l d : steady J (V := V) (socket_wait l d).
Proof. unfold socket_wait, c_poll. steady_tac. Qed.

Lemma steady_close {V} s : steady J (V := V) (socket_close s).
Proof. unfold socket_close. steady_tac. Qed.
Hint Resolve steady_close : steady.

Lemma steady_setblocking {V} s b : steady J (V := V) (socket_setblocking s b).
Proof. unfold socket_setblocking, c_fcntl, perror, eprint. steady_tac. Qed.
Hint Resolve steady_setblocking : steady.

Lemma steady_straddr {V} n a : steady J (V := V) (socket_straddr n a).
Proof. unfold socket_straddr. steady_tac. Qed.
Hint Resolve steady_straddr : steady.

Lemma steady_open_slot {V} st conn : steady J (V := V) (open_slot st conn).
Proof. unfold open_slot, get_slot. steady_tac. Qed.
Hint Resolve steady_open_slot : steady.

Lemma steady_determinate {V} l : steady J (V := V) (determinate l).
Proof. unfold determinate. steady_tac. Qed.
Hint Resolve steady_determinate : steady.

Lemma steady_title : steady J update_title.
Proof. unfold update_title, title_append, number_text. steady_tac. Qed.
Hint Resolve steady_title : steady.

Lemma steady_dispatch c : steady J (dispatch c).
Proof.
  destruct c; simpl;
    unfold impl_debug_log, impl_config_read, impl_config_write, impl_time_latch, impl_time_check_ms,
      impl_sock_open, impl_sock_close, impl_sock_connect, impl_sock_listen, impl_sock_accept,
      impl_sock_send, impl_sock_recv, impl_update_number, socket_impl_open, socket_impl_close,
      socket_impl_connect, socket_impl_listen, socket_impl_accept, socket_impl_send,
      socket_impl_recv, get_slot, c_socket, c_setsockopt, c_bind, c_connect, c_listen, c_accept,
      c_sendto, c_recvfrom, c_getsockopt, eprint; steady_tac.
Qed.

Lemma steady_run_cb {R} (p : cbprog R) : steady J (run_cb p).
Proof.
  induction p as [r|c k IH]; simpl; [apply steady_ret|].
  apply steady_bind; [apply steady_dispatch|auto].
Qed.
Hint Resolve steady_run_cb : steady.

Lemma steady_lib_do f : steady J (lib_do f).
Proof. unfold lib_do. steady_tac. Qed.
Lemma steady_lib_call {R} (f : adapter -> cbprog (R * adapter)) : steady J (lib_call f).
Proof. unfold lib_call. steady_tac. Qed.
Hint Resolve steady_lib_do steady_lib_call : steady.

Lemma steady_handle_loop : steady J mobile_handle_loop.
Proof. unfold mobile_handle_loop. steady_tac. Qed.

Lemma steady_send {V} s q : steady J (V := V) (bgb_send s q).
Proof. unfold bgb_send, c_send. steady_tac. Qed.
Lemma steady_recv {V} s : steady J (V := V) (bgb_recv s).
Proof. unfold bgb_recv, c_recv, c_bytes. steady_tac. Qed.
Hint Resolve steady_send steady_recv : steady.

(** The link, when its callbacks are steady. *)
Definition steady_link {V} (st : bgb_state V) : Prop :=
  (forall cb c, callback_transfer st = Some cb -> steady J (cb c)) /\
  (forall cb t, callback_timestamp st = Some cb -> steady J (cb t)).

Lemma steady_clock {V} (st : bgb_state V) t : steady_link st -> steady J (spec_clock st t).
Proof.
  intros [_ Hc]. unfold spec_clock, eprint.
  destruct (callback_timestamp st) as [cb|] eqn:Hcb; [|apply steady_ret].
  apply steady_bind; [|steady_tac]. destruct (clock_report _ _); [by apply Hc|steady_tac].
Qed.

Lemma steady_loop {V} (st : bgb_state V) : steady_link st -> steady J (bgb_loop st).
Proof.
  intros Hl w Hw. unfold wp. rewrite bgb_loop_spec_loop. revert w Hw.
  change (steady J (spec_loop st)). unfold spec_loop.
  apply steady_bind; [steady_tac|]. intros has. destruct (_ <=? _); [apply steady_ret|].
  apply steady_bind; [steady_tac|]. intros [p|]; [|apply steady_ret].
  unfold spec_handle, spec_transfer, eprint. destruct (demand_of _ _) as [d|]; [|steady_tac].
  apply steady_bind; [destruct (d_reply d); steady_tac|]. intros ok.
  destruct ok; [cbn [negb]|apply steady_ret].
  assert (forall st1 : bgb_state V, steady_link st1 -> steady J
    (let* st2 := spec_clock st1 (default (timestamp_last st) (d_time d)) in ret (true, st2))) as Hk.
  { intros st1 Hl1. apply steady_bind; [by apply steady_clock|steady_tac]. }
  destruct (d_transfer d) as [c|]; [|intros w Hw; by apply Hk].
  destruct (callback_transfer st) as [cb|] eqn:Hcb; [|intros w Hw; by apply Hk].
  intros w Hw. unfold wp. rewrite bind_assoc_at. revert w Hw.
  apply (steady_bind J (cb c)); [by apply Hl|]. intros x w Hw. by apply (Hk (set_byte st x)).
Qed.

Lemma steady_link_ok `{!LibmobileContract L} base first st w : link_ok base first st w -> steady_link st.
Proof.
  intros [_ Ht Hc _ _]. split.
  - rewrite Ht. intros cb c [= <-]. unfold bgb_loop_transfer. steady_tac.
  - rewrite Hc. intros cb t [= <-].
    destruct first; simpl; unfold bgb_loop_timestamp_init, bgb_loop_timestamp, eprint; steady_tac.
Qed.
End SteadyCalls.

(** ** SIGINT ends the main loop *)

(** [sig_due n k]: SIGINT is delivered before the flag is checked for the
    [n + 1]st time from [k] on.  No other call postpones it. *)
Class Interrupts (K : Kernel) := {
  sig_due : nat -> kstate -> Prop;
  sig_now k : sig_due 0 k -> fst (kcall SysSigint k) = true;
  sig_later n k : sig_due (S n) k ->
    fst (kcall SysSigint k) = true \/ sig_due n (snd (kcall SysSigint k));
  sig_frame c n k : is_sigint c = false -> sig_due n k -> sig_due n (snd (kcall c k))
}.

Section Interrupted.
Context `{K : Kernel} `{!KernelLaws K} `{Libc} `{Host} `{L : Libmobile} `{!LibmobileLaws L}.
Context `{C : !LibmobileContract L} `{!Interrupts K}.

(** A computation that keeps an invariant, with SIGINT still due. *)
Lemma wp_due {V A} n (m : M V A) Q w :
  wp m Q (fun _ _ => False) w -> steady (sig_due n) m -> sig_due n (w_kern w) ->
  wp m (fun a w' => Q a w' /\ sig_due n (w_kern w')) (fun _ _ => False) w.
Proof.
  intros Hm Hs Hw. eapply wp_mono; [eapply wp_both; [exact Hm|by apply Hs]|auto|].
  by intros s w' [? ?].
Qed.

Lemma wp_main_loop_ends base n fuel sock st (w : world mobile_user) :
  (n < fuel)%nat -> link_ok base false st w -> sig_due n (w_kern w) ->
  wp (main_loop fuel sock st) (fun st' w' => link_ok base false st' w') (fun _ _ => False) w.
Proof.
  revert n st w. induction fuel as [|fuel IH]; intros n st w Hn Hok Hdue; [lia|]. simpl.
  assert (forall n c k, is_sigint c = false -> sig_due n k -> sig_due n (snd (kcall c k))) as HJ
    by (intros; by apply sig_frame).
  apply wp_bind. unfold wp, call.
  pose proof (law_frame SysSigint (w_kern w) eq_refl) as Hf.
  pose proof (sig_now (w_kern w)) as Hnow. pose proof (sig_later (pred n) (w_kern w)) as Hlater.
  destruct (kcall SysSigint (w_kern w)) as [trig k] eqn:Hk. simpl in Hf, Hnow, Hlater.
  set (w1 := World k _ _ _).
  assert (link_ok base false st w1) as Hok1 by (eapply link_ok_same; [done|by split]).
  destruct trig; [done|].
  destruct n as [|n]; [by specialize (Hnow Hdue)|].
  destruct (Hlater Hdue) as [|Hdue1]; [done|]. cbn [pred] in Hdue1.
  change (wp (let* '(ok, st) := bgb_loop st in if negb ok then ret st else
    let* ok := mobile_handle_loop in if negb ok then ret st else
    let* mobile := get_user in
    let* socks := polled_sockets sock mobile in
    let* _ := socket_wait socks 100 in main_loop fuel sock st)
    (fun st' w' => link_ok base false st' w') (fun _ _ => False) w1).
  apply wp_bind. eapply wp_post.
  { apply (wp_due n); [by apply wp_link_loop| |done].
    apply steady_loop; [apply HJ|]. eapply steady_link_ok; [apply HJ|done]. }
  intros [ok st'] w2 [[Hok2 _] Hdue2]. destruct ok; [|by apply wp_ret]. cbn [negb].
  destruct Hok2 as [Hd2 Ht2 Hc2 [Hi2 Hl2] Hp2]. apply wp_bind. eapply wp_post.
  { apply (wp_due n); [by apply wp_mobile_handle_loop| |done]. apply steady_handle_loop, HJ. }
  intros b w3 [(-> & Hd3 & _ & _ & Hk1 & Hk2) Hdue3]. cbn [negb].
  assert (link_ok base false st' w3) as Hok3.
  { split; try done. split; [congruence|]. intros. rewrite Hk1. auto. }
  apply wp_bind, wp_get_user, wp_bind. unfold wp at 1.
  rewrite polled_sockets_run by apply (tk_length _ _ _ (uk_table _ _ (proj1 Hd3))).
  apply wp_bind. eapply wp_post.
  { apply (wp_due n); [apply quiet_socket_wait| |done]. apply steady_wait, HJ. }
  intros x w4 [Hw4 Hdue4]. apply (IH n); [lia| |done]. by eapply link_ok_same.
Qed.

(** C5: CTRL+C ends the main loop: when SIGINT arrives before the flag is
    checked for the [n + 1]st time, the loop returns within [n + 1]
    iterations, whatever the emulator, the kernel and the library do, with all
    invariants in place. *)
Theorem main_loop_interrupted base n sock st (w : world mobile_user)
    (Hok : link_ok base false st w) (Hdue : sig_due n (w_kern w)) :
  wp (main_loop (S n) sock st) (fun st' w' => driven base w')
     (fun _ _ => False) w.
Proof.
  eapply wp_post; [eapply (wp_main_loop_ends base n); [lia|done|done]|]. by intros st' w' [].
Qed.
End Interrupted.

(** ** What the main loop waits on *)

(** C32: the main loop waits on the link's socket and then on every open
    connection of the library, in the order of their numbers and no other: the
    loop that collects them reads every slot of the table and never stores
    outside the array of [1 + MOBILE_MAX_CONNECTIONS], also when every
    connection is open. *)
Theorem polled_sockets_ok `{K : Kernel} `{L : Libmobile} sock (m : mobile_user) (w : world mobile_user)
    (Hlen : length (sockets (mu_socket m)) = MOBILE_MAX_CONNECTIONS) :
  polled_sockets sock m w = (Ret (sock :: open_fds (mu_socket m)), w).
Proof. by apply polled_sockets_run. Qed.

(** ** The wait for the emulator's clock *)

Section Waiting.
Context `{K : Kernel} `{Libc} `{Host} `{L : Libmobile}.

Lemma bgb_loop_silent (st : bgb_state mobile_user) k (w : world mobile_user) :
  kcall (SysPoll [PollFd (socket st) (Z.lor POLLIN POLLPRI)] 0) (w_kern w) = (inl 0, k) ->
  bgb_loop st w = (Ret (true, st), World k (w_errno w)
    (EvCall (SysPoll [PollFd (socket st) (Z.lor POLLIN POLLPRI)] 0) (inl 0) :: w_trace w) (w_user w)).
Proof.
  intros Hp. unfold bgb_loop, socket_hasdata, c_poll, bind, call. rewrite Hp. done.
Qed.

(** C35: while the program waits for the first packet it does not look at the
    signal flag: on a link where nothing arrives the wait goes on for ever,
    through any number of iterations, and none of them asks whether SIGINT was
    delivered. *)
Theorem wait_clock_deaf (silent : kstate -> Prop) st fuel (w : world mobile_user)
    (Hsilent : forall k, silent k -> exists k', silent k' /\
       kcall (SysPoll [PollFd (socket st) (Z.lor POLLIN POLLPRI)] 0) k = (inl 0, k'))
    (Hw : silent (w_kern w)) (Hinit : mu_bgb_clock_init (w_user w) = false) :
  exists w' ev, wait_clock fuel st w = (Stop StFuel, w') /\ w_trace w' = ev ++ w_trace w /\
    length ev = fuel /\ Forall (fun e => forall b, e <> EvCall SysSigint b) ev.
Proof.
  revert w Hw Hinit. induction fuel as [|fuel IH]; intros w Hw Hinit; simpl.
  { exists w, []. done. }
  destruct (Hsilent _ Hw) as (k' & Hk' & Hp). unfold bind at 1, get_user. rewrite Hinit.
  unfold bind. rewrite (bgb_loop_silent st k' w Hp). cbn [negb].
  edestruct (IH (World k' (w_errno w)
    (EvCall (SysPoll [PollFd (socket st) (Z.lor POLLIN POLLPRI)] 0) (inl 0) :: w_trace w) (w_user w)))
    as (w' & ev & Hrun & Htr & Hlen & Hev); [done|done|].
  exists w', (ev ++ [EvCall (SysPoll [PollFd (socket st) (Z.lor POLLIN POLLPRI)] 0) (inl 0)]).
  split_and!; [done| | |].
  - rewrite Htr. simpl. by rewrite <- app_assoc.
  - rewrite length_app. simpl. lia.
  - apply Forall_app. split; [done|]. constructor; [done|constructor].
Qed.

(** A packet arrives that carries no time and asks for nothing. *)
Definition timeless (p : bgb_packet) : Prop :=
  cmd p ∈ [BGB_CMD_JOYPAD; BGB_CMD_SYNC2; BGB_CMD_STATUS; BGB_CMD_WANTDISCONNECT].

Lemma timeless_demand out p : timeless p -> demand_of out p = Some (Demand None None None).
Proof.
  intros Hp. unfold demand_of.
  rewrite (bool_decide_eq_true_2 (cmd p ∈ _)) by done. unfold timeless in Hp.
  rewrite !elem_of_cons, elem_of_nil in Hp.
  destruct Hp as [-> | [-> | [-> | [-> | []]]]]; done.
Qed.

Lemma bgb_recv_run {V} sock bs k (w : world V) :
  kcall (SysRecv sock sizeof_bgb_packet) (w_kern w) = (inl bs, k) -> length bs = 8%nat ->
  exists tr, bgb_recv sock w =
    (Ret (Some (packet_of_bytes bs)), World k (w_errno w) tr (w_user w)).
Proof.
  intros Hr Hl. eexists. unfold bgb_recv, c_recv, bind, call. rewrite Hr. simpl. by rewrite Hl.
Qed.

(** A packet of eight bytes [bs] is there when the link polls its socket. *)
Definition delivers (sock : Z) (bs : list Z) (k k' : kstate) : Prop :=
  length bs = 8%nat /\ exists n k1, 0 < n /\
    kcall (SysPoll [PollFd sock (Z.lor POLLIN POLLPRI)] 0) k = (inl n, k1) /\
    kcall (SysRecv sock sizeof_bgb_packet) k1 = (inl bs, k').

Lemma bgb_loop_delivered (st : bgb_state mobile_user) bs (w : world mobile_user) k :
  delivers (socket st) bs (w_kern w) k ->
  exists tr, bgb_loop st w =
    spec_handle st (packet_of_bytes bs) (World k (w_errno w) tr (w_user w)).
Proof.
  intros (Hlen & n & k1 & Hn & Hpoll & Hrecv).
  destruct (socket_hasdata_run (socket st) n k1 w Hpoll) as [tr1 Hrun1]; [lia|].
  destruct (bgb_recv_run (socket st) bs k (World k1 (w_errno w) tr1 (w_user w)) Hrecv Hlen)
    as [tr2 Hrun2].
  exists tr2. rewrite bgb_loop_spec_loop. unfold spec_loop.
  erewrite bind_run by exact Hrun1. rewrite (proj2 (Z.leb_gt n 0)) by lia.
  by erewrite bind_run by exact Hrun2.
Qed.

Lemma bgb_send_run {V} sock q k (w : world V) :
  kcall (SysSend sock (packet_bytes q)) (w_kern w) = (inl 8, k) ->
  exists tr, bgb_send sock q w = (Ret true, World k (w_errno w) tr (w_user w)).
Proof. intros Hs. eexists. unfold bgb_send, c_send, bind, call. by rewrite Hs. Qed.

(** From a clock at 0 the link reports a time unless it takes it for jitter. *)
Lemma report_from_zero t :
  clock_report (Some 0) t = if decide (2 ^ 31 - 256 <= t mod 2 ^ 31 \/ t = 0) then None else Some t.
Proof.
  unfold clock_report. apply decide_ext. unfold behind. rewrite Z.sub_0_l.
  pose proof (Z.mod_pos_bound t (2 ^ 31) eq_refl).
  destruct (Z.eq_dec (t mod 2 ^ 31) 0).
  - rewrite Z.mod_opp_l_z by lia. lia.
  - rewrite Z.mod_opp_l_nz by lia. split; [lia|]. intros [?| ->]; [lia|done].
Qed.

(** The link's clock stands at 0, and so does the adapter's: what the next
    synchronisation packet does. *)
Lemma sync_from_zero (st : bgb_state mobile_user) bs k1 k2 (w : world mobile_user) :
  callback_timestamp st = Some bgb_loop_timestamp -> timestamp_init st = true ->
  timestamp_last st = 0 -> mu_bgb_clock (w_user w) = 0 ->
  delivers (socket st) bs (w_kern w) k1 ->
  cmd (packet_of_bytes bs) = BGB_CMD_SYNC3 -> b2 (packet_of_bytes bs) = 0 ->
  kcall (SysSend (socket st) (packet_bytes (packet_of_bytes bs))) k1 = (inl 8, k2) ->
  exists st' w', bgb_loop st w = (Ret (true, st'), w') /\
    mu_reset (w_user w') = (mu_reset (w_user w) ||
      bool_decide (0x1000 < timestamp (packet_of_bytes bs) mod 2 ^ 31 < 2 ^ 31 - 256))%bool.
Proof.
  intros Hcb Hi Hl Hz Hd Hcmd Hb2 Hsend. destruct (bgb_loop_delivered st bs w k1 Hd) as [tr ->].
  set (p := packet_of_bytes bs) in *. unfold spec_handle, demand_of. rewrite Hcmd, Hb2. simpl.
  unfold spec_transfer. simpl.
  destruct (bgb_send_run (socket st) p k2 (World k1 (w_errno w) tr (w_user w)) Hsend) as [tr2 Hrun].
  erewrite bind_run by exact Hrun. simpl. unfold spec_clock at 1.
  unfold bind at 1, ret at 1. rewrite Hcb. unfold clock_of. rewrite Hi, Hl, report_from_zero.
  set (w1 := World k2 _ _ _). set (t := timestamp p).
  destruct (decide (_ \/ _)) as [Hr|Hr].
  - rewrite bool_decide_eq_false_2, orb_false_r.
    + destruct (decide (behind 0 t)); by eexists _, _.
    + destruct Hr as [| ->]; [lia|]. rewrite Z.mod_0_l; lia.
  - destruct (bgb_loop_timestamp_run t w1) as [tr3 Hrun3].
    eexists _, _. split; [unfold bind; rewrite Hrun3; reflexivity|]. simpl. rewrite Hz. f_equal.
    unfold clock_jump. apply bool_decide_ext. rewrite Z.sub_0_r. lia.
Qed.

(** C36: any first packet starts the clock, even one that carries no time: after
    a joypad, status or disconnect packet the wait is over with the clock at
    0.  The first real time [t] then counts as a jump from 0: when it comes
    with a synchronisation packet that the link answers, the adapter is reset
    exactly when [t], modulo 2^31, is more than 4096 and not within 256 ticks
    below 2^31, which the link takes for jitter. *)
Theorem first_packet_sets_zero sock byte0 cbt (w : world mobile_user) bs1 k1
    (Hfirst : delivers sock bs1 (w_kern w) k1) (Hbs : timeless (packet_of_bytes bs1)) :
  let st := BgbState sock byte0 cbt (Some bgb_loop_timestamp_init) 0 false in
  exists st' w', bgb_loop st w = (Ret (true, st'), w') /\
    mu_bgb_clock (w_user w') = 0 /\ mu_bgb_clock_init (w_user w') = true /\
    forall (w2 : world mobile_user) bs2 k2 k3,
      mu_bgb_clock (w_user w2) = 0 -> delivers sock bs2 (w_kern w2) k2 ->
      let p := packet_of_bytes bs2 in
      cmd p = BGB_CMD_SYNC3 -> b2 p = 0 ->
      kcall (SysSend sock (packet_bytes p)) k2 = (inl 8, k3) ->
      exists st2 w3,
        bgb_loop (set_callback_timestamp st' (Some bgb_loop_timestamp)) w2 = (Ret (true, st2), w3) /\
        mu_reset (w_user w3) = (mu_reset (w_user w2) ||
          bool_decide (0x1000 < timestamp p mod 2 ^ 31 < 2 ^ 31 - 256))%bool.
Proof.
  intros st. destruct (bgb_loop_delivered st bs1 w k1 Hfirst) as [tr ->].
  unfold spec_handle. rewrite timeless_demand by done.
  eexists _, _. split; [reflexivity|]. split; [done|]. split; [done|].
  intros w2 bs2 k2 k3 Hz Hd Hcmd Hb2 Hsend. by eapply sync_from_zero.
Qed.
End Waiting.

(** ** Concrete runs *)

Section Examples.
Import SimInstances ToyInstances ToyContract.

Lemma pad_config_ok_witness :
  f_data (pad_config (MkFile [1; 2; 3] 0 4096)) = [1; 2; 3] ++ replicate 13 0.
Proof.
  refine (proj1 (pad_config_ok (MkFile [1; 2; 3] 0 4096) _)). simpl. lia.
Defined.

(** The simulated kernel delivers SIGINT as its script says. *)
Definition sim_due (n : nat) (s : sim) : Prop := exists m, sim_sigint s = Some m /\ (m <= n)%nat.

Lemma plan_sigint {A} (s : sim) (ok : sim -> (A + Z) * sim) :
  (forall s, sim_sigint (snd (ok s)) = sim_sigint s) ->
  sim_sigint (snd (plan s ok)) = sim_sigint s.
Proof.
  intros Hok. unfold plan, pop_plan. destruct (sim_plan s) as [|e p]; simpl; [apply Hok|].
  destruct (e =? 0); [|done]. by rewrite Hok.
Qed.

Lemma pop_rx_sigint peek n s : sim_sigint (snd (pop_rx peek n s)) = sim_sigint s.
Proof. unfold pop_rx. by destruct (sim_rx s), peek. Qed.

Lemma sim_call_sigint c s : is_sigint c = false -> sim_sigint (snd (sim_call c s)) = sim_sigint s.
Proof.
  destruct c; intros Hc; try discriminate Hc; simpl; rewrite plan_sigint; try done; intros s'.
  - pose proof (pop_rx_sigint false size s') as Hp. by destruct (pop_rx false size s').
  - pose proof (pop_rx_sigint (flags =? MSG_PEEK) size s') as Hp.
    by destruct (pop_rx (flags =? MSG_PEEK) size s').
  - destruct (sim_fds s' !! fd); [|done]. by destruct (cmd =? F_SETFL).
  - unfold sim_fopen. by destruct (sim_file s'), (String.eqb mode "w+b").
Qed.

#[local] Instance sim_interrupts : Interrupts sim_kernel.
Proof.
  apply (Build_Interrupts sim_kernel sim_due).
  - intros k (m & Hm & Hle). simpl. unfold sim_sigint_step. rewrite Hm.
    destruct m; [done|lia].
  - intros n k (m & Hm & Hle). simpl. unfold sim_sigint_step. rewrite Hm.
    destruct m as [|m]; [by left|]. right. exists m. split; [done|lia].
  - intros c n k Hc (m & Hm & Hle). exists m. simpl. by rewrite sim_call_sigint.
Defined.

(** The link of a running session on the simulated kernel. *)
Definition running_link : bgb_state mobile_user :=
  BgbState 3 0xD2 (Some bgb_loop_transfer) (Some bgb_loop_timestamp) 100 true.

Definition running_world (sig : option nat) : world mobile_user :=
  sim_world (set_sigint (set_fds sim_init {[ 3 := 2 ]}) sig) (set_adapter toy_user 1).

Lemma running_ok sig : link_ok {[ 3 ]} false running_link (running_world sig).
Proof.
  split; [|done|done|done|by right]. split; [|done].
  eapply (user_ok_same _ (idle_world 1 false)); [apply idle_ok|]. by destruct sig.
Qed.

Lemma main_loop_in_sync_witness :
  wp (main_loop 3 3 running_link)
     (fun st' w' => driven {[ 3 ]} w' /\ timestamp_init st' = true /\
        mu_bgb_clock_init (w_user w') = true /\ mu_bgb_clock (w_user w') = timestamp_last st')
     (fun s _ => s = StFuel) (running_world (Some 1%nat)).
Proof. exact (main_loop_in_sync {[ 3 ]} 3 3 running_link _ (running_ok _)). Defined.

Lemma main_loop_interrupted_witness :
  wp (main_loop 3 3 running_link) (fun _ w' => driven {[ 3 ]} w') (fun _ _ => False)
     (running_world (Some 2%nat)).
Proof.
  apply (main_loop_interrupted {[ 3 ]} 2 3 running_link _ (running_ok _)).
  exists 2%nat. split; [done|lia].
Defined.

(** The same descriptors before the emulator's clock is known. *)
Definition fresh_world (s : sim) : world mobile_user :=
  sim_world (set_fds s {[ 3 := 2 ]}) (set_clock (set_adapter toy_user 1) 0 false).

Lemma session_closes_witness :
  driven {[ 3 ]} (fresh_world (set_plan sim_init [0; 0; 0])) /\
  wp (session 3 3)
     (fun code w' => (code = EXIT_FAILURE /\ (3 ∈ dom (fds w'))) \/
        (code = EXIT_SUCCESS /\ (3 ∉ dom (fds w')) /\
         forall s, s ∈ open_fds (mu_socket (w_user w')) -> s ∉ dom (fds w')))
     (fun s _ => s = StFuel) (fresh_world (set_plan sim_init [0; 0; 0])).
Proof.
  assert (driven {[ 3 ]} (fresh_world (set_plan sim_init [0; 0; 0]))) as Hd.
  { apply (driven_set_clock {[ 3 ]} (idle_world 1 false) 0 false); [|done].
    split; [apply idle_ok|done]. }
  split; [exact Hd|]. apply (session_closes {[ 3 ]} 3 3); [exact Hd|reflexivity|set_solver].
Defined.

Lemma main_safe_witness :
  wp (main 5 "mobile" ["--unmetered"]%string toy_user [0; 0; 0; 0])
     (fun code _ => code = EXIT_SUCCESS \/ code = EXIT_FAILURE) (fun s _ => main_stop s)
     (sim_world sim_init toy_user).
Proof. by apply (main_safe 5 "mobile" ["--unmetered"%string] toy_user [0; 0; 0; 0]). Defined.

(** Every connection of the library open: the array is full. *)
Lemma polled_sockets_ok_witness :
  polled_sockets 3 (set_socket toy_user (SocketImplState [4; 5])) (idle_world 1 false) =
    (Ret [3; 4; 5], idle_world 1 false).
Proof.
  exact (polled_sockets_ok 3 (set_socket toy_user (SocketImplState [4; 5])) (idle_world 1 false) eq_refl).
Defined.

(** SIGINT is pending from the start, and the wait does not see it. *)
Lemma wait_clock_deaf_witness : exists w' ev,
  wait_clock 50 running_link (sim_world (set_sigint sim_init (Some 0%nat))
      (set_clock toy_user 0 false)) = (Stop StFuel, w') /\
  w_trace w' = ev ++ [] /\ length ev = 50%nat /\
  Forall (fun e => forall b, e <> EvCall SysSigint b) ev.
Proof.
  apply (wait_clock_deaf (K := sim_kernel) (fun s : sim => sim_rx s = [] /\ sim_plan s = []) running_link 50
    (sim_world (set_sigint sim_init (Some 0%nat)) (set_clock toy_user 0 false))); [|done|done].
  intros k [Hrx Hplan]. exists k. split; [done|]. simpl. unfold plan, pop_plan.
  rewrite Hplan. simpl. by rewrite Hrx.
Defined.

(** The emulator's first packet is a joypad packet; its first time is 2^20. *)
Lemma first_packet_sets_zero_witness :
  let st := BgbState 3 0xD2 (Some bgb_loop_transfer) (Some bgb_loop_timestamp_init) 0 false in
  let s1 := set_rx sim_init [[101; 0; 0; 0; 0; 0; 32; 0]] in
  let s2 := set_rx sim_init [[106; 0; 0; 0; 0; 0; 16; 0]] in
  exists st' w' st2 w3,
    bgb_loop st (sim_world s1 (set_clock toy_user 0 false)) = (Ret (true, st'), w') /\
    mu_bgb_clock (w_user w') = 0 /\ mu_bgb_clock_init (w_user w') = true /\
    bgb_loop (set_callback_timestamp st' (Some bgb_loop_timestamp))
      (sim_world s2 (w_user w')) = (Ret (true, st2), w3) /\
    mu_reset (w_user w3) = true.
Proof.
  intros st s1 s2.
  destruct (first_packet_sets_zero 3 0xD2 (Some bgb_loop_transfer)
    (sim_world s1 (set_clock toy_user 0 false)) [101; 0; 0; 0; 0; 0; 32; 0] sim_init)
    as (st' & w' & Hrun & Hz & Hi & Hnext).
  - split; [reflexivity|]. exists 1, s1. split_and!; [lia|reflexivity|reflexivity].
  - unfold timeless. simpl. set_solver.
  - destruct (Hnext (sim_world s2 (w_user w')) [106; 0; 0; 0; 0; 0; 16; 0] sim_init sim_init)
      as (st2 & w3 & Hrun2 & Hreset); [exact Hz| |reflexivity|reflexivity|reflexivity|].
    { split; [reflexivity|]. exists 1, s2. split_and!; [lia|reflexivity|reflexivity]. }
    exists st', w', st2, w3. split_and!; [exact Hrun|exact Hz|exact Hi|exact Hrun2|].
    rewrite Hreset. apply orb_true_intro. right. vm_compute. reflexivity.
Defined.

(** A complete session: the emulator accepts the handshake, sends its time and
    a byte, and the user interrupts the program.  It returns 0 with every
    descriptor closed; the adapter's connection was opened in between. *)
Definition session_sim : sim :=
  Sim ∅ [] [[1; 1; 4; 0; 0; 0; 0; 0]; [108; 1; 0; 0; 0; 0; 0; 0];
            [106; 0; 0; 0; 0; 16; 0; 0]; [104; 0x99; 0x81; 0; 64; 16; 0; 0]] None SOCK_STREAM
    [AddrInfo AF_INET SOCK_STREAM IPPROTO_TCP (SockIn 0 [127; 0; 0; 1]) sizeof_sockaddr_in]
    None (Some 3%nat).

Definition sent_to_emulator (ev : list (@event sim_kernel)) : list (list Z) :=
  reverse (omap (fun e => match e with EvCall (SysSend 3 bs) _ => Some bs | _ => None end) ev).

Example complete_session :
  match main 20 "mobile" []%string toy_user [0; 0; 0; 0] (sim_world session_sim toy_user) with
  | (Ret code, World k _ ev u) =>
    (code, map_to_list (sim_fds k), mu_bgb_clock u, sent_to_emulator ev)
  | _ => (-1, [], 0, [])
  end =
  (0, [], 4160, [[1; 1; 4; 0; 0; 0; 0; 0]; [108; 7; 0; 0; 0; 0; 0; 0]; [108; 5; 0; 0; 0; 0; 0; 0];
                 [106; 0; 0; 0; 0; 16; 0; 0]; [105; 0xD2; 0x80; 0; 0; 0; 0; 0]]).
Proof. vm_compute. reflexivity. Qed.
End Examples.
